(* ===== verification/_CoqProject ===== *)
-Q . S2P
Prelude.v
Rounding.v
External.v
SignedLink.v
Concrete.v
Money.v
Ids.v
Domain.v
InvoiceFsm.v
Cadence.v
Tax.v
CreditNoteFsm.v
Events.v
Store.v
Codec.v
ConcreteJson.v
Wire.v
Rows.v
Render.v
Command.v
Effects.v
Transition.v
Invariant.v
Evolution.v
Written.v
World.v
Numbering.v
TextOrder.v
Fixtures.v
Blob.v
Outbox.v
Draft.v
Pay.v
Void.v
Issue.v
Send.v
Credit.v
Consumer.v
View.v
Overdue.v
Reminders.v
Schedules.v
Transactions.v
Payloads.v
System.v
Poison.v
Ops.v
Adapter.v
Api.v
Mcp.v
McpCall.v
Cli.v
CliRun.v
Http.v
Parity.v
Sql.v
Interleave.v
Relaying.v
Deliveries.v
BusLog.v
Ws.v
Publishers.v
Server.v
Startup.v
