(* ===== verification/Prelude.v ===== *)
(** * Verification library of [inv], the invoicing engine

    [inv] (crates/ of the repository) is a billing engine: a domain core, a
    SQL store, a layer of commands, and adapters (command line, HTTP, WebSocket,
    MCP, message bus) that translate requests into commands. This library models
    the core, the store, the commands, the adapters and the server process that
    runs them together. File names below are relative to src/crates/.

    ** Foundations

    - Prelude (this file): Rust results with a third outcome for panics,
      number printing, list and string lemmas, the hint database [inv].
    - Rounding: round-half-even on the rationals.
    - External: the libraries the code calls (rust_decimal, chrono, typeid) as
      a class of operations [Platform] and a class [PlatformLaws] of the
      documented facts the proofs use; SignedLink has the class [Crypto] of
      SHA-256 and base64, Codec the class [Serde] of serde_json's texts, Render
      the class [Tera], Cli the class [Kit] of the output renderer, Sql the class
      [SqlxAny] of connection pools, Startup the class [Toml], Http the class
      [Axum] of what a request's parts decode to. Concrete,
      ConcreteJson and Fixtures instantiate them, with proofs of the laws, so
      no hypothesis of this library is vacuous; every witness runs there.
    - Fixtures: a small database and clock the witnesses run on.

    ** Core (core/src)

    - Money (domain/money.rs), Ids (domain/ids.rs), Domain (every other file
      of domain/), Cadence (domain/schedule.rs: [advance], the grammar).
    - InvoiceFsm (state/transitions.rs, machine.rs, adapter_statig.rs): the
      table [next_state] against an inductive lifecycle relation, and the
      two implementations of the [StateMachine] trait as class instances that
      answer alike. The statig library is the class [Statig].
    - CreditNoteFsm (state/creditnote.rs), Events (state/events.rs): the same
      for credit notes, and the payloads published on a transition.
    - Tax (tax/): classification of the buyer, selection of the rate rows,
      nexus, and the resolver; [charged_rows] says which rows count,
      [resolves] what the answer is.
    - Render (render/): template selection; the choice of the PDF engine, the
      stub in the default build.

    ** Store (store/src)

    - Store: ten tables, keyed ones as finite maps and the two append-only
      histories as lists, one function per SQL statement, with the UNIQUE
      and FOREIGN KEY constraints of migrations/sqlite as errors.
    - Codec, Rows (repo/): how a record is bound to columns and read back.
    - Sql (pool.rs, sql.rs, migrate.rs): backends, and for each statement its
      text and the values bound to it; [reads] is what a database takes for
      the parameters of a text, before and after the placeholders are numbered.
    - Blob (blob/): blob references, the [BlobStore] trait as a class, the
      local store over a file system whose calls may fail, and the S3 stub. A
      map from path names to bytes is its specification, [blob_step].

    ** Commands (commands/src)

    - Command: [CoreCtx], [CoreError], and the monad [prog] of interactions
      (database statement or transaction, clock, fresh id, publish, file
      write, sink, blob). [run] executes a program in an environment [Env]
      that answers each interaction (any of them may fail); [crash_run] stops
      after n interactions. [wpc] is the weakest precondition the proofs use:
      it covers the end of the run and every point it can be killed at.
      Effects adds programs with an error type of their own.
    - Transition, Invariant, Evolution, Written, World: what the transition commands
      share; the database invariant [db_ok] (uniqueness, references, and for
      each invoice an audit trail that is a path of legal transitions ending
      in its state); the relation [evolves] (nothing issued is rewritten);
      [world_ok], which adds that ids are never reused; and in Written what a
      transaction leaves in the tables, row by row, for the specifications of the
      commands. TextOrder: the texts that queries compare are ordered as the
      dates and times they print, for four-digit years.
    - Draft, Issue with Numbering, Pay, Void, Send, Credit, Overdue,
      Reminders, Schedules: one file per command module. Each has its
      outcome on every branch, that it keeps [world_ok] and only [evolves] the
      database wherever it stops ([_safe], [_since]), and that it is one
      transaction ([_atomic]).
    - Transactions: the few kinds of transactions the commands commit, as a
      class of the relations that admit them, and that every command keeps such a
      relation at each interaction ([moves_by]).

    ** Adapters (bus/src, api/src, ws/src, mcp/src, cli/src)

    - Outbox, Consumer (bus/): the relay of history rows to the bus, and the
      inbox that turns bus events into commands. Payloads, BusLog: the structs
      of bus/src/events.rs and what the commands publish against them.
      Publishers: the [Publisher] trait as a class, its implementations, and the
      loop by which a subscriber receives.
    - SignedLink, View (api/): tokens, HMAC signatures and the public view.
    - Wire: the JSON every adapter answers. Adapter: what it means that a
      request is one command or nothing ([asks]).
    - Api with Http, Ops with Ws, Mcp with McpCall, Cli with CliRun: the HTTP
      handlers, and the way of a raw request to them (router, extractors, bearer
      check); the WebSocket operations and connections with their subscriptions;
      the MCP tools and resources, and the requests that name them; the
      subcommands of the command line.
    - Parity: the requests that HTTP, WebSocket and MCP share, and that one JSON
      document is one command over all three.
    - Startup (cli/src/config.rs, ctx.rs, lib.rs, core/src/tax/table.rs): from the
      arguments, variables and files to the context, and a whole run of [inv],
      which ends or goes on as the server.

    ** The whole

    - System: one inductive list of the commands, [perform], and [reaches]:
      any sequence of them, each complete or killed anywhere. Poison: what one
      bad schedule does to all the ticks after it.
    - Interleave: commands as tasks of one pool that take turns at their
      interactions ([pool_step]), the constraints of the schema [schema_ok], and
      [moves], the programs that keep them at each interaction. Relaying: a pass
      of the relay while others change the store ([beside]).
    - Deliveries: bus events delivered at the same time as each other and as
      commands; the trace of a pool says which task changed what.
    - Server (cli/src/commands/server.rs): the process: requests, the relay
      and the three tickers as tasks, with its own log of relayed events, and
      beside it the commands that other processes run on the same store.

    ** What the theorems show

    - Over every history of commands, complete or killed, one after the
      other: the data invariant, the immutability of issued invoices,
      atomicity (System).
    - Over every interleaving of commands, requests and loops: the schema's
      constraints hold and no row is lost (but invoice lines, of which nothing is
      claimed), the relay only logs what it publishes (Server); a bus event is processed at
      most once (Deliveries). More does not hold: two payments at once can lose
      one (Interleave).
    - Per command: the exact outcome of every branch, exactness of amounts
      (totals are sums of rounded lines, no drift, a bounded rounding error),
      idempotent retries, numbering, refusals.
    - Per adapter: a request is one command or nothing, answers as the
      command did and leaves the books consistent even when killed; the same
      request is the same command over each; who may call; subscribers get the matching events, in order; the relay is at
      least once; signed links cannot be forged; what is published has the type
      of its topic; the local blob store stays under its root and is a map.
    - Pure code: the lifecycle table, the equivalence of both machines,
      the tax answer, the cadence grammar and the next occurrence, topic
      patterns, rows read back as they were written, statements that mean the
      same on every backend.
    - Some theorems exhibit defects: the first second of a year, the
      interrupted auto-issue run, the schedule that stops every tick, the lost
      payment, the loop with a zero interval, the relay no subscriber hears, the
      count that PostgreSQL refuses.

    ** Bounds

    Machine integers are [Z] with their wrap-around written out where the
    source computes with them. Dates use chrono's range (years up to 262142).
    [carry_months] has fuel 2: [month + 3] is at most 15. A subscriber's loop has
    fuel 2: a receiver lags once ([subscriber_recv_two]). [prog] is a finite
    tree, so every command terminates by construction; loops over query
    results are folds over finite lists. The server's loops never end; they
    are states of its step relation.

    ** Not modelled

    The text of TOML files (a library), connections and the SQL of the
    migrations, other than the constraints it declares; the frameworks around
    the adapters (axum, rmcp, clap, tower), process signals and timers; tracing.
    At start-up, files and variables are what [Os] says of them; later the file
    system is the world's map of files: a write that fails may leave the first
    bytes of what was to be written or nothing, and there are no links. A transaction is one interaction: the isolation of the database is assumed. *)

From Stdlib Require Export QArith ssreflect Ascii.
From stdpp Require Export base tactics option list list_numbers numbers strings gmap sorting.
From Stdlib Require DecimalString DecimalN DecimalFacts Qabs.
From Stdlib Require Import Lqa.

#[global] Open Scope Z_scope.

(** ** Results

    A Rust [Result<A, E>] plus the panic that the code can also end in
    (arithmetic overflow of [rust_decimal], [expect] on a [None]). *)

Inductive res (E A : Type) : Type :=
  | Ok (a : A)
  | Err (e : E)
  | Panic.
Arguments Ok {E A} a.
Arguments Err {E A} e.
Arguments Panic {E A}.

#[export] Instance res_ret E : MRet (res E) := λ A a, Ok a.
#[export] Instance res_bind E : MBind (res E) := λ A B f m,
  match m with
  | Ok a => f a
  | Err e => Err e
  | Panic => Panic
  end.
#[export] Instance res_fmap E : FMap (res E) := λ A B f m,
  match m with
  | Ok a => Ok (f a)
  | Err e => Err e
  | Panic => Panic
  end.

(** [map_err]: the [?] operator's error conversion. *)
Definition map_err {E F A} (f : E → F) (m : res E A) : res F A :=
  match m with
  | Ok a => Ok a
  | Err e => Err (f e)
  | Panic => Panic
  end.

(** [ok_or]: an [Option] turned into a [Result]. *)
Definition ok_or {E A} (e : E) (o : option A) : res E A :=
  match o with Some a => Ok a | None => Err e end.

(** [expect]/checked arithmetic: a [None] is a panic. *)
Definition or_panic {E A} (o : option A) : res E A :=
  match o with Some a => Ok a | None => Panic end.

(** A guard that returns early with an error. *)
Definition ensure {E} (b : bool) (e : E) : res E () :=
  if b then Ok () else Err e.

Definition is_ok {E A} (m : res E A) : bool :=
  match m with Ok _ => true | _ => false end.

Section res_lemmas.
Context {E A B : Type}.
Implicit Types (m : res E A) (f : A → res E B).

Lemma res_bind_ok m f b : m ≫= f = Ok b ↔ ∃ a, m = Ok a ∧ f a = Ok b.
Proof. destruct m; cbn; split; intros; naive_solver. Qed.
Lemma res_bind_err m f e :
  m ≫= f = Err e ↔ m = Err e ∨ ∃ a, m = Ok a ∧ f a = Err e.
Proof. destruct m; cbn; split; intros; naive_solver. Qed.
Lemma res_fmap_ok (g : A → B) m b : g <$> m = Ok b ↔ ∃ a, m = Ok a ∧ g a = b.
Proof. destruct m; cbn; split; intros; naive_solver. Qed.
Lemma map_err_ok {F} (g : E → F) m a : map_err g m = Ok a ↔ m = Ok a.
Proof. destruct m; cbn; split; intros; naive_solver. Qed.
Lemma ok_or_ok (e : E) (o : option A) a : ok_or e o = Ok a ↔ o = Some a.
Proof. destruct o; cbn; naive_solver. Qed.
Lemma or_panic_ok (o : option A) (a : A) : or_panic (E:=E) o = Ok a ↔ o = Some a.
Proof. destruct o; cbn; naive_solver. Qed.
Lemma ensure_ok (b : bool) (e : E) u : ensure b e = Ok u ↔ b = true.
Proof. destruct b, u; cbn; naive_solver. Qed.
End res_lemmas.

(** [inv_res] decomposes every hypothesis saying that a sequence of [res]
    steps returned [Ok]. *)
Ltac inv_res :=
  repeat match goal with
  | H : _ ≫= _ = Ok _ |- _ => apply res_bind_ok in H as (? & ? & ?)
  | H : _ <$> _ = Ok _ |- _ => apply res_fmap_ok in H as (? & ? & ?)
  | H : map_err _ _ = Ok _ |- _ => apply map_err_ok in H
  | H : ok_or _ _ = Ok _ |- _ => apply ok_or_ok in H
  | H : or_panic _ = Ok _ |- _ => apply or_panic_ok in H
  | H : ensure _ _ = Ok _ |- _ => apply ensure_ok in H
  | H : Ok _ = Ok _ |- _ => injection H as H; try subst
  | H : Err _ = Ok _ |- _ => discriminate H
  | H : Panic = Ok _ |- _ => discriminate H
  | H : mret _ = Ok _ |- _ => injection H as H; try subst
  end; subst.

(** [case_match_eq] splits the innermost [match] of a hypothesis. *)
Ltac case_in H :=
  match type of H with
  | context [match ?x with _ => _ end] => destruct x eqn:?; try discriminate H
  end.

(** [mapM] over a list, left to right: [for x in xs { ... ? }] collecting the
    results. *)
Fixpoint res_mapM {E A B} (f : A → res E B) (l : list A) : res E (list B) :=
  match l with
  | [] => Ok []
  | x :: l => y ← f x; ys ← res_mapM f l; Ok (y :: ys)
  end.

(** A [for] loop threading an accumulator. *)
Fixpoint res_foldM {E A B} (f : B → A → res E B) (b : B) (l : list A) : res E B :=
  match l with
  | [] => Ok b
  | x :: l => b' ← f b x; res_foldM f b' l
  end.

Lemma res_mapM_Forall2 {E A B} (f : A → res E B) l k :
  res_mapM f l = Ok k ↔ Forall2 (λ x y, f x = Ok y) l k.
Proof.
  split.
  - revert k; induction l as [|x l IH]; intros k H; cbn in *; inv_res; auto.
  - induction 1 as [|x y l k Hxy _ IH]; cbn; [done|]. by rw Hxy /= IH.
Qed.

Lemma res_mapM_length {E A B} (f : A → res E B) l k :
  res_mapM f l = Ok k → length k = length l.
Proof. intros H%res_mapM_Forall2. by rw (Forall2_length _ _ _ H). Qed.

(** ** Decimal numerals

    [{}] and [{:04}] of Rust's [format!] on integers. *)

Definition uint_str (n : N) : string :=
  DecimalString.NilEmpty.string_of_uint (N.to_uint n).

(** [format!("{}", z)]. *)
Definition show_Z (z : Z) : string :=
  if z <? 0 then "-" +:+ uint_str (Z.to_N (- z)) else uint_str (Z.to_N z).

(** [n] copies of an ASCII character. *)
Fixpoint str_repeat (c : Ascii.ascii) (n : nat) : string :=
  match n with O => "" | S n => String c (str_repeat c n) end.

(** [format!("{:0w}", z)]: zero padded to width [w], the sign counted in the
    width and written before the padding. *)
Definition show_Z_pad (w : nat) (z : Z) : string :=
  if z <? 0 then
    let digits := uint_str (Z.to_N (- z)) in
    "-" +:+ str_repeat "0"%char (w - 1 - String.length digits) +:+ digits
  else
    let digits := uint_str (Z.to_N z) in
    str_repeat "0"%char (w - String.length digits) +:+ digits.

(** The value of a string of ASCII digits, leading zeros allowed. *)
Definition digits_val (s : string) : option N :=
  match s with
  | EmptyString => None
  | _ => N.of_uint <$> DecimalString.NilEmpty.uint_of_string s
  end.

Lemma str_app_cons c (s t : string) : String c s +:+ t = String c (s +:+ t).
Proof. reflexivity. Qed.
Lemma str_app_nil_l (t : string) : "" +:+ t = t.
Proof. reflexivity. Qed.
Lemma str_app_nil_r (s : string) : s +:+ "" = s.
Proof. induction s as [|c s IH]; [done|]. rw ?str_app_cons /=. by f_equal. Qed.
Lemma str_app_assoc (s t u : string) : s +:+ (t +:+ u) = (s +:+ t) +:+ u.
Proof. induction s as [|c s IH]; [done|]. rw ?str_app_cons /=. by f_equal. Qed.
Lemma str_app_length (s t : string) :
  String.length (s +:+ t) = (String.length s + String.length t)%nat.
Proof. induction s as [|c s IH]; [done|]. rw ?str_app_cons /=. by f_equal. Qed.
Lemma str_app_inj_l (s t u : string) : s +:+ t = s +:+ u → t = u.
Proof. induction s as [|c s IH]; [done|]. rw !str_app_cons. intros [=]. auto. Qed.
Lemma str_app_inj (s t u v : string) :
  String.length s = String.length u → s +:+ t = u +:+ v → s = u ∧ t = v.
Proof.
  revert u; induction s as [|c s IH]; intros [|d u]; try done.
  rw !str_app_cons. intros [=Hl] [=-> H]. destruct (IH u Hl H) as [-> ->]. done.
Qed.
Lemma str_repeat_length c n : String.length (str_repeat c n) = n.
Proof. induction n; cbn; congruence. Qed.

Lemma uint_str_nonempty n : uint_str n ≠ "".
Proof.
  unfold uint_str. destruct (N.to_uint n) eqn:E; try done.
  exfalso. assert (N.to_uint n = Decimal.Nil) as H by done.
  apply (f_equal N.of_uint) in H. rw DecimalN.Unsigned.of_to in H.
  subst n. done.
Qed.

Lemma uint_of_string_pad k n :
  ∃ u, DecimalString.NilEmpty.uint_of_string (str_repeat "0"%char k +:+ uint_str n) = Some u
       ∧ N.of_uint u = n.
Proof.
  induction k as [|k (u & E & Hu)].
  - exists (N.to_uint n). split; [apply DecimalString.NilEmpty.usu|apply DecimalN.Unsigned.of_to].
  - exists (Decimal.D0 u). cbn [str_repeat]. rw str_app_cons.
    cbn [DecimalString.NilEmpty.uint_of_string]. rw E. done.
Qed.

Lemma digits_val_pad k n :
  digits_val (str_repeat "0"%char k +:+ uint_str n) = Some n.
Proof.
  destruct (uint_of_string_pad k n) as (u & E & Hu).
  assert (str_repeat "0"%char k +:+ uint_str n ≠ "") as Hne.
  { destruct k; [apply uint_str_nonempty|done]. }
  unfold digits_val. destruct (_ +:+ _); [done|]. rw E. cbn. by f_equal.
Qed.

Lemma digits_val_uint_str n : digits_val (uint_str n) = Some n.
Proof. apply (digits_val_pad 0). Qed.

(** Zero padding loses nothing. *)
Lemma show_Z_pad_val w z : 0 <= z → digits_val (show_Z_pad w z) = Some (Z.to_N z).
Proof.
  intros Hz. unfold show_Z_pad. destruct (Z.ltb_spec z 0); [lia|]. apply digits_val_pad.
Qed.

(** A numeral of [n < 10^w] has at most [w] digits. *)
Lemma string_of_uint_length u :
  String.length (DecimalString.NilEmpty.string_of_uint u) = Decimal.nb_digits u.
Proof. induction u; cbn; congruence. Qed.

Lemma of_uint_acc_ge u acc :
  Z.pos acc * 10 ^ Z.of_nat (Decimal.nb_digits u) ≤ Z.pos (Pos.of_uint_acc u acc).
Proof.
  revert acc; induction u; intros acc; cbn [Pos.of_uint_acc Decimal.nb_digits]; try (cbn; lia);
    rw Nat2Z.inj_succ Z.pow_succ_r; try lia; (etrans; [|apply IHu]); nia.
Qed.

Lemma uint_str_length n w :
  (1 ≤ w)%nat → Z.of_N n < 10 ^ Z.of_nat w → (String.length (uint_str n) ≤ w)%nat.
Proof.
  intros Hw Hn. unfold uint_str. rw string_of_uint_length.
  assert (Decimal.unorm (N.to_uint n) = N.to_uint n) as Hu.
  { by rw -DecimalN.Unsigned.to_of DecimalN.Unsigned.of_to. }
  rw -(DecimalN.Unsigned.of_to n) in Hn. revert Hu Hn. generalize (N.to_uint n) as u.
  assert (∀ u p, Z.pos (Pos.of_uint_acc u p) < 10 ^ Z.of_nat w →
    (S (Decimal.nb_digits u) ≤ w)%nat) as Hd.
  { intros u p Hp. pose proof (of_uint_acc_ge u p).
    assert (Z.of_nat (Decimal.nb_digits u) < Z.of_nat w); [|lia].
    apply (Z.pow_lt_mono_r_iff 10); nia. }
  intros [|u|u|u|u|u|u|u|u|u|u] Hu Hn; try by apply (Hd _ _ Hn).
  - cbn. lia.
  - unfold Decimal.unorm in Hu. destruct (Decimal.nzhead (Decimal.D0 u)) eqn:E; inversion Hu; subst; cbn; try lia.
    by destruct (DecimalFacts.nzhead_nonzero _ _ E).
Qed.

Lemma show_Z_pad_length w z :
  (1 ≤ w)%nat → 0 ≤ z < 10 ^ Z.of_nat w → String.length (show_Z_pad w z) = w.
Proof.
  intros Hw Hz. unfold show_Z_pad. destruct (Z.ltb_spec z 0); [lia|].
  rw str_app_length str_repeat_length.
  pose proof (uint_str_length (Z.to_N z) w Hw ltac:(rw Z2N.id; lia)). lia.
Qed.

(** [str::split_once(c)] on a character: the text before and after the first
    occurrence. *)
Fixpoint split_once (c : ascii) (s : string) : option (string * string) :=
  match s with
  | EmptyString => None
  | String x s' =>
      if Ascii.eqb x c then Some (EmptyString, s')
      else match split_once c s' with
           | Some (a, b) => Some (String x a, b)
           | None => None
           end
  end.

(** [c] does not occur in [s]. *)
Fixpoint str_free (c : ascii) (s : string) : bool :=
  match s with
  | EmptyString => true
  | String x s => negb (Ascii.eqb x c) && str_free c s
  end.

Lemma split_once_app c a b :
  str_free c a = true → split_once c (a +:+ String c b) = Some (a, b).
Proof.
  induction a as [|x a IH]; cbn.
  - intros _. rw str_app_nil_l. cbn. by rw Ascii.eqb_refl.
  - intros [Hx Ha]%andb_true_iff. rw str_app_cons. cbn.
    destruct (Ascii.eqb x c); [done|]. by rw IH.
Qed.

Lemma split_once_Some c s a b :
  split_once c s = Some (a, b) → s = a +:+ String c b ∧ str_free c a = true.
Proof.
  revert a b; induction s as [|x s IH]; intros a b; cbn; [done|].
  destruct (Ascii.eqb_spec x c) as [->|Hx]; [by intros [= <- <-]|].
  destruct (split_once c s) as [[a' b']|]; [|done]. intros [= <- <-].
  destruct (IH a' b' eq_refl) as [-> Ha]. split; [by rw str_app_cons|].
  cbn. rw Ha. by destruct (Ascii.eqb_spec x c).
Qed.

Lemma split_once_None c s : split_once c s = None ↔ str_free c s = true.
Proof.
  induction s as [|x s IH]; cbn; [done|]. destruct (Ascii.eqb x c); cbn; [done|].
  rw -IH. by destruct (split_once c s) as [[]|].
Qed.

Lemma str_free_app c a b : str_free c (a +:+ b) = str_free c a && str_free c b.
Proof. induction a as [|x a IH]; [done|]. rw str_app_cons. cbn. by rw IH andb_assoc. Qed.

(** [str::rsplit_once]: the text before and after the last [c]. *)
Fixpoint rsplit_once (c : ascii) (s : string) : option (string * string) :=
  match s with
  | EmptyString => None
  | String x s' =>
      match rsplit_once c s' with
      | Some (a, b) => Some (String x a, b)
      | None => if Ascii.eqb x c then Some (EmptyString, s') else None
      end
  end.

Lemma rsplit_once_free c s : str_free c s = true → rsplit_once c s = None.
Proof.
  induction s as [|x s IH]; cbn; [done|]. intros [Hx Hs]%andb_true_iff. rw (IH Hs).
  by destruct (Ascii.eqb x c).
Qed.
Lemma rsplit_once_app c a b :
  str_free c b = true → rsplit_once c (a +:+ String c b) = Some (a, b).
Proof.
  intros Hb. induction a as [|x a IH].
  - rw str_app_nil_l. cbn. by rw (rsplit_once_free _ _ Hb) Ascii.eqb_refl.
  - rw str_app_cons. cbn. by rw IH.
Qed.
Lemma rsplit_once_Some c s a b : rsplit_once c s = Some (a, b) → s = a +:+ String c b.
Proof.
  revert a b. induction s as [|x s IH]; intros a b; cbn; [done|].
  destruct (rsplit_once c s) as [[a' b']|] eqn:E.
  - intros [= <- <-]. rw (IH _ _ eq_refl). by rw str_app_cons.
  - destruct (Ascii.eqb_spec x c) as [->|]; [|done]. by intros [= <- <-].
Qed.
Lemma rsplit_once_None c s : rsplit_once c s = None ↔ str_free c s = true.
Proof.
  split; [|apply rsplit_once_free]. induction s as [|x s IH]; cbn; [done|].
  destruct (rsplit_once c s) as [[]|]; [done|]. destruct (Ascii.eqb x c); [done|]. auto.
Qed.
Lemma rsplit_once_free_r c s a b : rsplit_once c s = Some (a, b) → str_free c b = true.
Proof.
  revert a b. induction s as [|x s IH]; intros a b; cbn; [done|].
  destruct (rsplit_once c s) as [[a' b']|] eqn:E.
  - intros [= <- <-]. by eapply IH.
  - destruct (Ascii.eqb x c); [|done]. intros [= <- <-]. by apply rsplit_once_None.
Qed.

(** [str::split] *)
Fixpoint split_on (c : ascii) (s : string) : list string :=
  match s with
  | EmptyString => [EmptyString]
  | String x s =>
      if Ascii.eqb x c then EmptyString :: split_on c s
      else match split_on c s with
           | seg :: segs => String x seg :: segs
           | [] => [String x EmptyString]
           end
  end.

Lemma split_on_app c a b : split_on c (a +:+ String c b) = split_on c a ++ split_on c b.
Proof.
  induction a as [|x a IH].
  - rw str_app_nil_l. cbn. by rw Ascii.eqb_refl.
  - rw str_app_cons. cbn. rw IH. destruct (Ascii.eqb x c); [done|].
    destruct (split_on c a) eqn:E; [|done].
    destruct a as [|y a]; cbn in E; [done|]. destruct (Ascii.eqb y c); [done|].
    by destruct (split_on c a).
Qed.
Lemma split_on_free c s : str_free c s = true → split_on c s = [s].
Proof.
  induction s as [|x s IH]; cbn; [done|]. intros [Hx Hs]%andb_true_iff. rw (IH Hs).
  by destruct (Ascii.eqb x c).
Qed.

(** [str::parse] of an unsigned integer: an optional [+], then decimal digits,
    at most [max]. *)
Definition parse_unsigned (max : Z) (s : string) : option Z :=
  let body := match s with String "+" s' => s' | _ => s end in
  n ← digits_val body;
  if Z.of_N n <=? max then Some (Z.of_N n) else None.
Definition parse_u8 : string → option Z := parse_unsigned 255.

Lemma parse_unsigned_range max s z : parse_unsigned max s = Some z → 0 ≤ z ≤ max.
Proof.
  unfold parse_unsigned. destruct (digits_val _) as [n|]; cbn; [|done].
  case_match; [|done]. intros [= <-]. lia.
Qed.
Lemma parse_u8_range s z : parse_u8 s = Some z → 0 ≤ z ≤ 255.
Proof. apply parse_unsigned_range. Qed.

(** [s.trim().is_empty()]: every character of the UTF-8 text is Unicode white
    space. *)
Fixpoint is_blank (s : string) : bool :=
  match s with
  | EmptyString => true
  | String a s1 =>
      let n := N_of_ascii a in
      if ((9 <=? n) && (n <=? 13) || (n =? 32))%N then is_blank s1
      else match s1 with
      | String b s2 =>
          let m := N_of_ascii b in
          if ((n =? 194) && ((m =? 133) || (m =? 160)))%N then is_blank s2
          else match s2 with
          | String c s3 =>
              let k := N_of_ascii c in
              if ((n =? 225) && (m =? 154) && (k =? 128)
                  || (n =? 226) && (m =? 128) &&
                     ((128 <=? k) && (k <=? 138) || (k =? 168) || (k =? 169) || (k =? 175))
                  || (n =? 226) && (m =? 129) && (k =? 159)
                  || (n =? 227) && (m =? 128) && (k =? 128))%N
              then is_blank s3
              else false
          | EmptyString => false
          end
      | EmptyString => false
      end
  end.

(** [str::strip_prefix] *)
Fixpoint strip_prefix (p s : string) : option string :=
  match p, s with
  | EmptyString, _ => Some s
  | String a p, String b s => if Ascii.eqb a b then strip_prefix p s else None
  | String _ _, EmptyString => None
  end.

Lemma substring_prefix n s : ∃ rest, s = String.substring 0 n s +:+ rest.
Proof.
  revert s. induction n as [|n IH]; intros s; [exists s; by destruct s|].
  destruct s as [|c s]; [by exists ""|]. destruct (IH s) as [rest E]. exists rest.
  cbn [String.substring]. rewrite -> str_app_cons. by rewrite <- E.
Qed.
Lemma strip_prefix_app p s : strip_prefix p (p +:+ s) = Some s.
Proof.
  induction p as [|a p IH]; [done|].
  change (strip_prefix (String a p) (String a (p +:+ s)) = Some s). cbn. by rewrite -> Ascii.eqb_refl.
Qed.
Lemma strip_prefix_inv p s t : strip_prefix p s = Some t → s = p +:+ t.
Proof.
  revert s. induction p as [|a p IH]; intros s; cbn [strip_prefix]; [by intros [= ->]|].
  destruct s as [|b s]; [done|]. destruct (Ascii.eqb_spec a b) as [->|]; [|done].
  intros H. by rw (IH _ H).
Qed.

(** Hints of the development: constructors of its relations and the lemmas
    that apply without search. *)
Create HintDb inv.
