(* ===== verification/Rounding.v ===== *)
(** * Banker's rounding on rationals

    The mathematical reference for [RoundingStrategy::MidpointNearestEven]:
    [half_even x] is the integer nearest to [x], the even one on a tie, and
    [round_dp x k] does the same at [k] decimal places.  Both are executable,
    characterised by [is_half_even], and compatible with equality of
    rationals. *)

From S2P Require Import Prelude.
From Stdlib Require Import Lqa.

Definition pow10 (k : nat) : Z := 10 ^ Z.of_nat k.

Lemma pow10_pos k : 0 < pow10 k.
Proof. unfold pow10. apply Z.pow_pos_nonneg; lia. Qed.
#[export] Hint Resolve pow10_pos : core.

Lemma pow10_Q_pos k : (0 < inject_Z (pow10 k))%Q.
Proof. change 0%Q with (inject_Z 0). rw -Zlt_Qlt. apply pow10_pos. Qed.

Lemma pow10_Q_neq0 k : ¬ (inject_Z (pow10 k) == 0)%Q.
Proof. pose proof (pow10_Q_pos k). lra. Qed.
#[export] Hint Resolve pow10_Q_pos pow10_Q_neq0 : core.

Definition half_even (x : Q) : Z :=
  let n := Qnum x in
  let d := Zpos (Qden x) in
  let q := n / d in
  match 2 * (n mod d) ?= d with
  | Lt => q
  | Gt => q + 1
  | Eq => if Z.even q then q else q + 1
  end.

(** [z] is a nearest integer to [x], and even if there are two. *)
Definition is_half_even (x : Q) (z : Z) : Prop :=
  let d := Zpos (Qden x) in
  2 * Z.abs (Qnum x - z * d) ≤ d ∧ (2 * Z.abs (Qnum x - z * d) = d → Z.even z = true).

Lemma half_even_spec x : is_half_even x (half_even x).
Proof.
  unfold is_half_even, half_even. destruct x as [n d]; cbn [Qnum Qden].
  pose proof (Z.div_mod n (Zpos d) ltac:(lia)) as Hdm.
  pose proof (Z.mod_pos_bound n (Zpos d) ltac:(lia)) as Hb.
  set (q := n / Zpos d) in *. set (r := n mod Zpos d) in *.
  assert (n - q * Zpos d = r) as H0 by lia.
  assert (n - (q + 1) * Zpos d = r - Zpos d) as H1 by lia.
  destruct (Z.compare_spec (2 * r) (Zpos d)) as [E|E|E].
  - destruct (Z.even q) eqn:Ev; rw ?H0 ?H1.
    + split; [lia|done].
    + split; [lia|]. intros _. by rw Z.add_1_r Z.even_succ -Z.negb_even Ev.
  - rw H0. split; lia.
  - rw H1. split; lia.
Qed.

Lemma even_neighbours z : Z.even z = true → Z.even (z + 1) = true → False.
Proof. intros H. rw Z.add_1_r Z.even_succ -Z.negb_even H. done. Qed.

(** The same in cross-multiplied form, so that equal rationals compare. *)
Lemma is_half_even_mono x y a b :
  is_half_even x a → is_half_even y b → (x <= y)%Q → a ≤ b.
Proof.
  unfold is_half_even, Qle. destruct x as [n d], y as [m e]; cbn [Qnum Qden].
  intros [Ha Ha'] [Hb Hb'] Hle.
  destruct (Z.le_gt_cases a b) as [?|Hgt]; [done|exfalso].
  assert ((2 * a - 1) * Zpos d ≤ 2 * n) as H1 by lia.
  assert (2 * m ≤ (2 * b + 1) * Zpos e) as H2 by lia.
  assert ((2 * a - 1) * Zpos d * Zpos e ≤ (2 * b + 1) * Zpos e * Zpos d) as H3 by nia.
  assert (2 * a - 1 ≤ 2 * b + 1) as H4 by nia.
  assert (a = b + 1) as -> by lia.
  assert (2 * n = (2 * b + 1) * Zpos d) as H5 by nia.
  assert (2 * m = (2 * b + 1) * Zpos e) as H6 by nia.
  apply (even_neighbours b); [apply Hb'|apply Ha']; lia.
Qed.

Lemma is_half_even_unique x y a b :
  is_half_even x a → is_half_even y b → (x == y)%Q → a = b.
Proof.
  intros Ha Hb E. apply Z.le_antisymm.
  - apply (is_half_even_mono x y); auto. lra.
  - apply (is_half_even_mono y x); auto. lra.
Qed.

#[export] Instance half_even_proper : Proper (Qeq ==> eq) half_even.
Proof. intros x y E. eapply is_half_even_unique; eauto using half_even_spec. Qed.

Lemma half_even_mono x y : (x <= y)%Q → half_even x ≤ half_even y.
Proof. intros. eapply is_half_even_mono; eauto using half_even_spec. Qed.

Lemma half_even_int z : half_even (inject_Z z) = z.
Proof.
  apply (is_half_even_unique (inject_Z z) (inject_Z z)); [apply half_even_spec| |done].
  unfold is_half_even, inject_Z; cbn. split; lia.
Qed.

(** The error of rounding to an integer is at most one half. *)
Lemma half_even_error x : (Qabs.Qabs (x - inject_Z (half_even x)) <= 1 # 2)%Q.
Proof.
  destruct (half_even_spec x) as [H _]. destruct x as [n d]; cbn [Qnum Qden] in H.
  set (z := half_even _) in *. apply Qabs.Qabs_Qle_condition.
  unfold inject_Z, Qle, Qminus, Qplus, Qopp; cbn. lia.
Qed.

Definition round_dp (x : Q) (k : nat) : Q :=
  (inject_Z (half_even (x * inject_Z (pow10 k))) / inject_Z (pow10 k))%Q.

#[export] Instance round_dp_proper : Proper (Qeq ==> eq ==> Qeq) round_dp.
Proof. intros x y E k ? <-. unfold round_dp. by rw E. Qed.

(** [x] is a whole number of units of [10^-k]. *)
Definition on_grid (k : nat) (x : Q) : Prop := ∃ z, (x * inject_Z (pow10 k) == inject_Z z)%Q.

#[export] Instance on_grid_proper : Proper (eq ==> Qeq ==> iff) on_grid.
Proof. intros k ? <- x y E. unfold on_grid. by setoid_rewrite E. Qed.

Lemma round_dp_on_grid x k : on_grid k (round_dp x k).
Proof. exists (half_even (x * inject_Z (pow10 k))). unfold round_dp. field. auto. Qed.

Lemma round_dp_fixed x k : on_grid k x → (round_dp x k == x)%Q.
Proof.
  intros [z E]. unfold round_dp. rw E half_even_int -E. field. auto.
Qed.

Lemma round_dp_idem x k : (round_dp (round_dp x k) k == round_dp x k)%Q.
Proof. apply round_dp_fixed, round_dp_on_grid. Qed.

Lemma round_dp_mono x y k : (x <= y)%Q → (round_dp x k <= round_dp y k)%Q.
Proof.
  intros H. unfold round_dp, Qdiv. apply Qmult_le_compat_r.
  - rw -Zle_Qle. apply half_even_mono. apply Qmult_le_compat_r; [done|].
    apply Qlt_le_weak, pow10_Q_pos.
  - apply Qinv_le_0_compat, Qlt_le_weak, pow10_Q_pos.
Qed.

Lemma on_grid_0 k : on_grid k 0.
Proof. exists 0. rw Qmult_0_l. done. Qed.

Lemma on_grid_plus k x y : on_grid k x → on_grid k y → on_grid k (x + y).
Proof. intros [a Ha] [b Hb]. exists (a + b). rw inject_Z_plus -Ha -Hb. ring. Qed.
#[export] Hint Resolve on_grid_0 on_grid_plus round_dp_on_grid : core.

Lemma round_dp_nonneg x k : (0 <= x)%Q → (0 <= round_dp x k)%Q.
Proof.
  intros H. rw -(round_dp_fixed 0 k); [auto|]. by apply round_dp_mono.
Qed.

(** The rounding error is at most half a unit of the last kept place. *)
Lemma round_dp_error x k :
  (Qabs.Qabs (x - round_dp x k) <= (1 # 2) / inject_Z (pow10 k))%Q.
Proof.
  pose proof (half_even_error (x * inject_Z (pow10 k))) as H.
  assert (x - round_dp x k ==
          (x * inject_Z (pow10 k) - inject_Z (half_even (x * inject_Z (pow10 k))))
          / inject_Z (pow10 k))%Q as -> by (unfold round_dp; field; auto).
  unfold Qdiv. rw Qabs.Qabs_Qmult (Qabs.Qabs_pos (/ _)).
  - apply Qinv_le_0_compat, Qlt_le_weak, pow10_Q_pos.
  - apply Qmult_le_compat_r; [done|]. apply Qinv_le_0_compat, Qlt_le_weak, pow10_Q_pos.
Qed.
