(* ===== verification/External.v ===== *)
(** * Third-party code the program calls

    The types and functions of [rust_decimal], [chrono] and [mti] that the
    program uses are the fields of [Platform]; every definition of the
    development takes a [Platform] as an implicit argument.  [PlatformLaws]
    states the documented behaviour the theorems rely on:

    - a [Decimal] is a signed 96-bit mantissa over a power of ten up to
      [10^28]; comparison is numeric; sums and products are exact whenever the
      exact result is such a number ([representable]), and overflow is a panic
      ([None]); [round_dp_with_strategy(_, MidpointNearestEven)] is banker's
      rounding;
    - a [NaiveDate] is a calendar date, ordered chronologically, and
      [from_ymd_opt] accepts every day from 1 to 28 of a supported year;
    - a [DateTime<Utc>] prints as RFC 3339 with offset [+00:00] and as many
      fractional digits (0, 3, 6 or 9) as its nanoseconds need;
    - a typeid keeps its prefix, prints injectively, parses back, and two
      draws of a fresh one differ;
    - [ORDER BY] permutes the rows into ascending order of the column. *)

From S2P Require Import Prelude Rounding.

Class Platform := {
  (** [rust_decimal::Decimal] *)
  Decimal : Type;
  dec_new : Z → nat → Decimal;
  dec_mantissa : Decimal → Z;
  dec_scale : Decimal → nat;
  dec_add : Decimal → Decimal → option Decimal;
  dec_mul : Decimal → Decimal → option Decimal;
  dec_cmp : Decimal → Decimal → comparison;
  dec_round_half_even : Decimal → nat → Decimal;
  dec_to_string : Decimal → string;
  dec_from_str : string → option Decimal;
  (** [chrono::NaiveDate] *)
  NaiveDate : Type;
  nd_from_ymd_opt : Z → Z → Z → option NaiveDate;
  nd_year : NaiveDate → Z;
  nd_month : NaiveDate → Z;
  nd_day : NaiveDate → Z;
  nd_cmp : NaiveDate → NaiveDate → comparison;
  nd_to_string : NaiveDate → string;
  nd_from_str : string → option NaiveDate;
  (** [chrono::DateTime<Utc>] *)
  DateTime : Type;
  dt_cmp : DateTime → DateTime → comparison;
  dt_date_naive : DateTime → NaiveDate;
  dt_hour : DateTime → Z;
  dt_minute : DateTime → Z;
  dt_second : DateTime → Z;
  dt_nanosecond : DateTime → Z;
  dt_to_rfc3339 : DateTime → string;
  dt_from_rfc3339 : string → option DateTime;
  dt_display : DateTime → string;   (* [Display] *)
  dt_serialize : DateTime → string; (* [serde::Serialize]: RFC 3339 ending in [Z] *)
  (** [mti::MagicTypeId]; the [nat] of [ti_create] numbers the draws from the
      UUIDv7 generator. *)
  MagicTypeId : Type;
  ti_create : string → nat → MagicTypeId;
  ti_to_string : MagicTypeId → string;
  ti_from_str : string → string + MagicTypeId;
  ti_prefix : MagicTypeId → string;
  (** [{:?}] on a [str], whose escapes follow the Unicode tables of the
      standard library. *)
  str_debug : string → string;
  (** The SQL engine's [ORDER BY] on a TEXT or INTEGER column, ascending;
      ties come in an order of the engine's choice. *)
  sql_order_text : ∀ A : Type, (A → string) → list A → list A;
  sql_order_int : ∀ A : Type, (A → Z) → list A → list A;
}.
Arguments sql_order_text {_ A} _ _.
Arguments sql_order_int {_ A} _ _.

(** The rational number a [Decimal] denotes. *)
Definition val `{Platform} (d : Decimal) : Q :=
  (inject_Z (dec_mantissa d) / inject_Z (pow10 (dec_scale d)))%Q.

(** The numbers a [Decimal] can hold. *)
Definition representable (x : Q) : Prop :=
  ∃ m s, (s ≤ 28)%nat ∧ Z.abs m < 2 ^ 96 ∧ (x == inject_Z m / inject_Z (pow10 s))%Q.

(** RFC 3339 as [to_rfc3339] prints it for the years 0 to 9999. *)
Definition rfc3339_frac (nanos : Z) : string :=
  if nanos =? 0 then ""
  else if nanos mod 1000000 =? 0 then "." +:+ show_Z_pad 3 (nanos / 1000000)
  else if nanos mod 1000 =? 0 then "." +:+ show_Z_pad 6 (nanos / 1000)
  else "." +:+ show_Z_pad 9 nanos.

Definition rfc3339 (year month day hour minute second nanos : Z) : string :=
  show_Z_pad 4 year +:+ "-" +:+ show_Z_pad 2 month +:+ "-" +:+ show_Z_pad 2 day +:+ "T" +:+
  show_Z_pad 2 hour +:+ ":" +:+ show_Z_pad 2 minute +:+ ":" +:+ show_Z_pad 2 second +:+
  rfc3339_frac nanos +:+ "+00:00".

(** Comparing two dates is comparing their year, month and day in turn. *)
Definition ymd_cmp (a b : Z * Z * Z) : comparison :=
  match a.1.1 ?= b.1.1 with
  | Eq => match a.1.2 ?= b.1.2 with Eq => a.2 ?= b.2 | c => c end
  | c => c
  end.

Definition dt_year `{Platform} (t : DateTime) : Z := nd_year (dt_date_naive t).

(** The characters of a TypeID. *)
Definition typeid_char (c : ascii) : bool :=
  let n := N_of_ascii c in
  ((48 <=? n) && (n <=? 57) || (97 <=? n) && (n <=? 122) || (n =? 95))%N.
Fixpoint typeid_text (s : string) : bool :=
  match s with EmptyString => true | String c s => typeid_char c && typeid_text s end.

Class PlatformLaws (P : Platform) : Prop := {
  (* Decimal *)
  val_new m s : (s ≤ 28)%nat → (val (dec_new m s) == inject_Z m / inject_Z (pow10 s))%Q;
  dec_cmp_val a b : dec_cmp a b = (val a ?= val b)%Q;
  dec_add_exact a b : representable (val a + val b) →
    ∃ c, dec_add a b = Some c ∧ (val c == val a + val b)%Q;
  dec_mul_exact a b : representable (val a * val b) →
    ∃ c, dec_mul a b = Some c ∧ (val c == val a * val b)%Q;
  dec_round_val a k : (val (dec_round_half_even a k) == round_dp (val a) k)%Q;
  (* NaiveDate *)
  nd_from_ymd_valid y m d :
    -262143 ≤ y ≤ 262142 → 1 ≤ m ≤ 12 → 1 ≤ d ≤ 28 →
    ∃ nd, nd_from_ymd_opt y m d = Some nd;
  nd_from_ymd_fields y m d nd :
    nd_from_ymd_opt y m d = Some nd → nd_year nd = y ∧ nd_month nd = m ∧ nd_day nd = d;
  nd_fields_valid nd :
    -262143 ≤ nd_year nd ≤ 262142 ∧ 1 ≤ nd_month nd ≤ 12 ∧ 1 ≤ nd_day nd ≤ 31;
  nd_cmp_ymd a b :
    nd_cmp a b = ymd_cmp (nd_year a, nd_month a, nd_day a) (nd_year b, nd_month b, nd_day b);
  nd_fields_inj a b :
    nd_year a = nd_year b → nd_month a = nd_month b → nd_day a = nd_day b → a = b;
  nd_string_format a :
    0 ≤ nd_year a ≤ 9999 →
    nd_to_string a = show_Z_pad 4 (nd_year a) +:+ "-" +:+ show_Z_pad 2 (nd_month a) +:+ "-" +:+
                     show_Z_pad 2 (nd_day a);
  nd_string_roundtrip a :
    0 ≤ nd_year a ≤ 9999 → nd_from_str (nd_to_string a) = Some a;
  (* DateTime *)
  dt_rfc3339_format t :
    0 ≤ dt_year t ≤ 9999 → dt_nanosecond t < 1000000000 →
    dt_to_rfc3339 t = rfc3339 (dt_year t) (nd_month (dt_date_naive t)) (nd_day (dt_date_naive t))
                              (dt_hour t) (dt_minute t) (dt_second t) (dt_nanosecond t);
  dt_fields_valid t :
    0 ≤ dt_hour t ≤ 23 ∧ 0 ≤ dt_minute t ≤ 59 ∧ 0 ≤ dt_second t ≤ 59 ∧ 0 ≤ dt_nanosecond t;
  dt_cmp_fields t u :
    dt_cmp t u = match nd_cmp (dt_date_naive t) (dt_date_naive u) with
                 | Eq => match ymd_cmp (dt_hour t, dt_minute t, dt_second t)
                                       (dt_hour u, dt_minute u, dt_second u) with
                         | Eq => dt_nanosecond t ?= dt_nanosecond u
                         | c => c
                         end
                 | c => c
                 end;
  dt_cmp_refl t : dt_cmp t t = Eq;
  dt_cmp_antisym t u : dt_cmp u t = CompOpp (dt_cmp t u);
  (* MagicTypeId *)
  ti_prefix_create p n : ti_prefix (ti_create p n) = p;
  ti_create_fresh p n m : ti_create p n = ti_create p m → n = m;
  ti_to_string_inj a b : ti_to_string a = ti_to_string b → a = b;
  ti_roundtrip a : ti_from_str (ti_to_string a) = inr a;
  ti_to_string_text a : typeid_text (ti_prefix a) = true → typeid_text (ti_to_string a) = true;
  ti_to_string_shape a : ti_prefix a ≠ "" → ∃ s, ti_to_string a = ti_prefix a +:+ String "_" s;
  (* SQL *)
  sql_order_text_perm {A} (k : A → string) l : sql_order_text k l ≡ₚ l;
  sql_order_text_sorted {A} (k : A → string) l :
    Sorted (λ a b, String.leb (k a) (k b) = true) (sql_order_text k l);
  sql_order_int_perm {A} (k : A → Z) l : sql_order_int k l ≡ₚ l;
  sql_order_int_sorted {A} (k : A → Z) l : Sorted (λ a b, k a ≤ k b) (sql_order_int k l);
}.

(** ** Derived operations, as the code writes them *)

Section decimal.
Context `{P : Platform}.

(** [Decimal::ZERO], [Decimal::ONE] *)
Definition dec_zero : Decimal := dec_new 0 0.
Definition dec_one : Decimal := dec_new 1 0.

(** [a + b] and [a * b]: overflow panics. *)
Definition dadd {E} (a b : Decimal) : res E Decimal := or_panic (dec_add a b).
Definition dmul {E} (a b : Decimal) : res E Decimal := or_panic (dec_mul a b).

(** [a <= b], [a < b] (and with the arguments swapped, [>=], [>]) *)
Definition dec_leb (a b : Decimal) : bool :=
  match dec_cmp a b with Gt => false | _ => true end.
Definition dec_ltb (a b : Decimal) : bool :=
  match dec_cmp a b with Lt => true | _ => false end.

Definition nd_leb (a b : NaiveDate) : bool :=
  match nd_cmp a b with Gt => false | _ => true end.
Definition nd_ltb (a b : NaiveDate) : bool :=
  match nd_cmp a b with Lt => true | _ => false end.
Definition dt_ltb (a b : DateTime) : bool :=
  match dt_cmp a b with Lt => true | _ => false end.

Context {L : PlatformLaws P}.

Lemma dec_leb_val a b : dec_leb a b = true ↔ (val a <= val b)%Q.
Proof.
  unfold dec_leb. rw dec_cmp_val Qle_alt.
  destruct (val a ?= val b)%Q; naive_solver.
Qed.
Lemma dec_leb_val_false a b : dec_leb a b = false ↔ (val b < val a)%Q.
Proof.
  pose proof (dec_leb_val a b) as H. destruct (dec_leb a b); split; try done.
  - intros. exfalso. apply (Qlt_not_le (val b) (val a)); [done|by apply H].
  - intros _. apply Qnot_le_lt. naive_solver.
Qed.
Lemma dec_ltb_val a b : dec_ltb a b = true ↔ (val a < val b)%Q.
Proof.
  unfold dec_ltb. rw dec_cmp_val Qlt_alt. destruct (val a ?= val b)%Q; naive_solver.
Qed.
Lemma dec_ltb_val_false a b : dec_ltb a b = false ↔ (val b <= val a)%Q.
Proof.
  pose proof (dec_ltb_val a b) as H. destruct (dec_ltb a b); split; try done.
  - intros. exfalso. apply (Qlt_not_le (val a) (val b)); [by apply H|done].
  - intros _. apply Qnot_lt_le. naive_solver.
Qed.

Lemma val_zero : (val dec_zero == 0)%Q.
Proof. unfold dec_zero. rw val_new; [lia|]. reflexivity. Qed.
Lemma val_one : (val dec_one == 1)%Q.
Proof. unfold dec_one. rw val_new; [lia|]. reflexivity. Qed.

Lemma dec_add_val a b c :
  dec_add a b = Some c → representable (val a + val b) → (val c == val a + val b)%Q.
Proof. intros H Hr. destruct (dec_add_exact a b Hr) as (c' & ? & ?). congruence. Qed.
Lemma dec_mul_val a b c :
  dec_mul a b = Some c → representable (val a * val b) → (val c == val a * val b)%Q.
Proof. intros H Hr. destruct (dec_mul_exact a b Hr) as (c' & ? & ?). congruence. Qed.

(** A number on the grid of [k] places that fits 96 bits is representable. *)
Lemma representable_on_grid k x :
  (k ≤ 28)%nat → on_grid k x →
  (Qabs.Qabs (x * inject_Z (pow10 k)) < inject_Z (2 ^ 96))%Q → representable x.
Proof.
  intros Hk [z E] Hb. exists z, k. split; [done|]. split.
  - rw E in Hb. change (Qabs.Qabs (inject_Z z)) with (inject_Z (Z.abs z)) in Hb. by rw -Zlt_Qlt in Hb.
  - rw -E. field. auto.
Qed.
End decimal.

#[export] Instance representable_proper : Proper (Qeq ==> iff) representable.
Proof. intros x y E. unfold representable. by setoid_rewrite E. Qed.
