(* ===== verification/SignedLink.v ===== *)
(** * Signed links and webhook signatures ([api/src/signed_link.rs], [webhook.rs])

    A view link carries an invoice id, an expiry and the HMAC-SHA256 of both
    under the server's key; webhook bodies carry the same MAC in a header.  The
    SHA-256 digest and base64url are third-party code and a parameter
    ([Crypto]); texts and byte strings are both [string]s of bytes. *)

From S2P Require Import Prelude External.

Class Crypto := {
  sha256 : string → string;
  b64url_encode : string → string;
  b64url_decode : string → option string;
}.
Class CryptoLaws (C : Crypto) : Prop := {
  sha256_length s : String.length (sha256 s) = 32%nat;
  b64url_roundtrip s : b64url_decode (b64url_encode s) = Some s;
}.

(** ** Bytes *)

Fixpoint str_map (f : ascii → ascii) (s : string) : string :=
  match s with EmptyString => EmptyString | String c s => String (f c) (str_map f s) end.
Definition xor_byte (x : N) (c : ascii) : ascii := ascii_of_N (N.lxor (N_of_ascii c) x).

(** [Vec::resize] with zero bytes. *)
Fixpoint resize (n : nat) (s : string) : string :=
  match n, s with
  | O, _ => EmptyString
  | S n, EmptyString => String zero (resize n EmptyString)
  | S n, String c s => String c (resize n s)
  end.

(** [std::str::from_utf8] succeeds. *)
Definition byte_in (lo hi : N) (c : ascii) : bool := ((lo <=? N_of_ascii c) && (N_of_ascii c <=? hi))%N.
Fixpoint utf8_valid (s : string) : bool :=
  match s with
  | EmptyString => true
  | String a s1 =>
      if byte_in 0 127 a then utf8_valid s1
      else match s1 with
      | EmptyString => false
      | String b s2 =>
          if byte_in 194 223 a then byte_in 128 191 b && utf8_valid s2
          else match s2 with
          | EmptyString => false
          | String c s3 =>
              if byte_in 224 239 a
              then byte_in (if byte_in 224 224 a then 160%N else 128%N)
                           (if byte_in 237 237 a then 159%N else 191%N) b
                   && byte_in 128 191 c && utf8_valid s3
              else match s3 with
              | EmptyString => false
              | String d s4 =>
                  byte_in 240 244 a &&
                  byte_in (if byte_in 240 240 a then 144%N else 128%N)
                          (if byte_in 244 244 a then 143%N else 191%N) b
                  && byte_in 128 191 c && byte_in 128 191 d && utf8_valid s4
              end
          end
      end
  end.

Section signed_link.
Context `{C : Crypto}.

(** ** HMAC-SHA256 *)

Definition BLOCK : nat := 64.

Definition hex_digit (n : N) : ascii :=
  default "0"%char (String.get (N.to_nat n) "0123456789abcdef").
Fixpoint hex_lower (bytes : string) : string :=
  match bytes with
  | EmptyString => EmptyString
  | String b bytes =>
      String (hex_digit (N.shiftr (N_of_ascii b) 4))
        (String (hex_digit (N.land (N_of_ascii b) 15)) (hex_lower bytes))
  end.

(** The key, hashed when it is longer than a block and padded to one. *)
Definition hmac_key (key : string) : string :=
  let k := if (BLOCK <? String.length key)%nat then sha256 key else key in
  if (String.length k <? BLOCK)%nat then resize BLOCK k else k.
Definition hmac_sha256_hex (key msg : string) : string :=
  let k := hmac_key key in
  let ipad := str_map (xor_byte 54) k in
  let opad := str_map (xor_byte 92) k in
  let inner_digest := sha256 (ipad +:+ msg) in
  hex_lower (sha256 (opad +:+ inner_digest)).

(** The comparison that reads every byte. *)
Fixpoint diff_bytes (a b : string) : N :=
  match a, b with
  | String x a, String y b => N.lor (N.lxor (N_of_ascii x) (N_of_ascii y)) (diff_bytes a b)
  | _, _ => 0%N
  end.
Definition constant_time_eq (a b : string) : bool :=
  if negb (String.length a =? String.length b)%nat then false else (diff_bytes a b =? 0)%N.

(** ** Tokens *)

Record VerifiedToken := MkVerifiedToken { vt_invoice_id : string; vt_expiry_unix : Z }.
Inductive VerifyError := Base64 | Payload | Expired | Mismatch.

(** [str::parse::<u64>()] *)
Definition parse_u64 (s : string) : option Z := parse_unsigned (2 ^ 64 - 1) s.

(** [sign], at the clock reading [now]; a release build wraps the sum. *)
Definition sign_at (invoice_id : string) (ttl_secs : Z) (signing_key : string) (now : Z) : string :=
  let exp := (now + ttl_secs) mod 2 ^ 64 in
  let payload := invoice_id +:+ ":" +:+ show_Z exp in
  let sig := hmac_sha256_hex signing_key payload in
  b64url_encode (payload +:+ ":" +:+ sig).

Definition verify_at (token signing_key : string) (now_unix : Z) : res VerifyError VerifiedToken :=
  composed ← ok_or Base64 (b64url_decode token);
  _ ← ensure (utf8_valid composed) Payload;
  '(payload, sig) ← ok_or Payload (rsplit_once ":" composed);
  let expected_sig := hmac_sha256_hex signing_key payload in
  _ ← ensure (constant_time_eq sig expected_sig) Mismatch;
  '(invoice_id, exp_s) ← ok_or Payload (split_once ":" payload);
  expiry_unix ← ok_or Payload (parse_u64 exp_s);
  if expiry_unix <=? now_unix then Err Expired
  else Ok (MkVerifiedToken invoice_id expiry_unix).

(** ** Webhooks *)

Definition signature_header (body signing_key : string) : string :=
  "sha256=" +:+ hmac_sha256_hex signing_key body.

(** [Err] is the detail of the bad request. *)
Definition webhook_to_http (uri : string) : res string string :=
  match strip_prefix "webhook+http://" uri with
  | Some rest => Ok ("http://" +:+ rest)
  | None =>
      match strip_prefix "webhook://" uri with
      | Some rest => Ok ("https://" +:+ rest)
      | None => Err ("webhook URI must start with `webhook://` or `webhook+http://`: " +:+ uri)
      end
  end.
End signed_link.

(** ** Lemmas *)

Section lemmas.
Context `{C : Crypto} {CL : CryptoLaws C}.

Lemma str_map_length f s : String.length (str_map f s) = String.length s.
Proof. induction s; cbn; auto. Qed.
Lemma resize_length n s : String.length (resize n s) = n.
Proof. revert s. induction n as [|n IH]; intros [|c s]; cbn; auto. Qed.

(** The pads have the 64 bytes the loop over the block reads. *)
Lemma hmac_key_length key : String.length (hmac_key key) = BLOCK.
Proof.
  unfold hmac_key, BLOCK. destruct (Nat.ltb_spec 64 (String.length key)) as [Hl|Hl]; cbv zeta.
  - assert ((String.length (sha256 key) <? 64)%nat = true) as -> by (by rw sha256_length).
    apply resize_length.
  - destruct (Nat.ltb_spec (String.length key) 64); [apply resize_length|lia].
Qed.

Lemma hex_lower_length s : String.length (hex_lower s) = (2 * String.length s)%nat.
Proof. induction s as [|c s IH]; cbn; [done|]. rw IH. lia. Qed.
Lemma hmac_length key msg : String.length (hmac_sha256_hex key msg) = 64%nat.
Proof. unfold hmac_sha256_hex. cbv zeta. rw hex_lower_length sha256_length. done. Qed.

(** [hex] loses nothing. *)
Lemma hex_digit_inj m n : (m < 16)%N → (n < 16)%N → hex_digit m = hex_digit n → m = n.
Proof.
  assert (∀ i j, (i < 16)%nat → (j < 16)%nat →
    hex_digit (N.of_nat i) = hex_digit (N.of_nat j) → i = j) as H.
  { intros i j Hi Hj. do 16 (destruct i as [|i]; [do 16 (destruct j as [|j]; [done|]); lia|]). lia. }
  intros Hm Hn E. apply N2Nat.inj, H; [lia..|]. by rw !N2Nat.id.
Qed.
Lemma hex_digits_inj a b :
  hex_digit (N.shiftr (N_of_ascii a) 4) = hex_digit (N.shiftr (N_of_ascii b) 4) →
  hex_digit (N.land (N_of_ascii a) 15) = hex_digit (N.land (N_of_ascii b) 15) → a = b.
Proof.
  pose proof (N_ascii_bounded a). pose proof (N_ascii_bounded b).
  change 15%N with (N.ones 4). rewrite -> !N.shiftr_div_pow2, !N.land_ones.
  change (2 ^ 4)%N with 16%N. intros H1%hex_digit_inj H2%hex_digit_inj.
  - rewrite <- (ascii_N_embedding a), <- (ascii_N_embedding b). f_equal.
    rewrite -> (N.div_mod (N_of_ascii a) 16), (N.div_mod (N_of_ascii b) 16) by done. congruence.
  - by apply N.mod_lt.
  - by apply N.mod_lt.
  - apply N.Div0.div_lt_upper_bound; lia.
  - apply N.Div0.div_lt_upper_bound; lia.
Qed.
Lemma hex_lower_inj s t : hex_lower s = hex_lower t → s = t.
Proof.
  revert t. induction s as [|a s IH]; intros [|b t]; cbn; try done.
  intros [= H1 H2 H3]. f_equal; [by apply hex_digits_inj|by apply IH].
Qed.

(** The comparison is equality. *)
Lemma diff_bytes_zero a b :
  String.length a = String.length b → diff_bytes a b = 0%N ↔ a = b.
Proof.
  revert b. induction a as [|x a IH]; intros [|y b]; cbn; try done. intros [= Hl].
  rewrite -> N.lor_eq_0_iff, N.lxor_eq_0_iff, IH by done. split.
  - intros [H ->]. f_equal. rewrite <- (ascii_N_embedding x), <- (ascii_N_embedding y). by rw H.
  - by intros [= -> ->].
Qed.
Lemma constant_time_eq_spec a b : constant_time_eq a b = true ↔ a = b.
Proof.
  unfold constant_time_eq. destruct (Nat.eqb_spec (String.length a) (String.length b)) as [E|E]; cbn.
  - by rw N.eqb_eq diff_bytes_zero.
  - split; [done|]. by intros ->.
Qed.

(** UTF-8 text followed by text. *)
Lemma utf8_valid_app s t : utf8_valid s = true → utf8_valid t = true → utf8_valid (s +:+ t) = true.
Proof.
  intros Hs Ht. remember (String.length s) as n eqn:En. revert s En Hs.
  induction (lt_wf n) as [n _ IH]. intros s -> Hs.
  assert (∀ s', (String.length s' < String.length s)%nat → utf8_valid s' = true →
    utf8_valid (s' +:+ t) = true) as IH' by (intros s' Hl; by apply (IH _ Hl s')). clear IH.
  destruct s as [|a s1]; [done|]. rw str_app_cons. cbn in Hs |- *.
  destruct (byte_in 0 127 a); [apply IH'; [cbn; lia|done]|].
  destruct s1 as [|b s2]; [done|]. rw str_app_cons. cbn in Hs |- *.
  destruct (byte_in 194 223 a).
  { apply andb_true_iff in Hs as [-> Hs]. apply IH'; [cbn; lia|done]. }
  destruct s2 as [|c s3]; [done|]. rw str_app_cons. cbn in Hs |- *.
  destruct (byte_in 224 239 a).
  { apply andb_true_iff in Hs as [-> Hs]. apply IH'; [cbn; lia|done]. }
  destruct s3 as [|d s4]; [done|]. rw str_app_cons. cbn in Hs |- *.
  apply andb_true_iff in Hs as [-> Hs]. apply IH'; [cbn; lia|done].
Qed.
(** ASCII text. *)
Fixpoint ascii_text (s : string) : bool :=
  match s with EmptyString => true | String c s => byte_in 0 127 c && ascii_text s end.
Lemma utf8_ascii s : ascii_text s = true → utf8_valid s = true.
Proof. induction s as [|c s IH]; [done|]. cbn. by intros [-> ?]%andb_true_iff; apply IH. Qed.
Lemma ascii_uint u : ascii_text (DecimalString.NilEmpty.string_of_uint u) = true.
Proof. by induction u; cbn. Qed.
Lemma str_free_uint u : str_free ":" (DecimalString.NilEmpty.string_of_uint u) = true.
Proof. by induction u; cbn. Qed.
Lemma hex_digit_ascii n : byte_in 0 127 (hex_digit n) = true ∧ Ascii.eqb (hex_digit n) ":" = false.
Proof.
  unfold hex_digit. destruct (N.to_nat n) as [|m]; [done|].
  do 15 (destruct m as [|m]; [done|]). done.
Qed.
Lemma hex_lower_ascii s : ascii_text (hex_lower s) = true ∧ str_free ":" (hex_lower s) = true.
Proof.
  induction s as [|c s [IH1 IH2]]; [done|]. cbn [hex_lower ascii_text str_free].
  destruct (hex_digit_ascii (N.shiftr (N_of_ascii c) 4)) as [-> ->].
  destruct (hex_digit_ascii (N.land (N_of_ascii c) 15)) as [-> ->]. by rw IH1 IH2.
Qed.

Lemma parse_u64_show z : 0 ≤ z < 2 ^ 64 → parse_u64 (show_Z z) = Some z.
Proof.
  intros Hz. unfold parse_u64, parse_unsigned, show_Z. destruct (Z.ltb_spec z 0); [lia|].
  assert (∀ u, match DecimalString.NilEmpty.string_of_uint u with String "+" s' => s'
    | _ => DecimalString.NilEmpty.string_of_uint u end = DecimalString.NilEmpty.string_of_uint u) as Hu
    by (by intros []).
  unfold uint_str at 1 2. rw Hu. fold (uint_str (Z.to_N z)). rw digits_val_uint_str. cbn.
  rw Z2N.id; [lia|]. by destruct (Z.leb_spec z (2 ^ 64 - 1)); [|lia].
Qed.
End lemmas.

(** Typeids are such texts. *)
Lemma typeid_text_plain s : typeid_text s = true → ascii_text s = true ∧ str_free ":" s = true.
Proof.
  induction s as [|c s IH]; [done|]. cbn. intros [Hc Hs]%andb_true_iff.
  destruct (IH Hs) as [-> ->]. rw !andb_true_r. split.
  - unfold typeid_char in Hc. unfold byte_in.
    rewrite -> !orb_true_iff, !andb_true_iff, !N.leb_le, N.eqb_eq in Hc.
    rewrite -> andb_true_iff, !N.leb_le. lia.
  - destruct (Ascii.eqb_spec c ":") as [->|]; [by vm_compute in Hc|done].
Qed.

(** ** Theorems *)

Section theorems.
Context `{C : Crypto} {CL : CryptoLaws C}.

Lemma verify_sign id ttl key now t :
  utf8_valid id = true → str_free ":" id = true → 0 ≤ now → 0 ≤ ttl → now + ttl < 2 ^ 64 →
  verify_at (sign_at id ttl key now) key t =
    if now + ttl <=? t then Err Expired else Ok (MkVerifiedToken id (now + ttl)).
Proof.
  intros Hu Hid H0 H1 H2. unfold sign_at. rw Z.mod_small; [lia|]. cbv zeta.
  set (payload := id +:+ ":" +:+ show_Z (now + ttl)).
  assert (show_Z (now + ttl) = uint_str (Z.to_N (now + ttl))) as Eshow
    by (unfold show_Z; by destruct (Z.ltb_spec (now + ttl) 0); [lia|]).
  destruct (hex_lower_ascii (sha256 (str_map (xor_byte 92) (hmac_key key) +:+
    sha256 (str_map (xor_byte 54) (hmac_key key) +:+ payload)))) as [Hhex Hcolon].
  fold (hmac_sha256_hex key payload) in Hhex, Hcolon.
  unfold verify_at. rw b64url_roundtrip. cbn [ok_or mbind res_bind].
  assert (utf8_valid (payload +:+ ":" +:+ hmac_sha256_hex key payload) = true) as ->.
  { apply utf8_valid_app; [|apply utf8_valid_app; [done|by apply utf8_ascii]].
    unfold payload. rw Eshow. apply utf8_valid_app, utf8_valid_app; [done..|apply utf8_ascii, ascii_uint]. }
  cbn [ensure mbind res_bind].
  change (payload +:+ ":" +:+ hmac_sha256_hex key payload)
    with (payload +:+ String ":" (hmac_sha256_hex key payload)).
  rw (rsplit_once_app _ _ _ Hcolon). cbn [ok_or mbind res_bind].
  assert (constant_time_eq (hmac_sha256_hex key payload) (hmac_sha256_hex key payload) = true) as ->
    by (by apply constant_time_eq_spec).
  cbn [ensure mbind res_bind].
  change payload with (id +:+ String ":" (show_Z (now + ttl))) at 1.
  rw (split_once_app _ _ _ Hid). cbn [ok_or mbind res_bind].
  rw parse_u64_show; [lia|]. cbn [ok_or mbind res_bind]. done.
Qed.

(** A link works exactly until it expires: the token signed for an id (any
    text without a colon) verifies under the same key, with that id and the
    moment of signing plus the lifetime, at every earlier second, and is refused
    as expired from that second on. *)
Lemma signed_link_valid_until id ttl key now t :
  utf8_valid id = true → str_free ":" id = true → 0 ≤ now → 0 ≤ ttl → now + ttl < 2 ^ 64 →
  verify_at (sign_at id ttl key now) key t =
    if now + ttl <=? t then Err Expired else Ok (MkVerifiedToken id (now + ttl)).
Proof. exact (verify_sign id ttl key now t). Qed.

(** C23: nothing verifies without the key: whatever token is accepted at a
    moment [t], it is the encoding of an id, an expiry after [t] and, as the last
    part, the MAC of exactly that id and expiry under the verifying key. *)
Theorem signed_link_authentic token key t v :
  verify_at token key t = Ok v →
  ∃ exp_s, parse_u64 exp_s = Some (vt_expiry_unix v) ∧ t < vt_expiry_unix v < 2 ^ 64 ∧
    str_free ":" (vt_invoice_id v) = true ∧
    let payload := vt_invoice_id v +:+ ":" +:+ exp_s in
    b64url_decode token = Some (payload +:+ ":" +:+ hmac_sha256_hex key payload).
Proof.
  unfold verify_at. intros H. apply res_bind_ok in H as (composed & Hc%ok_or_ok & H).
  apply res_bind_ok in H as (? & _ & H). apply res_bind_ok in H as ([payload sig] & Hr%ok_or_ok & H).
  apply res_bind_ok in H as (? & He%ensure_ok & H).
  apply res_bind_ok in H as ([id exp_s] & Hs%ok_or_ok & H).
  apply res_bind_ok in H as (exp & Hp%ok_or_ok & H).
  destruct (Z.leb_spec exp t); [done|]. injection H as <-. cbn.
  apply constant_time_eq_spec in He as ->. apply rsplit_once_Some in Hr as ->.
  apply split_once_Some in Hs as [-> Hfree]. exists exp_s.
  split; [done|]. split; [|by split]. apply parse_unsigned_range in Hp. lia.
Qed.
End theorems.

(** ** An executable instance *)

(** Not the real digest and encoding: they only have the shape the laws ask for. *)
Module ConcreteCrypto.
#[export] Instance crypto : Crypto := {|
  sha256 s := resize 32 s;
  b64url_encode s := s;
  b64url_decode s := Some s;
|}.
#[export] Instance crypto_laws : CryptoLaws crypto.
Proof. split; [apply resize_length|done]. Qed.
End ConcreteCrypto.
#[local] Existing Instance ConcreteCrypto.crypto.
#[local] Existing Instance ConcreteCrypto.crypto_laws.

Lemma signed_link_valid_until_witness :
  let token := sign_at "invoice_01abc" 600 "some-key" 1000 in
  verify_at token "some-key" 1599 = Ok (MkVerifiedToken "invoice_01abc" 1600) ∧
  verify_at token "some-key" 1600 = Err Expired.
Proof.
  split; (rewrite -> (signed_link_valid_until);
    [reflexivity|reflexivity|reflexivity|lia..]).
Defined.

Lemma signed_link_authentic_witness :
  let token := sign_at "invoice_01abc" 600 "some-key" 1000 in
  ∃ exp_s, parse_u64 exp_s = Some 1600 ∧ 1599 < 1600 < 2 ^ 64 ∧
    str_free ":" "invoice_01abc" = true ∧
    let payload := "invoice_01abc" +:+ ":" +:+ exp_s in
    b64url_decode token =
      Some (payload +:+ ":" +:+ hmac_sha256_hex "some-key" payload).
Proof.
  intros token. apply (signed_link_authentic token "some-key" 1599
    (MkVerifiedToken "invoice_01abc" 1600)). vm_compute. reflexivity.
Defined.
