(* ===== verification/Concrete.v ===== *)
(** * An executable instance of the third-party interface

    Exact decimals, calendar dates, instants and numbered typeids.  It
    satisfies [PlatformLaws], so the hypotheses the theorems make about
    [rust_decimal], [chrono] and [mti] hold together, and the witnesses
    evaluate the program on it. *)

From S2P Require Import Prelude Rounding External.
From Stdlib Require Import Lqa.

Module Concrete.

(** ** Decimals: mantissa and scale *)

Record decimal := Dec { d_mant : Z; d_scale : nat }.

(** A decimal that the 28 places of [rust_decimal] can hold is kept at the
    larger scale. *)
Definition d_align (d : decimal) (s : nat) : Z := d_mant d * pow10 (s - d_scale d).
Definition d_add (a b : decimal) : decimal :=
  let s := Nat.max (d_scale a) (d_scale b) in Dec (d_align a s + d_align b s) s.
Definition d_mul (a b : decimal) : decimal :=
  Dec (d_mant a * d_mant b) (d_scale a + d_scale b).
Definition d_cmp (a b : decimal) : comparison :=
  let s := Nat.max (d_scale a) (d_scale b) in d_align a s ?= d_align b s.
(** Integer banker's rounding of [n / d]. *)
Definition d_round (a : decimal) (k : nat) : decimal :=
  if (d_scale a <=? k)%nat then a
  else Dec (half_even (d_mant a # Z.to_pos (pow10 (d_scale a - k)))) k.

Definition d_to_string (d : decimal) : string :=
  let m := Z.abs (d_mant d) in
  let sign := if d_mant d <? 0 then "-" else "" in
  match d_scale d with
  | O => sign +:+ show_Z m
  | s => sign +:+ show_Z (m / pow10 s) +:+ "." +:+ show_Z_pad s (m mod pow10 s)
  end.

(** The text before and after the last occurrence of [c]. *)
Fixpoint rsplit (c : ascii) (s : string) : option (string * string) :=
  match s with
  | EmptyString => None
  | String x s' =>
      match rsplit c s' with
      | Some (a, b) => Some (String x a, b)
      | None => if Ascii.eqb x c then Some (EmptyString, s') else None
      end
  end.

Definition d_unsigned (s : string) : option decimal :=
  match rsplit "."%char s with
  | None => n ← digits_val s; Some (Dec (Z.of_N n) 0)
  | Some (a, b) =>
      n ← digits_val a; f ← digits_val b;
      let k := String.length b in Some (Dec (Z.of_N n * pow10 k + Z.of_N f) k)
  end.

Definition d_from_str (s : string) : option decimal :=
  match s with
  | String c s' =>
      if Ascii.eqb c "-"%char then (λ d, Dec (- d_mant d) (d_scale d)) <$> d_unsigned s'
      else d_unsigned s
  | EmptyString => None
  end.

(** ** Dates and instants *)

Definition days_in_month (y m : Z) : Z :=
  if m =? 2 then
    if ((y mod 4 =? 0) && negb (y mod 100 =? 0)) || (y mod 400 =? 0) then 29 else 28
  else if (m =? 4) || (m =? 6) || (m =? 9) || (m =? 11) then 30 else 31.

Definition valid_ymd (y m d : Z) : bool :=
  (-262143 <=? y) && (y <=? 262142) && (1 <=? m) && (m <=? 12) &&
  (1 <=? d) && (d <=? days_in_month y m).

Record date := Date {
  d_year : Z; d_month : Z; d_day : Z; d_valid : valid_ymd d_year d_month d_day = true }.

Definition from_ymd_opt (y m d : Z) : option date :=
  match valid_ymd y m d as b return valid_ymd y m d = b → option date with
  | true => λ H, Some (Date y m d H)
  | false => λ _, None
  end eq_refl.

Definition date_cmp (a b : date) : comparison :=
  ymd_cmp (d_year a, d_month a, d_day a) (d_year b, d_month b, d_day b).

Definition date_to_string (a : date) : string :=
  show_Z_pad 4 (d_year a) +:+ "-" +:+ show_Z_pad 2 (d_month a) +:+ "-" +:+
  show_Z_pad 2 (d_day a).

Definition date_from_str (s : string) : option date :=
  y ← digits_val (String.substring 0 4 s);
  m ← digits_val (String.substring 5 2 s);
  d ← digits_val (String.substring 8 2 s);
  from_ymd_opt (Z.of_N y) (Z.of_N m) (Z.of_N d).

Definition valid_hms (h m s n : Z) : bool :=
  (0 <=? h) && (h <=? 23) && (0 <=? m) && (m <=? 59) && (0 <=? s) && (s <=? 59) && (0 <=? n).

Record datetime := DT {
  t_date : date; t_hour : Z; t_minute : Z; t_second : Z; t_nanos : Z;
  t_valid : valid_hms t_hour t_minute t_second t_nanos = true }.

Definition datetime_cmp (a b : datetime) : comparison :=
  match date_cmp (t_date a) (t_date b) with
  | Eq => match ymd_cmp (t_hour a, t_minute a, t_second a) (t_hour b, t_minute b, t_second b) with
          | Eq => t_nanos a ?= t_nanos b
          | c => c
          end
  | c => c
  end.

Definition datetime_to_rfc3339 (t : datetime) : string :=
  rfc3339 (d_year (t_date t)) (d_month (t_date t)) (d_day (t_date t))
          (t_hour t) (t_minute t) (t_second t) (t_nanos t).

Definition mk_datetime (d : date) (h m s n : Z) : option datetime :=
  match valid_hms h m s n as b return valid_hms h m s n = b → option datetime with
  | true => λ H, Some (DT d h m s n H)
  | false => λ _, None
  end eq_refl.

(** The fraction of a second in nanoseconds: nothing, or a point and at most
    nine digits. *)
Definition frac_from_str (s : string) : option Z :=
  match s with
  | EmptyString => Some 0
  | String "." f => n ← digits_val f; Some (Z.of_N n * pow10 (9 - String.length f))
  | _ => None
  end.

(** A text of the shape [rfc3339] prints: fixed fields, a fraction, six
    characters of offset. *)
Definition datetime_from_rfc3339 (s : string) : option datetime :=
  d ← date_from_str (String.substring 0 10 s);
  h ← digits_val (String.substring 11 2 s);
  mi ← digits_val (String.substring 14 2 s);
  se ← digits_val (String.substring 17 2 s);
  ns ← frac_from_str (String.substring 19 (String.length s - 25) s);
  mk_datetime d (Z.of_N h) (Z.of_N mi) (Z.of_N se) ns.

(** ** Typeids: a prefix and the number of the draw *)

Record typeid := TypeId { ti_pre : string; ti_num : nat }.

Definition typeid_to_string (t : typeid) : string :=
  ti_pre t +:+ String "_" (uint_str (N.of_nat (ti_num t))).

Definition typeid_from_str (s : string) : string + typeid :=
  match rsplit "_"%char s with
  | Some (p, n) =>
      match digits_val n with
      | Some n => inr (TypeId p (N.to_nat n))
      | None => inl "invalid suffix"
      end
  | None => inl "missing separator"
  end.

(** ** ORDER BY as a stable insertion sort *)

Fixpoint insert_by {A} (leb : A → A → bool) (x : A) (l : list A) : list A :=
  match l with
  | [] => [x]
  | y :: l' => if leb x y then x :: l else y :: insert_by leb x l'
  end.
Definition sort_by {A} (leb : A → A → bool) (l : list A) : list A :=
  foldr (insert_by leb) [] l.

#[export] Instance platform : Platform := {|
  Decimal := decimal;
  dec_new := Dec;
  dec_mantissa := d_mant;
  dec_scale := d_scale;
  dec_add a b := Some (d_add a b);
  dec_mul a b := Some (d_mul a b);
  dec_cmp := d_cmp;
  dec_round_half_even := d_round;
  dec_to_string := d_to_string;
  dec_from_str := d_from_str;
  NaiveDate := date;
  nd_from_ymd_opt := from_ymd_opt;
  nd_year := d_year;
  nd_month := d_month;
  nd_day := d_day;
  nd_cmp := date_cmp;
  nd_to_string := date_to_string;
  nd_from_str := date_from_str;
  DateTime := datetime;
  dt_cmp := datetime_cmp;
  dt_date_naive := t_date;
  dt_hour := t_hour;
  dt_minute := t_minute;
  dt_second := t_second;
  dt_nanosecond := t_nanos;
  dt_to_rfc3339 := datetime_to_rfc3339;
  dt_from_rfc3339 := datetime_from_rfc3339;
  dt_display := datetime_to_rfc3339;
  dt_serialize := datetime_to_rfc3339;
  MagicTypeId := typeid;
  ti_create := TypeId;
  ti_to_string := typeid_to_string;
  ti_from_str := typeid_from_str;
  ti_prefix := ti_pre;
  str_debug s := String "034" (s +:+ String "034" EmptyString);
  sql_order_text A k := sort_by (λ a b, String.leb (k a) (k b));
  sql_order_int A k := sort_by (λ a b, k a <=? k b);
|}.

(** ** The laws *)

Lemma pow10_add a b : pow10 (a + b) = pow10 a * pow10 b.
Proof. unfold pow10. rw Nat2Z.inj_add Z.pow_add_r; lia. Qed.

Lemma val_align d s :
  (d_scale d ≤ s)%nat → (val d == inject_Z (d_align d s) / inject_Z (pow10 s))%Q.
Proof.
  intros H. unfold val, d_align; cbn.
  replace (pow10 s) with (pow10 (d_scale d) * pow10 (s - d_scale d))
    by (rw -pow10_add; f_equal; lia).
  rw !inject_Z_mult. field. split; auto.
Qed.

Lemma d_cmp_val (a b : decimal) : d_cmp a b = (val a ?= val b)%Q.
Proof.
  unfold d_cmp. set (s := Nat.max _ _).
  rw (val_align a s); [lia|]. rw (val_align b s); [lia|].
  unfold Qdiv. generalize (d_align a s) (d_align b s). intros x y.
  destruct (Z.compare_spec x y) as [->|H|H]; symmetry.
  - by apply Qeq_alt.
  - apply Qlt_alt. apply Qmult_lt_compat_r; [apply Qinv_lt_0_compat, pow10_Q_pos|].
    by rw -Zlt_Qlt.
  - apply Qgt_alt. apply Qmult_lt_compat_r; [apply Qinv_lt_0_compat, pow10_Q_pos|].
    by rw -Zlt_Qlt.
Qed.

Lemma d_add_val (a b : decimal) : (val (d_add a b) == val a + val b)%Q.
Proof.
  unfold d_add. set (s := Nat.max _ _).
  rw (val_align a s); [lia|]. rw (val_align b s); [lia|].
  unfold val; cbn. rw inject_Z_plus. field. auto.
Qed.

Lemma d_mul_val (a b : decimal) : (val (d_mul a b) == val a * val b)%Q.
Proof. unfold d_mul, val; cbn. rw pow10_add !inject_Z_mult. field. auto. Qed.

Lemma d_round_val (a : decimal) k : (val (d_round a k) == round_dp (val a) k)%Q.
Proof.
  unfold d_round. destruct (Nat.leb_spec (d_scale a) k) as [H|H].
  - symmetry. apply round_dp_fixed. exists (d_align a k).
    rw (val_align a k); [done|]. field. auto.
  - unfold val, round_dp; cbn.
    assert (d_mant a # Z.to_pos (pow10 (d_scale a - k)) ==
            inject_Z (d_mant a) / inject_Z (pow10 (d_scale a)) * inject_Z (pow10 k))%Q as ->; [|done].
    replace (pow10 (d_scale a)) with (pow10 k * pow10 (d_scale a - k))
      by (rw -pow10_add; f_equal; lia).
    rw inject_Z_mult Qmake_Qdiv Z2Pos.id; [apply pow10_pos|]. field. split; auto.
Qed.

Lemma from_ymd_opt_Some y m d nd :
  from_ymd_opt y m d = Some nd → d_year nd = y ∧ d_month nd = m ∧ d_day nd = d.
Proof.
  unfold from_ymd_opt. generalize (eq_refl (valid_ymd y m d)).
  destruct (valid_ymd y m d) at 2 3; [|done]. intros e [= <-]. done.
Qed.

Lemma from_ymd_opt_valid y m d (H : valid_ymd y m d = true) :
  from_ymd_opt y m d = Some (Date y m d H).
Proof.
  unfold from_ymd_opt. generalize (eq_refl (valid_ymd y m d)).
  destruct (valid_ymd y m d) at 2 3; intros e; [|congruence].
  do 2 f_equal. apply Eqdep_dec.UIP_dec. apply Bool.bool_dec.
Qed.

Lemma days_in_month_bounds y m : 28 ≤ days_in_month y m ≤ 31.
Proof. unfold days_in_month. repeat case_match; lia. Qed.

Lemma valid_ymd_bounds y m d :
  valid_ymd y m d = true ↔
  -262143 ≤ y ≤ 262142 ∧ 1 ≤ m ≤ 12 ∧ 1 ≤ d ≤ days_in_month y m.
Proof. unfold valid_ymd. rw !andb_true_iff !Z.leb_le. tauto. Qed.

Lemma date_eq a b :
  d_year a = d_year b → d_month a = d_month b → d_day a = d_day b → a = b.
Proof.
  destruct a as [y m d v], b as [y' m' d' v']; cbn. intros -> -> ->.
  f_equal. apply Eqdep_dec.UIP_dec. apply Bool.bool_dec.
Qed.

Lemma width2 z : 0 ≤ z < 100 → String.length (show_Z_pad 2 z) = 2%nat.
Proof. intros. apply show_Z_pad_length; lia. Qed.
Lemma width4 z : 0 ≤ z < 10000 → String.length (show_Z_pad 4 z) = 4%nat.
Proof. intros. apply show_Z_pad_length; lia. Qed.

Lemma substring_take (s t : string) n :
  String.length s = n → String.substring 0 n (s +:+ t) = s.
Proof.
  intros <-. induction s as [|c s IH]; [by destruct t|]. rw str_app_cons. cbn. by f_equal.
Qed.
Lemma substring_drop (s t : string) n m :
  (String.length s ≤ n)%nat →
  String.substring n m (s +:+ t) = String.substring (n - String.length s) m t.
Proof.
  revert n; induction s as [|c s IH]; intros n H; [by rw Nat.sub_0_r|].
  destruct n as [|n]; cbn in H; [lia|]. rw str_app_cons. cbn. apply IH. lia.
Qed.

Lemma substring_skip (s t : string) k n m :
  String.length s = k → String.substring (k + n) m (s +:+ t) = String.substring n m t.
Proof. intros <-. rw substring_drop; [lia|]. f_equal. lia. Qed.

Lemma date_string_roundtrip a :
  0 ≤ d_year a ≤ 9999 → date_from_str (date_to_string a) = Some a.
Proof.
  intros Hy. pose proof (d_valid a) as Hv. pose proof Hv as Hv'.
  apply valid_ymd_bounds in Hv as (_ & Hm & Hd).
  pose proof (days_in_month_bounds (d_year a) (d_month a)).
  unfold date_from_str, date_to_string.
  pose proof (width4 (d_year a) ltac:(lia)) as W4.
  pose proof (width2 (d_month a) ltac:(lia)) as W2.
  pose proof (width2 (d_day a) ltac:(lia)) as W2'.
  pose proof (show_Z_pad_val 4 (d_year a) ltac:(lia)) as V4.
  pose proof (show_Z_pad_val 2 (d_month a) ltac:(lia)) as V2.
  pose proof (show_Z_pad_val 2 (d_day a) ltac:(lia)) as V2'.
  set (y := show_Z_pad 4 _) in *. set (m := show_Z_pad 2 (d_month a)) in *.
  set (d := show_Z_pad 2 (d_day a)) in *.
  rw (substring_take y _ 4 W4) !(substring_drop y); [lia..|]. rw W4.
  rw !(substring_drop "-"); [cbn; lia..|]. cbn [String.length Nat.sub].
  rw (substring_take m _ 2 W2) (substring_drop m); [lia|]. rw W2.
  rw (substring_drop "-"); [cbn; lia|]. cbn [String.length Nat.sub].
  rw -(str_app_nil_r d) (substring_take d _ 2 W2') V4 V2 V2'. cbn -[from_ymd_opt].
  rw !Z2N.id; [lia..|]. rw (from_ymd_opt_valid _ _ _ Hv'). f_equal. by apply date_eq.
Qed.

Lemma date_to_string_length a :
  0 ≤ d_year a ≤ 9999 → String.length (date_to_string a) = 10%nat.
Proof.
  intros Hy. pose proof (d_valid a) as Hv. apply valid_ymd_bounds in Hv as (_ & Hm & Hd).
  pose proof (days_in_month_bounds (d_year a) (d_month a)).
  unfold date_to_string. rw !str_app_length width4; [lia|]. rw !width2; [lia..|]. done.
Qed.

Lemma frac_roundtrip n :
  0 ≤ n < 1000000000 → frac_from_str (rfc3339_frac n) = Some n.
Proof.
  intros Hn. unfold rfc3339_frac.
  assert (∀ w k, (1 ≤ w ≤ 9)%nat → 0 ≤ k < pow10 w → k * pow10 (9 - w) = n →
    frac_from_str ("." +:+ show_Z_pad w k) = Some n) as Hf.
  { intros w k Hw Hk Hkn. rw str_app_cons. cbn [frac_from_str]. rw str_app_nil_l.
    rw show_Z_pad_val; [lia|]. cbn [mbind option_bind].
    rewrite show_Z_pad_length; [lia|done|]. rw Z2N.id; [lia|]. by rewrite Hkn. }
  destruct (Z.eqb_spec n 0) as [->|H0]; [done|].
  destruct (Z.eqb_spec (n mod 1000000) 0) as [H1|H1]; [|destruct (Z.eqb_spec (n mod 1000) 0) as [H2|H2]].
  - pose proof (Z.div_mod n 1000000). apply (Hf 3%nat); [lia|..].
    + change (pow10 3) with 1000. lia.
    + change (pow10 (9 - 3)) with 1000000. lia.
  - pose proof (Z.div_mod n 1000). apply (Hf 6%nat); [lia|..].
    + change (pow10 6) with 1000000. lia.
    + change (pow10 (9 - 6)) with 1000. lia.
  - apply (Hf 9%nat); [lia|change (pow10 9) with 1000000000; lia|].
    change (pow10 (9 - 9)) with 1. lia.
Qed.

Lemma rsplit_app c (p s : string) :
  rsplit c s = None → rsplit c (p +:+ String c s) = Some (p, s).
Proof.
  intros H. induction p as [|x p IH]; [|by rw str_app_cons; cbn; rw IH].
  rw str_app_nil_l. cbn. by rw H Ascii.eqb_refl.
Qed.

Lemma rsplit_digits c u :
  c = "_"%char ∨ c = "."%char → rsplit c (DecimalString.NilEmpty.string_of_uint u) = None.
Proof.
  intros [-> | ->]; induction u; cbn; try done; by rw IHu.
Qed.

Lemma uint_str_head n : ∃ c t, uint_str n = String c t ∧ Ascii.eqb c "-"%char = false.
Proof.
  pose proof (uint_str_nonempty n). unfold uint_str in *.
  destruct (N.to_uint n); cbn in *; [done|..]; eauto.
Qed.

Lemma rsplit_pad w n : rsplit "."%char (str_repeat "0"%char w +:+ uint_str n) = None.
Proof.
  induction w as [|w IH]; [by apply rsplit_digits; right|]. cbn [str_repeat]. rw str_app_cons. cbn. by rw IH.
Qed.

(** A non-negative numeral: digits, no point, its value. *)
Lemma show_Z_pad_digits k z :
  0 ≤ z → rsplit "."%char (show_Z_pad k z) = None.
Proof. intros Hz. unfold show_Z_pad. destruct (Z.ltb_spec z 0); [lia|]. apply rsplit_pad. Qed.
Lemma show_Z_nonneg z :
  0 ≤ z → show_Z z = uint_str (Z.to_N z).
Proof. intros Hz. unfold show_Z. by destruct (Z.ltb_spec z 0); [lia|]. Qed.

Definition d_abs_string (m : Z) (s : nat) : string :=
  match s with
  | O => show_Z m
  | s => show_Z (m / pow10 s) +:+ "." +:+ show_Z_pad s (m mod pow10 s)
  end.

Lemma d_unsigned_roundtrip z s : 0 ≤ z → d_unsigned (d_abs_string z s) = Some (Dec z s).
Proof.
  intros Hz. pose proof (pow10_pos s). unfold d_unsigned, d_abs_string. destruct s as [|s].
  - rw (show_Z_nonneg z Hz) (rsplit_pad 0 (Z.to_N z)) digits_val_uint_str. cbn. by rw Z2N.id.
  - assert (0 ≤ z / pow10 (S s)) as Hq by (apply Z.div_pos; lia).
    pose proof (Z.mod_pos_bound z (pow10 (S s)) ltac:(done)).
    rw (show_Z_nonneg _ Hq). change ("." +:+ ?x) with (String "." x).
    rw rsplit_app; [apply show_Z_pad_digits; lia|].
    rw digits_val_uint_str show_Z_pad_val; [lia|]. cbn [mbind option_bind].
    rewrite show_Z_pad_length; [lia|unfold pow10 in *; lia|]. rw !Z2N.id; [lia..|].
    do 2 f_equal. pose proof (Z.div_mod z (pow10 (S s))). lia.
Qed.

Lemma d_abs_string_head z s :
  0 ≤ z → ∃ c t, d_abs_string z s = String c t ∧ Ascii.eqb c "-"%char = false.
Proof.
  intros Hz. unfold d_abs_string. destruct s as [|s].
  - rw (show_Z_nonneg z Hz). apply uint_str_head.
  - rw show_Z_nonneg; [apply Z.div_pos; [lia|apply pow10_pos]|].
    destruct (uint_str_head (Z.to_N (z / pow10 (S s)))) as (c & t & -> & Hc).
    rw str_app_cons. eauto.
Qed.

Lemma decimal_roundtrip d : d_from_str (d_to_string d) = Some d.
Proof.
  destruct d as [m s].
  assert (d_to_string (Dec m s) =
    (if m <? 0 then "-" else "") +:+ d_abs_string (Z.abs m) s) as ->.
  { unfold d_to_string, d_abs_string. cbn. by destruct s. }
  pose proof (d_unsigned_roundtrip (Z.abs m) s ltac:(lia)) as Hr.
  destruct (Z.ltb_spec m 0).
  - rw str_app_cons str_app_nil_l. cbn [d_from_str]. rw Ascii.eqb_refl Hr. cbn.
    do 2 f_equal. lia.
  - rw str_app_nil_l. destruct (d_abs_string_head (Z.abs m) s) as (c & t & E & Hc); [lia|].
    rw E in Hr. rw E. cbn [d_from_str]. rw Hc Hr. do 2 f_equal. lia.
Qed.

Lemma typeid_roundtrip t : typeid_from_str (typeid_to_string t) = inr t.
Proof.
  unfold typeid_from_str, typeid_to_string. rw rsplit_app; [by apply rsplit_digits; left|].
  rw digits_val_uint_str Nat2N.id. by destruct t.
Qed.

Lemma valid_hms_bounds h m s n :
  valid_hms h m s n = true ↔
  0 ≤ h ≤ 23 ∧ 0 ≤ m ≤ 59 ∧ 0 ≤ s ≤ 59 ∧ 0 ≤ n.
Proof. unfold valid_hms. rw !andb_true_iff !Z.leb_le. tauto. Qed.

Lemma mk_datetime_valid d h m s n (H : valid_hms h m s n = true) :
  mk_datetime d h m s n = Some (DT d h m s n H).
Proof.
  unfold mk_datetime. generalize (eq_refl (valid_hms h m s n)).
  generalize (valid_hms h m s n) at 2 3. intros [] e; [|congruence].
  do 2 f_equal. apply Eqdep_dec.UIP_dec, Bool.bool_dec.
Qed.

Lemma datetime_roundtrip t :
  0 ≤ d_year (t_date t) ≤ 9999 → t_nanos t < 1000000000 →
  datetime_from_rfc3339 (datetime_to_rfc3339 t) = Some t.
Proof.
  intros Hy Hn. destruct t as [d h m s n Hv]; cbn [t_date t_hour t_minute t_second t_nanos] in *.
  pose proof Hv as (Hh & Hm & Hs & Hn0)%valid_hms_bounds.
  unfold datetime_to_rfc3339, datetime_from_rfc3339, rfc3339. cbn [t_date t_hour t_minute t_second t_nanos].
  pose proof (frac_roundtrip n ltac:(lia)) as Hf.
  pose proof (date_to_string_length d Hy) as Ld. pose proof (date_string_roundtrip d Hy) as Hd.
  pose proof (width2 h ltac:(lia)) as Lh. pose proof (width2 m ltac:(lia)) as Lm.
  pose proof (width2 s ltac:(lia)) as Ls.
  pose proof (show_Z_pad_val 2 h ltac:(lia)) as Vh. pose proof (show_Z_pad_val 2 m ltac:(lia)) as Vm.
  pose proof (show_Z_pad_val 2 s ltac:(lia)) as Vs.
  set (f := rfc3339_frac n) in *. set (hh := show_Z_pad 2 h) in *. set (mm := show_Z_pad 2 m) in *.
  set (ss := show_Z_pad 2 s) in *.
  match goal with |- context [date_from_str (String.substring 0 10 ?x)] =>
    assert (x = date_to_string d +:+ ("T" +:+ (hh +:+ (":" +:+ (mm +:+ (":" +:+ (ss +:+ (f +:+ "+00:00"))))))))
      as -> by (unfold date_to_string; by rw -!str_app_assoc) end.
  set (o := "+00:00"). set (r6 := f +:+ o). set (r5 := ss +:+ r6). set (r4 := mm +:+ (":" +:+ r5)).
  set (r3 := hh +:+ (":" +:+ r4)).
  rw (substring_take _ _ 10 Ld) Hd (substring_skip _ _ 10 1 2 Ld) (substring_skip _ _ 10 4 2 Ld)
    (substring_skip _ _ 10 7 2 Ld) (substring_skip _ _ 10 9 _ Ld).
  rw (substring_skip "T" r3 1 0 2 eq_refl) (substring_skip "T" r3 1 3 2 eq_refl)
    (substring_skip "T" r3 1 6 2 eq_refl) (substring_skip "T" r3 1 8 _ eq_refl).
  rw (substring_take hh _ 2 Lh) (substring_skip hh _ 2 1 2 Lh) (substring_skip hh _ 2 4 2 Lh)
    (substring_skip hh _ 2 6 _ Lh).
  rw (substring_skip ":" r4 1 0 2 eq_refl) (substring_skip ":" r4 1 3 2 eq_refl)
    (substring_skip ":" r4 1 5 _ eq_refl).
  rw (substring_take mm _ 2 Lm) (substring_skip mm _ 2 1 2 Lm) (substring_skip mm _ 2 3 _ Lm).
  rw (substring_skip ":" r5 1 0 2 eq_refl) (substring_skip ":" r5 1 2 _ eq_refl).
  rw (substring_take ss _ 2 Ls) (substring_skip ss _ 2 0 _ Ls).
  rw (substring_take f o (_ - 25)).
  { rw str_app_length Ld. unfold r3, r4, r5, r6, o. clearbody hh mm ss f.
    rw !str_app_length Lh Lm Ls. cbn [String.length]. lia. }
  rw Vh Vm Vs Hf. cbn [mbind option_bind]. rw !Z2N.id; [lia..|]. apply mk_datetime_valid.
Qed.

Lemma ymd_cmp_refl a : ymd_cmp a a = Eq.
Proof. unfold ymd_cmp. by rw !Z.compare_refl. Qed.
Lemma ymd_cmp_antisym a b : ymd_cmp b a = CompOpp (ymd_cmp a b).
Proof.
  unfold ymd_cmp. rw (Z.compare_antisym a.1.1) (Z.compare_antisym a.1.2) (Z.compare_antisym a.2).
  by destruct (a.1.1 ?= _), (a.1.2 ?= _), (a.2 ?= _).
Qed.
Lemma datetime_cmp_antisym a b : datetime_cmp b a = CompOpp (datetime_cmp a b).
Proof.
  unfold datetime_cmp, date_cmp.
  rw (ymd_cmp_antisym (d_year (t_date a), _, _)) (ymd_cmp_antisym (t_hour a, _, _))
     (Z.compare_antisym (t_nanos a)).
  by destruct (ymd_cmp _ _), (ymd_cmp (t_hour a, _, _) _), (t_nanos a ?= _).
Qed.

Lemma Sorted_impl {A} (R R' : A → A → Prop) l :
  (∀ a b, R a b → R' a b) → Sorted R l → Sorted R' l.
Proof.
  intros HR. induction 1 as [|a l Hl IH Hd]; [constructor|].
  constructor; [done|]. destruct Hd; constructor. auto.
Qed.

Section sorting.
Context {A : Type} (leb : A → A → bool).
Context (leb_total : ∀ a b, leb a b = true ∨ leb b a = true).

Lemma insert_by_perm x l : insert_by leb x l ≡ₚ x :: l.
Proof.
  induction l as [|y l IH]; cbn; [done|]. destruct (leb x y); [done|].
  rw IH. apply Permutation_swap.
Qed.
Lemma sort_by_perm l : sort_by leb l ≡ₚ l.
Proof.
  induction l as [|x l IH]; cbn; [done|]. etransitivity; [apply insert_by_perm|by constructor].
Qed.

Lemma insert_by_hdrel x y l :
  leb y x = true → HdRel (λ a b, leb a b = true) y l →
  HdRel (λ a b, leb a b = true) y (insert_by leb x l).
Proof. intros Hyx [|z k Hyz]; cbn; [by constructor|]. destruct (leb x z); by constructor. Qed.
Lemma insert_by_sorted x l :
  Sorted (λ a b, leb a b = true) l → Sorted (λ a b, leb a b = true) (insert_by leb x l).
Proof.
  induction 1 as [|y l Hl IH Hd]; cbn; [by repeat constructor|].
  destruct (leb x y) eqn:E.
  - constructor; [by constructor|by constructor].
  - constructor; [done|]. apply insert_by_hdrel; [|done]. destruct (leb_total x y); congruence.
Qed.
Lemma sort_by_sorted l : Sorted (λ a b, leb a b = true) (sort_by leb l).
Proof. induction l as [|x l IH]; cbn; [constructor|by apply insert_by_sorted]. Qed.
End sorting.

Lemma typeid_text_print p n : typeid_text p = true → typeid_text (typeid_to_string (TypeId p n)) = true.
Proof.
  unfold typeid_to_string. cbn [ti_pre ti_num]. intros Hp.
  induction p as [|c p IH].
  - rw str_app_nil_l. cbn [typeid_text]. unfold uint_str.
    induction (N.to_uint (N.of_nat n)); cbn in *; auto.
  - rw str_app_cons. cbn [typeid_text] in *. apply andb_true_iff in Hp as [-> Hp]. by apply IH.
Qed.

#[export] Instance platform_laws : PlatformLaws platform.
Proof.
  split; cbn.
  - intros m s _. reflexivity.
  - apply d_cmp_val.
  - intros a b _. eexists; split; [done|]. apply d_add_val.
  - intros a b _. eexists; split; [done|]. apply d_mul_val.
  - apply d_round_val.
  - intros y m d ???. pose proof (days_in_month_bounds y m).
    assert (valid_ymd y m d = true) as Hv by (apply valid_ymd_bounds; lia).
    exists (Date y m d Hv). apply from_ymd_opt_valid.
  - apply from_ymd_opt_Some.
  - intros nd. pose proof (days_in_month_bounds (d_year nd) (d_month nd)).
    pose proof (proj1 (valid_ymd_bounds _ _ _) (d_valid nd)). lia.
  - done.
  - apply date_eq.
  - done.
  - apply date_string_roundtrip.
  - done.
  - intros t. by apply valid_hms_bounds, t_valid.
  - done.
  - intros t. unfold datetime_cmp, date_cmp. by rw !ymd_cmp_refl Z.compare_refl.
  - intros t u. apply datetime_cmp_antisym.
  - done.
  - by intros p n m [= ->].
  - intros a b H. apply (f_equal typeid_from_str) in H. rw !typeid_roundtrip in H. congruence.
  - apply typeid_roundtrip.
  - intros [p n] Hp. by apply typeid_text_print.
  - intros [p n] _. by eexists.
  - intros A k l. apply sort_by_perm.
  - intros A k l. apply (sort_by_sorted (λ a b, String.leb (k a) (k b))).
    intros a b. apply String.leb_total.
  - intros A k l. apply sort_by_perm.
  - intros A k l. eapply Sorted_impl; [|apply (sort_by_sorted (λ a b, k a <=? k b)); intros; lia].
    intros a b. apply Z.leb_le.
Qed.

End Concrete.
