(* ===== verification/Money.v ===== *)
(** * Currencies and rounding ([core/src/domain/money.rs])

    [Currency] is the three-byte newtype, [new] its case-insensitive
    constructor, [scale] and [round] the minor-unit arithmetic. *)

From S2P Require Import Prelude Rounding External.
From Stdlib Require Import Lqa.

Definition is_ascii_alphabetic (c : ascii) : bool :=
  let n := N_of_ascii c in
  ((65 <=? n) && (n <=? 90) || (97 <=? n) && (n <=? 122))%N.
Definition to_ascii_uppercase (c : ascii) : ascii :=
  let n := N_of_ascii c in
  if ((97 <=? n) && (n <=? 122))%N then ascii_of_N (n - 32) else c.
Definition is_ascii_uppercase (c : ascii) : bool :=
  let n := N_of_ascii c in ((65 <=? n) && (n <=? 90))%N.

(** [Currency([u8; 3])] *)
Record Currency := MkCurrency { cur0 : ascii; cur1 : ascii; cur2 : ascii }.
#[export] Instance Currency_eq_dec : EqDecision Currency.
Proof. solve_decision. Defined.

Inductive CurrencyError := CurrencyInvalid (code : string).

(** [Display for CurrencyError] *)
Definition CurrencyError_to_string (e : CurrencyError) : string :=
  match e with
  | CurrencyInvalid code => "invalid ISO 4217 code: `" +:+ code +:+ "` (must be 3 ASCII letters)"
  end.

Module Currency.
Definition USD : Currency := MkCurrency "U" "S" "D".
Definition CAD : Currency := MkCurrency "C" "A" "D".
Definition DZD : Currency := MkCurrency "D" "Z" "D".

(** [Currency::new] *)
Definition new (code : string) : res CurrencyError Currency :=
  match code with
  | String a (String b (String c EmptyString)) =>
      if is_ascii_alphabetic a && is_ascii_alphabetic b && is_ascii_alphabetic c
      then Ok (MkCurrency (to_ascii_uppercase a) (to_ascii_uppercase b) (to_ascii_uppercase c))
      else Err (CurrencyInvalid code)
  | _ => Err (CurrencyInvalid code)
  end.

(** [Currency::as_str] (also [Display] and [From<Currency> for String]) *)
Definition as_str (c : Currency) : string :=
  String (cur0 c) (String (cur1 c) (String (cur2 c) EmptyString)).

(** [Currency::scale] *)
Definition scale (c : Currency) : nat :=
  if String.eqb (as_str c) "DZD" then 0%nat
  else if String.eqb (as_str c) "USD" || String.eqb (as_str c) "CAD" then 2%nat
  else 2%nat.

(** [Currency::round] *)
Definition round `{Platform} (c : Currency) (amount : Decimal) : Decimal :=
  dec_round_half_even amount (scale c).

(** The invariant of the newtype: three upper-case ASCII letters. *)
Definition wf (c : Currency) : bool :=
  is_ascii_uppercase (cur0 c) && is_ascii_uppercase (cur1 c) && is_ascii_uppercase (cur2 c).
End Currency.

(** Every byte, for statements checked by evaluation. *)
Lemma ascii_forall (f : ascii → bool) :
  forallb (λ n, f (ascii_of_nat n)) (seq 0 256) = true → ∀ c, f c = true.
Proof.
  intros H c. rw -(ascii_nat_embedding c). rw forallb_forall in H.
  apply (H (nat_of_ascii c)). apply in_seq. pose proof (nat_ascii_bounded c). lia.
Qed.

Lemma uppercase_of_alphabetic c :
  is_ascii_alphabetic c = true → is_ascii_uppercase (to_ascii_uppercase c) = true.
Proof.
  intros H. pose proof (ascii_forall
    (λ c, implb (is_ascii_alphabetic c) (is_ascii_uppercase (to_ascii_uppercase c)))
    ltac:(vm_compute; reflexivity) c) as Hi.
  cbn beta in Hi. rw H in Hi. done.
Qed.
Lemma uppercase_fixed c :
  is_ascii_uppercase c = true → is_ascii_alphabetic c = true ∧ to_ascii_uppercase c = c.
Proof.
  intros H. pose proof (ascii_forall
    (λ c, implb (is_ascii_uppercase c)
                (is_ascii_alphabetic c && Ascii.eqb (to_ascii_uppercase c) c))
    ltac:(vm_compute; reflexivity) c) as Hi.
  cbn beta in Hi. rw H /= in Hi. apply andb_true_iff in Hi as [? ?%Ascii.eqb_eq]. done.
Qed.

Section money.
Context {P : Platform} {L : PlatformLaws P}.
Implicit Types c : Currency.

Lemma scale_le_2 c : (Currency.scale c ≤ 2)%nat.
Proof. unfold Currency.scale. repeat case_match; lia. Qed.

Lemma round_val c a : (val (Currency.round c a) == round_dp (val a) (Currency.scale c))%Q.
Proof. apply dec_round_val. Qed.

Lemma round_on_grid c a : on_grid (Currency.scale c) (val (Currency.round c a)).
Proof. rw round_val. auto. Qed.

Lemma round_on_grid_fixed c a :
  on_grid (Currency.scale c) (val a) → (val (Currency.round c a) == val a)%Q.
Proof. intros. rw round_val. by apply round_dp_fixed. Qed.

Lemma round_nonneg c a : (0 <= val a)%Q → (0 <= val (Currency.round c a))%Q.
Proof. intros. rw round_val. by apply round_dp_nonneg. Qed.

(** A bounded amount on a currency's grid is exact. *)
Lemma money_representable c x :
  on_grid (Currency.scale c) x → (Qabs.Qabs x < inject_Z (2 ^ 89))%Q → representable x.
Proof.
  intros Hg Hb. pose proof (scale_le_2 c).
  apply (representable_on_grid (Currency.scale c)); [lia|done|].
  rw Qabs.Qabs_Qmult. rw (Qabs.Qabs_pos (inject_Z _)); [apply Qlt_le_weak, pow10_Q_pos|].
  assert (inject_Z (pow10 (Currency.scale c)) <= 100)%Q as Hp.
  { change 100%Q with (inject_Z 100). rw -Zle_Qle. unfold pow10.
    change 100 with (10 ^ 2). apply Z.pow_le_mono_r; lia. }
  pose proof (Qabs.Qabs_nonneg x) as H0.
  apply Qle_lt_trans with (Qabs.Qabs x * 100)%Q.
  { rw Qmult_comm (Qmult_comm _ 100). by apply Qmult_le_compat_r. }
  change (inject_Z (2 ^ 96)) with (inject_Z (2 ^ 89) * 128)%Q.
  change (inject_Z (2 ^ 89)) with (618970019642690137449562112 # 1)%Q in *. lra.
Qed.
(** A running total, as the loops of [draft] and [issue] keep it. *)
Fixpoint dec_sum (acc : Decimal) (l : list Decimal) : option Decimal :=
  match l with
  | [] => Some acc
  | x :: l => match dec_add acc x with Some acc => dec_sum acc l | None => None end
  end.
Definition Qsum (l : list Q) : Q := foldr Qplus 0%Q l.

Lemma Qsum_cons x l : Qsum (x :: l) = (x + Qsum l)%Q.
Proof. done. Qed.
Lemma Qsum_nonneg l : Forall (λ x, 0 <= x)%Q l → (0 <= Qsum l)%Q.
Proof. unfold Qsum. induction 1; cbn; [done|lra]. Qed.

Lemma Qsum_abs_nonneg l : (0 <= Qsum (Qabs.Qabs <$> l))%Q.
Proof.
  apply Qsum_nonneg, Forall_fmap, Forall_forall. intros x _. apply Qabs.Qabs_nonneg.
Qed.
Lemma Qsum_abs l : Forall (λ x, 0 <= x)%Q l → (Qsum (Qabs.Qabs <$> l) == Qsum l)%Q.
Proof. unfold Qsum. induction 1; cbn; [done|]. rw IHForall Qabs.Qabs_pos //. Qed.

Lemma Qsum_triangle l : (Qabs.Qabs (Qsum l) <= Qsum (Qabs.Qabs <$> l))%Q.
Proof.
  induction l as [|x l IH]; [done|]. rewrite -> fmap_cons, !Qsum_cons.
  pose proof (Qabs.Qabs_triangle x (Qsum l)). lra.
Qed.

(** Amounts on a currency's grid add up exactly. *)
Lemma dec_sum_exact c acc l :
  on_grid (Currency.scale c) (val acc) → Forall (λ x, on_grid (Currency.scale c) (val x)) l →
  (Qabs.Qabs (val acc) + Qsum (Qabs.Qabs <$> (val <$> l)) < inject_Z (2 ^ 89))%Q →
  ∃ s, dec_sum acc l = Some s ∧ (val s == val acc + Qsum (val <$> l))%Q ∧
       on_grid (Currency.scale c) (val s).
Proof.
  intros Hg Hl. revert acc Hg. induction Hl as [|x l Hgx Hl IH]; intros acc Hg Hb.
  - exists acc. split; [done|]. split; [cbn; lra|done].
  - rewrite -> !fmap_cons, Qsum_cons in Hb. rewrite -> fmap_cons, Qsum_cons. cbn [dec_sum].
    pose proof (Qsum_abs_nonneg (val <$> l)) as Hs.
    pose proof (Qabs.Qabs_triangle (val acc) (val x)) as Ht.
    destruct (dec_add_exact acc x) as (a & -> & Ha).
    { apply (money_representable c); [auto|]. lra. }
    destruct (IH a) as (s & -> & Hv & Hgs).
    + rw Ha. auto.
    + rw Ha. lra.
    + exists s. split; [done|]. split; [rw Hv Ha; ring|done].
Qed.
End money.
