(* ===== verification/Ids.v ===== *)
(** * Entity identifiers ([core/src/domain/ids.rs])

    The [define_entity_id!] macro instantiated for the seven entities: a
    newtype around the typeid per entity, whose parser enforces the prefix. *)

From S2P Require Import Prelude External.

(** The seven instances of the macro. *)
Inductive Entity :=
  | EInvoice | ECustomer | ECreditNote | ESchedule | EReminder | ELine | EHistory.
#[export] Instance Entity_eq_dec : EqDecision Entity.
Proof. solve_decision. Defined.

Definition URI_SCHEME : string := "inv".

(** [$name::PREFIX] *)
Definition PREFIX (e : Entity) : string :=
  match e with
  | EInvoice => "invoice"
  | ECustomer => "customer"
  | ECreditNote => "creditnote"
  | ESchedule => "schedule"
  | EReminder => "reminder"
  | ELine => "line"
  | EHistory => "history"
  end.

Inductive IdError :=
  | IdInvalid (msg : string)
  | PrefixMismatch (expected got : string).

(** [Display for IdError] *)
Definition IdError_to_string (e : IdError) : string :=
  match e with
  | IdInvalid msg => "invalid typeid: " +:+ msg
  | PrefixMismatch expected got =>
      "prefix mismatch: expected `" +:+ expected +:+ "`, got `" +:+ got +:+ "`"
  end.

Section ids.
Context `{P : Platform}.

(** [pub struct $name(MagicTypeId)] *)
Record EntityId (e : Entity) := MkId { as_typeid : MagicTypeId }.
#[global] Arguments MkId {e} _.
#[global] Arguments as_typeid {e} _.

(** [new_typeid]: [n] is the number of the draw. *)
Definition new_typeid (prefix : string) (n : nat) : MagicTypeId := ti_create prefix n.

Definition parse_typeid (s expected_prefix : string) : res IdError MagicTypeId :=
  match ti_from_str s with
  | inl e => Err (IdInvalid e)
  | inr parsed =>
      let got := ti_prefix parsed in
      if String.eqb got expected_prefix then Ok parsed
      else Err (PrefixMismatch expected_prefix got)
  end.

Definition id_new (e : Entity) (n : nat) : EntityId e := MkId (new_typeid (PREFIX e) n).
Definition id_parse (e : Entity) (s : string) : res IdError (EntityId e) :=
  MkId <$> parse_typeid s (PREFIX e).
Definition id_to_string {e} (i : EntityId e) : string := ti_to_string (as_typeid i).
Definition as_uri {e} (i : EntityId e) : string :=
  URI_SCHEME +:+ "://" +:+ PREFIX e +:+ "/" +:+ id_to_string i.

(** What the constructors guarantee: the typeid carries the entity's prefix. *)
Definition id_wf {e} (i : EntityId e) : Prop := ti_prefix (as_typeid i) = PREFIX e.
End ids.

Notation InvoiceId := (EntityId EInvoice).
Notation CustomerId := (EntityId ECustomer).
Notation CreditNoteId := (EntityId ECreditNote).
Notation ScheduleId := (EntityId ESchedule).
Notation ReminderId := (EntityId EReminder).
Notation LineId := (EntityId ELine).
Notation HistoryId := (EntityId EHistory).

Section ids_lemmas.
Context {P : Platform} {L : PlatformLaws P}.

Lemma PREFIX_inj e e' : PREFIX e = PREFIX e' → e = e'.
Proof. by destruct e, e'. Qed.

Lemma id_to_string_inj {e} (i j : EntityId e) : id_to_string i = id_to_string j → i = j.
Proof. destruct i, j. intros H%ti_to_string_inj. cbn in H. by subst. Qed.

Lemma id_new_inj e n m : id_new e n = id_new e m → n = m.
Proof. intros [= H]. by apply ti_create_fresh in H. Qed.

Lemma id_new_to_string_inj e n m :
  id_to_string (id_new e n) = id_to_string (id_new e m) → n = m.
Proof. intros H%id_to_string_inj. by apply id_new_inj in H. Qed.

Lemma id_parse_ok e s (i : EntityId e) : id_parse e s = Ok i → id_wf i.
Proof.
  unfold id_parse, parse_typeid, id_wf. intros H. inv_res.
  destruct (ti_from_str s) as [|t]; [done|].
  destruct (String.eqb_spec (ti_prefix t) (PREFIX e)); naive_solver.
Qed.

Lemma id_parse_print e e' (i : EntityId e') :
  id_parse e (id_to_string i) =
    if String.eqb (ti_prefix (as_typeid i)) (PREFIX e)
    then Ok (MkId (as_typeid i))
    else Err (PrefixMismatch (PREFIX e) (ti_prefix (as_typeid i))).
Proof.
  unfold id_parse, parse_typeid, id_to_string. rw ti_roundtrip. by case_match.
Qed.
End ids_lemmas.
