(* ===== verification/Domain.v ===== *)
(** * Domain records ([core/src/domain/])

    Invoices, lines, customers, credit notes, reminders, schedules and their
    history rows, with the fields and constructors of the source.
    [BTreeMap<String, String>] metadata is a [gmap]. *)

From S2P Require Import Prelude External Money Ids.

(** ** [jurisdiction.rs] *)
Inductive Jurisdiction := QuebecCa | DelawareUs | AlgiersDz.
#[export] Instance Jurisdiction_eq_dec : EqDecision Jurisdiction.
Proof. solve_decision. Defined.

Module Jurisdiction.
Definition as_str (j : Jurisdiction) : string :=
  match j with QuebecCa => "CA-QC" | DelawareUs => "US-DE" | AlgiersDz => "DZ-16" end.
Definition country (j : Jurisdiction) : string :=
  match j with QuebecCa => "CA" | DelawareUs => "US" | AlgiersDz => "DZ" end.
Definition from_str (s : string) : res string Jurisdiction :=
  if String.eqb s "CA-QC" then Ok QuebecCa
  else if String.eqb s "US-DE" then Ok DelawareUs
  else if String.eqb s "DZ-16" then Ok AlgiersDz
  else Err s.
End Jurisdiction.

(** ** [invoice.rs] *)
Inductive InvoiceState := Draft | Issued | Sent | Viewed | PartiallyPaid | Paid | Voided.
#[export] Instance InvoiceState_eq_dec : EqDecision InvoiceState.
Proof. solve_decision. Defined.

Inductive TaxCategory := Standard | Reduced | ZeroRated | Exempt.
#[export] Instance TaxCategory_eq_dec : EqDecision TaxCategory.
Proof. solve_decision. Defined.

Inductive HistoryChannel := HCli | HApi | HWs | HMcp | HBus.
#[export] Instance HistoryChannel_eq_dec : EqDecision HistoryChannel.
Proof. solve_decision. Defined.

(** ** [creditnote.rs] *)
Inductive CreditNoteState := CnDraft | CnIssued.
#[export] Instance CreditNoteState_eq_dec : EqDecision CreditNoteState.
Proof. solve_decision. Defined.

(** ** [reminder.rs] *)
Inductive ReminderChannel := RcFile | RcStdout | RcBus | RcWebhook | RcLink.
#[export] Instance ReminderChannel_eq_dec : EqDecision ReminderChannel.
Proof. solve_decision. Defined.
Inductive ReminderState := RScheduled | RSent | RCancelled.
#[export] Instance ReminderState_eq_dec : EqDecision ReminderState.
Proof. solve_decision. Defined.

(** ** [schedule.rs] *)
Inductive ScheduleState := SActive | SPaused | SCancelled.
#[export] Instance ScheduleState_eq_dec : EqDecision ScheduleState.
Proof. solve_decision. Defined.

(** A day of month or month is a [u8]. *)
Inductive Cadence :=
  | Monthly (dom : Z)
  | Quarterly (dom : Z)
  | Yearly (month day : Z).
#[export] Instance Cadence_eq_dec : EqDecision Cadence.
Proof. solve_decision. Defined.

Notation Metadata := (gmap string string).

Section records.
Context `{P : Platform}.

(** [address.rs] *)
Record Address := MkAddress {
  addr_country : string;
  addr_region : option string;
  addr_city : option string;
  addr_postal : option string;
  addr_line1 : option string;
  addr_line2 : option string;
}.

Definition country_only (country : string) : Address :=
  {| addr_country := country; addr_region := None; addr_city := None;
     addr_postal := None; addr_line1 := None; addr_line2 := None |}.

(** [customer.rs] *)
Record Customer := MkCustomer {
  cust_id : CustomerId;
  cust_display_name : string;
  cust_email : option string;
  cust_address : Address;
  cust_metadata : Metadata;
  cust_created_at : DateTime;
  cust_updated_at : DateTime;
}.

Record InvoiceLine := MkInvoiceLine {
  line_id : LineId;
  line_invoice_id : InvoiceId;
  line_position : Z;
  line_description : string;
  line_quantity : Decimal;
  line_unit_price : Decimal;
  line_tax_rate_ids : list string;
  line_tax_category : TaxCategory;
  line_tax_amount : Decimal;
  line_line_total : Decimal;
  line_metadata : Metadata;
}.

Record Invoice := MkInvoice {
  inv_id : InvoiceId;
  inv_number : option string;
  inv_customer_id : CustomerId;
  inv_seller_jurisdiction : Jurisdiction;
  inv_currency : Currency;
  inv_state : InvoiceState;
  inv_issued_at : option DateTime;
  inv_due_at : option DateTime;
  inv_sent_at : option DateTime;
  inv_viewed_at : option DateTime;
  inv_paid_at : option DateTime;
  inv_voided_at : option DateTime;
  inv_subtotal : Decimal;
  inv_tax_total : Decimal;
  inv_total : Decimal;
  inv_amount_paid : Decimal;
  inv_schedule_id : option ScheduleId;
  inv_template_path : option string;
  inv_pdf_blob_ref : option string;
  inv_idempotency_key : option string;
  inv_nexus_review : bool;
  inv_metadata : Metadata;
  inv_created_at : DateTime;
  inv_updated_at : DateTime;
}.

Record InvoiceStateHistory := MkHistory {
  h_id : HistoryId;
  h_invoice_id : InvoiceId;
  h_from_state : option InvoiceState;
  h_to_state : InvoiceState;
  h_event : string;
  h_actor : option string;
  h_channel : HistoryChannel;
  h_bus_event_id : option string;
  h_reason : option string;
  h_occurred_at : DateTime;
  h_published_at : option DateTime;
  h_metadata : Metadata;
}.

Record CreditNote := MkCreditNote {
  cn_id : CreditNoteId;
  cn_number : option string;
  cn_invoice_id : InvoiceId;
  cn_state : CreditNoteState;
  cn_amount : Decimal;
  cn_currency : Currency;
  cn_reason : option string;
  cn_refund_ref : option string;
  cn_issued_at : option DateTime;
  cn_metadata : Metadata;
  cn_created_at : DateTime;
}.

Record CreditNoteStateHistory := MkCnHistory {
  cnh_id : HistoryId;
  cnh_credit_note_id : CreditNoteId;
  cnh_from_state : option CreditNoteState;
  cnh_to_state : CreditNoteState;
  cnh_event : string;
  cnh_actor : option string;
  cnh_channel : HistoryChannel;
  cnh_bus_event_id : option string;
  cnh_occurred_at : DateTime;
  cnh_published_at : option DateTime;
  cnh_metadata : Metadata;
}.

Record Reminder := MkReminder {
  rem_id : ReminderId;
  rem_invoice_id : InvoiceId;
  rem_scheduled_at : DateTime;
  rem_sent_at : option DateTime;
  rem_channel : ReminderChannel;
  rem_state : ReminderState;
}.

Record ScheduleLine := MkScheduleLine {
  sl_description : string;
  sl_quantity : Decimal;
  sl_unit_price : Decimal;
  sl_tax_category : TaxCategory;
  sl_id : LineId;
}.

Record Schedule := MkSchedule {
  sch_id : ScheduleId;
  sch_customer_id : CustomerId;
  sch_template_lines : list ScheduleLine;
  sch_currency : Currency;
  sch_cadence : Cadence;
  sch_start_date : NaiveDate;
  sch_end_date : option NaiveDate;
  sch_auto_issue : bool;
  sch_next_run : NaiveDate;
  sch_last_run : option NaiveDate;
  sch_state : ScheduleState;
  sch_metadata : Metadata;
  sch_created_at : DateTime;
  sch_updated_at : DateTime;
}.

(** ** Field assignment: [x.field = v] on a mutable local *)
Definition set_inv_number (v : option string) (i : Invoice) : Invoice :=
  MkInvoice (inv_id i) v (inv_customer_id i) (inv_seller_jurisdiction i) (inv_currency i)
    (inv_state i) (inv_issued_at i) (inv_due_at i) (inv_sent_at i) (inv_viewed_at i)
    (inv_paid_at i) (inv_voided_at i) (inv_subtotal i) (inv_tax_total i) (inv_total i)
    (inv_amount_paid i) (inv_schedule_id i) (inv_template_path i) (inv_pdf_blob_ref i)
    (inv_idempotency_key i) (inv_nexus_review i) (inv_metadata i) (inv_created_at i)
    (inv_updated_at i).
Definition set_inv_state (v : InvoiceState) (i : Invoice) : Invoice :=
  MkInvoice (inv_id i) (inv_number i) (inv_customer_id i) (inv_seller_jurisdiction i)
    (inv_currency i) v (inv_issued_at i) (inv_due_at i) (inv_sent_at i) (inv_viewed_at i)
    (inv_paid_at i) (inv_voided_at i) (inv_subtotal i) (inv_tax_total i) (inv_total i)
    (inv_amount_paid i) (inv_schedule_id i) (inv_template_path i) (inv_pdf_blob_ref i)
    (inv_idempotency_key i) (inv_nexus_review i) (inv_metadata i) (inv_created_at i)
    (inv_updated_at i).
Definition set_inv_issued_at (v : option DateTime) (i : Invoice) : Invoice :=
  MkInvoice (inv_id i) (inv_number i) (inv_customer_id i) (inv_seller_jurisdiction i)
    (inv_currency i) (inv_state i) v (inv_due_at i) (inv_sent_at i) (inv_viewed_at i)
    (inv_paid_at i) (inv_voided_at i) (inv_subtotal i) (inv_tax_total i) (inv_total i)
    (inv_amount_paid i) (inv_schedule_id i) (inv_template_path i) (inv_pdf_blob_ref i)
    (inv_idempotency_key i) (inv_nexus_review i) (inv_metadata i) (inv_created_at i)
    (inv_updated_at i).
Definition set_inv_sent_at (v : option DateTime) (i : Invoice) : Invoice :=
  MkInvoice (inv_id i) (inv_number i) (inv_customer_id i) (inv_seller_jurisdiction i)
    (inv_currency i) (inv_state i) (inv_issued_at i) (inv_due_at i) v (inv_viewed_at i)
    (inv_paid_at i) (inv_voided_at i) (inv_subtotal i) (inv_tax_total i) (inv_total i)
    (inv_amount_paid i) (inv_schedule_id i) (inv_template_path i) (inv_pdf_blob_ref i)
    (inv_idempotency_key i) (inv_nexus_review i) (inv_metadata i) (inv_created_at i)
    (inv_updated_at i).
Definition set_inv_viewed_at (v : option DateTime) (i : Invoice) : Invoice :=
  MkInvoice (inv_id i) (inv_number i) (inv_customer_id i) (inv_seller_jurisdiction i)
    (inv_currency i) (inv_state i) (inv_issued_at i) (inv_due_at i) (inv_sent_at i) v
    (inv_paid_at i) (inv_voided_at i) (inv_subtotal i) (inv_tax_total i) (inv_total i)
    (inv_amount_paid i) (inv_schedule_id i) (inv_template_path i) (inv_pdf_blob_ref i)
    (inv_idempotency_key i) (inv_nexus_review i) (inv_metadata i) (inv_created_at i)
    (inv_updated_at i).
Definition set_inv_paid_at (v : option DateTime) (i : Invoice) : Invoice :=
  MkInvoice (inv_id i) (inv_number i) (inv_customer_id i) (inv_seller_jurisdiction i)
    (inv_currency i) (inv_state i) (inv_issued_at i) (inv_due_at i) (inv_sent_at i)
    (inv_viewed_at i) v (inv_voided_at i) (inv_subtotal i) (inv_tax_total i) (inv_total i)
    (inv_amount_paid i) (inv_schedule_id i) (inv_template_path i) (inv_pdf_blob_ref i)
    (inv_idempotency_key i) (inv_nexus_review i) (inv_metadata i) (inv_created_at i)
    (inv_updated_at i).
Definition set_inv_voided_at (v : option DateTime) (i : Invoice) : Invoice :=
  MkInvoice (inv_id i) (inv_number i) (inv_customer_id i) (inv_seller_jurisdiction i)
    (inv_currency i) (inv_state i) (inv_issued_at i) (inv_due_at i) (inv_sent_at i)
    (inv_viewed_at i) (inv_paid_at i) v (inv_subtotal i) (inv_tax_total i) (inv_total i)
    (inv_amount_paid i) (inv_schedule_id i) (inv_template_path i) (inv_pdf_blob_ref i)
    (inv_idempotency_key i) (inv_nexus_review i) (inv_metadata i) (inv_created_at i)
    (inv_updated_at i).
Definition set_inv_subtotal (v : Decimal) (i : Invoice) : Invoice :=
  MkInvoice (inv_id i) (inv_number i) (inv_customer_id i) (inv_seller_jurisdiction i)
    (inv_currency i) (inv_state i) (inv_issued_at i) (inv_due_at i) (inv_sent_at i)
    (inv_viewed_at i) (inv_paid_at i) (inv_voided_at i) v (inv_tax_total i) (inv_total i)
    (inv_amount_paid i) (inv_schedule_id i) (inv_template_path i) (inv_pdf_blob_ref i)
    (inv_idempotency_key i) (inv_nexus_review i) (inv_metadata i) (inv_created_at i)
    (inv_updated_at i).
Definition set_inv_tax_total (v : Decimal) (i : Invoice) : Invoice :=
  MkInvoice (inv_id i) (inv_number i) (inv_customer_id i) (inv_seller_jurisdiction i)
    (inv_currency i) (inv_state i) (inv_issued_at i) (inv_due_at i) (inv_sent_at i)
    (inv_viewed_at i) (inv_paid_at i) (inv_voided_at i) (inv_subtotal i) v (inv_total i)
    (inv_amount_paid i) (inv_schedule_id i) (inv_template_path i) (inv_pdf_blob_ref i)
    (inv_idempotency_key i) (inv_nexus_review i) (inv_metadata i) (inv_created_at i)
    (inv_updated_at i).
Definition set_inv_total (v : Decimal) (i : Invoice) : Invoice :=
  MkInvoice (inv_id i) (inv_number i) (inv_customer_id i) (inv_seller_jurisdiction i)
    (inv_currency i) (inv_state i) (inv_issued_at i) (inv_due_at i) (inv_sent_at i)
    (inv_viewed_at i) (inv_paid_at i) (inv_voided_at i) (inv_subtotal i) (inv_tax_total i)
    v (inv_amount_paid i) (inv_schedule_id i) (inv_template_path i) (inv_pdf_blob_ref i)
    (inv_idempotency_key i) (inv_nexus_review i) (inv_metadata i) (inv_created_at i)
    (inv_updated_at i).
Definition set_inv_amount_paid (v : Decimal) (i : Invoice) : Invoice :=
  MkInvoice (inv_id i) (inv_number i) (inv_customer_id i) (inv_seller_jurisdiction i)
    (inv_currency i) (inv_state i) (inv_issued_at i) (inv_due_at i) (inv_sent_at i)
    (inv_viewed_at i) (inv_paid_at i) (inv_voided_at i) (inv_subtotal i) (inv_tax_total i)
    (inv_total i) v (inv_schedule_id i) (inv_template_path i) (inv_pdf_blob_ref i)
    (inv_idempotency_key i) (inv_nexus_review i) (inv_metadata i) (inv_created_at i)
    (inv_updated_at i).
Definition set_inv_pdf_blob_ref (v : option string) (i : Invoice) : Invoice :=
  MkInvoice (inv_id i) (inv_number i) (inv_customer_id i) (inv_seller_jurisdiction i)
    (inv_currency i) (inv_state i) (inv_issued_at i) (inv_due_at i) (inv_sent_at i)
    (inv_viewed_at i) (inv_paid_at i) (inv_voided_at i) (inv_subtotal i) (inv_tax_total i)
    (inv_total i) (inv_amount_paid i) (inv_schedule_id i) (inv_template_path i) v
    (inv_idempotency_key i) (inv_nexus_review i) (inv_metadata i) (inv_created_at i)
    (inv_updated_at i).
Definition set_inv_nexus_review (v : bool) (i : Invoice) : Invoice :=
  MkInvoice (inv_id i) (inv_number i) (inv_customer_id i) (inv_seller_jurisdiction i)
    (inv_currency i) (inv_state i) (inv_issued_at i) (inv_due_at i) (inv_sent_at i)
    (inv_viewed_at i) (inv_paid_at i) (inv_voided_at i) (inv_subtotal i) (inv_tax_total i)
    (inv_total i) (inv_amount_paid i) (inv_schedule_id i) (inv_template_path i)
    (inv_pdf_blob_ref i) (inv_idempotency_key i) v (inv_metadata i) (inv_created_at i)
    (inv_updated_at i).
Definition set_inv_updated_at (v : DateTime) (i : Invoice) : Invoice :=
  MkInvoice (inv_id i) (inv_number i) (inv_customer_id i) (inv_seller_jurisdiction i)
    (inv_currency i) (inv_state i) (inv_issued_at i) (inv_due_at i) (inv_sent_at i)
    (inv_viewed_at i) (inv_paid_at i) (inv_voided_at i) (inv_subtotal i) (inv_tax_total i)
    (inv_total i) (inv_amount_paid i) (inv_schedule_id i) (inv_template_path i)
    (inv_pdf_blob_ref i) (inv_idempotency_key i) (inv_nexus_review i) (inv_metadata i)
    (inv_created_at i) v.
Definition set_line_tax_rate_ids (v : list string) (l : InvoiceLine) : InvoiceLine :=
  MkInvoiceLine (line_id l) (line_invoice_id l) (line_position l) (line_description l)
    (line_quantity l) (line_unit_price l) v (line_tax_category l) (line_tax_amount l)
    (line_line_total l) (line_metadata l).
Definition set_line_tax_amount (v : Decimal) (l : InvoiceLine) : InvoiceLine :=
  MkInvoiceLine (line_id l) (line_invoice_id l) (line_position l) (line_description l)
    (line_quantity l) (line_unit_price l) (line_tax_rate_ids l) (line_tax_category l) v
    (line_line_total l) (line_metadata l).
Definition set_line_line_total (v : Decimal) (l : InvoiceLine) : InvoiceLine :=
  MkInvoiceLine (line_id l) (line_invoice_id l) (line_position l) (line_description l)
    (line_quantity l) (line_unit_price l) (line_tax_rate_ids l) (line_tax_category l)
    (line_tax_amount l) v (line_metadata l).
Definition set_h_published_at (v : option DateTime) (h : InvoiceStateHistory) : InvoiceStateHistory :=
  MkHistory (h_id h) (h_invoice_id h) (h_from_state h) (h_to_state h) (h_event h) (h_actor
    h) (h_channel h) (h_bus_event_id h) (h_reason h) (h_occurred_at h) v (h_metadata h).
Definition set_cnh_published_at (v : option DateTime) (h : CreditNoteStateHistory) : CreditNoteStateHistory :=
  MkCnHistory (cnh_id h) (cnh_credit_note_id h) (cnh_from_state h) (cnh_to_state h)
    (cnh_event h) (cnh_actor h) (cnh_channel h) (cnh_bus_event_id h) (cnh_occurred_at h) v
    (cnh_metadata h).
Definition set_cn_number (v : option string) (c : CreditNote) : CreditNote :=
  MkCreditNote (cn_id c) v (cn_invoice_id c) (cn_state c) (cn_amount c) (cn_currency c)
    (cn_reason c) (cn_refund_ref c) (cn_issued_at c) (cn_metadata c) (cn_created_at c).
Definition set_cn_state (v : CreditNoteState) (c : CreditNote) : CreditNote :=
  MkCreditNote (cn_id c) (cn_number c) (cn_invoice_id c) v (cn_amount c) (cn_currency c)
    (cn_reason c) (cn_refund_ref c) (cn_issued_at c) (cn_metadata c) (cn_created_at c).
Definition set_cn_issued_at (v : option DateTime) (c : CreditNote) : CreditNote :=
  MkCreditNote (cn_id c) (cn_number c) (cn_invoice_id c) (cn_state c) (cn_amount c)
    (cn_currency c) (cn_reason c) (cn_refund_ref c) v (cn_metadata c) (cn_created_at c).
Definition set_rem_sent_at (v : option DateTime) (r : Reminder) : Reminder :=
  MkReminder (rem_id r) (rem_invoice_id r) (rem_scheduled_at r) v (rem_channel r)
    (rem_state r).
Definition set_rem_state (v : ReminderState) (r : Reminder) : Reminder :=
  MkReminder (rem_id r) (rem_invoice_id r) (rem_scheduled_at r) (rem_sent_at r)
    (rem_channel r) v.
Definition set_sch_next_run (v : NaiveDate) (x : Schedule) : Schedule :=
  MkSchedule (sch_id x) (sch_customer_id x) (sch_template_lines x) (sch_currency x)
    (sch_cadence x) (sch_start_date x) (sch_end_date x) (sch_auto_issue x) v (sch_last_run
    x) (sch_state x) (sch_metadata x) (sch_created_at x) (sch_updated_at x).
Definition set_sch_last_run (v : option NaiveDate) (x : Schedule) : Schedule :=
  MkSchedule (sch_id x) (sch_customer_id x) (sch_template_lines x) (sch_currency x)
    (sch_cadence x) (sch_start_date x) (sch_end_date x) (sch_auto_issue x) (sch_next_run
    x) v (sch_state x) (sch_metadata x) (sch_created_at x) (sch_updated_at x).
Definition set_sch_state (v : ScheduleState) (x : Schedule) : Schedule :=
  MkSchedule (sch_id x) (sch_customer_id x) (sch_template_lines x) (sch_currency x)
    (sch_cadence x) (sch_start_date x) (sch_end_date x) (sch_auto_issue x) (sch_next_run
    x) (sch_last_run x) v (sch_metadata x) (sch_created_at x) (sch_updated_at x).
Definition set_sch_updated_at (v : DateTime) (x : Schedule) : Schedule :=
  MkSchedule (sch_id x) (sch_customer_id x) (sch_template_lines x) (sch_currency x)
    (sch_cadence x) (sch_start_date x) (sch_end_date x) (sch_auto_issue x) (sch_next_run
    x) (sch_last_run x) (sch_state x) (sch_metadata x) (sch_created_at x) v.
End records.
