(* ===== verification/InvoiceFsm.v ===== *)
(** * The invoice state machine ([core/src/state/])

    [transitions.rs] (the transition table), [machine.rs] (the [StateMachine]
    facade and [BareMachine]) and [adapter_statig.rs] (the [statig]-backed
    adapter).  [Step] is the lifecycle diagram as a relation; the table decides
    it, and both machines implement it. *)

From S2P Require Import Prelude Rounding External Concrete Money Ids Domain.
From Stdlib Require Import Lqa.

(** ** [transitions.rs] *)

Section transitions.
Context `{P : Platform}.

Inductive InvoiceEvent :=
  | Issue
  | Send
  | Remind
  | View
  | Pay (amount_paid total : Decimal)
  | Void.

Definition tag (e : InvoiceEvent) : string :=
  match e with
  | Issue => "issue"
  | Send => "send"
  | Remind => "remind"
  | View => "view"
  | Pay _ _ => "pay"
  | Void => "void"
  end.

Inductive TransitionError :=
  | Illegal (state : InvoiceState) (event : string)
  | NonPositivePayment (amount_paid : Decimal).

Inductive PaymentKind := Full | Partial.

Definition classify_payment (amount_paid total : Decimal) : res TransitionError PaymentKind :=
  if dec_leb amount_paid dec_zero then Err (NonPositivePayment amount_paid)
  else if dec_leb total amount_paid then Ok Full
  else Ok Partial.

Definition illegal (state : InvoiceState) (event : InvoiceEvent) : TransitionError :=
  Illegal state (tag event).

Definition pay_from_open (amount_paid total : Decimal) : res TransitionError InvoiceState :=
  k ← classify_payment amount_paid total;
  match k with
  | Full => Ok Paid
  | Partial => Ok PartiallyPaid
  end.

Definition next_state (current : InvoiceState) (event : InvoiceEvent)
    : res TransitionError InvoiceState :=
  match current, event with
  | Draft, Issue => Ok Issued
  | Draft, _ => Err (illegal current event)
  | Issued, Send => Ok Sent
  | Issued, Pay amount_paid total => pay_from_open amount_paid total
  | Issued, Void => Ok Voided
  | Issued, _ => Err (illegal current event)
  | Sent, Remind => Ok Sent
  | Sent, View => Ok Viewed
  | Sent, Pay amount_paid total => pay_from_open amount_paid total
  | Sent, Void => Ok Voided
  | Sent, _ => Err (illegal current event)
  | Viewed, Pay amount_paid total => pay_from_open amount_paid total
  | Viewed, Void => Ok Voided
  | Viewed, _ => Err (illegal current event)
  | PartiallyPaid, Pay amount_paid total =>
      k ← classify_payment amount_paid total;
      match k with
      | Full => Ok Paid
      | Partial => Ok PartiallyPaid
      end
  | PartiallyPaid, Void => Ok Voided
  | PartiallyPaid, _ => Err (illegal current event)
  | Paid, _ => Err (illegal current event)
  | Voided, _ => Err (illegal current event)
  end.

Definition is_self_edge (current : InvoiceState) (event : InvoiceEvent) : bool :=
  match current, event with Sent, Remind => true | _, _ => false end.
End transitions.

(** ** [machine.rs] *)

Section machine.
Context `{P : Platform}.

Inductive VetoError :=
  | VetoIllegal (e : TransitionError)
  | Vetoed (reason : string).

(** The trait [StateMachine<S, E>]: an implementation [M] with its
    observation, dry run and mutating [apply]; [propose] is the trait's
    default method. *)
Class StateMachine (M S E : Type) := {
  current_state : M → S;
  dry_run : M → E → res TransitionError S;
  apply : M → E → M * res TransitionError S;
}.

Definition propose {M S E : Type} {SM : StateMachine M S E} (m : M) (e : E) : res VetoError S :=
  map_err VetoIllegal (dry_run m e).

(** What every implementation of the facade owes its callers: [apply]
    answers what [dry_run] announced, moves to that state, and leaves the
    state alone when it refuses. *)
Class StateMachineLaws (M S E : Type) {SM : StateMachine M S E} : Prop := {
  apply_dry_run m e : (apply m e).2 = dry_run m e;
  apply_ok m e s : dry_run m e = Ok s → current_state (apply m e).1 = s;
  apply_err m e : is_ok (dry_run m e) = false →
    current_state (apply m e).1 = current_state m;
}.

Record BareMachine := MkBareMachine { bm_state : InvoiceState }.
Definition BareMachine_new (initial : InvoiceState) : BareMachine := MkBareMachine initial.

#[export] Instance BareMachine_StateMachine :
    StateMachine BareMachine InvoiceState InvoiceEvent := {
  current_state m := bm_state m;
  dry_run m e := next_state (bm_state m) e;
  apply m e :=
    match next_state (bm_state m) e with
    | Ok next => (MkBareMachine next, Ok next)
    | Err err => (m, Err err)
    | Panic => (m, Panic)
    end;
}.
End machine.

(** ** [statig] (third party)

    A blocking [statig] machine for leaf states [S] and events [E], given the
    leaf handler and the handler of the superstate: an event is first offered
    to the leaf; [Super] passes it to the leaf's superstate, and is dropped
    when there is none; [Transition] moves to the target leaf. *)

Inductive Response (S : Type) := Transition (s : S) | Super | Handled.
Arguments Transition {S} s.
Arguments Super {S}.
Arguments Handled {S}.

Class Statig (S E : Type) := {
  sm : Type;
  sm_init : S → sm;
  sm_state : sm → S;
  (* leaf handler, superstate handler of a leaf, machine, event *)
  sm_handle : (S → E → Response S) → (S → E → Response S) → sm → E → sm;
}.

Class StatigLaws (S E : Type) (St : Statig S E) : Prop := {
  sm_state_init s : sm_state (sm_init s) = s;
  sm_state_handle leaf super m e :
    sm_state (sm_handle leaf super m e) =
      match leaf (sm_state m) e with
      | Transition s => s
      | Handled => sm_state m
      | Super => match super (sm_state m) e with
                 | Transition s => s
                 | _ => sm_state m
                 end
      end;
}.

(** ** [adapter_statig.rs] *)

Inductive StatigState := StDraft | StIssued | StSent | StViewed | StPartiallyPaid | StPaid | StVoided.
Inductive StatigSuperstate := SsIssued.

Definition to_domain (s : StatigState) : InvoiceState :=
  match s with
  | StDraft => Draft | StIssued => Issued | StSent => Sent | StViewed => Viewed
  | StPartiallyPaid => PartiallyPaid | StPaid => Paid | StVoided => Voided
  end.
Definition from_domain (s : InvoiceState) : StatigState :=
  match s with
  | Draft => StDraft | Issued => StIssued | Sent => StSent | Viewed => StViewed
  | PartiallyPaid => StPartiallyPaid | Paid => StPaid | Voided => StVoided
  end.

Section adapter.
Context `{P : Platform} {St : Statig StatigState InvoiceEvent}.

Definition call_handler (s : StatigState) (event : InvoiceEvent) : Response StatigState :=
  match next_state (to_domain s) event with
  | Ok next => Transition (from_domain next)
  | _ => Super
  end.

Definition superstate (s : StatigState) : option StatigSuperstate :=
  match s with
  | StIssued | StSent | StViewed => Some SsIssued
  | StDraft | StPartiallyPaid | StPaid | StVoided => None
  end.

Definition superstate_call_handler (s : StatigSuperstate) (event : InvoiceEvent)
    : Response StatigState := Handled.

(** The superstate handler as the machine reaches it from a leaf. *)
Definition super_of (s : StatigState) (event : InvoiceEvent) : Response StatigState :=
  match superstate s with
  | Some ss => superstate_call_handler ss event
  | None => Super
  end.

Record StatigAdapter := MkStatigAdapter { inner : sm; shadow : InvoiceState }.

Definition StatigAdapter_new (initial : InvoiceState) : StatigAdapter :=
  MkStatigAdapter (sm_init StDraft) initial.

Definition statig_state (a : StatigAdapter) : StatigState := sm_state (inner a).

Definition StatigAdapter_apply (a : StatigAdapter) (e : InvoiceEvent)
    : StatigAdapter * res TransitionError InvoiceState :=
  match next_state (shadow a) e with
  | Ok next =>
      let inner' := if bool_decide (to_domain (sm_state (inner a)) = shadow a)
                    then sm_handle call_handler super_of (inner a) e
                    else inner a in
      (MkStatigAdapter inner' next, Ok next)
  | Err err => (a, Err err)
  | Panic => (a, Panic)
  end.

#[export] Instance StatigAdapter_StateMachine :
    StateMachine StatigAdapter InvoiceState InvoiceEvent := {
  current_state a := shadow a;
  dry_run a e := next_state (shadow a) e;
  apply := StatigAdapter_apply;
}.

(** A whole run of events through a machine, with the answers it gave. *)
Fixpoint run_events {M S E : Type} {SM : StateMachine M S E} (m : M) (es : list E)
    : M * list (res TransitionError S) :=
  match es with
  | [] => (m, [])
  | e :: es =>
      let '(m', r) := apply m e in
      let '(m'', rs) := run_events m' es in
      (m'', r :: rs)
  end.
End adapter.

(** ** The lifecycle as a relation *)

(** States that accept a payment or a void. *)
Definition open_state (s : InvoiceState) : Prop :=
  s = Issued ∨ s = Sent ∨ s = Viewed ∨ s = PartiallyPaid.
Definition terminal (s : InvoiceState) : bool :=
  match s with Paid | Voided => true | _ => false end.

Section lifecycle.
Context `{P : Platform}.

Inductive Step : InvoiceState → InvoiceEvent → InvoiceState → Prop :=
  | Step_issue : Step Draft Issue Issued
  | Step_send : Step Issued Send Sent
  | Step_remind : Step Sent Remind Sent
  | Step_view : Step Sent View Viewed
  | Step_pay_full s a t :
      open_state s → (0 < val a)%Q → (val t <= val a)%Q → Step s (Pay a t) Paid
  | Step_pay_partial s a t :
      open_state s → (0 < val a)%Q → (val a < val t)%Q → Step s (Pay a t) PartiallyPaid
  | Step_void s : open_state s → Step s Void Voided.

(** A sequence of legal steps. *)
Inductive Steps : InvoiceState → list InvoiceEvent → InvoiceState → Prop :=
  | Steps_nil s : Steps s [] s
  | Steps_cons s e s' es s'' : Step s e s' → Steps s' es s'' → Steps s (e :: es) s''.

(** Progress through the lifecycle. *)
Definition rank (s : InvoiceState) : nat :=
  match s with
  | Draft => 0 | Issued => 1 | Sent => 2 | Viewed => 3 | PartiallyPaid => 4
  | Paid => 5 | Voided => 5
  end.

(** The number of steps of a run that change the state. *)
Fixpoint moves (s : InvoiceState) (es : list InvoiceEvent) : nat :=
  match es with
  | [] => 0
  | e :: es =>
      match next_state s e with
      | Ok s' => (if bool_decide (s = s') then 0 else 1) + moves s' es
      | _ => moves s es
      end
  end%nat.
End lifecycle.

#[export] Hint Constructors Step Steps : inv.
#[export] Hint Unfold open_state : inv.

Section fsm_lemmas.
Context {P : Platform} {L : PlatformLaws P}.

Lemma classify_payment_full a t :
  classify_payment a t = Ok Full ↔ (0 < val a)%Q ∧ (val t <= val a)%Q.
Proof.
  unfold classify_payment. pose proof val_zero as Hz.
  destruct (dec_leb a dec_zero) eqn:E1;
    [apply dec_leb_val in E1|apply dec_leb_val_false in E1].
  { split; [done|]. intros [? _]. lra. }
  destruct (dec_leb t a) eqn:E2; [apply dec_leb_val in E2|apply dec_leb_val_false in E2].
  - split; [intros _; split; lra|done].
  - split; [done|]. intros [_ ?]. lra.
Qed.

Lemma classify_payment_partial a t :
  classify_payment a t = Ok Partial ↔ (0 < val a)%Q ∧ (val a < val t)%Q.
Proof.
  unfold classify_payment. pose proof val_zero as Hz.
  destruct (dec_leb a dec_zero) eqn:E1;
    [apply dec_leb_val in E1|apply dec_leb_val_false in E1].
  { split; [done|]. intros [? _]. lra. }
  destruct (dec_leb t a) eqn:E2; [apply dec_leb_val in E2|apply dec_leb_val_false in E2].
  - split; [done|]. intros [_ ?]. lra.
  - split; [intros _; split; lra|done].
Qed.

Lemma pay_from_open_ok a t s' :
  pay_from_open a t = Ok s' ↔
    (s' = Paid ∧ (0 < val a)%Q ∧ (val t <= val a)%Q) ∨
    (s' = PartiallyPaid ∧ (0 < val a)%Q ∧ (val a < val t)%Q).
Proof.
  rw -classify_payment_full -classify_payment_partial. unfold pay_from_open.
  destruct (classify_payment a t) as [[]| |]; cbn; naive_solver.
Qed.

Lemma next_state_pay s a t :
  open_state s → next_state s (Pay a t) = pay_from_open a t.
Proof. by intros [-> | [-> | [-> | ->]]]. Qed.
Lemma next_state_void s : open_state s → next_state s Void = Ok Voided.
Proof. by intros [-> | [-> | [-> | ->]]]. Qed.

(** The table only accepts the steps of the diagram. *)
Lemma next_state_sound s e s' : next_state s e = Ok s' → Step s e s'.
Proof.
  assert (∀ a t, open_state s → next_state s (Pay a t) = Ok s' → Step s (Pay a t) s') as Hpay.
  { intros a t Ho. rw next_state_pay // pay_from_open_ok.
    intros [(-> & ? & ?)|(-> & ? & ?)]; eauto with inv. }
  destruct s, e; try done; try (by apply Hpay; unfold open_state; tauto);
    cbn; intros [= <-]; eauto with inv; constructor; unfold open_state; tauto.
Qed.

Lemma next_state_complete s e s' : Step s e s' → next_state s e = Ok s'.
Proof.
  destruct 1; try done.
  - rw next_state_pay // pay_from_open_ok; auto.
  - rw next_state_pay // pay_from_open_ok; auto.
  - by rw next_state_void.
Qed.

Lemma next_state_no_panic s e : next_state s e ≠ Panic.
Proof.
  assert (∀ a t, pay_from_open a t ≠ Panic) as Hp.
  { intros a t. unfold pay_from_open, classify_payment.
    by destruct (dec_leb a dec_zero), (dec_leb t a). }
  destruct s, e; try done; apply Hp.
Qed.

Lemma Step_rank s e s' :
  Step s e s' →
  (rank s < rank s')%nat ∨
  s' = s ∧ (s = Sent ∧ e = Remind ∨ s = PartiallyPaid ∧ ∃ a t, e = Pay a t).
Proof.
  destruct 1 as [| | | |s a t Ho|s a t Ho|s Ho]; cbn; try (left; lia); [by auto|..];
    destruct Ho as [-> | [-> | [-> | ->]]]; cbn; (try (left; lia)); right; eauto 10.
Qed.

Lemma next_state_rank s e s' :
  next_state s e = Ok s' → (rank s ≤ rank s')%nat ∧ (s ≠ s' → (rank s < rank s')%nat).
Proof.
  intros H%next_state_sound%Step_rank. destruct H as [H|(-> & _)]; [|done].
  split; [lia|done].
Qed.

(** The transition table decides the lifecycle relation, and an event is
    refused (never a panic) exactly when the relation has no step for it. *)
Lemma next_state_decides_lifecycle s e :
  (∀ s', next_state s e = Ok s' ↔ Step s e s') ∧
  ((∃ err, next_state s e = Err err) ↔ ¬ ∃ s', Step s e s').
Proof.
  split; [split; [apply next_state_sound|apply next_state_complete]|].
  split.
  - intros [err He] [s' Hs]. apply next_state_complete in Hs. congruence.
  - intros Hn. pose proof (next_state_no_panic s e).
    destruct (next_state s e) as [s'|err|] eqn:E; [|by eauto|done].
    apply next_state_sound in E. naive_solver.
Qed.

(** C19: an invoice changes state at most five times, whatever events it is
    offered, and once it is paid or voided every event is refused. *)
Theorem lifecycle_terminates s es :
  (moves s es ≤ 5 - rank s)%nat ∧
  (terminal s = true → ∀ e, next_state s e = Err (illegal s e)).
Proof.
  split; [|by destruct s].
  revert s. induction es as [|e es IH]; intros s; cbn [moves]; [lia|].
  destruct (next_state s e) as [s'| |] eqn:E; [|apply IH..].
  apply next_state_rank in E as [Hle Hlt]. specialize (IH s').
  assert (rank s' ≤ 5)%nat by (destruct s'; cbn; lia).
  destruct (bool_decide_reflect (s = s')) as [->|Hne]; [lia|]. specialize (Hlt Hne). lia.
Qed.
End fsm_lemmas.

(** ** Both machines implement the facade *)

Section machines.
Context {P : Platform} {St : Statig StatigState InvoiceEvent}.

#[export] Instance BareMachine_laws :
  StateMachineLaws BareMachine InvoiceState InvoiceEvent.
Proof.
  split.
  - intros m e. cbn. by destruct (next_state _ e).
  - intros m e s. cbn. by intros ->.
  - intros m e. cbn. by destruct (next_state _ e).
Qed.

#[export] Instance StatigAdapter_laws :
  StateMachineLaws StatigAdapter InvoiceState InvoiceEvent.
Proof.
  split.
  - intros m e. cbn. unfold StatigAdapter_apply. by destruct (next_state _ e).
  - intros m e s. cbn. unfold StatigAdapter_apply. by intros ->.
  - intros m e. cbn. unfold StatigAdapter_apply. by destruct (next_state _ e).
Qed.

Lemma to_from_domain s : to_domain (from_domain s) = s.
Proof. by destruct s. Qed.
Lemma from_to_domain s : from_domain (to_domain s) = s.
Proof. by destruct s. Qed.

Context {SL : StatigLaws StatigState InvoiceEvent St}.

(** Driving the inner machine on a legal event takes it to the state the
    table announces. *)
Lemma inner_handle_legal m e next :
  next_state (to_domain (sm_state m)) e = Ok next →
  sm_state (sm_handle call_handler super_of m e) = from_domain next.
Proof. intros E. rw sm_state_handle /call_handler E. done. Qed.

Lemma next_state_not_draft s e s' : next_state s e = Ok s' → s' ≠ Draft.
Proof.
  destruct s, e; cbn; unfold pay_from_open, classify_payment; try congruence;
    repeat case_match; naive_solver.
Qed.

(** The two situations of the adapter: in step with the inner machine, or
    rehydrated past the inner machine's initial state. *)
Definition in_step (a : StatigAdapter) : Prop := statig_state a = from_domain (shadow a).
Definition rehydrated (a : StatigAdapter) : Prop := statig_state a = StDraft ∧ shadow a ≠ Draft.

Lemma apply_in_step a e : in_step a → in_step (apply a e).1.
Proof.
  unfold in_step, statig_state. intros Hs. cbn. unfold StatigAdapter_apply.
  destruct (next_state (shadow a) e) as [next| |] eqn:E; cbn; try done.
  rw bool_decide_true; [by rw Hs to_from_domain|].
  apply inner_handle_legal. by rw Hs to_from_domain.
Qed.

Lemma apply_rehydrated a e : rehydrated a → rehydrated (apply a e).1.
Proof.
  unfold rehydrated, statig_state. intros [Hs Hn]. cbn. unfold StatigAdapter_apply.
  destruct (next_state (shadow a) e) as [next| |] eqn:E; cbn; try done.
  rw bool_decide_false; [rw Hs; naive_solver|]. split; [done|].
  by eapply next_state_not_draft.
Qed.

(** [run_events] keeps what [apply] keeps. *)
Lemma run_events_inv (I : StatigAdapter → Prop) a es :
  (∀ a e, I a → I (apply a e).1) → I a → I (run_events a es).1.
Proof.
  intros Hstep. revert a. induction es as [|e es IH]; intros a Ha; cbn; [done|].
  specialize (Hstep a e Ha). change (StatigAdapter_apply a e) with (apply a e).
  destruct (apply a e) as [a' r]. cbn in Hstep.
  specialize (IH a' Hstep). by destruct (run_events a' es).
Qed.

Lemma run_events_bare a b es :
  shadow a = bm_state b →
  (run_events a es).2 = (run_events b es).2 ∧
  shadow (run_events a es).1 = bm_state (run_events b es).1.
Proof.
  revert a b. induction es as [|e es IH]; intros a b Hab; cbn; [done|].
  unfold StatigAdapter_apply. rw Hab.
  destruct (next_state (bm_state b) e) as [next|err|]; cbn.
  - set (a' := MkStatigAdapter _ next). specialize (IH a' (MkBareMachine next) eq_refl).
    destruct (run_events a' es), (run_events (MkBareMachine next) es). cbn in *.
    destruct IH as [-> ->]. done.
  - specialize (IH a b Hab). destruct (run_events a es), (run_events b es). cbn in *.
    destruct IH as [-> ->]. done.
  - specialize (IH a b Hab). destruct (run_events a es), (run_events b es). cbn in *.
    destruct IH as [-> ->]. done.
Qed.

(** C18: for every seed state and every sequence of events, the statig adapter
    gives the answers of the bare machine and ends in its state; the inner
    statig machine follows along when the adapter was seeded with [Draft] and
    stays at its initial state otherwise. *)
Theorem statig_adapter_parity seed es :
  let a := run_events (StatigAdapter_new seed) es in
  let b := run_events (BareMachine_new seed) es in
  a.2 = b.2 ∧ current_state a.1 = current_state b.1 ∧
  statig_state a.1 = (if bool_decide (seed = Draft) then from_domain (shadow a.1) else StDraft).
Proof.
  cbn zeta. pose proof (run_events_bare (StatigAdapter_new seed) (BareMachine_new seed) es eq_refl)
    as [H1 H2].
  split; [done|]. split; [done|]. case_bool_decide as Hd.
  - apply (run_events_inv in_step); [apply apply_in_step|].
    unfold in_step, statig_state. cbn. by rw Hd sm_state_init.
  - apply (run_events_inv rehydrated _ es); [apply apply_rehydrated|].
    split; [|done]. unfold statig_state. cbn. apply sm_state_init.
Qed.
End machines.

(** ** Witnesses *)

#[local] Existing Instance Concrete.platform.
#[local] Existing Instance Concrete.platform_laws.

#[export] Instance concrete_statig {S E} : Statig S E := {|
  sm := S;
  sm_init s := s;
  sm_state s := s;
  sm_handle leaf super m e :=
    match leaf m e with
    | Transition s => s
    | Handled => m
    | Super => match super m e with Transition s => s | _ => m end
    end;
|}.
#[export] Instance concrete_statig_laws {S E} : StatigLaws S E concrete_statig.
Proof. split; done. Qed.

Definition pay_of (a t : Z) : @InvoiceEvent Concrete.platform :=
  Pay (P:=Concrete.platform) (Concrete.Dec a 2) (Concrete.Dec t 2).

Lemma next_state_decides_lifecycle_witness :
  Step PartiallyPaid (pay_of 10000 10000) Paid ∧ ¬ ∃ s', Step Viewed Send s'.
Proof.
  split.
  - apply (proj1 (proj1 (next_state_decides_lifecycle PartiallyPaid (pay_of 10000 10000)) Paid)).
    reflexivity.
  - apply (proj1 (proj2 (next_state_decides_lifecycle Viewed Send))). eexists. reflexivity.
Defined.

Lemma lifecycle_terminates_witness :
  (moves Draft [Issue; Send; Remind; View; pay_of 4000 10000; pay_of 10000 10000; Void] ≤ 5)%nat.
Proof. apply (lifecycle_terminates (P:=Concrete.platform) Draft). Defined.

Lemma statig_adapter_parity_witness :
  (run_events (StatigAdapter_new (P:=Concrete.platform) Sent) [View; Send; Void]).2 =
  [Ok Viewed; Err (Illegal Viewed "send"); Ok Voided].
Proof.
  destruct (statig_adapter_parity (P:=Concrete.platform) Sent [View; Send; Void]) as [-> _].
  reflexivity.
Defined.
