(* ===== verification/Cadence.v ===== *)
(** * Recurring cadences ([core/src/domain/schedule.rs])

    The cadence grammar ([from_str], [to_string]) and [advance], the date of
    the next run.  [occurs] says which dates a cadence names; [advance] is the
    first of them strictly after a date. *)

From S2P Require Import Prelude External Concrete Domain.

Inductive CadenceError :=
  | MissingArg (s : string)
  | InvalidDom (s : string)
  | InvalidYearly (s : string)
  | UnknownPrefix (s : string).

(** [Display for CadenceError] *)
Definition CadenceError_to_string (e : CadenceError) : string :=
  match e with
  | MissingArg s => "missing `@<arg>` suffix in cadence: " +:+ s
  | InvalidDom s => "invalid day-of-month: " +:+ s
  | InvalidYearly s => "invalid yearly date `MM-DD`: " +:+ s
  | UnknownPrefix s => "unrecognised cadence prefix: " +:+ s
  end.

Module Cadence.
Section cadence.
Context `{P : Platform}.

Definition parse_dom (s : string) : res CadenceError Z :=
  match parse_u8 s with
  | None => Err (InvalidDom s)
  | Some dom =>
      if (1 <=? dom) && (dom <=? 28) then Ok dom else Err (InvalidDom s)
  end.

(** [NaiveDate::from_ymd_opt(..).expect(..)] *)
Definition from_ymd (y m d : Z) : res CadenceError NaiveDate :=
  or_panic (nd_from_ymd_opt y m d).

(** [while month > 12 { month -= 12; year += 1; }]: the month is at most 15
    here, so the loop runs at most once; [fuel] bounds its iterations. *)
Fixpoint carry_months (fuel : nat) (year month : Z) : Z * Z :=
  match fuel with
  | O => (year, month)
  | S fuel => if 12 <? month then carry_months fuel (year + 1) (month - 12) else (year, month)
  end.

Definition advance (c : Cadence) (from : NaiveDate) : res CadenceError NaiveDate :=
  match c with
  | Monthly dom =>
      let '(year, month) := (nd_year from, nd_month from) in
      let '(year, month) :=
        if dom <=? nd_day from mod 256 then
          if month =? 12 then (year + 1, 1) else (year, month + 1)
        else (year, month) in
      from_ymd year month dom
  | Quarterly dom =>
      let '(year, month) := (nd_year from, nd_month from) in
      let '(year, month) :=
        if dom <=? nd_day from mod 256 then carry_months 2 year (month + 3)
        else (year, month) in
      from_ymd year month dom
  | Yearly month day =>
      let year := nd_year from in
      candidate ← from_ymd year month day;
      if nd_ltb from candidate then Ok candidate
      else from_ymd (year + 1) month day
  end.

(** [Display] *)
Definition to_string (c : Cadence) : string :=
  match c with
  | Monthly dom => "monthly@" +:+ show_Z dom
  | Quarterly dom => "quarterly@" +:+ show_Z dom
  | Yearly month day => "yearly@" +:+ show_Z_pad 2 month +:+ "-" +:+ show_Z_pad 2 day
  end.

Definition from_str (s : string) : res CadenceError Cadence :=
  '(prefix, arg) ← ok_or (MissingArg s) (split_once "@" s);
  if String.eqb prefix "monthly" then Monthly <$> parse_dom arg
  else if String.eqb prefix "quarterly" then Quarterly <$> parse_dom arg
  else if String.eqb prefix "yearly" then
    '(mm, dd) ← ok_or (InvalidYearly arg) (split_once "-" arg);
    month ← ok_or (InvalidYearly arg) (parse_u8 mm);
    day ← ok_or (InvalidYearly arg) (parse_u8 dd);
    if negb ((1 <=? month) && (month <=? 12)) || negb ((1 <=? day) && (day <=? 28))
    then Err (InvalidYearly arg)
    else Ok (Yearly month day)
  else Err (UnknownPrefix prefix).

(** The cadences the parser produces. *)
Definition wf (c : Cadence) : bool :=
  match c with
  | Monthly dom | Quarterly dom => (1 <=? dom) && (dom <=? 28)
  | Yearly month day => (1 <=? month) && (month <=? 12) && (1 <=? day) && (day <=? 28)
  end.

(** The number of months since year 0, and the dates a cadence names; the
    quarters are counted from the month of [from]. *)
Definition month_index (d : NaiveDate) : Z := 12 * nd_year d + nd_month d.
Definition occurs (c : Cadence) (from d : NaiveDate) : Prop :=
  match c with
  | Monthly dom => nd_day d = dom
  | Quarterly dom => nd_day d = dom ∧ (3 | month_index d - month_index from)
  | Yearly month day => nd_month d = month ∧ nd_day d = day
  end.
End cadence.
End Cadence.

Section cadence_lemmas.
Context {P : Platform} {L : PlatformLaws P}.
Import Cadence.

(** A date as one number: days of a calendar with 31-day months. *)
Definition date_key (d : NaiveDate) : Z := 31 * (12 * nd_year d + nd_month d) + nd_day d.

Lemma nd_ltb_key a b : nd_ltb a b = true ↔ date_key a < date_key b.
Proof.
  unfold nd_ltb, date_key. rw nd_cmp_ymd. unfold ymd_cmp. cbn.
  pose proof (nd_fields_valid a). pose proof (nd_fields_valid b).
  destruct (Z.compare_spec (nd_year a) (nd_year b)); [|split; [|done]; lia|split; [done|]; lia].
  destruct (Z.compare_spec (nd_month a) (nd_month b)); [|split; [|done]; lia|split; [done|]; lia].
  destruct (Z.compare_spec (nd_day a) (nd_day b)); split; (done || lia).
Qed.

Lemma from_ymd_key y m d :
  -262143 ≤ y ≤ 262142 → 1 ≤ m ≤ 12 → 1 ≤ d ≤ 28 →
  ∃ nd, from_ymd y m d = Ok nd ∧ nd_year nd = y ∧ nd_month nd = m ∧ nd_day nd = d.
Proof.
  intros Hy Hm Hd. destruct (nd_from_ymd_valid y m d Hy Hm Hd) as [nd E].
  exists nd. unfold from_ymd. rw E. split; [done|]. by apply nd_from_ymd_fields.
Qed.

(** [d] is the first date named by [c] strictly after [from]. *)
Definition next_occurrence (c : Cadence) (from d : NaiveDate) : Prop :=
  occurs c from d ∧ nd_ltb from d = true ∧
  ∀ d', occurs c from d' → nd_ltb from d' = true → nd_ltb d' d = false.

Lemma next_occurrence_key c from d :
  occurs c from d → date_key from < date_key d →
  (∀ d', occurs c from d' → date_key from < date_key d' → date_key d ≤ date_key d') →
  next_occurrence c from d.
Proof.
  intros Ho Hlt Hmin. split; [done|]. split; [by apply nd_ltb_key|].
  intros d' Ho' Hlt'%nd_ltb_key. specialize (Hmin d' Ho' Hlt').
  apply not_true_iff_false. rw nd_ltb_key. lia.
Qed.

Lemma advance_monthly dom from :
  1 ≤ dom ≤ 28 → nd_year from ≤ 262141 →
  ∃ d, advance (Monthly dom) from = Ok d ∧ next_occurrence (Monthly dom) from d.
Proof.
  intros Hdom Hy. pose proof (nd_fields_valid from) as (Hy' & Hm & Hd).
  cbn [advance]. rw Z.mod_small; [lia|].
  set (ym := if dom <=? nd_day from then _ else _).
  assert (-262143 ≤ ym.1 ≤ 262142 ∧ 1 ≤ ym.2 ≤ 12 ∧
          12 * ym.1 + ym.2 = month_index from + (if dom <=? nd_day from then 1 else 0)) as (H1 & H2 & H3).
  { subst ym. unfold month_index. repeat case_match; cbn; lia. }
  destruct ym as [y m]. cbn [fst snd] in *.
  destruct (from_ymd_key y m dom H1 H2 Hdom) as (d & -> & Ey & Em & Ed).
  exists d. split; [done|]. unfold month_index in *.
  apply next_occurrence_key; unfold occurs, date_key.
  - done.
  - case_match; lia.
  - intros d' Ho Hlt. pose proof (nd_fields_valid d'). case_match; nia.
Qed.

Lemma advance_quarterly dom from :
  1 ≤ dom ≤ 28 → nd_year from ≤ 262141 →
  ∃ d, advance (Quarterly dom) from = Ok d ∧ next_occurrence (Quarterly dom) from d.
Proof.
  intros Hdom Hy. pose proof (nd_fields_valid from) as (Hy' & Hm & Hd).
  cbn [advance]. rw Z.mod_small; [lia|].
  set (ym := if dom <=? nd_day from then _ else _).
  assert (-262143 ≤ ym.1 ≤ 262142 ∧ 1 ≤ ym.2 ≤ 12 ∧
          12 * ym.1 + ym.2 = month_index from + (if dom <=? nd_day from then 3 else 0)) as (H1 & H2 & H3).
  { subst ym. unfold month_index, carry_months. repeat case_match; cbn; lia. }
  destruct ym as [y m]. cbn [fst snd] in *.
  destruct (from_ymd_key y m dom H1 H2 Hdom) as (d & -> & Ey & Em & Ed).
  exists d. split; [done|]. unfold month_index in *.
  apply next_occurrence_key; unfold occurs, date_key, month_index.
  - split; [done|]. case_match; [exists 1|exists 0]; lia.
  - case_match; lia.
  - intros d' [Ho [k Hk]] Hlt. pose proof (nd_fields_valid d'). case_match; nia.
Qed.

Lemma advance_yearly month day from :
  1 ≤ month ≤ 12 → 1 ≤ day ≤ 28 → nd_year from ≤ 262141 →
  ∃ d, advance (Yearly month day) from = Ok d ∧ next_occurrence (Yearly month day) from d.
Proof.
  intros Hmo Hda Hy. pose proof (nd_fields_valid from) as (Hy' & Hm & Hd).
  cbn [advance].
  destruct (from_ymd_key (nd_year from) month day) as (c & -> & Ey & Em & Ed); [lia..|].
  cbn [mbind res_bind]. destruct (nd_ltb from c) eqn:E.
  - exists c. split; [done|]. apply nd_ltb_key in E.
    apply next_occurrence_key; unfold occurs, date_key in *; [done|lia|].
    intros d' [? ?] Hlt. pose proof (nd_fields_valid d'). nia.
  - destruct (from_ymd_key (nd_year from + 1) month day) as (d & -> & Ey' & Em' & Ed'); [lia..|].
    exists d. split; [done|]. apply not_true_iff_false in E. rw nd_ltb_key in E.
    apply next_occurrence_key; unfold occurs, date_key in *; [done|lia|].
    intros d' [? ?] Hlt. pose proof (nd_fields_valid d'). nia.
Qed.

Lemma advance_first c from :
  wf c = true → nd_year from ≤ 262141 →
  ∃ d, advance c from = Ok d ∧ next_occurrence c from d.
Proof.
  destruct c; cbn [wf]; rw !andb_true_iff !Z.leb_le; intros ? ?.
  - by apply advance_monthly.
  - by apply advance_quarterly.
  - apply advance_yearly; lia.
Qed.

(** C17: on a cadence the parser accepts and a date up to the year 262141
    (chrono's calendar ends in 262142), [advance] does not panic and returns the
    first date strictly after [from] that the cadence names: monthly is that day
    of every month, yearly that day of that month of every year, and quarterly
    that day of every third month counted from the month of [from], which need not
    be the first month of a quarter as the comment on the variant has it
    ([quarterly_keeps_phase]). *)
Theorem advance_next_occurrence c from :
  wf c = true → nd_year from ≤ 262141 →
  ∃ d, advance c from = Ok d ∧ next_occurrence c from d.
Proof. exact (advance_first c from). Qed.
(** A quarterly cadence stays in the months it started in: from February it
    goes on to May, August and November. *)
Lemma quarterly_keeps_phase dom from :
  1 ≤ dom ≤ 28 → nd_year from ≤ 262141 →
  ∃ d, advance (Quarterly dom) from = Ok d ∧ nd_month d mod 3 = nd_month from mod 3.
Proof.
  intros Hdom Hy. destruct (advance_quarterly dom from Hdom Hy) as (d & Ha & (_ & k & Hk) & _).
  exists d. split; [done|]. unfold month_index in Hk.
  replace (nd_month d) with (nd_month from + (k + 4 * (nd_year from - nd_year d)) * 3) by lia.
  apply Z.mod_add. lia.
Qed.
End cadence_lemmas.

(** ** The grammar *)

Lemma parse_dom_ok s dom : Cadence.parse_dom s = Ok dom → 1 ≤ dom ≤ 28.
Proof.
  unfold Cadence.parse_dom. destruct (parse_u8 s); [|done].
  case_match; [|done]. intros [= <-]. lia.
Qed.

Lemma from_str_wf s c : Cadence.from_str s = Ok c → Cadence.wf c = true.
Proof.
  unfold Cadence.from_str. intros H. inv_res. destruct x as [prefix arg].
  repeat case_match; inv_res; cbn.
  - match goal with H : Cadence.parse_dom _ = _ |- _ => apply parse_dom_ok in H end. cbn. lia.
  - match goal with H : Cadence.parse_dom _ = _ |- _ => apply parse_dom_ok in H end. cbn. lia.
  - destruct x as [mm dd]. inv_res. case_match; [done|]. inv_res. cbn. lia.
Qed.

(** Every well-formed cadence, to check the printer and the parser against
    each other by evaluation. *)
Definition all_cadences : list Cadence :=
  (Monthly <$> seqZ 1 28) ++ (Quarterly <$> seqZ 1 28) ++
  (m ← seqZ 1 12; Yearly m <$> seqZ 1 28).

Definition roundtrips (c : Cadence) : bool :=
  match Cadence.from_str (Cadence.to_string c) with
  | Ok c' => bool_decide (c' = c)
  | _ => false
  end.

Lemma all_cadences_wf c : Cadence.wf c = true → c ∈ all_cadences.
Proof.
  unfold all_cadences. rw 2!elem_of_app.
  destruct c as [d|d|m d]; cbn [Cadence.wf]; rw !andb_true_iff !Z.leb_le; intros H.
  - left. apply list_elem_of_fmap. exists d. split; [done|]. apply elem_of_seqZ. lia.
  - right; left. apply list_elem_of_fmap. exists d. split; [done|]. apply elem_of_seqZ. lia.
  - right; right. apply list_elem_of_bind. exists m. split; [|apply elem_of_seqZ; lia].
    apply list_elem_of_fmap. exists d. split; [done|]. apply elem_of_seqZ. lia.
Qed.

Lemma to_string_parses c :
  Cadence.wf c = true → Cadence.from_str (Cadence.to_string c) = Ok c.
Proof.
  intros Hc%all_cadences_wf.
  assert (forallb roundtrips all_cadences = true) as H by (vm_compute; reflexivity).
  rw forallb_forall in H. apply list_elem_of_In, H in Hc. unfold roundtrips in Hc.
  destruct (Cadence.from_str _) as [c'| |]; [|done..]. by apply bool_decide_eq_true in Hc as ->.
Qed.

(** C22: the cadence grammar round-trips: every string the parser accepts gives
    a well-formed cadence, and printing a well-formed cadence parses back to it. *)
Theorem cadence_roundtrip :
  (∀ s c, Cadence.from_str s = Ok c → Cadence.wf c = true) ∧
  (∀ c, Cadence.wf c = true → Cadence.from_str (Cadence.to_string c) = Ok c).
Proof. split; [apply from_str_wf|apply to_string_parses]. Qed.

(** ** Witnesses *)

#[local] Existing Instance Concrete.platform.
#[local] Existing Instance Concrete.platform_laws.

Definition date_of (y m d : Z) : NaiveDate :=
  default (Concrete.Date 1970 1 1 eq_refl) (Concrete.from_ymd_opt y m d).

Lemma advance_next_occurrence_witness :
  ∃ d, Cadence.advance (Quarterly 1) (date_of 2026 11 5) = Ok d ∧
       next_occurrence (Quarterly 1) (date_of 2026 11 5) d.
Proof.
  apply (advance_next_occurrence (Quarterly 1) (date_of 2026 11 5)).
  - reflexivity.
  - vm_compute. discriminate.
Defined.

Example quarterly_from_february :
  Cadence.advance (Quarterly 1) (date_of 2026 2 5) = Ok (date_of 2026 5 1).
Proof. vm_compute. reflexivity. Qed.

Lemma cadence_roundtrip_witness :
  Cadence.from_str (Cadence.to_string (Yearly 2 28)) = Ok (Yearly 2 28).
Proof. apply cadence_roundtrip. reflexivity. Defined.
