(* ===== verification/Tax.v ===== *)
(** * The tax engine ([core/src/tax/])

    [nexus.rs] (economic-nexus gate), [rate.rs] and [table.rs] (rows and their
    lookup) and [resolver.rs] ([classify], [pick_rates], [resolve_tax]).
    [charged_rows] says which rows a line owes; [resolve_tax] charges exactly
    those, rounded once. *)

From S2P Require Import Prelude Rounding External Concrete Money Ids Domain.
From Stdlib Require Import Lqa.

(** [str::to_ascii_uppercase], [str::eq_ignore_ascii_case] *)
Fixpoint str_to_ascii_uppercase (s : string) : string :=
  match s with
  | EmptyString => EmptyString
  | String c s => String (to_ascii_uppercase c) (str_to_ascii_uppercase s)
  end.
Definition eq_ignore_ascii_case (a b : string) : bool :=
  String.eqb (str_to_ascii_uppercase a) (str_to_ascii_uppercase b).

Section tax.
Context `{P : Platform}.

(** ** [nexus.rs] *)

Record NexusThreshold := MkNexusThreshold {
  nt_enabled : bool;
  nt_revenue : option Decimal;
  nt_txn_count : option Z;
}.

Definition has_nexus (t : NexusThreshold) (seller_revenue : Decimal) (seller_txn_count : Z) : bool :=
  if negb (nt_enabled t) then false
  else match nt_revenue t, nt_txn_count t with
  | None, None => true
  | _, _ =>
      let revenue_hit := match nt_revenue t with Some r => dec_leb r seller_revenue | None => false end in
      let txn_hit := match nt_txn_count t with Some c => c <=? seller_txn_count | None => false end in
      revenue_hit || txn_hit
  end.

Record NexusConfig := MkNexusConfig { nx_states : gmap string NexusThreshold }.

Definition nexus_get (c : NexusConfig) (state : string) : option NexusThreshold :=
  match nx_states c !! str_to_ascii_uppercase state with
  | Some t => Some t
  | None => nx_states c !! state
  end.

(** ** [rate.rs] *)

Record AppliesToBuyer := MkAppliesToBuyer { ab_country : option string; ab_region : option string }.

Record TaxRate := MkTaxRate {
  tr_id : string;
  tr_jurisdiction : Jurisdiction;
  tr_applies_to_buyer : AppliesToBuyer;
  tr_name : string;
  tr_category : TaxCategory;
  tr_rate : Decimal;
  tr_effective_from : NaiveDate;
  tr_effective_to : option NaiveDate;
}.

Definition applies_country (r : TaxRate) : option string := ab_country (tr_applies_to_buyer r).
Definition applies_region (r : TaxRate) : option string := ab_region (tr_applies_to_buyer r).

Definition is_effective_on (r : TaxRate) (at_ : NaiveDate) : bool :=
  if nd_ltb at_ (tr_effective_from r) then false
  else negb (match tr_effective_to r with Some end_ => nd_ltb end_ at_ | None => false end).

(** ** [table.rs] *)

Record TaxTable := MkTaxTable { tt_rates : list TaxRate }.

Definition lookup_country (buyer_country : string) (r : TaxRate) : bool :=
  match applies_country r with
  | Some c => eq_ignore_ascii_case c buyer_country
  | None => true
  end.
Definition lookup_region (buyer_region : option string) (r : TaxRate) : bool :=
  match applies_region r, buyer_region with
  | None, _ => true
  | Some _, None => false
  | Some want, Some have => eq_ignore_ascii_case want have
  end.

(** [TaxTable::lookup]: the chain of filters, in its order. *)
Definition table_lookup (t : TaxTable) (seller : Jurisdiction) (buyer_country : string)
    (buyer_region : option string) (category : TaxCategory) (at_ : NaiveDate) : list TaxRate :=
  List.filter (λ r, is_effective_on r at_)
    (List.filter (λ r, bool_decide (tr_category r = category))
      (List.filter (lookup_region buyer_region)
        (List.filter (lookup_country buyer_country)
          (List.filter (λ r, bool_decide (tr_jurisdiction r = seller)) (tt_rates t))))).

(** ** [resolver.rs] *)

Inductive BuyerScope := DomesticLocal | DomesticOther | Export.

Record ResolvedTax := MkResolvedTax {
  rt_amount : Decimal;
  rt_applied_rate_ids : list string;
  rt_nexus_review : bool;
  rt_export : bool;
  rt_buyer_scope : BuyerScope;
  rt_warnings : list string;
}.

Record NexusFigures := MkNexusFigures { nf_revenue : Decimal; nf_txn_count : Z }.
Definition NexusFigures_default : NexusFigures := MkNexusFigures dec_zero 0.

Inductive TaxError :=
  | InvalidBuyerCountry (code : string)
  | NoRatesConfigured (seller : Jurisdiction) (scope : BuyerScope).

Definition seller_region (seller : Jurisdiction) : string :=
  match seller with QuebecCa => "QC" | DelawareUs => "DE" | AlgiersDz => "16" end.

Definition classify (seller : Jurisdiction) (buyer : Address) : res TaxError BuyerScope :=
  if String.eqb (addr_country buyer) "" then Err (InvalidBuyerCountry (addr_country buyer))
  else if negb (eq_ignore_ascii_case (addr_country buyer) (Jurisdiction.country seller)) then Ok Export
  else match addr_region buyer with
  | Some r => if eq_ignore_ascii_case r (seller_region seller) then Ok DomesticLocal else Ok DomesticOther
  | None => match seller with AlgiersDz => Ok DomesticLocal | _ => Ok DomesticOther end
  end.

Definition pick_rates (seller : Jurisdiction) (buyer : Address) (category : TaxCategory)
    (table : TaxTable) (at_date : NaiveDate) : list TaxRate * list string :=
  let lookup_with cat :=
    table_lookup table seller (addr_country buyer) (addr_region buyer) cat at_date in
  match category with
  | Standard => (lookup_with Standard, [])
  | Reduced =>
      match lookup_with Reduced with
      | [] =>
          (lookup_with Standard,
           ["reduced rate requested for seller " +:+ Jurisdiction.as_str seller +:+
            " -> buyer " +:+ addr_country buyer +:+ "/" +:+
            str_debug (default "-" (addr_region buyer)) +:+
            "; no reduced row found, falling back to standard"])
      | reduced => (reduced, [])
      end
  | ZeroRated => (lookup_with ZeroRated, [])
  | Exempt => (lookup_with Exempt, [])
  end.

(** [for r in &rates { amount += base * r.rate; ids.push(r.id.clone()); }] *)
Definition sum_rates (base : Decimal) (rates : list TaxRate) : res TaxError (Decimal * list string) :=
  res_foldM (λ '(amount, ids) r,
    p ← dmul base (tr_rate r);
    amount ← dadd amount p;
    Ok (amount, ids ++ [tr_id r])) (dec_zero, []) rates.

Definition resolve_tax (seller : Jurisdiction) (buyer : Address) (line : InvoiceLine)
    (currency : Currency) (table : TaxTable) (nexus : NexusConfig)
    (nexus_figures : NexusFigures) (at_ : DateTime) : res TaxError ResolvedTax :=
  scope ← classify seller buyer;
  let at_date := dt_date_naive at_ in
  base ← dmul (line_quantity line) (line_unit_price line);
  let zero_amount := Currency.round currency dec_zero in
  let pick := pick_rates seller buyer (line_tax_category line) table at_date in
  match line_tax_category line with
  | ZeroRated | Exempt =>
      let '(matches, warnings) := pick in
      Ok (MkResolvedTax zero_amount (tr_id <$> matches) false
            (match scope with Export => true | _ => false end) scope warnings)
  | _ =>
  match scope with
  | Export => Ok (MkResolvedTax zero_amount [] false true scope [])
  | DomesticLocal =>
      let '(rates, warnings) := pick in
      match rates with
      | [] =>
          Ok (MkResolvedTax zero_amount [] false false scope
                (warnings ++ ["no tax rows for seller " +:+ Jurisdiction.as_str seller +:+
                  " -> domestic-local buyer " +:+ addr_country buyer +:+ "/" +:+
                  str_debug (default "-" (addr_region buyer)) +:+ "; defaulting to 0%"]))
      | _ =>
          '(amount, ids) ← sum_rates base rates;
          Ok (MkResolvedTax (Currency.round currency amount) ids false false scope warnings)
      end
  | DomesticOther =>
      match seller with
      | QuebecCa | AlgiersDz =>
          let '(rates, warnings) := pick in
          '(amount, ids) ← sum_rates base rates;
          Ok (MkResolvedTax (Currency.round currency amount) ids false false scope warnings)
      | DelawareUs =>
          match addr_region buyer with
          | None =>
              Ok (MkResolvedTax zero_amount [] true false scope
                ["US-DE seller / US buyer: no region on address; cannot evaluate nexus, flagging review"])
          | Some buyer_region =>
              let threshold := nexus_get nexus buyer_region in
              let has := match threshold with
                         | Some t => has_nexus t (nf_revenue nexus_figures) (nf_txn_count nexus_figures)
                         | None => false
                         end in
              if has then
                let '(rates, warnings) := pick in
                '(amount, ids) ← sum_rates base rates;
                let w := match rates with
                         | [] => warnings ++ ["US-DE seller / US-" +:+ buyer_region +:+
                                   " buyer: nexus crossed but no rate row found"]
                         | _ => warnings
                         end in
                Ok (MkResolvedTax (Currency.round currency amount) ids false false scope w)
              else
                let reason := match threshold with
                              | Some t => if nt_enabled t
                                          then "nexus enabled but threshold not crossed"
                                          else "nexus disabled for this state"
                              | None => "no nexus row configured for this state"
                              end in
                Ok (MkResolvedTax zero_amount [] true false scope
                      ["US-DE seller / US-" +:+ buyer_region +:+ " buyer: " +:+ reason +:+ "; 0% applied"])
          end
      end
  end
  end.
End tax.

(** Every charge is a rounded amount of the currency. *)
Lemma resolve_tax_rounded `{P : Platform} seller buyer line currency table nexus figures at_ r :
  resolve_tax seller buyer line currency table nexus figures at_ = Ok r →
  ∃ a, rt_amount r = Currency.round currency a.
Proof.
  unfold resolve_tax. intros H. inv_res.
  repeat match goal with
  | H : (_ ≫= _) = Ok _ |- _ => inv_res
  | H : Ok _ = Ok _ |- _ => injection H as <-; by eexists
  | H : context [match ?x with _ => _ end] |- _ => destruct x; try done
  end.
Qed.

(** ** What a line owes *)

Section spec.
Context `{P : Platform}.

(** The economic-nexus gate of a Delaware sale to another state. *)
Definition nexus_gate (buyer : Address) (nexus : NexusConfig) (figures : NexusFigures) : bool :=
  match addr_region buyer with
  | None => false
  | Some region =>
      match nexus_get nexus region with
      | Some t => has_nexus t (nf_revenue figures) (nf_txn_count figures)
      | None => false
      end
  end.

Definition zero_category (c : TaxCategory) : bool :=
  match c with ZeroRated | Exempt => true | _ => false end.

(** No tax without review: the line is a Delaware sale into a state where the
    seller has no nexus. *)
Definition no_nexus (seller : Jurisdiction) (scope : BuyerScope) (buyer : Address)
    (nexus : NexusConfig) (figures : NexusFigures) : bool :=
  match scope, seller with
  | DomesticOther, DelawareUs => negb (nexus_gate buyer nexus figures)
  | _, _ => false
  end.

(** The rows whose rates are charged on a line. *)
Definition charged_rows (seller : Jurisdiction) (scope : BuyerScope) (buyer : Address)
    (category : TaxCategory) (table : TaxTable) (nexus : NexusConfig)
    (figures : NexusFigures) (at_date : NaiveDate) : list TaxRate :=
  if zero_category category || match scope with Export => true | _ => false end
     || no_nexus seller scope buyer nexus figures
  then []
  else (pick_rates seller buyer category table at_date).1.

(** The rows recorded on the line for audit: the zero-rate rows of a zero-rated
    or exempt line, else the charged ones. *)
Definition recorded_rows (seller : Jurisdiction) (scope : BuyerScope) (buyer : Address)
    (category : TaxCategory) (table : TaxTable) (nexus : NexusConfig)
    (figures : NexusFigures) (at_date : NaiveDate) : list TaxRate :=
  if zero_category category
  then table_lookup table seller (addr_country buyer) (addr_region buyer) category at_date
  else charged_rows seller scope buyer category table nexus figures at_date.

Fixpoint rates_total (rows : list TaxRate) : Q :=
  match rows with [] => 0%Q | r :: rows => (val (tr_rate r) + rates_total rows)%Q end.

(** The intermediate amounts of the summation loop fit a [Decimal]. *)
Fixpoint exact_charge (base acc : Q) (rows : list TaxRate) : Prop :=
  match rows with
  | [] => True
  | r :: rows =>
      let p := (base * val (tr_rate r))%Q in
      representable p ∧ representable (acc + p) ∧ exact_charge base (acc + p)%Q rows
  end.

(** A row applies to a sale. *)
Definition row_applies (seller : Jurisdiction) (buyer_country : string)
    (buyer_region : option string) (at_ : NaiveDate) (r : TaxRate) : Prop :=
  tr_jurisdiction r = seller ∧
  (∀ c, applies_country r = Some c →
     str_to_ascii_uppercase c = str_to_ascii_uppercase buyer_country) ∧
  (∀ w, applies_region r = Some w → ∃ h, buyer_region = Some h ∧
     str_to_ascii_uppercase w = str_to_ascii_uppercase h) ∧
  nd_ltb at_ (tr_effective_from r) = false ∧
  (∀ e, tr_effective_to r = Some e → nd_ltb e at_ = false).
End spec.

Section tax_lemmas.
Context {P : Platform} {L : PlatformLaws P}.

Lemma eq_ignore_ascii_case_true a b :
  eq_ignore_ascii_case a b = true ↔ str_to_ascii_uppercase a = str_to_ascii_uppercase b.
Proof. apply String.eqb_eq. Qed.

Lemma lookup_country_true bc r :
  lookup_country bc r = true ↔
  ∀ c, applies_country r = Some c → str_to_ascii_uppercase c = str_to_ascii_uppercase bc.
Proof.
  unfold lookup_country. destruct (applies_country r); [rw eq_ignore_ascii_case_true|]; naive_solver.
Qed.

Lemma lookup_region_true br r :
  lookup_region br r = true ↔
  ∀ w, applies_region r = Some w → ∃ h, br = Some h ∧
     str_to_ascii_uppercase w = str_to_ascii_uppercase h.
Proof.
  unfold lookup_region. destruct (applies_region r), br;
    rw ?eq_ignore_ascii_case_true; naive_solver.
Qed.

Lemma is_effective_on_true r d :
  is_effective_on r d = true ↔
  nd_ltb d (tr_effective_from r) = false ∧
  ∀ e, tr_effective_to r = Some e → nd_ltb e d = false.
Proof.
  unfold is_effective_on. destruct (nd_ltb d _); [naive_solver|].
  rw negb_true_iff. destruct (tr_effective_to r); naive_solver.
Qed.

Lemma table_lookup_elem t seller bc br cat d r :
  In r (table_lookup t seller bc br cat d) ↔
  In r (tt_rates t) ∧ tr_category r = cat ∧ row_applies seller bc br d r.
Proof.
  unfold table_lookup, row_applies. rw !filter_In.
  rw lookup_country_true lookup_region_true is_effective_on_true !bool_decide_eq_true. tauto.
Qed.

Lemma sum_rates_ok base rows :
  exact_charge (val base) 0 rows →
  ∃ amount, sum_rates base rows = Ok (amount, tr_id <$> rows) ∧
            (val amount == val base * rates_total rows)%Q.
Proof.
  unfold sum_rates. intros Hex.
  assert (∀ acc a ids, (val acc == a)%Q → exact_charge (val base) a rows →
    ∃ amount, res_foldM (E:=TaxError) (λ '(amount, ids) r,
        p ← dmul base (tr_rate r);
        amount ← dadd amount p;
        Ok (amount, ids ++ [tr_id r])) (acc, ids) rows = Ok (amount, ids ++ (tr_id <$> rows)) ∧
      (val amount == a + val base * rates_total rows)%Q) as Hgen.
  { clear Hex. induction rows as [|r rows IH]; intros acc a ids Ha Hex; cbn in *.
    - exists acc. split; [by rw app_nil_r|]. rw Ha. ring.
    - destruct Hex as (Hp & Hs & Hex).
      destruct (dec_mul_exact base (tr_rate r) Hp) as (p & Ep & Vp).
      rw -Vp -Ha in Hs. destruct (dec_add_exact acc p Hs) as (c & Ec & Vc).
      unfold dmul, dadd. rw Ep. cbn. rw Ec. cbn.
      destruct (IH c (a + val base * val (tr_rate r))%Q (ids ++ [tr_id r])) as (amt & Eamt & Vamt).
      { by rw Vc Vp Ha. }
      { done. }
      exists amt. split; [by rw Eamt -app_assoc|]. rw Vamt. ring. }
  destruct (Hgen dec_zero 0%Q [] val_zero Hex) as (amt & E & V).
  exists amt. split; [done|]. rw V. ring.
Qed.

Lemma classify_ok seller buyer : addr_country buyer ≠ "" → ∃ scope, classify seller buyer = Ok scope.
Proof.
  unfold classify. destruct (String.eqb_spec (addr_country buyer) ""); [done|].
  intros _. repeat case_match; eauto.
Qed.

Lemma round_zero c : (val (Currency.round c dec_zero) == 0)%Q.
Proof. rw round_val val_zero. apply round_dp_fixed, on_grid_0. Qed.

Lemma pick_rates_zero seller buyer cat t d :
  zero_category cat = true →
  (pick_rates seller buyer cat t d).1 =
  table_lookup t seller (addr_country buyer) (addr_region buyer) cat d.
Proof. by destruct cat. Qed.

Lemma exact_charge_proper b b' a a' rows :
  (b == b')%Q → (a == a')%Q → exact_charge b a rows → exact_charge b' a' rows.
Proof.
  intros Hb. revert a a'; induction rows as [|r rows IH]; intros a a' Ha; cbn; [done|].
  intros (H1 & H2 & H3). split; [by rw -Hb|]. split; [by rw -Ha -Hb|].
  eapply IH; [|exact H3]. by rw Ha Hb.
Qed.

(** What [resolve_tax] must answer for a line. *)
Record resolves (seller : Jurisdiction) (buyer : Address) (line : InvoiceLine)
    (currency : Currency) (table : TaxTable) (nexus : NexusConfig) (figures : NexusFigures)
    (at_date : NaiveDate) (scope : BuyerScope) (r : ResolvedTax) : Prop := {
  res_scope : rt_buyer_scope r = scope;
  res_amount : (val (rt_amount r) ==
    round_dp (val (line_quantity line) * val (line_unit_price line) *
              rates_total (charged_rows seller scope buyer (line_tax_category line)
                             table nexus figures at_date))
             (Currency.scale currency))%Q;
  res_ids : rt_applied_rate_ids r = tr_id <$>
    recorded_rows seller scope buyer (line_tax_category line) table nexus figures at_date;
  res_review : rt_nexus_review r =
    negb (zero_category (line_tax_category line)) && no_nexus seller scope buyer nexus figures;
  res_export : rt_export r = match scope with Export => true | _ => false end;
}.

Section resolve.
Context (seller : Jurisdiction) (buyer : Address) (line : InvoiceLine) (currency : Currency)
  (table : TaxTable) (nexus : NexusConfig) (figures : NexusFigures) (at_ : DateTime)
  (scope : BuyerScope).
Notation charged := (charged_rows seller scope buyer (line_tax_category line) table nexus
                       figures (dt_date_naive at_)).
Notation recorded := (recorded_rows seller scope buyer (line_tax_category line) table nexus
                       figures (dt_date_naive at_)).
Notation ok := (resolves seller buyer line currency table nexus figures
                  (dt_date_naive at_) scope).

Lemma resolves_zero ids review warnings :
  charged = [] → ids = tr_id <$> recorded →
  review = negb (zero_category (line_tax_category line)) && no_nexus seller scope buyer nexus figures →
  ok (MkResolvedTax (Currency.round currency dec_zero) ids review
        (match scope with Export => true | _ => false end) scope warnings).
Proof.
  intros Hc -> ->. split; cbn; try done. rw Hc round_zero. cbn. rw Qmult_0_r.
  symmetry. apply round_dp_fixed, on_grid_0.
Qed.

Lemma resolves_charge base rows (warnings : list string) :
  (val base == val (line_quantity line) * val (line_unit_price line))%Q →
  exact_charge (val (line_quantity line) * val (line_unit_price line)) 0 charged →
  charged = rows → zero_category (line_tax_category line) = false →
  no_nexus seller scope buyer nexus figures = false → scope ≠ Export →
  ∃ r, ('(amount, ids) ← sum_rates base rows;
        Ok (MkResolvedTax (Currency.round currency amount) ids false false scope warnings)) = Ok r
       ∧ ok r.
Proof.
  intros Hb Hex Hc Hz Hn Hs.
  destruct (sum_rates_ok base charged) as (amt & E & V).
  { eapply exact_charge_proper; [by symmetry| |exact Hex]. done. }
  rw Hc in E V. rw E. eexists; split; [reflexivity|]. split; cbn; [done|..].
  - by rw round_val V Hb Hc.
  - unfold recorded_rows. by rw Hz Hc.
  - by rw Hn andb_false_r.
  - by destruct scope.
Qed.

End resolve.

(** C14: for a buyer with a country, [resolve_tax] answers (no overflow within
    the decimal range); the tax is quantity times price times the sum of the
    rates of exactly the charged rows, rounded once half-even to the currency's
    minor unit; the ids of those rows are recorded in order; a Delaware sale
    without nexus is flagged for review and charged nothing; an export is
    flagged and charged nothing. *)
Theorem resolve_tax_spec seller buyer line currency table nexus figures at_ scope :
  let base := (val (line_quantity line) * val (line_unit_price line))%Q in
  classify seller buyer = Ok scope →
  representable base →
  exact_charge base 0 (charged_rows seller scope buyer (line_tax_category line) table nexus
                         figures (dt_date_naive at_)) →
  ∃ r, resolve_tax seller buyer line currency table nexus figures at_ = Ok r ∧
       resolves seller buyer line currency table nexus figures (dt_date_naive at_) scope r.
Proof.
  intros q Hscope Hrep Hex. unfold resolve_tax. rw Hscope. cbn [mbind res_bind].
  destruct (dec_mul_exact _ _ Hrep) as (base & Eb & Vb). unfold dmul. rw Eb.
  cbn [mbind res_bind or_panic].
  set (pick := pick_rates _ _ _ _ _).
  pose proof (resolves_zero seller buyer line currency table nexus figures at_ scope) as Hzero.
  destruct (zero_category (line_tax_category line)) eqn:Hz.
  { assert (pick.1 = recorded_rows seller scope buyer (line_tax_category line) table nexus
              figures (dt_date_naive at_)) as Hp.
    { unfold recorded_rows. rw Hz. by apply pick_rates_zero. }
    specialize (Hzero (tr_id <$> pick.1) false pick.2 ltac:(by unfold charged_rows; rw Hz)
                  ltac:(by rw Hp) eq_refl).
    destruct (line_tax_category line); try discriminate Hz;
      destruct pick as [matches warnings]; eauto. }
  assert (∀ rows w0 w, pick = (rows, w0) →
    no_nexus seller scope buyer nexus figures = false → scope ≠ Export →
    ∃ r, ('(amount, ids) ← sum_rates base rows;
        Ok (MkResolvedTax (Currency.round currency amount) ids false false scope w)) = Ok r ∧
        resolves seller buyer line currency table nexus figures (dt_date_naive at_) scope r) as Hpick.
  { intros rows w0 w Hp Hn Hs. apply resolves_charge; try done.
    unfold charged_rows. rw Hz Hn. fold pick. rw Hp. by destruct scope. }
  unfold recorded_rows, charged_rows in Hzero. rw Hz in Hzero. fold pick in Hzero.
  assert (∀ (X Y : res TaxError ResolvedTax) (Q : res TaxError ResolvedTax → Prop), Q Y →
    Q (match line_tax_category line with ZeroRated | Exempt => X | _ => Y end)) as Hcat.
  { intros X Y Q. by destruct (line_tax_category line). }
  apply (Hcat _ _ (λ m, ∃ r, m = Ok r ∧ _ r)). clear Hcat.
  destruct scope; [| |by eauto].
  { destruct pick as [[|r rows] w]; [by eauto|by eapply Hpick]. }
  destruct seller; [by destruct pick; eapply Hpick| |by destruct pick; eapply Hpick].
  unfold no_nexus, nexus_gate in *. destruct (addr_region buyer) as [region|]; [|by eauto].
  destruct (match nexus_get nexus region with Some t => _ | None => false end); [|by eauto].
  destruct pick as [rows w]. by eapply Hpick.
Qed.
End tax_lemmas.

Section lookup.
Context `{P : Platform}.

Lemma sublist_List_filter {A} (f : A → bool) l : List.filter f l `sublist_of` l.
Proof.
  induction l as [|x l IH]; cbn; [done|]. destruct (f x); by constructor.
Qed.

Lemma table_lookup_sublist t seller bc br cat d :
  table_lookup t seller bc br cat d `sublist_of` tt_rates t.
Proof.
  unfold table_lookup. by repeat (etransitivity; [apply sublist_List_filter|]).
Qed.

(** The category whose rows serve a request: a reduced rate that no row
    provides falls back to the standard one. *)
Definition served_category (seller : Jurisdiction) (buyer : Address) (category : TaxCategory)
    (table : TaxTable) (at_date : NaiveDate) : TaxCategory :=
  match category with
  | Reduced =>
      match table_lookup table seller (addr_country buyer) (addr_region buyer) Reduced at_date with
      | [] => Standard
      | _ => Reduced
      end
  | c => c
  end.

Lemma pick_rates_served seller buyer cat t d :
  (pick_rates seller buyer cat t d).1 =
  table_lookup t seller (addr_country buyer) (addr_region buyer)
    (served_category seller buyer cat t d) d.
Proof.
  unfold pick_rates, served_category. destruct cat; cbn; try done.
  by destruct (table_lookup _ _ _ _ Reduced _) eqn:E; cbn; rw ?E.
Qed.

(** The charged rows are, in table order, exactly the rows of the table
    that apply to the sale (seller, buyer country and region ignoring case, and
    effective window inclusive at both ends) in the served category; none when
    the line is zero-rated or exempt, an export, or a Delaware sale without
    nexus. *)
Lemma charged_rows_spec seller scope buyer cat table nexus figures d :
  let rows := charged_rows seller scope buyer cat table nexus figures d in
  rows `sublist_of` tt_rates table ∧
  ∀ r, In r rows ↔
    In r (tt_rates table) ∧ row_applies seller (addr_country buyer) (addr_region buyer) d r ∧
    tr_category r = served_category seller buyer cat table d ∧
    zero_category cat = false ∧ scope ≠ Export ∧ no_nexus seller scope buyer nexus figures = false.
Proof.
  cbn zeta. unfold charged_rows. rw pick_rates_served.
  destruct (zero_category cat); cbn; [split; [apply sublist_nil_l|naive_solver]|].
  destruct scope; cbn -[no_nexus]; [| |split; [apply sublist_nil_l|naive_solver]];
    (destruct (no_nexus _ _ _ _ _); [split; [apply sublist_nil_l|naive_solver]|]);
    (split; [apply table_lookup_sublist|]); intros r; rw table_lookup_elem; naive_solver.
Qed.
End lookup.

(** ** Witnesses *)

#[local] Existing Instance Concrete.platform.
#[local] Existing Instance Concrete.platform_laws.

Module TaxExample.
Definition d (m : Z) (s : nat) : Decimal := Concrete.Dec m s.
Definition from2024 : NaiveDate :=
  default (Concrete.Date 1970 1 1 eq_refl) (Concrete.from_ymd_opt 2024 1 1).
Definition row (id : string) (rate : Decimal) : TaxRate :=
  MkTaxRate id QuebecCa (MkAppliesToBuyer (Some "CA") (Some "QC")) id Standard rate from2024 None.
Definition table : TaxTable := MkTaxTable [row "ca-qc-gst" (d 5 2); row "ca-qc-qst" (d 9975 5)].
Definition buyer : Address := MkAddress "ca" (Some "qc") None None None None.
Definition line : InvoiceLine :=
  MkInvoiceLine (id_new ELine 0) (id_new EInvoice 0) 0 "consulting" (d 15 1) (d 10001 2) [] Standard
    (d 0 0) (d 0 0) ∅.
Definition nexus : NexusConfig := MkNexusConfig ∅.
Definition today : DateTime := Concrete.DT from2024 12 0 0 0 eq_refl.
End TaxExample.

(** [1.5 * 100.01 = 150.015], taxed at [5 %] and [9.975 %]: [22.46...]. *)
Lemma resolve_tax_spec_witness :
  ∃ r, resolve_tax QuebecCa TaxExample.buyer TaxExample.line Currency.CAD TaxExample.table
         TaxExample.nexus NexusFigures_default TaxExample.today = Ok r ∧
       rt_applied_rate_ids r = ["ca-qc-gst"; "ca-qc-qst"] ∧
       (val (rt_amount r) == 2246 # 100)%Q.
Proof.
  destruct (resolve_tax_spec QuebecCa TaxExample.buyer TaxExample.line Currency.CAD TaxExample.table
    TaxExample.nexus NexusFigures_default TaxExample.today DomesticLocal) as (r & E & H).
  - reflexivity.
  - exists 150015, 3%nat. split; [lia|]. split; [lia|reflexivity].
  - split; [exists 750075, 5%nat; split; [lia|]; split; [lia|reflexivity]|].
    split; [exists 750075, 5%nat; split; [lia|]; split; [lia|reflexivity]|].
    split; [exists 1496399625, 8%nat; split; [lia|]; split; [lia|reflexivity]|].
    split; [exists 2246474625, 8%nat; split; [lia|]; split; [lia|reflexivity]|done].
  - exists r. split; [exact E|]. destruct H as [_ Ha Hi _ _].
    split; [rewrite Hi; reflexivity|rewrite Ha; reflexivity].
Defined.
