(* ===== verification/CreditNoteFsm.v ===== *)
(** * The credit-note state machine ([core/src/state/creditnote.rs])

    [Draft -> Issued] and nothing else: the transition table, the bare adapter
    with its two unusable trait methods, and the statig adapter. *)

From S2P Require Import Prelude External Concrete Money Ids Domain InvoiceFsm.

Module CreditNoteFsm.

Inductive CreditNoteEvent := CnIssue.

Definition tag (e : CreditNoteEvent) : string := match e with CnIssue => "issue" end.

Inductive TransitionError := CnIllegal (state : CreditNoteState) (event : string).

(** [{:?}] on the state and the [Display] text of the error. *)
Definition state_debug (s : CreditNoteState) : string :=
  match s with CnDraft => "Draft" | CnIssued => "Issued" end.
Definition TransitionError_to_string (e : TransitionError) : string :=
  match e with
  | CnIllegal state event =>
      "illegal transition: " +:+ event +:+ " not allowed from " +:+ state_debug state
  end.

Definition illegal (state : CreditNoteState) (event : CreditNoteEvent) : TransitionError :=
  CnIllegal state (tag event).

Definition next_state (current : CreditNoteState) (event : CreditNoteEvent)
    : res TransitionError CreditNoteState :=
  match current, event with
  | CnDraft, CnIssue => Ok CnIssued
  | CnIssued, _ => Err (illegal current event)
  end.

(** The bare adapter. *)
Record CreditNoteAdapter := MkCreditNoteAdapter { cna_state : CreditNoteState }.
Definition CreditNoteAdapter_new (initial : CreditNoteState) : CreditNoteAdapter :=
  MkCreditNoteAdapter initial.

Section adapter.
Context `{P : Platform}.

(** The trait's [dry_run] and [apply] are [unreachable!]. *)
Definition CreditNoteAdapter_dry_run (a : CreditNoteAdapter) (e : CreditNoteEvent)
    : res InvoiceFsm.TransitionError CreditNoteState := Panic.
Definition CreditNoteAdapter_apply (a : CreditNoteAdapter) (e : CreditNoteEvent)
    : res InvoiceFsm.TransitionError CreditNoteState := Panic.

(** The overridden [propose]. *)
Definition CreditNoteAdapter_propose (a : CreditNoteAdapter) (e : CreditNoteEvent)
    : res VetoError CreditNoteState :=
  match next_state (cna_state a) e with
  | Ok s => Ok s
  | Err err => Err (Vetoed (TransitionError_to_string err))
  | Panic => Panic
  end.

Definition apply_event (a : CreditNoteAdapter) (e : CreditNoteEvent)
    : CreditNoteAdapter * res TransitionError CreditNoteState :=
  match next_state (cna_state a) e with
  | Ok next => (MkCreditNoteAdapter next, Ok next)
  | Err err => (a, Err err)
  | Panic => (a, Panic)
  end.
Definition dry_run_event (a : CreditNoteAdapter) (e : CreditNoteEvent)
    : res TransitionError CreditNoteState := next_state (cna_state a) e.
End adapter.

(** The statig adapter: two flat leaves. *)
Inductive StatigState := StDraft | StIssued.
Definition to_domain (s : StatigState) : CreditNoteState :=
  match s with StDraft => CnDraft | StIssued => CnIssued end.
Definition from_domain (s : CreditNoteState) : StatigState :=
  match s with CnDraft => StDraft | CnIssued => StIssued end.

Definition call_handler (s : StatigState) (event : CreditNoteEvent) : Response StatigState :=
  match next_state (to_domain s) event with
  | Ok next => Transition (from_domain next)
  | _ => Super
  end.

Section statig.
Context {St : Statig StatigState CreditNoteEvent}.

Record StatigAdapter := MkStatigAdapter { inner : sm; shadow : CreditNoteState }.
Definition StatigAdapter_new (initial : CreditNoteState) : StatigAdapter :=
  MkStatigAdapter (sm_init StDraft) initial.
Definition statig_state (a : StatigAdapter) : StatigState := sm_state (inner a).
Definition statig_apply_event (a : StatigAdapter) (e : CreditNoteEvent)
    : StatigAdapter * res TransitionError CreditNoteState :=
  match next_state (shadow a) e with
  | Ok next =>
      let inner' := if bool_decide (to_domain (sm_state (inner a)) = shadow a)
                    then sm_handle call_handler (λ _ _, Super) (inner a) e
                    else inner a in
      (MkStatigAdapter inner' next, Ok next)
  | Err err => (a, Err err)
  | Panic => (a, Panic)
  end.

Fixpoint statig_run (a : StatigAdapter) (es : list CreditNoteEvent)
    : StatigAdapter * list (res TransitionError CreditNoteState) :=
  match es with
  | [] => (a, [])
  | e :: es =>
      let '(a', r) := statig_apply_event a e in
      let '(a'', rs) := statig_run a' es in (a'', r :: rs)
  end.
End statig.

Fixpoint bare_run (a : CreditNoteAdapter) (es : list CreditNoteEvent)
    : CreditNoteAdapter * list (res TransitionError CreditNoteState) :=
  match es with
  | [] => (a, [])
  | e :: es =>
      let '(a', r) := apply_event a e in
      let '(a'', rs) := bare_run a' es in (a'', r :: rs)
  end.

Lemma bare_run_issued es :
  bare_run (MkCreditNoteAdapter CnIssued) es =
    (MkCreditNoteAdapter CnIssued, (λ e, Err (CnIllegal CnIssued (tag e))) <$> es).
Proof. induction es as [|[] es IH]; [done|]. cbn. by rw IH. Qed.

Section lemmas.
Context {St : Statig StatigState CreditNoteEvent} {SL : StatigLaws StatigState CreditNoteEvent St}.

Lemma statig_run_issued (m : sm) es :
  statig_run (MkStatigAdapter m CnIssued) es =
    (MkStatigAdapter m CnIssued, (λ e, Err (CnIllegal CnIssued (tag e))) <$> es).
Proof. induction es as [|[] es IH]; [done|]. cbn. by rw IH. Qed.

(** On every sequence of events both credit-note machines answer alike: a
    draft is issued by the first event and every later event is refused, and
    the inner statig machine of a fresh draft ends where the adapter does; the
    trait's own [dry_run] and [apply] are never usable. *)
Lemma credit_note_machines seed es :
  let a := statig_run (StatigAdapter_new seed) es in
  let b := bare_run (CreditNoteAdapter_new seed) es in
  a.2 = b.2 ∧ shadow a.1 = cna_state b.1 ∧
  cna_state b.1 = (match es with [] => seed | _ => CnIssued end) ∧
  length (List.filter is_ok b.2) = (match seed, es with CnDraft, _ :: _ => 1 | _, _ => 0 end)%nat ∧
  (seed = CnDraft → statig_state a.1 = from_domain (shadow a.1)).
Proof.
  assert (∀ es, List.filter (is_ok (E:=TransitionError) (A:=CreditNoteState))
            ((λ e, Err (CnIllegal CnIssued (tag e))) <$> es) = []) as Hnil.
  { induction es0 as [|e es0 IH]; cbn; auto. }
  cbn zeta. unfold StatigAdapter_new, CreditNoteAdapter_new.
  destruct seed; [destruct es as [|[] es]|].
  - cbn. unfold statig_state. cbn. rw sm_state_init. done.
  - cbn [statig_run bare_run]. unfold statig_apply_event, apply_event. cbn.
    rw statig_run_issued bare_run_issued. cbn. rw Hnil. repeat split.
    intros _. unfold statig_state. cbn.
    rw bool_decide_true; [by rw sm_state_init|]. by rw sm_state_handle sm_state_init.
  - rw statig_run_issued bare_run_issued. cbn. rw Hnil. repeat split; [by destruct es|done].
Qed.
End lemmas.

Lemma credit_note_machines_witness :
  (statig_run (StatigAdapter_new CnDraft) [CnIssue; CnIssue]).2 =
  [Ok CnIssued; Err (CnIllegal CnIssued "issue")].
Proof.
  destruct (credit_note_machines CnDraft [CnIssue; CnIssue]) as [-> _]. reflexivity.
Defined.
End CreditNoteFsm.
