(* ===== verification/Events.v ===== *)
(** * Bus payloads ([core/src/state/events.rs], [core/src/state/creditnote.rs])

    The mechanic-event triplet [proposed]/[transitioned]/[entered] of the
    invoice and credit-note machines, their topics, and the JSON values serde
    derives for them. *)

From S2P Require Import Prelude External Money Ids Domain InvoiceFsm CreditNoteFsm.

(** [serde_json::Value]; an object lists its members in writing order, a
    number that is not an integer is kept as written. *)
Inductive json :=
  | JNull
  | JBool (b : bool)
  | JInt (z : Z)
  | JNum (text : string)
  | JStr (s : string)
  | JArr (elements : list json)
  | JObj (members : list (string * json)).

Definition jopt (o : option string) : json :=
  match o with Some s => JStr s | None => JNull end.
(** [skip_serializing_if = "Option::is_none"] *)
Definition jskip (k : string) (o : option string) : list (string * json) :=
  match o with Some s => [(k, JStr s)] | None => [] end.

(** The snake_case names serde gives the enums. *)
Definition InvoiceState_str (s : InvoiceState) : string :=
  match s with
  | Draft => "draft" | Issued => "issued" | Sent => "sent" | Viewed => "viewed"
  | PartiallyPaid => "partially_paid" | Paid => "paid" | Voided => "voided"
  end.
Definition HistoryChannel_str (c : HistoryChannel) : string :=
  match c with HCli => "cli" | HApi => "api" | HWs => "ws" | HMcp => "mcp" | HBus => "bus" end.
Definition CreditNoteState_str (s : CreditNoteState) : string :=
  match s with CnDraft => "draft" | CnIssued => "issued" end.

Definition TOPIC_PROPOSED : string := "inv.billing.invoice.proposed".
Definition TOPIC_TRANSITIONED : string := "inv.billing.invoice.transitioned".
Definition TOPIC_ENTERED : string := "inv.billing.invoice.entered".

Module CnTopics.
Definition TOPIC_PROPOSED : string := "inv.billing.creditnote.proposed".
Definition TOPIC_TRANSITIONED : string := "inv.billing.creditnote.transitioned".
Definition TOPIC_ENTERED : string := "inv.billing.creditnote.entered".
End CnTopics.

Section events.
Context `{P : Platform}.

Record InvoiceProposed := MkInvoiceProposed {
  ip_invoice_id : InvoiceId;
  ip_from : InvoiceState;
  ip_to : InvoiceState;
  ip_event : InvoiceEvent;
  ip_actor : option string;
  ip_channel : HistoryChannel;
  ip_proposed_at : DateTime;
}.

Record InvoiceTransitioned := MkInvoiceTransitioned {
  it_invoice_id : InvoiceId;
  it_from : InvoiceState;
  it_to : InvoiceState;
  it_event : InvoiceEvent;
  it_actor : option string;
  it_channel : HistoryChannel;
  it_occurred_at : DateTime;
}.

Record InvoiceEntered := MkInvoiceEntered {
  ie_invoice_id : InvoiceId;
  ie_state : InvoiceState;
  ie_channel : HistoryChannel;
  ie_actor : option string;
  ie_entered_at : DateTime;
}.

Record CreditNoteProposed := MkCreditNoteProposed {
  cp_credit_note_id : CreditNoteId;
  cp_from : CreditNoteState;
  cp_to : CreditNoteState;
  cp_event : CreditNoteFsm.CreditNoteEvent;
  cp_actor : option string;
  cp_channel : HistoryChannel;
  cp_proposed_at : DateTime;
}.

Record CreditNoteTransitioned := MkCreditNoteTransitioned {
  ct_credit_note_id : CreditNoteId;
  ct_from : CreditNoteState;
  ct_to : CreditNoteState;
  ct_event : CreditNoteFsm.CreditNoteEvent;
  ct_actor : option string;
  ct_channel : HistoryChannel;
  ct_occurred_at : DateTime;
}.

Record CreditNoteEntered := MkCreditNoteEntered {
  ce_credit_note_id : CreditNoteId;
  ce_state : CreditNoteState;
  ce_channel : HistoryChannel;
  ce_actor : option string;
  ce_entered_at : DateTime;
}.

(** [#[serde(tag = "kind", rename_all = "snake_case")]] *)
Definition InvoiceEvent_json (e : InvoiceEvent) : json :=
  match e with
  | Pay amount_paid total =>
      JObj [("kind", JStr (tag e)); ("amount_paid", JStr (dec_to_string amount_paid));
            ("total", JStr (dec_to_string total))]
  | _ => JObj [("kind", JStr (tag e))]
  end.
Definition CreditNoteEvent_json (e : CreditNoteFsm.CreditNoteEvent) : json :=
  JObj [("kind", JStr (CreditNoteFsm.tag e))].

Definition InvoiceProposed_json (p : InvoiceProposed) : json :=
  JObj ([("invoice_id", JStr (id_to_string (ip_invoice_id p)));
         ("from", JStr (InvoiceState_str (ip_from p)));
         ("to", JStr (InvoiceState_str (ip_to p)));
         ("event", InvoiceEvent_json (ip_event p))] ++ jskip "actor" (ip_actor p) ++
        [("channel", JStr (HistoryChannel_str (ip_channel p)));
         ("proposed_at", JStr (dt_serialize (ip_proposed_at p)))]).
Definition InvoiceTransitioned_json (p : InvoiceTransitioned) : json :=
  JObj ([("invoice_id", JStr (id_to_string (it_invoice_id p)));
         ("from", JStr (InvoiceState_str (it_from p)));
         ("to", JStr (InvoiceState_str (it_to p)));
         ("event", InvoiceEvent_json (it_event p))] ++ jskip "actor" (it_actor p) ++
        [("channel", JStr (HistoryChannel_str (it_channel p)));
         ("occurred_at", JStr (dt_serialize (it_occurred_at p)))]).
Definition InvoiceEntered_json (p : InvoiceEntered) : json :=
  JObj ([("invoice_id", JStr (id_to_string (ie_invoice_id p)));
         ("state", JStr (InvoiceState_str (ie_state p)));
         ("channel", JStr (HistoryChannel_str (ie_channel p)))] ++ jskip "actor" (ie_actor p) ++
        [("entered_at", JStr (dt_serialize (ie_entered_at p)))]).

Definition CreditNoteProposed_json (p : CreditNoteProposed) : json :=
  JObj ([("credit_note_id", JStr (id_to_string (cp_credit_note_id p)));
         ("from", JStr (CreditNoteState_str (cp_from p)));
         ("to", JStr (CreditNoteState_str (cp_to p)));
         ("event", CreditNoteEvent_json (cp_event p))] ++ jskip "actor" (cp_actor p) ++
        [("channel", JStr (HistoryChannel_str (cp_channel p)));
         ("proposed_at", JStr (dt_serialize (cp_proposed_at p)))]).
Definition CreditNoteTransitioned_json (p : CreditNoteTransitioned) : json :=
  JObj ([("credit_note_id", JStr (id_to_string (ct_credit_note_id p)));
         ("from", JStr (CreditNoteState_str (ct_from p)));
         ("to", JStr (CreditNoteState_str (ct_to p)));
         ("event", CreditNoteEvent_json (ct_event p))] ++ jskip "actor" (ct_actor p) ++
        [("channel", JStr (HistoryChannel_str (ct_channel p)));
         ("occurred_at", JStr (dt_serialize (ct_occurred_at p)))]).
Definition CreditNoteEntered_json (p : CreditNoteEntered) : json :=
  JObj ([("credit_note_id", JStr (id_to_string (ce_credit_note_id p)));
         ("state", JStr (CreditNoteState_str (ce_state p)));
         ("channel", JStr (HistoryChannel_str (ce_channel p)))] ++ jskip "actor" (ce_actor p) ++
        [("entered_at", JStr (dt_serialize (ce_entered_at p)))]).
End events.
