(* ===== verification/Store.v ===== *)
(** * The store ([store/src/repo/], [store/migrations/])

    The tables of the schema and the repository operations on them.  Tables
    whose rows are looked up or upserted by primary key are finite maps from the
    key's text to the row; the two append-only history tables keep their rows
    in commit order.  Each operation checks the constraints the migrations
    declare (primary keys, [UNIQUE], foreign keys) and fails without effect when
    one is violated; a sequence of operations in one transaction is their
    composition in the result monad, so a failure anywhere leaves the database
    as it was.  A row is kept as the domain record it decodes to. *)

From S2P Require Import Prelude External Concrete Money Ids Domain.

(** What [sqlx::Error] the program can meet. *)
Inductive SqlxError :=
  | UniqueViolation (constraint : string)
  | ForeignKeyViolation (constraint : string)
  | SyntaxError
  | ColumnNotFound (column : string)
  | ColumnDecode (column : string)
  | Unavailable.

(** [store/src/error.rs] *)
Inductive StoreError :=
  | Sqlx (e : SqlxError)
  | Migrate
  | Json
  | DecimalError
  | IdError_ (msg : string)
  | UnsupportedDsn (dsn : string)
  | InvalidValue (column value : string)
  | IoError
  | Blob (msg : string)
  | Other (msg : string).

Notation SR := (res StoreError).

(** [UNIQUE] on a nullable column: two rows with the same non-null value. *)
Definition opt_clash (a b : option string) : bool :=
  match a, b with Some x, Some y => String.eqb x y | _, _ => false end.

Section store.
Context `{P : Platform}.

(** [repo/send_idempotency.rs] *)
Record SendIdempotencyRecord := MkSendIdempotency {
  si_invoice_id : InvoiceId;
  si_idempotency_key : string;
  si_history_id : HistoryId;
  si_delivered_to : string;
  si_created_at : DateTime;
}.

(** [repo/bus_inbox.rs] *)
Record BusInboxRecord := MkBusInbox {
  bi_event_id : string;
  bi_topic : string;
  bi_source : string;
  bi_received_at : DateTime;
  bi_payload_json : string;
  bi_processed_at : option DateTime;
  bi_invoice_id : option InvoiceId;
}.

Record Db := MkDb {
  customers : gmap string Customer;
  invoices : gmap string Invoice;
  invoice_lines : gmap string InvoiceLine;
  reminders : gmap string Reminder;
  schedules : gmap string Schedule;
  credit_notes : gmap string CreditNote;
  invoice_state_history : list InvoiceStateHistory;
  credit_note_state_history : list CreditNoteStateHistory;
  bus_inbox : gmap string BusInboxRecord;
  send_idempotency : gmap (string * string) SendIdempotencyRecord;
}.

Definition Db_empty : Db := MkDb ∅ ∅ ∅ ∅ ∅ ∅ [] [] ∅ ∅.

Definition set_customers v d := MkDb v (invoices d) (invoice_lines d) (reminders d) (schedules d)
  (credit_notes d) (invoice_state_history d) (credit_note_state_history d) (bus_inbox d) (send_idempotency d).
Definition set_invoices v d := MkDb (customers d) v (invoice_lines d) (reminders d) (schedules d)
  (credit_notes d) (invoice_state_history d) (credit_note_state_history d) (bus_inbox d) (send_idempotency d).
Definition set_invoice_lines v d := MkDb (customers d) (invoices d) v (reminders d) (schedules d)
  (credit_notes d) (invoice_state_history d) (credit_note_state_history d) (bus_inbox d) (send_idempotency d).
Definition set_reminders v d := MkDb (customers d) (invoices d) (invoice_lines d) v (schedules d)
  (credit_notes d) (invoice_state_history d) (credit_note_state_history d) (bus_inbox d) (send_idempotency d).
Definition set_schedules v d := MkDb (customers d) (invoices d) (invoice_lines d) (reminders d) v
  (credit_notes d) (invoice_state_history d) (credit_note_state_history d) (bus_inbox d) (send_idempotency d).
Definition set_credit_notes v d := MkDb (customers d) (invoices d) (invoice_lines d) (reminders d) (schedules d)
  v (invoice_state_history d) (credit_note_state_history d) (bus_inbox d) (send_idempotency d).
Definition set_history v d := MkDb (customers d) (invoices d) (invoice_lines d) (reminders d) (schedules d)
  (credit_notes d) v (credit_note_state_history d) (bus_inbox d) (send_idempotency d).
Definition set_cn_history v d := MkDb (customers d) (invoices d) (invoice_lines d) (reminders d) (schedules d)
  (credit_notes d) (invoice_state_history d) v (bus_inbox d) (send_idempotency d).
Definition set_bus_inbox v d := MkDb (customers d) (invoices d) (invoice_lines d) (reminders d) (schedules d)
  (credit_notes d) (invoice_state_history d) (credit_note_state_history d) v (send_idempotency d).
Definition set_send_idempotency v d := MkDb (customers d) (invoices d) (invoice_lines d) (reminders d) (schedules d)
  (credit_notes d) (invoice_state_history d) (credit_note_state_history d) (bus_inbox d) v.

Definition is_some {A} (o : option A) : bool := match o with Some _ => true | None => false end.

(** The rows of a keyed table, in the engine's order. *)
Definition rows {A} (t : gmap string A) : list A := (map_to_list t).*2.

(** [WHERE column = ?] when the filter is set. *)
Definition where_id {e} (f : option (EntityId e)) (i : EntityId e) : bool :=
  match f with Some c => String.eqb (id_to_string i) (id_to_string c) | None => true end.
Definition where_eq {A} `{EqDecision A} (f : option A) (a : A) : bool :=
  match f with Some s => bool_decide (a = s) | None => true end.

(** [LIMIT ? OFFSET ?] as the query builder appends them: a negative limit is
    no limit, and an [OFFSET] with no [LIMIT] before it does not parse. *)
Definition limit_offset {A} (limit offset : option Z) (l : list A) : SR (list A) :=
  match limit, offset with
  | None, None => Ok l
  | None, Some _ => Err (Sqlx SyntaxError)
  | Some n, o =>
      let l := drop (Z.to_nat (default 0 o)) l in
      Ok (if n <? 0 then l else take (Z.to_nat n) l)
  end.

(** ** Customers ([repo/customer.rs]) *)

Definition customer_upserted (old : option Customer) (c : Customer) : Customer :=
  match old with
  | Some o => MkCustomer (cust_id c) (cust_display_name c) (cust_email c) (cust_address c)
                (cust_metadata c) (cust_created_at o) (cust_updated_at c)
  | None => c
  end.
Definition customer_save (c : Customer) (d : Db) : SR Db :=
  let k := id_to_string (cust_id c) in
  Ok (set_customers (<[k := customer_upserted (customers d !! k) c]> (customers d)) d).

Definition customer_get (i : CustomerId) (d : Db) : option Customer :=
  customers d !! id_to_string i.

Definition customer_list (limit offset : Z) (d : Db) : SR (list Customer) :=
  limit_offset (Some limit) (Some offset)
    (sql_order_text (λ c, dt_to_rfc3339 (cust_created_at c)) (rows (customers d))).

(** ** Invoices ([repo/invoice.rs]) *)

Record InvoiceFilter := MkInvoiceFilter {
  if_customer_id : option CustomerId;
  if_state : option InvoiceState;
  if_limit : option Z;
  if_offset : option Z;
}.

(** The row an upsert leaves: [created_at] is not among the updated columns. *)
Definition invoice_upserted (old : option Invoice) (i : Invoice) : Invoice :=
  match old with
  | Some o =>
      MkInvoice (inv_id i) (inv_number i) (inv_customer_id i) (inv_seller_jurisdiction i)
        (inv_currency i) (inv_state i) (inv_issued_at i) (inv_due_at i) (inv_sent_at i)
        (inv_viewed_at i) (inv_paid_at i) (inv_voided_at i) (inv_subtotal i) (inv_tax_total i)
        (inv_total i) (inv_amount_paid i) (inv_schedule_id i) (inv_template_path i)
        (inv_pdf_blob_ref i) (inv_idempotency_key i) (inv_nexus_review i) (inv_metadata i)
        (inv_created_at o) (inv_updated_at i)
  | None => i
  end.

(** Another row already holds the number, or the idempotency key. *)
Definition invoice_clash (i : Invoice) (d : Db) : option string :=
  let others := filter (λ kv, kv.1 ≠ id_to_string (inv_id i)) (map_to_list (invoices d)) in
  if existsb (λ kv, opt_clash (inv_number i) (inv_number kv.2)) others
  then Some "invoices.number"
  else if existsb (λ kv, opt_clash (inv_idempotency_key i) (inv_idempotency_key kv.2)) others
  then Some "invoices.idempotency_key"
  else None.

Definition invoice_save_in_tx (i : Invoice) (d : Db) : SR Db :=
  let k := id_to_string (inv_id i) in
  match invoice_clash i d with
  | Some c => Err (Sqlx (UniqueViolation c))
  | None =>
      match customer_get (inv_customer_id i) d with
      | None => Err (Sqlx (ForeignKeyViolation "invoices.customer_id"))
      | Some _ => Ok (set_invoices (<[k := invoice_upserted (invoices d !! k) i]> (invoices d)) d)
      end
  end.

Definition invoice_get (i : InvoiceId) (d : Db) : option Invoice :=
  invoices d !! id_to_string i.

Definition invoice_find_by_idempotency_key (key : string) (d : Db) : option Invoice :=
  head (filter (λ i, inv_idempotency_key i = Some key) (rows (invoices d))).

Definition invoice_list (f : InvoiceFilter) (d : Db) : SR (list Invoice) :=
  let sel := List.filter (λ i,
    where_id (if_customer_id f) (inv_customer_id i) && where_eq (if_state f) (inv_state i)) (rows (invoices d)) in
  limit_offset (if_limit f) (if_offset f)
    (sql_order_text (λ i, dt_to_rfc3339 (inv_created_at i)) sel).

(** [DELETE FROM invoices]: restricted by credit notes, cascading to lines,
    history, reminders and send records. *)
Definition invoice_delete (i : InvoiceId) (d : Db) : SR Db :=
  let k := id_to_string i in
  if existsb (λ n, String.eqb (id_to_string (cn_invoice_id n)) k) (rows (credit_notes d))
  then Err (Sqlx (ForeignKeyViolation "credit_notes.invoice_id"))
  else Ok (MkDb (customers d) (delete k (invoices d))
         (filter (λ kv, id_to_string (line_invoice_id kv.2) ≠ k) (invoice_lines d))
         (filter (λ kv, id_to_string (rem_invoice_id kv.2) ≠ k) (reminders d))
         (schedules d) (credit_notes d)
         (filter (λ h, id_to_string (h_invoice_id h) ≠ k) (invoice_state_history d))
         (credit_note_state_history d) (bus_inbox d)
         (filter (λ kv, kv.1.1 ≠ k) (send_idempotency d))).

(** ** Invoice lines *)

Definition line_clash (l : InvoiceLine) (t : gmap string InvoiceLine) : bool :=
  existsb (λ kv, String.eqb (id_to_string (line_invoice_id kv.2)) (id_to_string (line_invoice_id l))
                 && (line_position kv.2 =? line_position l))
    (filter (λ kv, kv.1 ≠ id_to_string (line_id l)) (map_to_list t)).

(** [InvoiceLineRepo::save_in_tx] *)
Definition line_save_in_tx (l : InvoiceLine) (d : Db) : SR Db :=
  if line_clash l (invoice_lines d)
  then Err (Sqlx (UniqueViolation "invoice_lines.invoice_id, invoice_lines.position"))
  else match invoice_get (line_invoice_id l) d with
  | None => Err (Sqlx (ForeignKeyViolation "invoice_lines.invoice_id"))
  | Some _ => Ok (set_invoice_lines (<[id_to_string (line_id l) := l]> (invoice_lines d)) d)
  end.

(** The plain [INSERT] of [replace_for_invoice_in_tx]. *)
Definition line_insert (d : Db) (l : InvoiceLine) : SR Db :=
  match invoice_lines d !! id_to_string (line_id l) with
  | Some _ => Err (Sqlx (UniqueViolation "invoice_lines.id"))
  | None => line_save_in_tx l d
  end.

Definition replace_for_invoice_in_tx (i : InvoiceId) (lines : list InvoiceLine) (d : Db) : SR Db :=
  let kept := filter (λ kv, id_to_string (line_invoice_id kv.2) ≠ id_to_string i) (invoice_lines d) in
  res_foldM line_insert (set_invoice_lines kept d) lines.

Definition line_list_for_invoice (i : InvoiceId) (d : Db) : list InvoiceLine :=
  sql_order_int line_position
    (filter (λ l, id_to_string (line_invoice_id l) = id_to_string i) (rows (invoice_lines d))).

(** ** Invoice history ([repo/history.rs]) *)

Definition history_save_in_tx (h : InvoiceStateHistory) (d : Db) : SR Db :=
  if existsb (λ h', String.eqb (id_to_string (h_id h')) (id_to_string (h_id h)))
       (invoice_state_history d)
  then Err (Sqlx (UniqueViolation "invoice_state_history.id"))
  else match invoice_get (h_invoice_id h) d with
  | None => Err (Sqlx (ForeignKeyViolation "invoice_state_history.invoice_id"))
  | Some _ => Ok (set_history (invoice_state_history d ++ [h]) d)
  end.

Definition history_list_for_invoice (i : InvoiceId) (d : Db) : list InvoiceStateHistory :=
  sql_order_text (λ h, dt_to_rfc3339 (h_occurred_at h))
    (filter (λ h, id_to_string (h_invoice_id h) = id_to_string i) (invoice_state_history d)).

Definition history_pending_outbox (limit : Z) (d : Db) : SR (list InvoiceStateHistory) :=
  limit_offset (Some limit) None
    (sql_order_text (λ h, dt_to_rfc3339 (h_occurred_at h))
       (List.filter (λ h, negb (is_some (h_published_at h))) (invoice_state_history d))).

Definition history_mark_published (now : DateTime) (i : HistoryId) (d : Db) : Db :=
  set_history ((λ h, if String.eqb (id_to_string (h_id h)) (id_to_string i)
                     then set_h_published_at (Some now) h else h)
               <$> invoice_state_history d) d.

(** ** Credit notes ([repo/credit_note.rs]) *)

Record CreditNoteFilter := MkCreditNoteFilter {
  cf_invoice_id : option InvoiceId;
  cf_state : option CreditNoteState;
  cf_limit : option Z;
  cf_offset : option Z;
}.

Definition cn_upserted (old : option CreditNote) (n : CreditNote) : CreditNote :=
  match old with
  | Some o =>
      MkCreditNote (cn_id n) (cn_number n) (cn_invoice_id n) (cn_state n) (cn_amount n)
        (cn_currency n) (cn_reason n) (cn_refund_ref n) (cn_issued_at n) (cn_metadata n)
        (cn_created_at o)
  | None => n
  end.

Definition cn_clash (n : CreditNote) (d : Db) : bool :=
  existsb (λ kv, opt_clash (cn_number n) (cn_number kv.2))
    (filter (λ kv, kv.1 ≠ id_to_string (cn_id n)) (map_to_list (credit_notes d))).

Definition cn_save_in_tx (n : CreditNote) (d : Db) : SR Db :=
  let k := id_to_string (cn_id n) in
  if cn_clash n d then Err (Sqlx (UniqueViolation "credit_notes.number"))
  else match invoice_get (cn_invoice_id n) d with
  | None => Err (Sqlx (ForeignKeyViolation "credit_notes.invoice_id"))
  | Some _ => Ok (set_credit_notes (<[k := cn_upserted (credit_notes d !! k) n]> (credit_notes d)) d)
  end.

Definition cn_get (i : CreditNoteId) (d : Db) : option CreditNote :=
  credit_notes d !! id_to_string i.

Definition cn_list (f : CreditNoteFilter) (d : Db) : SR (list CreditNote) :=
  let sel := List.filter (λ n,
    where_id (cf_invoice_id f) (cn_invoice_id n) && where_eq (cf_state f) (cn_state n)) (rows (credit_notes d)) in
  limit_offset (cf_limit f) (cf_offset f)
    (sql_order_text (λ n, dt_to_rfc3339 (cn_created_at n)) sel).

Definition cn_history_save_in_tx (h : CreditNoteStateHistory) (d : Db) : SR Db :=
  if existsb (λ h', String.eqb (id_to_string (cnh_id h')) (id_to_string (cnh_id h)))
       (credit_note_state_history d)
  then Err (Sqlx (UniqueViolation "credit_note_state_history.id"))
  else match cn_get (cnh_credit_note_id h) d with
  | None => Err (Sqlx (ForeignKeyViolation "credit_note_state_history.credit_note_id"))
  | Some _ => Ok (set_cn_history (credit_note_state_history d ++ [h]) d)
  end.

Definition cn_history_list (i : CreditNoteId) (d : Db) : list CreditNoteStateHistory :=
  sql_order_text (λ h, dt_to_rfc3339 (cnh_occurred_at h))
    (filter (λ h, id_to_string (cnh_credit_note_id h) = id_to_string i)
       (credit_note_state_history d)).

Definition cn_history_pending_outbox (limit : Z) (d : Db) : SR (list CreditNoteStateHistory) :=
  limit_offset (Some limit) None
    (sql_order_text (λ h, dt_to_rfc3339 (cnh_occurred_at h))
       (List.filter (λ h, negb (is_some (cnh_published_at h))) (credit_note_state_history d))).

Definition cn_history_mark_published (now : DateTime) (i : HistoryId) (d : Db) : Db :=
  set_cn_history ((λ h, if String.eqb (id_to_string (cnh_id h)) (id_to_string i)
                        then set_cnh_published_at (Some now) h else h)
                  <$> credit_note_state_history d) d.

(** ** Reminders ([repo/reminder.rs]) *)

Definition reminder_save (r : Reminder) (d : Db) : SR Db :=
  match invoice_get (rem_invoice_id r) d with
  | None => Err (Sqlx (ForeignKeyViolation "reminders.invoice_id"))
  | Some _ => Ok (set_reminders (<[id_to_string (rem_id r) := r]> (reminders d)) d)
  end.
Definition reminder_get (i : ReminderId) (d : Db) : option Reminder :=
  reminders d !! id_to_string i.
Definition reminder_list_for_invoice (i : InvoiceId) (d : Db) : list Reminder :=
  sql_order_text (λ r, dt_to_rfc3339 (rem_scheduled_at r))
    (filter (λ r, id_to_string (rem_invoice_id r) = id_to_string i) (rows (reminders d))).
Definition reminder_due (cutoff : DateTime) (d : Db) : list Reminder :=
  sql_order_text (λ r, dt_to_rfc3339 (rem_scheduled_at r))
    (filter (λ r, rem_state r = RScheduled ∧
                  String.leb (dt_to_rfc3339 (rem_scheduled_at r)) (dt_to_rfc3339 cutoff) = true)
       (rows (reminders d))).

(** ** Schedules ([repo/schedule.rs]) *)

Record ScheduleFilter := MkScheduleFilter {
  sf_customer_id : option CustomerId;
  sf_state : option ScheduleState;
  sf_limit : option Z;
  sf_offset : option Z;
}.

Definition schedule_upserted (old : option Schedule) (s : Schedule) : Schedule :=
  match old with
  | Some o =>
      MkSchedule (sch_id s) (sch_customer_id s) (sch_template_lines s) (sch_currency s)
        (sch_cadence s) (sch_start_date s) (sch_end_date s) (sch_auto_issue s) (sch_next_run s)
        (sch_last_run s) (sch_state s) (sch_metadata s) (sch_created_at o) (sch_updated_at s)
  | None => s
  end.

Definition schedule_save (s : Schedule) (d : Db) : SR Db :=
  let k := id_to_string (sch_id s) in
  match customer_get (sch_customer_id s) d with
  | None => Err (Sqlx (ForeignKeyViolation "schedules.customer_id"))
  | Some _ => Ok (set_schedules (<[k := schedule_upserted (schedules d !! k) s]> (schedules d)) d)
  end.
Definition schedule_get (i : ScheduleId) (d : Db) : option Schedule :=
  schedules d !! id_to_string i.
Definition schedule_list (f : ScheduleFilter) (d : Db) : SR (list Schedule) :=
  let sel := List.filter (λ s,
    where_id (sf_customer_id f) (sch_customer_id s) && where_eq (sf_state f) (sch_state s)) (rows (schedules d)) in
  limit_offset (sf_limit f) (sf_offset f)
    (sql_order_text (λ s, dt_to_rfc3339 (sch_created_at s)) sel).
Definition schedule_due (cutoff : NaiveDate) (d : Db) : list Schedule :=
  sql_order_text (λ s, nd_to_string (sch_next_run s))
    (filter (λ s, sch_state s = SActive ∧
                  String.leb (nd_to_string (sch_next_run s)) (nd_to_string cutoff) = true)
       (rows (schedules d))).

(** ** Send idempotency ([repo/send_idempotency.rs]) *)

Definition send_idempotency_find (i : InvoiceId) (key : string) (d : Db)
    : option SendIdempotencyRecord :=
  send_idempotency d !! (id_to_string i, key).
Definition send_idempotency_insert_in_tx (r : SendIdempotencyRecord) (d : Db) : SR Db :=
  let k := (id_to_string (si_invoice_id r), si_idempotency_key r) in
  match send_idempotency d !! k with
  | Some _ => Err (Sqlx (UniqueViolation "send_idempotency"))
  | None =>
      match invoice_get (si_invoice_id r) d with
      | None => Err (Sqlx (ForeignKeyViolation "send_idempotency.invoice_id"))
      | Some _ => Ok (set_send_idempotency (<[k := r]> (send_idempotency d)) d)
      end
  end.

(** ** Bus inbox ([repo/bus_inbox.rs]): a check and an insert, two statements *)

Definition inbox_exists (event_id : string) (d : Db) : bool :=
  match bus_inbox d !! event_id with Some _ => true | None => false end.
Definition inbox_insert (r : BusInboxRecord) (d : Db) : SR Db :=
  match bus_inbox d !! bi_event_id r with
  | Some _ => Err (Sqlx (UniqueViolation "bus_inbox.event_id"))
  | None => Ok (set_bus_inbox (<[bi_event_id r := r]> (bus_inbox d)) d)
  end.
Definition inbox_mark_processed (now : DateTime) (event_id : string) (d : Db) : Db :=
  set_bus_inbox (alter (λ r, MkBusInbox (bi_event_id r) (bi_topic r) (bi_source r)
    (bi_received_at r) (bi_payload_json r) (Some now) (bi_invoice_id r)) event_id (bus_inbox d)) d.
Definition inbox_get (event_id : string) (d : Db) : option BusInboxRecord :=
  bus_inbox d !! event_id.
End store.
