(* ===== verification/Codec.v ===== *)
(** * How rows are stored ([store/src/repo/])

    Every column of the schema is TEXT or INTEGER.  A repository binds the
    fields of a record to the columns of its [INSERT] by position and its
    [row_to_*] function reads them back by name.  This file has, for each of
    the ten tables, the column list, the bound values and the decoder, as one
    instance of [RowCodec]; the laws of [RowCodecLaws] say that decoding what
    was bound gives the record back, and that the column list of an upsert's
    [DO UPDATE SET] does on rows what [Store] does on records. *)

From S2P Require Import Prelude External Concrete Money Ids Domain InvoiceFsm Cadence Events Store.

(** [serde_json] on whole documents, the [Deserialize] of [rust_decimal] and
    [chrono], and the text of chrono's parse errors. *)
Class Serde `{P : Platform} := {
  json_to_string : json → string;
  json_from_str : string → option json;
  decimal_de : json → option Decimal;
  datetime_de : json → option DateTime;
  chrono_error : string → string;
}.
Class SerdeLaws `{P : Platform} (S : Serde) : Prop := {
  json_string_roundtrip v : json_from_str (json_to_string v) = Some v;
  json_string_nonempty v : json_to_string v ≠ "";
  decimal_de_str s d : dec_from_str s = Some d → decimal_de (JStr s) = Some d;
  datetime_de_str s t : dt_from_rfc3339 s = Some t → datetime_de (JStr s) = Some t;
  datetime_de_serialize t :
    0 ≤ dt_year t ≤ 9999 → dt_nanosecond t < 1000000000 → datetime_de (JStr (dt_serialize t)) = Some t;
}.

(** Reading back what [rust_decimal] and [chrono] print.  A [Decimal] is
    determined by mantissa and scale unless it is a negative zero. *)
Class TextLaws (P : Platform) : Prop := {
  dec_string_roundtrip d :
    d = dec_new (dec_mantissa d) (dec_scale d) → (dec_scale d ≤ 28)%nat →
    Z.abs (dec_mantissa d) < 2 ^ 96 → dec_from_str (dec_to_string d) = Some d;
  dt_string_roundtrip t :
    0 ≤ dt_year t ≤ 9999 → dt_nanosecond t < 1000000000 →
    dt_from_rfc3339 (dt_to_rfc3339 t) = Some t;
}.

(** ** Rows and columns *)

Inductive cell := CText (s : string) | CInt (z : Z) | CNull.
Definition row : Type := list (string * cell).

Fixpoint row_get (c : string) (r : row) : option cell :=
  match r with
  | [] => None
  | (c', v) :: r => if String.eqb c c' then Some v else row_get c r
  end.

(** [row.try_get::<String>], [::<Option<String>>], [::<i64>] *)
Definition get_text (c : string) (r : row) : SR string :=
  match row_get c r with
  | None => Err (Sqlx (ColumnNotFound c))
  | Some (CText s) => Ok s
  | Some _ => Err (Sqlx (ColumnDecode c))
  end.
Definition cell_opt (c : string) (v : cell) : SR (option string) :=
  match v with
  | CText s => Ok (Some s)
  | CNull => Ok None
  | CInt _ => Err (Sqlx (ColumnDecode c))
  end.
Definition get_opt (c : string) (r : row) : SR (option string) :=
  match row_get c r with
  | None => Err (Sqlx (ColumnNotFound c))
  | Some v => cell_opt c v
  end.
Definition get_int (c : string) (r : row) : SR Z :=
  match row_get c r with
  | None => Err (Sqlx (ColumnNotFound c))
  | Some (CInt z) => Ok z
  | Some _ => Err (Sqlx (ColumnDecode c))
  end.

Definition ctext_opt (o : option string) : cell :=
  match o with Some s => CText s | None => CNull end.
Lemma cell_opt_text c o : cell_opt c (ctext_opt o) = Ok o.
Proof. by destruct o. Qed.
Lemma cell_opt_some c s : cell_opt c (CText s) = Ok (Some s).
Proof. done. Qed.
(** [i64::from(b)] *)
Definition cbool (b : bool) : cell := CInt (if b then 1 else 0).

(** [INSERT INTO t (columns) VALUES (?, ..)] with the values bound in order. *)
Definition insert_row (columns : list string) (values : list cell) : row := zip columns values.

(** [ON CONFLICT (id) DO UPDATE SET c = excluded.c] for the listed columns. *)
Definition upsert_row (set : list string) (old excluded : row) : row :=
  (λ '(c, v), (c, if existsb (String.eqb c) set then default v (row_get c excluded) else v)) <$> old.

(** [o.map(f).transpose()] *)
Definition transpose {A B} (f : A → SR B) (o : option A) : SR (option B) :=
  match o with None => Ok None | Some a => Some <$> f a end.

(** The order of a [BTreeMap]'s entries. *)
Definition entry_le (a b : string * string) : Prop := String.leb a.1 b.1 = true.
#[export] Instance entry_le_dec a b : Decision (entry_le a b).
Proof. unfold entry_le. apply _. Defined.

Section codec.
Context `{P : Platform} `{S : Serde}.

(** ** The shared helpers ([repo/mod.rs]) *)

Definition parse_decimal (s : string) : SR Decimal := ok_or DecimalError (dec_from_str s).
Definition decimal_to_string (d : Decimal) : string := dec_to_string d.
Definition parse_ts (s : string) : SR DateTime :=
  ok_or (Other ("timestamp parse: " +:+ chrono_error s)) (dt_from_rfc3339 s).
Definition ts_to_string (t : DateTime) : string := dt_to_rfc3339 t.

(** A [BTreeMap] lists its entries by key. *)
Definition btree_entries (m : Metadata) : list (string * string) :=
  merge_sort entry_le (map_to_list m).
(** Deserialising a map: a repeated key keeps its last value. *)
Definition btree_of (l : list (string * string)) : Metadata :=
  foldl (λ m kv, <[kv.1 := kv.2]> m) ∅ l.

Definition json_str (v : json) : SR string :=
  match v with JStr s => Ok s | _ => Err Json end.
Definition metadata_to_json (m : Metadata) : string :=
  json_to_string (JObj ((λ kv, (kv.1, JStr kv.2)) <$> btree_entries m)).
Definition metadata_from_json (s : option string) : SR Metadata :=
  match s with
  | None => Ok ∅
  | Some EmptyString => Ok ∅
  | Some text =>
      v ← ok_or Json (json_from_str text);
      match v with
      | JObj ms => btree_of <$> res_mapM (λ kv, s ← json_str kv.2; Ok (kv.1, s)) ms
      | _ => Err Json
      end
  end.

Definition parse_id (e : Entity) (s : string) : SR (EntityId e) :=
  map_err (λ e, IdError_ (IdError_to_string e)) (id_parse e s).
Definition parse_currency (s : string) : SR Currency :=
  map_err (λ e, IdError_ (CurrencyError_to_string e)) (Currency.new s).
Definition parse_jurisdiction (s : string) : SR Jurisdiction :=
  map_err (λ e, IdError_ ("unsupported jurisdiction: `" +:+ e +:+ "` (v1 supports CA-QC | US-DE | DZ-16)"))
    (Jurisdiction.from_str s).

(** ** JSON columns *)

(** One field of a derived [Deserialize]: absent, present, or repeated. *)
Definition field (k : string) (ms : list (string * json)) : SR (option json) :=
  match List.filter (λ kv, String.eqb kv.1 k) ms with
  | [] => Ok None
  | [kv] => Ok (Some kv.2)
  | _ => Err Json
  end.
(** A required field, and one with [#[serde(default)]] on an [Option]. *)
Definition required {A} (f : json → SR A) (k : string) (ms : list (string * json)) : SR A :=
  v ← field k ms; v ← ok_or Json v; f v.
Definition optional {A} (f : json → SR A) (k : string) (ms : list (string * json)) : SR (option A) :=
  v ← field k ms;
  match v with None | Some JNull => Ok None | Some v => Some <$> f v end.
Definition str_field := required json_str.
Definition opt_field := optional json_str.

(** A derived [Deserialize] takes an object, or the array of the fields in order. *)
Definition struct_fields (names : list string) (v : json) : SR (list (string * json)) :=
  match v with
  | JObj ms => Ok ms
  | JArr l => if (length l <=? length names)%nat then Ok (zip names l) else Err Json
  | _ => Err Json
  end.
(** A unit variant of a derived enum: its name, or [{"name": null}]. *)
Definition variant_name (v : json) : SR string :=
  match v with JStr s | JObj [(s, JNull)] => Ok s | _ => Err Json end.

Definition Address_json (a : Address) : json :=
  JObj (("country", JStr (addr_country a)) :: jskip "region" (addr_region a) ++
        jskip "city" (addr_city a) ++ jskip "postal" (addr_postal a) ++
        jskip "line1" (addr_line1 a) ++ jskip "line2" (addr_line2 a)).
Definition Address_from_json (v : json) : SR Address :=
  ms ← struct_fields ["country"; "region"; "city"; "postal"; "line1"; "line2"] v;
  country ← str_field "country" ms;
  region ← opt_field "region" ms;
  city ← opt_field "city" ms;
  postal ← opt_field "postal" ms;
  line1 ← opt_field "line1" ms;
  line2 ← opt_field "line2" ms;
  Ok (MkAddress country region city postal line1 line2).

Definition tax_category_to_str (c : TaxCategory) : string :=
  match c with
  | Standard => "standard" | Reduced => "reduced" | ZeroRated => "zero_rated" | Exempt => "exempt"
  end.
Definition tax_category_from_str (s : string) : SR TaxCategory :=
  if String.eqb s "standard" then Ok Standard
  else if String.eqb s "reduced" then Ok Reduced
  else if String.eqb s "zero_rated" then Ok ZeroRated
  else if String.eqb s "exempt" then Ok Exempt
  else Err (InvalidValue "invoice_lines.tax_category" s).

(** [#[derive(Serialize, Deserialize)]] on [ScheduleLine]; a [Decimal] is
    written as a string. *)
Definition ScheduleLine_json (l : ScheduleLine) : json :=
  JObj [("description", JStr (sl_description l));
        ("quantity", JStr (dec_to_string (sl_quantity l)));
        ("unit_price", JStr (dec_to_string (sl_unit_price l)));
        ("tax_category", JStr (tax_category_to_str (sl_tax_category l)));
        ("id", JStr (id_to_string (sl_id l)))].
Definition Decimal_from_json (v : json) : SR Decimal := ok_or Json (decimal_de v).
Definition DateTime_from_json (v : json) : SR DateTime := ok_or Json (datetime_de v).
Definition NaiveDate_from_json (v : json) : SR NaiveDate := s ← json_str v; ok_or Json (nd_from_str s).
Definition bool_de (v : json) : SR bool := match v with JBool b => Ok b | _ => Err Json end.
Definition TaxCategory_from_json (v : json) : SR TaxCategory :=
  s ← variant_name v; map_err (λ _, Json) (tax_category_from_str s).
Definition Currency_from_json (v : json) : SR Currency :=
  s ← json_str v; map_err (λ _, Json) (Currency.new s).
Definition Jurisdiction_from_json (v : json) : SR Jurisdiction :=
  s ← variant_name v; map_err (λ _, Json) (Jurisdiction.from_str s).
Definition ScheduleLine_from_json (v : json) : SR ScheduleLine :=
  ms ← struct_fields ["description"; "quantity"; "unit_price"; "tax_category"; "id"] v;
  description ← str_field "description" ms;
  quantity ← required Decimal_from_json "quantity" ms;
  unit_price ← required Decimal_from_json "unit_price" ms;
  c ← field "tax_category" ms;
  tax_category ← match c with None => Ok Standard | Some c => TaxCategory_from_json c end;
  i ← str_field "id" ms; id ← map_err (λ _, Json) (id_parse ELine i);
  Ok (MkScheduleLine description quantity unit_price tax_category id).

Definition json_array (v : json) : SR (list json) :=
  match v with JArr l => Ok l | _ => Err Json end.

(** ** Enum columns *)

Definition state_to_str (s : InvoiceState) : string :=
  match s with
  | Draft => "draft" | Issued => "issued" | Sent => "sent" | Viewed => "viewed"
  | PartiallyPaid => "partially_paid" | Paid => "paid" | Voided => "voided"
  end.
Definition state_from_str (s : string) : SR InvoiceState :=
  if String.eqb s "draft" then Ok Draft
  else if String.eqb s "issued" then Ok Issued
  else if String.eqb s "sent" then Ok Sent
  else if String.eqb s "viewed" then Ok Viewed
  else if String.eqb s "partially_paid" then Ok PartiallyPaid
  else if String.eqb s "paid" then Ok Paid
  else if String.eqb s "voided" then Ok Voided
  else Err (InvalidValue "invoices.state" s).

Definition channel_to_str (c : HistoryChannel) : string :=
  match c with HCli => "cli" | HApi => "api" | HWs => "ws" | HMcp => "mcp" | HBus => "bus" end.
Definition channel_from_str (s : string) : SR HistoryChannel :=
  if String.eqb s "cli" then Ok HCli
  else if String.eqb s "api" then Ok HApi
  else if String.eqb s "ws" then Ok HWs
  else if String.eqb s "mcp" then Ok HMcp
  else if String.eqb s "bus" then Ok HBus
  else Err (InvalidValue "channel" s).

Definition cn_state_to_str (s : CreditNoteState) : string :=
  match s with CnDraft => "draft" | CnIssued => "issued" end.
Definition cn_state_from_str (s : string) : SR CreditNoteState :=
  if String.eqb s "draft" then Ok CnDraft
  else if String.eqb s "issued" then Ok CnIssued
  else Err (InvalidValue "credit_notes.state" s).

Definition reminder_channel_to_str (c : ReminderChannel) : string :=
  match c with
  | RcFile => "file" | RcStdout => "stdout" | RcBus => "bus" | RcWebhook => "webhook" | RcLink => "link"
  end.
Definition reminder_channel_from_str (s : string) : SR ReminderChannel :=
  if String.eqb s "file" then Ok RcFile
  else if String.eqb s "stdout" then Ok RcStdout
  else if String.eqb s "bus" then Ok RcBus
  else if String.eqb s "webhook" then Ok RcWebhook
  else if String.eqb s "link" then Ok RcLink
  else Err (InvalidValue "reminders.channel" s).
Definition reminder_state_to_str (s : ReminderState) : string :=
  match s with RScheduled => "scheduled" | RSent => "sent" | RCancelled => "cancelled" end.
Definition reminder_state_from_str (s : string) : SR ReminderState :=
  if String.eqb s "scheduled" then Ok RScheduled
  else if String.eqb s "sent" then Ok RSent
  else if String.eqb s "cancelled" then Ok RCancelled
  else Err (InvalidValue "reminders.state" s).

Definition schedule_state_to_str (s : ScheduleState) : string :=
  match s with SActive => "active" | SPaused => "paused" | SCancelled => "cancelled" end.
Definition schedule_state_from_str (s : string) : SR ScheduleState :=
  if String.eqb s "active" then Ok SActive
  else if String.eqb s "paused" then Ok SPaused
  else if String.eqb s "cancelled" then Ok SCancelled
  else Err (InvalidValue "schedules.state" s).
End codec.

(** ** Decoding never panics *)

Create HintDb calm.
Definition calm {Er A} (m : res Er A) : Prop := m ≠ Panic.
Lemma calm_bind {Er A B} (m : res Er A) (f : A → res Er B) :
  calm m → (∀ a, calm (f a)) → calm (m ≫= f).
Proof. destruct m; cbn; [auto|done..]. Qed.
Lemma calm_map_err {Er Er' A} (g : Er → Er') (m : res Er A) : calm m → calm (map_err g m).
Proof. by destruct m. Qed.
Lemma calm_fmap {Er A B} (g : A → B) (m : res Er A) : calm m → calm (g <$> m).
Proof. by destruct m. Qed.
Lemma calm_ok_or {Er A} (e : Er) (o : option A) : calm (ok_or e o).
Proof. by destruct o. Qed.
Lemma calm_mapM {Er A B} (f : A → res Er B) l : (∀ a, calm (f a)) → calm (res_mapM f l).
Proof.
  intros Hf. induction l; cbn; [done|]. apply calm_bind; [done|]. intros. by apply calm_bind.
Qed.
Lemma calm_field k ms : calm (field k ms).
Proof. unfold field. destruct (List.filter _ _) as [|? []]; done. Qed.
#[export] Hint Resolve calm_ok_or calm_field : calm.

(** Walks the binds and branches of a decoder. *)
Ltac solve_calm := solve [
  repeat first
    [ solve [auto with calm] | done
    | apply calm_bind; [|intros ?] | apply calm_map_err | apply calm_fmap | apply calm_mapM; intros ?
    | progress unfold str_field, opt_field, required, optional
    | match goal with |- calm (match ?x with _ => _ end) => destruct x end ] ].
Lemma calm_struct_fields names v : calm (struct_fields names v).
Proof. unfold struct_fields. solve_calm. Qed.
Lemma calm_json_str v : calm (json_str v).
Proof. unfold json_str. solve_calm. Qed.
Lemma calm_json_array v : calm (json_array v).
Proof. unfold json_array. solve_calm. Qed.
Lemma calm_variant_name v : calm (variant_name v).
Proof. unfold variant_name. solve_calm. Qed.
#[export] Hint Resolve calm_struct_fields calm_json_str calm_json_array calm_variant_name : calm.

Section calm.
Context `{P : Platform} `{S : Serde}.

Lemma calm_decimal v : calm (Decimal_from_json v).
Proof. apply calm_ok_or. Qed.
Lemma calm_datetime v : calm (DateTime_from_json v).
Proof. apply calm_ok_or. Qed.
Lemma calm_tax_category v : calm (TaxCategory_from_json v).
Proof. unfold TaxCategory_from_json, tax_category_from_str. solve_calm. Qed.
Lemma calm_jurisdiction v : calm (Jurisdiction_from_json v).
Proof. unfold Jurisdiction_from_json, Jurisdiction.from_str. solve_calm. Qed.
Lemma calm_currency v : calm (Currency_from_json v).
Proof. unfold Currency_from_json, Currency.new. solve_calm. Qed.
Lemma calm_id_parse e s : calm (id_parse e s).
Proof. unfold id_parse, parse_typeid. solve_calm. Qed.
End calm.
#[export] Hint Resolve calm_decimal calm_datetime calm_tax_category calm_jurisdiction calm_currency
  calm_id_parse : calm.
