(* ===== verification/ConcreteJson.v ===== *)
(** * An executable instance of the text formats

    Documents are encoded as bit strings through stdpp's countable trees; the
    decimals and instants are those of [Concrete].  It satisfies [SerdeLaws]
    and [TextLaws], so the hypotheses of the row codec hold together. *)

From stdpp Require Import countable.
From S2P Require Import Prelude External Concrete Money Ids Domain InvoiceFsm CreditNoteFsm Events.
From S2P Require Import Store Codec.

Module ConcreteJson.

(** The leaves of a document. *)
Definition leaf : Type := () + bool + Z + string + string.

Fixpoint to_tree (v : json) : gen_tree leaf :=
  match v with
  | JNull => GenLeaf (inl (inl (inl (inl ()))))
  | JBool b => GenLeaf (inl (inl (inl (inr b))))
  | JInt z => GenLeaf (inl (inl (inr z)))
  | JNum s => GenLeaf (inl (inr s))
  | JStr s => GenLeaf (inr s)
  | JArr l => GenNode 0 (to_tree <$> l)
  | JObj ms => GenNode 1 ((λ kv, GenNode 2 [GenLeaf (inr kv.1); to_tree kv.2]) <$> ms)
  end.

Fixpoint of_tree (t : gen_tree leaf) : json :=
  match t with
  | GenLeaf (inl (inl (inl (inl _)))) => JNull
  | GenLeaf (inl (inl (inl (inr b)))) => JBool b
  | GenLeaf (inl (inl (inr z))) => JInt z
  | GenLeaf (inl (inr s)) => JNum s
  | GenLeaf (inr s) => JStr s
  | GenNode 0 l => JArr (of_tree <$> l)
  | GenNode _ l =>
      JObj ((λ t, match t with
                  | GenNode _ [GenLeaf (inr k); v] => (k, of_tree v)
                  | _ => ("", JNull)
                  end) <$> l)
  end.

Lemma of_to_tree : ∀ v, of_tree (to_tree v) = v.
Proof.
  fix IH 1. intros [| | | | |l|ms]; cbn; try done.
  - f_equal. induction l as [|v l IHl]; cbn; [done|]. by rw IH IHl.
  - f_equal. induction ms as [|[k v] ms IHl]; cbn; [done|]. by rw IH IHl.
Qed.

Fixpoint bits (p : positive) : string :=
  match p with
  | xH => "1"
  | xO p => String "0" (bits p)
  | xI p => String "1" (bits p)
  end.
Fixpoint of_bits (s : string) : positive :=
  match s with
  | String "0" s => xO (of_bits s)
  | String _ EmptyString => xH
  | String _ s => xI (of_bits s)
  | EmptyString => xH
  end.

Lemma bits_nonempty p : bits p ≠ "".
Proof. by destruct p. Qed.
Lemma of_bits_bits p : of_bits (bits p) = p.
Proof.
  induction p as [p IH|p IH|]; cbn; [|by rw IH|done].
  pose proof (bits_nonempty p). destruct (bits p) eqn:E; [done|]. by rw IH.
Qed.

#[local] Existing Instance Concrete.platform.

(** A decimal is read from a string or an integer, an instant from RFC 3339 text. *)
#[export] Instance serde : Serde := {|
  json_to_string v := bits (encode (to_tree v));
  json_from_str s := of_tree <$> decode (of_bits s);
  decimal_de v := match v with JStr s => dec_from_str s | JInt z => Some (dec_new z 0) | _ => None end;
  datetime_de v := match v with JStr s => dt_from_rfc3339 s | _ => None end;
  chrono_error s := "cannot parse " +:+ s;
|}.
#[export] Instance serde_laws : SerdeLaws serde.
Proof.
  split; [| |done|done|intros t; apply Concrete.datetime_roundtrip]; intros v; cbn; [|apply bits_nonempty].
  rw of_bits_bits decode_encode. cbn. by rw of_to_tree.
Qed.

#[export] Instance text_laws : TextLaws Concrete.platform.
Proof.
  split.
  - intros d _ _ _. apply Concrete.decimal_roundtrip.
  - intros t. apply Concrete.datetime_roundtrip.
Qed.
End ConcreteJson.
