(* ===== verification/Wire.v ===== *)
(** * What the adapters answer ([core/src/domain/], [tax/rate.rs])

    The JSON values the derived [Serialize] of the domain records gives: the
    fields in their order, those marked [skip_serializing_if] left out when they
    are empty, a [Decimal] as a string, an instant in RFC 3339.  A
    [serde_json::Value] keeps one member per key ([value_of]). *)

From S2P Require Import Prelude External Concrete Money Ids Domain InvoiceFsm Cadence Events Tax Store Codec.
From S2P Require Import ConcreteJson.

Section wire.
Context `{P : Platform}.

Definition jdec (d : Decimal) : json := JStr (dec_to_string d).
Definition jtime (t : DateTime) : json := JStr (dt_serialize t).
Definition jdate (d : NaiveDate) : json := JStr (nd_to_string d).
Definition jid {e} (i : EntityId e) : json := JStr (id_to_string i).
(** [skip_serializing_if] on an [Option], a map and a vector. *)
Definition jsome {A} (f : A → json) (k : string) (o : option A) : list (string * json) :=
  match o with Some a => [(k, f a)] | None => [] end.
Definition jmap (k : string) (m : Metadata) : list (string * json) :=
  if bool_decide (m = ∅) then [] else [(k, JObj ((λ kv, (kv.1, JStr kv.2)) <$> btree_entries m))].
Definition jvec {A} (f : A → json) (k : string) (l : list A) : list (string * json) :=
  match l with [] => [] | _ => [(k, JArr (f <$> l))] end.

Definition Invoice_json (i : Invoice) : json :=
  JObj ([("id", jid (inv_id i))] ++ jsome JStr "number" (inv_number i) ++
        [("customer_id", jid (inv_customer_id i));
         ("seller_jurisdiction", JStr (Jurisdiction.as_str (inv_seller_jurisdiction i)));
         ("currency", JStr (Currency.as_str (inv_currency i)));
         ("state", JStr (InvoiceState_str (inv_state i)))] ++
        jsome jtime "issued_at" (inv_issued_at i) ++ jsome jtime "due_at" (inv_due_at i) ++
        jsome jtime "sent_at" (inv_sent_at i) ++ jsome jtime "viewed_at" (inv_viewed_at i) ++
        jsome jtime "paid_at" (inv_paid_at i) ++ jsome jtime "voided_at" (inv_voided_at i) ++
        [("subtotal", jdec (inv_subtotal i)); ("tax_total", jdec (inv_tax_total i));
         ("total", jdec (inv_total i)); ("amount_paid", jdec (inv_amount_paid i))] ++
        jsome jid "schedule_id" (inv_schedule_id i) ++
        jsome JStr "template_path" (inv_template_path i) ++
        jsome JStr "pdf_blob_ref" (inv_pdf_blob_ref i) ++
        jsome JStr "idempotency_key" (inv_idempotency_key i) ++
        [("nexus_review", JBool (inv_nexus_review i))] ++ jmap "metadata" (inv_metadata i) ++
        [("created_at", jtime (inv_created_at i)); ("updated_at", jtime (inv_updated_at i))]).

Definition InvoiceLine_json (l : InvoiceLine) : json :=
  JObj ([("id", jid (line_id l)); ("invoice_id", jid (line_invoice_id l));
         ("position", JInt (line_position l)); ("description", JStr (line_description l));
         ("quantity", jdec (line_quantity l)); ("unit_price", jdec (line_unit_price l))] ++
        jvec JStr "tax_rate_ids" (line_tax_rate_ids l) ++
        [("tax_category", JStr (tax_category_to_str (line_tax_category l)));
         ("tax_amount", jdec (line_tax_amount l)); ("line_total", jdec (line_line_total l))] ++
        jmap "metadata" (line_metadata l)).

Definition CreditNote_json (n : CreditNote) : json :=
  JObj ([("id", jid (cn_id n))] ++ jsome JStr "number" (cn_number n) ++
        [("invoice_id", jid (cn_invoice_id n)); ("state", JStr (CreditNoteState_str (cn_state n)));
         ("amount", jdec (cn_amount n)); ("currency", JStr (Currency.as_str (cn_currency n)))] ++
        jsome JStr "reason" (cn_reason n) ++ jsome JStr "refund_ref" (cn_refund_ref n) ++
        jsome jtime "issued_at" (cn_issued_at n) ++ jmap "metadata" (cn_metadata n) ++
        [("created_at", jtime (cn_created_at n))]).

Definition Reminder_json (r : Reminder) : json :=
  JObj ([("id", jid (rem_id r)); ("invoice_id", jid (rem_invoice_id r));
         ("scheduled_at", jtime (rem_scheduled_at r))] ++ jsome jtime "sent_at" (rem_sent_at r) ++
        [("channel", JStr (reminder_channel_to_str (rem_channel r)));
         ("state", JStr (reminder_state_to_str (rem_state r)))]).

Definition Schedule_json (s : Schedule) : json :=
  JObj ([("id", jid (sch_id s)); ("customer_id", jid (sch_customer_id s));
         ("template_lines", JArr (ScheduleLine_json <$> sch_template_lines s));
         ("currency", JStr (Currency.as_str (sch_currency s)));
         ("cadence", JStr (Cadence.to_string (sch_cadence s)));
         ("start_date", jdate (sch_start_date s))] ++ jsome jdate "end_date" (sch_end_date s) ++
        [("auto_issue", JBool (sch_auto_issue s)); ("next_run", jdate (sch_next_run s))] ++
        jsome jdate "last_run" (sch_last_run s) ++
        [("state", JStr (schedule_state_to_str (sch_state s)))] ++ jmap "metadata" (sch_metadata s) ++
        [("created_at", jtime (sch_created_at s)); ("updated_at", jtime (sch_updated_at s))]).

Definition Customer_json (c : Customer) : json :=
  JObj ([("id", jid (cust_id c)); ("display_name", JStr (cust_display_name c))] ++
        jsome JStr "email" (cust_email c) ++ [("address", Address_json (cust_address c))] ++
        jmap "metadata" (cust_metadata c) ++
        [("created_at", jtime (cust_created_at c)); ("updated_at", jtime (cust_updated_at c))]).

Definition TaxRate_json (r : TaxRate) : json :=
  JObj ([("id", JStr (tr_id r)); ("jurisdiction", JStr (Jurisdiction.as_str (tr_jurisdiction r)));
         ("applies_to_buyer", JObj (jsome JStr "country" (applies_country r) ++
            jsome JStr "region" (applies_region r)));
         ("name", JStr (tr_name r)); ("category", JStr (tax_category_to_str (tr_category r)));
         ("rate", jdec (tr_rate r)); ("effective_from", jdate (tr_effective_from r))] ++
        jsome jdate "effective_to" (tr_effective_to r)).
End wire.

(** ** Values *)

Definition member (k : string) (ms : list (string * json)) : bool :=
  existsb (λ kv, String.eqb kv.1 k) ms.
(** Reading a document into a [Value]: of members with the same key the last one
    counts. *)
Fixpoint value_of (v : json) : json :=
  match v with
  | JArr l => JArr (value_of <$> l)
  | JObj ms =>
      JObj ((fix go (ms : list (string * json)) : list (string * json) :=
               match ms with
               | [] => []
               | (k, v) :: ms => if member k ms then go ms else (k, value_of v) :: go ms
               end) ms)
  | _ => v
  end.
Definition values_of (ms : list (string * json)) : list (string * json) :=
  (fix go (ms : list (string * json)) : list (string * json) :=
     match ms with
     | [] => []
     | (k, v) :: ms => if member k ms then go ms else (k, value_of v) :: go ms
     end) ms.

Lemma values_of_cons k v ms :
  values_of ((k, v) :: ms) =
    if member k ms then values_of ms else (k, value_of v) :: values_of ms.
Proof. done. Qed.
Lemma member_cons k kv ms : member k (kv :: ms) = String.eqb kv.1 k || member k ms.
Proof. done. Qed.
#[global] Opaque values_of member.

Lemma member_values k ms : member k (values_of ms) = member k ms.
Proof.
  induction ms as [|[k' v] ms IH]; [done|]. rw values_of_cons member_cons.
  destruct (member k' ms) eqn:E; cbn; [|by rw member_cons IH].
  rw IH. by destruct (String.eqb_spec k' k) as [->|]; [rw E|].
Qed.
Lemma member_elem k ms : member k ms = true ↔ k ∈ ms.*1.
Proof.
  induction ms as [|[k' v] ms IH].
  { split; [done|]. intros H. by apply elem_of_nil in H. }
  rw member_cons. cbn.
  rewrite -> orb_true_iff, String.eqb_eq, IH, elem_of_cons. split; intros [|]; auto.
Qed.
(** A value has each key once. *)
Lemma values_of_keys ms : NoDup (values_of ms).*1.
Proof.
  induction ms as [|[k v] ms IH]; [constructor|]. rw values_of_cons.
  destruct (member k ms) eqn:E; [done|]. cbn. constructor; [|done].
  rw -member_elem member_values E. done.
Qed.
