(* ===== verification/Rows.v ===== *)
(** * The tables' rows ([store/src/repo/])

    One [RowCodec] instance per table: the [INSERT] column list, the values in
    the order they are bound, and [row_to_*].  [row_ok] is what a record must
    satisfy to be readable again: identifiers carry their entity's prefix,
    amounts are no negative zero, years have four digits. *)

From S2P Require Import Prelude Rounding External Concrete Money Ids Domain InvoiceFsm Cadence Events.
From S2P Require Import Store Codec ConcreteJson.

Class RowCodec (A : Type) := {
  row_columns : list string;
  row_binds : A → list cell;
  row_decode : row → SR A;
  row_ok : A → Prop;
}.
(** What a save writes. *)
Definition row_of `{RowCodec A} (a : A) : row := insert_row row_columns (row_binds a).

Class RowCodecLaws A `{RowCodec A} : Prop := {
  row_roundtrip (a : A) : row_ok a → row_decode (row_of a) = Ok a;
}.

(** The same, for a field that may be absent. *)
Definition on_some {A} (Q : A → Prop) (o : option A) : Prop :=
  match o with Some a => Q a | None => True end.

Section rows.
Context `{P : Platform} `{S : Serde}.

Definition amount_ok (d : Decimal) : Prop :=
  d = dec_new (dec_mantissa d) (dec_scale d) ∧ (dec_scale d ≤ 28)%nat ∧
  Z.abs (dec_mantissa d) < 2 ^ 96.
Definition time_ok (t : DateTime) : Prop := 0 ≤ dt_year t ≤ 9999 ∧ dt_nanosecond t < 1000000000.
Definition date_ok (d : NaiveDate) : Prop := 0 ≤ nd_year d ≤ 9999.

(** ** [repo/customer.rs] *)

Definition CUSTOMER_COLUMNS : list string :=
  ["id"; "display_name"; "email"; "address_json"; "jurisdiction"; "metadata"; "created_at";
   "updated_at"].
Definition customer_binds (c : Customer) : list cell :=
  [CText (id_to_string (cust_id c)); CText (cust_display_name c); ctext_opt (cust_email c);
   CText (json_to_string (Address_json (cust_address c))); CNull;
   CText (metadata_to_json (cust_metadata c)); CText (ts_to_string (cust_created_at c));
   CText (ts_to_string (cust_updated_at c))].
Definition row_to_customer (r : row) : SR Customer :=
  id_s ← get_text "id" r; id ← parse_id ECustomer id_s;
  display_name ← get_text "display_name" r;
  email ← get_opt "email" r;
  address_json ← get_text "address_json" r;
  address ← ok_or Json (json_from_str address_json);
  address ← Address_from_json address;
  metadata_s ← get_opt "metadata" r; metadata ← metadata_from_json metadata_s;
  created_at_s ← get_text "created_at" r;
  updated_at_s ← get_text "updated_at" r;
  created_at ← parse_ts created_at_s;
  updated_at ← parse_ts updated_at_s;
  Ok (MkCustomer id display_name email address metadata created_at updated_at).
Definition CUSTOMER_SET : list string :=
  ["display_name"; "email"; "address_json"; "jurisdiction"; "metadata"; "updated_at"].
#[export] Instance customer_codec : RowCodec Customer := {|
  row_columns := CUSTOMER_COLUMNS;
  row_binds := customer_binds;
  row_decode := row_to_customer;
  row_ok c := id_wf (cust_id c) ∧ time_ok (cust_created_at c) ∧ time_ok (cust_updated_at c);
|}.

(** ** [repo/invoice.rs] *)

Definition INVOICE_COLUMNS : list string :=
  ["id"; "number"; "customer_id"; "seller_jur"; "currency"; "state"; "issued_at"; "due_at";
   "sent_at"; "viewed_at"; "paid_at"; "voided_at"; "subtotal"; "tax_total"; "total";
   "amount_paid"; "schedule_id"; "template_path"; "pdf_blob_ref"; "idempotency_key";
   "nexus_review"; "metadata"; "created_at"; "updated_at"].
Definition opt_ts_cell (o : option DateTime) : cell := ctext_opt (ts_to_string <$> o).
Definition invoice_binds (i : Invoice) : list cell :=
  [CText (id_to_string (inv_id i)); ctext_opt (inv_number i);
   CText (id_to_string (inv_customer_id i)); CText (Jurisdiction.as_str (inv_seller_jurisdiction i));
   CText (Currency.as_str (inv_currency i)); CText (state_to_str (inv_state i));
   opt_ts_cell (inv_issued_at i); opt_ts_cell (inv_due_at i); opt_ts_cell (inv_sent_at i);
   opt_ts_cell (inv_viewed_at i); opt_ts_cell (inv_paid_at i); opt_ts_cell (inv_voided_at i);
   CText (decimal_to_string (inv_subtotal i)); CText (decimal_to_string (inv_tax_total i));
   CText (decimal_to_string (inv_total i)); CText (decimal_to_string (inv_amount_paid i));
   ctext_opt (id_to_string <$> inv_schedule_id i); ctext_opt (inv_template_path i);
   ctext_opt (inv_pdf_blob_ref i); ctext_opt (inv_idempotency_key i); cbool (inv_nexus_review i);
   CText (metadata_to_json (inv_metadata i)); CText (ts_to_string (inv_created_at i));
   CText (ts_to_string (inv_updated_at i))].
Definition opt_ts (c : string) (r : row) : SR (option DateTime) :=
  s ← get_opt c r; transpose parse_ts s.
Definition row_to_invoice (r : row) : SR Invoice :=
  id_s ← get_text "id" r; id ← parse_id EInvoice id_s;
  number ← get_opt "number" r;
  customer_id_s ← get_text "customer_id" r; customer_id ← parse_id ECustomer customer_id_s;
  seller_jur_s ← get_text "seller_jur" r; seller_jurisdiction ← parse_jurisdiction seller_jur_s;
  currency_s ← get_text "currency" r; currency ← parse_currency currency_s;
  state_s ← get_text "state" r; state ← state_from_str state_s;
  issued_at ← opt_ts "issued_at" r;
  due_at ← opt_ts "due_at" r;
  sent_at ← opt_ts "sent_at" r;
  viewed_at ← opt_ts "viewed_at" r;
  paid_at ← opt_ts "paid_at" r;
  voided_at ← opt_ts "voided_at" r;
  subtotal_s ← get_text "subtotal" r;
  tax_total_s ← get_text "tax_total" r;
  total_s ← get_text "total" r;
  amount_paid_s ← get_text "amount_paid" r;
  schedule_id_s ← get_opt "schedule_id" r; schedule_id ← transpose (parse_id ESchedule) schedule_id_s;
  template_path ← get_opt "template_path" r;
  pdf_blob_ref ← get_opt "pdf_blob_ref" r;
  idempotency_key ← get_opt "idempotency_key" r;
  nexus_review ← get_int "nexus_review" r;
  metadata_s ← get_opt "metadata" r; metadata ← metadata_from_json metadata_s;
  created_at_s ← get_text "created_at" r;
  updated_at_s ← get_text "updated_at" r;
  subtotal ← parse_decimal subtotal_s;
  tax_total ← parse_decimal tax_total_s;
  total ← parse_decimal total_s;
  amount_paid ← parse_decimal amount_paid_s;
  created_at ← parse_ts created_at_s;
  updated_at ← parse_ts updated_at_s;
  Ok (MkInvoice id number customer_id seller_jurisdiction currency state issued_at due_at sent_at
        viewed_at paid_at voided_at subtotal tax_total total amount_paid schedule_id template_path
        pdf_blob_ref idempotency_key (negb (nexus_review =? 0)) metadata created_at updated_at).
(** Every column but [id] and [created_at]. *)
Definition INVOICE_SET : list string :=
  ["number"; "customer_id"; "seller_jur"; "currency"; "state"; "issued_at"; "due_at";
   "sent_at"; "viewed_at"; "paid_at"; "voided_at"; "subtotal"; "tax_total"; "total";
   "amount_paid"; "schedule_id"; "template_path"; "pdf_blob_ref"; "idempotency_key";
   "nexus_review"; "metadata"; "updated_at"].
#[export] Instance invoice_codec : RowCodec Invoice := {|
  row_columns := INVOICE_COLUMNS;
  row_binds := invoice_binds;
  row_decode := row_to_invoice;
  row_ok i := id_wf (inv_id i) ∧ id_wf (inv_customer_id i) ∧ Currency.wf (inv_currency i) = true ∧
    on_some time_ok (inv_issued_at i) ∧ on_some time_ok (inv_due_at i) ∧
    on_some time_ok (inv_sent_at i) ∧ on_some time_ok (inv_viewed_at i) ∧
    on_some time_ok (inv_paid_at i) ∧ on_some time_ok (inv_voided_at i) ∧
    amount_ok (inv_subtotal i) ∧ amount_ok (inv_tax_total i) ∧ amount_ok (inv_total i) ∧
    amount_ok (inv_amount_paid i) ∧ on_some id_wf (inv_schedule_id i) ∧
    time_ok (inv_created_at i) ∧ time_ok (inv_updated_at i);
|}.

Definition LINE_COLUMNS : list string :=
  ["id"; "invoice_id"; "position"; "description"; "quantity"; "unit_price"; "tax_rate_ids";
   "tax_category"; "tax_amount"; "line_total"; "metadata"].
Definition line_binds (l : InvoiceLine) : list cell :=
  [CText (id_to_string (line_id l)); CText (id_to_string (line_invoice_id l));
   CInt (line_position l); CText (line_description l);
   CText (decimal_to_string (line_quantity l)); CText (decimal_to_string (line_unit_price l));
   CText (json_to_string (JArr (JStr <$> line_tax_rate_ids l)));
   CText (tax_category_to_str (line_tax_category l));
   CText (decimal_to_string (line_tax_amount l)); CText (decimal_to_string (line_line_total l));
   CText (metadata_to_json (line_metadata l))].
Definition rate_ids_from_json (s : option string) : SR (list string) :=
  match s with
  | None | Some EmptyString => Ok []
  | Some json => v ← ok_or Json (json_from_str json); l ← json_array v; res_mapM json_str l
  end.
Definition row_to_invoice_line (r : row) : SR InvoiceLine :=
  id_s ← get_text "id" r; id ← parse_id ELine id_s;
  invoice_id_s ← get_text "invoice_id" r; invoice_id ← parse_id EInvoice invoice_id_s;
  position ← get_int "position" r;
  description ← get_text "description" r;
  quantity_s ← get_text "quantity" r;
  unit_price_s ← get_text "unit_price" r;
  tax_rate_ids_s ← get_opt "tax_rate_ids" r;
  tax_rate_ids ← rate_ids_from_json tax_rate_ids_s;
  tax_category_s ← get_text "tax_category" r; tax_category ← tax_category_from_str tax_category_s;
  tax_amount_s ← get_text "tax_amount" r;
  line_total_s ← get_text "line_total" r;
  metadata_s ← get_opt "metadata" r;
  quantity ← parse_decimal quantity_s;
  unit_price ← parse_decimal unit_price_s;
  tax_amount ← parse_decimal tax_amount_s;
  line_total ← parse_decimal line_total_s;
  metadata ← metadata_from_json metadata_s;
  Ok (MkInvoiceLine id invoice_id (position mod 2 ^ 32) description quantity unit_price tax_rate_ids
        tax_category tax_amount line_total metadata).
Definition LINE_SET : list string := tail LINE_COLUMNS.
#[export] Instance line_codec : RowCodec InvoiceLine := {|
  row_columns := LINE_COLUMNS;
  row_binds := line_binds;
  row_decode := row_to_invoice_line;
  row_ok l := id_wf (line_id l) ∧ id_wf (line_invoice_id l) ∧ 0 ≤ line_position l < 2 ^ 32 ∧
    amount_ok (line_quantity l) ∧ amount_ok (line_unit_price l) ∧ amount_ok (line_tax_amount l) ∧
    amount_ok (line_line_total l);
|}.

(** ** [repo/history.rs] *)

Definition HISTORY_COLUMNS : list string :=
  ["id"; "invoice_id"; "from_state"; "to_state"; "event"; "actor"; "channel"; "bus_event_id";
   "reason"; "occurred_at"; "published_at"; "metadata"].
Definition history_binds (h : InvoiceStateHistory) : list cell :=
  [CText (id_to_string (h_id h)); CText (id_to_string (h_invoice_id h));
   ctext_opt (state_to_str <$> h_from_state h); CText (state_to_str (h_to_state h));
   CText (h_event h); ctext_opt (h_actor h); CText (channel_to_str (h_channel h));
   ctext_opt (h_bus_event_id h); ctext_opt (h_reason h); CText (ts_to_string (h_occurred_at h));
   opt_ts_cell (h_published_at h); CText (metadata_to_json (h_metadata h))].
Definition row_to_history (r : row) : SR InvoiceStateHistory :=
  id_s ← get_text "id" r; id ← parse_id EHistory id_s;
  invoice_id_s ← get_text "invoice_id" r; invoice_id ← parse_id EInvoice invoice_id_s;
  from_state_s ← get_opt "from_state" r; from_state ← transpose state_from_str from_state_s;
  to_state_s ← get_text "to_state" r; to_state ← state_from_str to_state_s;
  event ← get_text "event" r;
  actor ← get_opt "actor" r;
  channel_s ← get_text "channel" r; channel ← channel_from_str channel_s;
  bus_event_id ← get_opt "bus_event_id" r;
  reason ← get_opt "reason" r;
  occurred_at_s ← get_text "occurred_at" r;
  published_at_s ← get_opt "published_at" r;
  metadata_s ← get_opt "metadata" r;
  occurred_at ← parse_ts occurred_at_s;
  published_at ← transpose parse_ts published_at_s;
  metadata ← metadata_from_json metadata_s;
  Ok (MkHistory id invoice_id from_state to_state event actor channel bus_event_id reason
        occurred_at published_at metadata).
#[export] Instance history_codec : RowCodec InvoiceStateHistory := {|
  row_columns := HISTORY_COLUMNS;
  row_binds := history_binds;
  row_decode := row_to_history;
  row_ok h := id_wf (h_id h) ∧ id_wf (h_invoice_id h) ∧ time_ok (h_occurred_at h) ∧
    on_some time_ok (h_published_at h);
|}.

(** ** [repo/credit_note.rs] *)

Definition CREDIT_NOTE_COLUMNS : list string :=
  ["id"; "number"; "invoice_id"; "state"; "amount"; "currency"; "reason"; "refund_ref";
   "issued_at"; "created_at"; "metadata"].
Definition credit_note_binds (n : CreditNote) : list cell :=
  [CText (id_to_string (cn_id n)); ctext_opt (cn_number n); CText (id_to_string (cn_invoice_id n));
   CText (cn_state_to_str (cn_state n)); CText (decimal_to_string (cn_amount n));
   CText (Currency.as_str (cn_currency n)); ctext_opt (cn_reason n); ctext_opt (cn_refund_ref n);
   opt_ts_cell (cn_issued_at n); CText (ts_to_string (cn_created_at n));
   CText (metadata_to_json (cn_metadata n))].
Definition row_to_credit_note (r : row) : SR CreditNote :=
  id_s ← get_text "id" r; id ← parse_id ECreditNote id_s;
  number ← get_opt "number" r;
  invoice_id_s ← get_text "invoice_id" r; invoice_id ← parse_id EInvoice invoice_id_s;
  state_s ← get_text "state" r; state ← cn_state_from_str state_s;
  amount_s ← get_text "amount" r;
  currency_s ← get_text "currency" r; currency ← parse_currency currency_s;
  reason ← get_opt "reason" r;
  refund_ref ← get_opt "refund_ref" r;
  issued_at_s ← get_opt "issued_at" r; issued_at ← transpose parse_ts issued_at_s;
  created_at_s ← get_text "created_at" r;
  metadata_s ← get_opt "metadata" r;
  amount ← parse_decimal amount_s;
  created_at ← parse_ts created_at_s;
  metadata ← metadata_from_json metadata_s;
  Ok (MkCreditNote id number invoice_id state amount currency reason refund_ref issued_at metadata
        created_at).
Definition CREDIT_NOTE_SET : list string :=
  ["number"; "invoice_id"; "state"; "amount"; "currency"; "reason"; "refund_ref"; "issued_at";
   "metadata"].
#[export] Instance credit_note_codec : RowCodec CreditNote := {|
  row_columns := CREDIT_NOTE_COLUMNS;
  row_binds := credit_note_binds;
  row_decode := row_to_credit_note;
  row_ok n := id_wf (cn_id n) ∧ id_wf (cn_invoice_id n) ∧ amount_ok (cn_amount n) ∧
    Currency.wf (cn_currency n) = true ∧ on_some time_ok (cn_issued_at n) ∧ time_ok (cn_created_at n);
|}.

Definition CN_HISTORY_COLUMNS : list string :=
  ["id"; "credit_note_id"; "from_state"; "to_state"; "event"; "actor"; "channel"; "bus_event_id";
   "occurred_at"; "published_at"; "metadata"].
Definition cn_history_binds (h : CreditNoteStateHistory) : list cell :=
  [CText (id_to_string (cnh_id h)); CText (id_to_string (cnh_credit_note_id h));
   ctext_opt (cn_state_to_str <$> cnh_from_state h); CText (cn_state_to_str (cnh_to_state h));
   CText (cnh_event h); ctext_opt (cnh_actor h); CText (channel_to_str (cnh_channel h));
   ctext_opt (cnh_bus_event_id h); CText (ts_to_string (cnh_occurred_at h));
   opt_ts_cell (cnh_published_at h); CText (metadata_to_json (cnh_metadata h))].
Definition row_to_cn_history (r : row) : SR CreditNoteStateHistory :=
  id_s ← get_text "id" r; id ← parse_id EHistory id_s;
  credit_note_id_s ← get_text "credit_note_id" r;
  credit_note_id ← parse_id ECreditNote credit_note_id_s;
  from_state_s ← get_opt "from_state" r; from_state ← transpose cn_state_from_str from_state_s;
  to_state_s ← get_text "to_state" r; to_state ← cn_state_from_str to_state_s;
  event ← get_text "event" r;
  actor ← get_opt "actor" r;
  channel_s ← get_text "channel" r; channel ← channel_from_str channel_s;
  bus_event_id ← get_opt "bus_event_id" r;
  occurred_at_s ← get_text "occurred_at" r;
  published_at_s ← get_opt "published_at" r;
  metadata_s ← get_opt "metadata" r;
  occurred_at ← parse_ts occurred_at_s;
  published_at ← transpose parse_ts published_at_s;
  metadata ← metadata_from_json metadata_s;
  Ok (MkCnHistory id credit_note_id from_state to_state event actor channel bus_event_id
        occurred_at published_at metadata).
#[export] Instance cn_history_codec : RowCodec CreditNoteStateHistory := {|
  row_columns := CN_HISTORY_COLUMNS;
  row_binds := cn_history_binds;
  row_decode := row_to_cn_history;
  row_ok h := id_wf (cnh_id h) ∧ id_wf (cnh_credit_note_id h) ∧ time_ok (cnh_occurred_at h) ∧
    on_some time_ok (cnh_published_at h);
|}.

(** ** [repo/reminder.rs] *)

Definition REMINDER_COLUMNS : list string :=
  ["id"; "invoice_id"; "scheduled_at"; "sent_at"; "channel"; "state"].
Definition reminder_binds (r : Reminder) : list cell :=
  [CText (id_to_string (rem_id r)); CText (id_to_string (rem_invoice_id r));
   CText (ts_to_string (rem_scheduled_at r)); opt_ts_cell (rem_sent_at r);
   CText (reminder_channel_to_str (rem_channel r)); CText (reminder_state_to_str (rem_state r))].
Definition row_to_reminder (r : row) : SR Reminder :=
  id_s ← get_text "id" r; id ← parse_id EReminder id_s;
  invoice_id_s ← get_text "invoice_id" r; invoice_id ← parse_id EInvoice invoice_id_s;
  scheduled_at_s ← get_text "scheduled_at" r;
  sent_at_s ← get_opt "sent_at" r;
  channel_s ← get_text "channel" r;
  state_s ← get_text "state" r;
  scheduled_at ← parse_ts scheduled_at_s;
  sent_at ← transpose parse_ts sent_at_s;
  channel ← reminder_channel_from_str channel_s;
  state ← reminder_state_from_str state_s;
  Ok (MkReminder id invoice_id scheduled_at sent_at channel state).
Definition REMINDER_SET : list string := tail REMINDER_COLUMNS.
#[export] Instance reminder_codec : RowCodec Reminder := {|
  row_columns := REMINDER_COLUMNS;
  row_binds := reminder_binds;
  row_decode := row_to_reminder;
  row_ok r := id_wf (rem_id r) ∧ id_wf (rem_invoice_id r) ∧ time_ok (rem_scheduled_at r) ∧
    on_some time_ok (rem_sent_at r);
|}.

(** ** [repo/schedule.rs] *)

Definition SCHEDULE_COLUMNS : list string :=
  ["id"; "customer_id"; "template_lines"; "currency"; "cadence"; "start_date"; "end_date";
   "auto_issue"; "next_run"; "last_run"; "state"; "metadata"; "created_at"; "updated_at"].
Definition schedule_binds (s : Schedule) : list cell :=
  [CText (id_to_string (sch_id s)); CText (id_to_string (sch_customer_id s));
   CText (json_to_string (JArr (ScheduleLine_json <$> sch_template_lines s)));
   CText (Currency.as_str (sch_currency s)); CText (Cadence.to_string (sch_cadence s));
   CText (nd_to_string (sch_start_date s)); ctext_opt (nd_to_string <$> sch_end_date s);
   cbool (sch_auto_issue s); CText (nd_to_string (sch_next_run s));
   ctext_opt (nd_to_string <$> sch_last_run s); CText (schedule_state_to_str (sch_state s));
   CText (metadata_to_json (sch_metadata s)); CText (ts_to_string (sch_created_at s));
   CText (ts_to_string (sch_updated_at s))].
Definition parse_date (column s : string) : SR NaiveDate :=
  ok_or (Other (column +:+ " parse: " +:+ chrono_error s)) (nd_from_str s).
Definition template_lines_from_json (s : string) : SR (list ScheduleLine) :=
  v ← ok_or Json (json_from_str s); l ← json_array v; res_mapM ScheduleLine_from_json l.
Definition row_to_schedule (r : row) : SR Schedule :=
  id_s ← get_text "id" r; id ← parse_id ESchedule id_s;
  customer_id_s ← get_text "customer_id" r; customer_id ← parse_id ECustomer customer_id_s;
  template_lines_s ← get_text "template_lines" r;
  template_lines ← template_lines_from_json template_lines_s;
  currency_s ← get_text "currency" r; currency ← parse_currency currency_s;
  cadence_s ← get_text "cadence" r;
  cadence ← map_err (λ e, IdError_ (CadenceError_to_string e)) (Cadence.from_str cadence_s);
  start_date_s ← get_text "start_date" r; start_date ← parse_date "start_date" start_date_s;
  end_date_s ← get_opt "end_date" r; end_date ← transpose (parse_date "end_date") end_date_s;
  auto_issue ← get_int "auto_issue" r;
  next_run_s ← get_text "next_run" r; next_run ← parse_date "next_run" next_run_s;
  last_run_s ← get_opt "last_run" r; last_run ← transpose (parse_date "last_run") last_run_s;
  state_s ← get_text "state" r; state ← schedule_state_from_str state_s;
  metadata_s ← get_opt "metadata" r;
  created_at_s ← get_text "created_at" r;
  updated_at_s ← get_text "updated_at" r;
  metadata ← metadata_from_json metadata_s;
  created_at ← parse_ts created_at_s;
  updated_at ← parse_ts updated_at_s;
  Ok (MkSchedule id customer_id template_lines currency cadence start_date end_date
        (negb (auto_issue =? 0)) next_run last_run state metadata created_at updated_at).
Definition SCHEDULE_SET : list string :=
  ["customer_id"; "template_lines"; "currency"; "cadence"; "start_date"; "end_date"; "auto_issue";
   "next_run"; "last_run"; "state"; "metadata"; "updated_at"].
#[export] Instance schedule_codec : RowCodec Schedule := {|
  row_columns := SCHEDULE_COLUMNS;
  row_binds := schedule_binds;
  row_decode := row_to_schedule;
  row_ok s := id_wf (sch_id s) ∧ id_wf (sch_customer_id s) ∧
    Forall (λ l, amount_ok (sl_quantity l) ∧ amount_ok (sl_unit_price l) ∧ id_wf (sl_id l))
      (sch_template_lines s) ∧
    Currency.wf (sch_currency s) = true ∧ Cadence.wf (sch_cadence s) = true ∧
    date_ok (sch_start_date s) ∧ on_some date_ok (sch_end_date s) ∧ date_ok (sch_next_run s) ∧
    on_some date_ok (sch_last_run s) ∧ time_ok (sch_created_at s) ∧ time_ok (sch_updated_at s);
|}.

(** ** [repo/send_idempotency.rs], [repo/bus_inbox.rs] *)

Definition SEND_COLUMNS : list string :=
  ["invoice_id"; "idempotency_key"; "history_id"; "delivered_to"; "created_at"].
Definition send_binds (s : SendIdempotencyRecord) : list cell :=
  [CText (id_to_string (si_invoice_id s)); CText (si_idempotency_key s);
   CText (id_to_string (si_history_id s)); CText (si_delivered_to s);
   CText (ts_to_string (si_created_at s))].
Definition row_to_record (r : row) : SR SendIdempotencyRecord :=
  invoice_id_s ← get_text "invoice_id" r; invoice_id ← parse_id EInvoice invoice_id_s;
  idempotency_key ← get_text "idempotency_key" r;
  history_id_s ← get_text "history_id" r; history_id ← parse_id EHistory history_id_s;
  delivered_to ← get_text "delivered_to" r;
  created_at_s ← get_text "created_at" r;
  created_at ← parse_ts created_at_s;
  Ok (MkSendIdempotency invoice_id idempotency_key history_id delivered_to created_at).
#[export] Instance send_codec : RowCodec SendIdempotencyRecord := {|
  row_columns := SEND_COLUMNS;
  row_binds := send_binds;
  row_decode := row_to_record;
  row_ok s := id_wf (si_invoice_id s) ∧ id_wf (si_history_id s) ∧ time_ok (si_created_at s);
|}.

Definition INBOX_COLUMNS : list string :=
  ["event_id"; "topic"; "source"; "received_at"; "payload_json"; "processed_at"; "invoice_id"].
Definition inbox_binds (b : BusInboxRecord) : list cell :=
  [CText (bi_event_id b); CText (bi_topic b); CText (bi_source b);
   CText (ts_to_string (bi_received_at b)); CText (bi_payload_json b);
   opt_ts_cell (bi_processed_at b); ctext_opt (id_to_string <$> bi_invoice_id b)].
Definition row_to_inbox (r : row) : SR BusInboxRecord :=
  event_id ← get_text "event_id" r;
  topic ← get_text "topic" r;
  source ← get_text "source" r;
  received_at_s ← get_text "received_at" r;
  payload_json ← get_text "payload_json" r;
  processed_at_s ← get_opt "processed_at" r;
  invoice_id_s ← get_opt "invoice_id" r; invoice_id ← transpose (parse_id EInvoice) invoice_id_s;
  received_at ← parse_ts received_at_s;
  processed_at ← transpose parse_ts processed_at_s;
  Ok (MkBusInbox event_id topic source received_at payload_json processed_at invoice_id).
#[export] Instance inbox_codec : RowCodec BusInboxRecord := {|
  row_columns := INBOX_COLUMNS;
  row_binds := inbox_binds;
  row_decode := row_to_inbox;
  row_ok b := time_ok (bi_received_at b) ∧ on_some time_ok (bi_processed_at b) ∧
    on_some id_wf (bi_invoice_id b);
|}.
End rows.

(** ** Reading back *)

Section roundtrip.
Context {P : Platform} {L : PlatformLaws P} {TL : TextLaws P} {S : Serde} {SL : SerdeLaws S}.

Lemma res_mapM_map {E A B C} (f : A → B) (g : B → res E C) (h : A → C) l :
  Forall (λ a, g (f a) = Ok (h a)) l → res_mapM g (f <$> l) = Ok (h <$> l).
Proof. induction 1 as [|a l Ha _ IH]; [done|]. cbn. by rw Ha IH. Qed.

Lemma parse_decimal_print d : amount_ok d → parse_decimal (decimal_to_string d) = Ok d.
Proof.
  intros (? & ? & ?). unfold parse_decimal, decimal_to_string. by rw dec_string_roundtrip.
Qed.
Lemma parse_ts_print t : time_ok t → parse_ts (ts_to_string t) = Ok t.
Proof. intros [? ?]. unfold parse_ts, ts_to_string. by rw dt_string_roundtrip. Qed.
Lemma parse_date_print c d : date_ok d → parse_date c (nd_to_string d) = Ok d.
Proof. intros ?. unfold parse_date. by rw nd_string_roundtrip. Qed.
Lemma parse_id_print e (i : EntityId e) : id_wf i → parse_id e (id_to_string i) = Ok i.
Proof. unfold id_wf, parse_id. intros H. rw id_parse_print H String.eqb_refl. by destruct i. Qed.
Lemma parse_currency_print c : Currency.wf c = true → parse_currency (Currency.as_str c) = Ok c.
Proof.
  unfold Currency.wf, parse_currency, Currency.new, Currency.as_str. destruct c as [a b c]; cbn.
  intros [[[? Ea]%uppercase_fixed [? Eb]%uppercase_fixed]%andb_true_iff [? Ec]%uppercase_fixed]%andb_true_iff.
  repeat match goal with H : is_ascii_alphabetic _ = true |- _ => rewrite H; clear H end.
  cbn. by rw Ea Eb Ec.
Qed.
Lemma parse_jurisdiction_print j : parse_jurisdiction (Jurisdiction.as_str j) = Ok j.
Proof. by destruct j. Qed.

Lemma transpose_print {A B} (Q : A → Prop) (f : B → SR A) (g : A → B) o :
  (∀ a, Q a → f (g a) = Ok a) → on_some Q o → transpose f (g <$> o) = Ok o.
Proof. intros H. destruct o as [a|]; [|done]. cbn. intros Ha. by rw (H a Ha). Qed.

Lemma btree_roundtrip m : btree_of (btree_entries m) = m.
Proof.
  unfold btree_of, btree_entries.
  assert (∀ (l : list (string * string)) (acc : Metadata), NoDup l.*1 → foldl (λ m kv, <[kv.1 := kv.2]> m) acc l = list_to_map l ∪ acc) as H.
  { induction l as [|[k v] l IH]; intros acc Hl; cbn; [by rw map_empty_union|].
    inversion Hl; subst. rw IH; [done|]. rw -insert_union_r; [|by rw insert_union_l].
    by apply not_elem_of_list_to_map. }
  assert (merge_sort entry_le (map_to_list m) ≡ₚ map_to_list m) as Hp by apply merge_sort_Permutation.
  rw H; [|rw map_union_empty].
  - rw Hp. apply NoDup_fst_map_to_list.
  - rw (list_to_map_proper _ (map_to_list m)) ?list_to_map_to_list //.
    rw Hp. apply NoDup_fst_map_to_list.
Qed.

Lemma metadata_roundtrip m : metadata_from_json (Some (metadata_to_json m)) = Ok m.
Proof.
  unfold metadata_from_json, metadata_to_json.
  pose proof (json_string_nonempty (JObj ((λ kv, (kv.1, JStr kv.2)) <$> btree_entries m))).
  pose proof (json_string_roundtrip (JObj ((λ kv, (kv.1, JStr kv.2)) <$> btree_entries m))) as Hr.
  destruct (json_to_string _); [done|]. rw Hr. cbn [ok_or mbind res_bind].
  rw (res_mapM_map _ _ id).
  - apply Forall_forall. intros [] _. done.
  - rw list_fmap_id. cbn. by rw btree_roundtrip.
Qed.

Lemma address_roundtrip a : Address_from_json (Address_json a) = Ok a.
Proof. destruct a as [c [] [] [] [] []]; reflexivity. Qed.
Lemma tax_category_roundtrip c : tax_category_from_str (tax_category_to_str c) = Ok c.
Proof. by destruct c. Qed.
Lemma schedule_line_roundtrip l :
  amount_ok (sl_quantity l) ∧ amount_ok (sl_unit_price l) ∧ id_wf (sl_id l) →
  ScheduleLine_from_json (ScheduleLine_json l) = Ok l.
Proof.
  intros (Hq & Hu & Hi).
  assert (∀ d, amount_ok d → Decimal_from_json (JStr (dec_to_string d)) = Ok d) as Hd.
  { intros d (? & ? & ?). unfold Decimal_from_json.
    by rw (decimal_de_str _ d) ?dec_string_roundtrip. }
  unfold ScheduleLine_from_json, ScheduleLine_json.
  cbn -[id_parse tax_category_from_str dec_to_string id_to_string].
  rw (Hd _ Hq) (Hd _ Hu). cbn -[id_parse tax_category_from_str id_to_string].
  rw tax_category_roundtrip id_parse_print Hi String.eqb_refl. destruct l as [? ? ? ? []]. done.
Qed.
Lemma state_roundtrip s : state_from_str (state_to_str s) = Ok s.
Proof. by destruct s. Qed.
Lemma channel_roundtrip c : channel_from_str (channel_to_str c) = Ok c.
Proof. by destruct c. Qed.
Lemma cn_state_roundtrip s : cn_state_from_str (cn_state_to_str s) = Ok s.
Proof. by destruct s. Qed.

Lemma reminder_channel_roundtrip c : reminder_channel_from_str (reminder_channel_to_str c) = Ok c.
Proof. by destruct c. Qed.
Lemma reminder_state_roundtrip s : reminder_state_from_str (reminder_state_to_str s) = Ok s.
Proof. by destruct s. Qed.
Lemma schedule_state_roundtrip s : schedule_state_from_str (schedule_state_to_str s) = Ok s.
Proof. by destruct s. Qed.
Lemma transpose_ts o : on_some time_ok o → transpose parse_ts (ts_to_string <$> o) = Ok o.
Proof. apply transpose_print, parse_ts_print. Qed.
Lemma transpose_id e (o : option (EntityId e)) :
  on_some id_wf o → transpose (parse_id e) (id_to_string <$> o) = Ok o.
Proof. apply transpose_print, parse_id_print. Qed.
Lemma transpose_date c o : on_some date_ok o → transpose (parse_date c) (nd_to_string <$> o) = Ok o.
Proof. apply transpose_print, parse_date_print. Qed.
Lemma transpose_state o : transpose state_from_str (state_to_str <$> o) = Ok o.
Proof. by destruct o as [[]|]. Qed.
Lemma transpose_cn_state o : transpose cn_state_from_str (cn_state_to_str <$> o) = Ok o.
Proof. by destruct o as [[]|]. Qed.
Lemma cell_opt_ts c o : cell_opt c (opt_ts_cell o) = Ok (ts_to_string <$> o).
Proof. apply cell_opt_text. Qed.
Lemma cbool_read b : negb ((if b then 1 else 0) =? 0) = b.
Proof. by destruct b. Qed.
Lemma json_document v : ok_or Json (json_from_str (json_to_string v)) = Ok v.
Proof. by rw json_string_roundtrip. Qed.
Lemma rate_ids_roundtrip l :
  rate_ids_from_json (Some (json_to_string (JArr (JStr <$> l)))) = Ok l.
Proof.
  pose proof (json_string_nonempty (JArr (JStr <$> l))).
  pose proof (json_document (JArr (JStr <$> l))) as Hr. unfold rate_ids_from_json.
  destruct (json_to_string _); [done|]. rw Hr. cbn.
  rw (res_mapM_map JStr json_str id) ?list_fmap_id //. by apply Forall_forall.
Qed.
Lemma template_lines_roundtrip l :
  Forall (λ l, amount_ok (sl_quantity l) ∧ amount_ok (sl_unit_price l) ∧ id_wf (sl_id l)) l →
  template_lines_from_json (json_to_string (JArr (ScheduleLine_json <$> l))) = Ok l.
Proof.
  intros H. unfold template_lines_from_json. rw json_document. cbn [mbind res_bind json_array].
  rw (res_mapM_map ScheduleLine_json ScheduleLine_from_json id) ?list_fmap_id //.
  eapply Forall_impl; [done|]. apply schedule_line_roundtrip.
Qed.
Lemma cadence_print c :
  Cadence.wf c = true →
  map_err (λ e, IdError_ (CadenceError_to_string e)) (Cadence.from_str (Cadence.to_string c)) = Ok c.
Proof. intros H. by rw to_string_parses. Qed.
End roundtrip.

Create Rewrite HintDb codec.
#[export] Hint Rewrite @cell_opt_text @cell_opt_some @cell_opt_ts @address_roundtrip @tax_category_roundtrip
  @state_roundtrip @channel_roundtrip @cn_state_roundtrip @reminder_channel_roundtrip
  @reminder_state_roundtrip @schedule_state_roundtrip @transpose_state @transpose_cn_state
  @parse_jurisdiction_print @cbool_read : codec.
#[export] Hint Rewrite @metadata_roundtrip @json_document @parse_decimal_print @parse_ts_print
  @parse_date_print @parse_id_print @parse_currency_print @transpose_ts @transpose_id
  @transpose_date @rate_ids_roundtrip
  @template_lines_roundtrip @cadence_print using first [done | typeclasses eauto] : codec.

(** Reads every column of a bound row and decodes it. *)
Ltac read_back :=
  cbn -[parse_id json_from_str json_to_string metadata_from_json metadata_to_json parse_ts
        ts_to_string Address_from_json Address_json cell_opt ctext_opt parse_decimal
        decimal_to_string transpose parse_currency parse_jurisdiction state_from_str
        state_to_str channel_from_str channel_to_str cn_state_from_str cn_state_to_str
        tax_category_from_str tax_category_to_str reminder_channel_from_str
        reminder_channel_to_str reminder_state_from_str reminder_state_to_str
        schedule_state_from_str schedule_state_to_str parse_date rate_ids_from_json map_err
        template_lines_from_json Cadence.from_str
        Cadence.to_string Jurisdiction.as_str Currency.as_str id_to_string nd_to_string
        ok_or Z.modulo Z.pow Z.eqb negb ScheduleLine_from_json ScheduleLine_json];
  repeat (progress (autorewrite with codec; cbn [mbind res_bind])).

Section roundtrip_laws.
Context {P : Platform} {L : PlatformLaws P} {TL : TextLaws P} {S : Serde} {SL : SerdeLaws S}.

#[export] Instance customer_codec_laws : RowCodecLaws Customer.
Proof. split. intros c (Hi & Hc & Hu). read_back. by destruct c. Qed.
#[export] Instance invoice_codec_laws : RowCodecLaws Invoice.
Proof.
  split. intros i H. cbn [row_ok invoice_codec] in H. destruct_and! H. read_back.
  by destruct i.
Qed.
#[export] Instance line_codec_laws : RowCodecLaws InvoiceLine.
Proof.
  split. intros l H. cbn [row_ok line_codec] in H. destruct_and! H. read_back.
  rw Z.mod_small; [done|]. by destruct l.
Qed.
#[export] Instance schedule_codec_laws : RowCodecLaws Schedule.
Proof. split. intros s H. cbn [row_ok schedule_codec] in H. destruct_and! H. read_back. by destruct s. Qed.
#[export] Instance history_codec_laws : RowCodecLaws InvoiceStateHistory.
Proof. split. intros h H. cbn [row_ok history_codec] in H. destruct_and! H. read_back. by destruct h. Qed.
#[export] Instance credit_note_codec_laws : RowCodecLaws CreditNote.
Proof. split. intros h H. cbn [row_ok credit_note_codec] in H. destruct_and! H. read_back. by destruct h. Qed.
#[export] Instance cn_history_codec_laws : RowCodecLaws CreditNoteStateHistory.
Proof. split. intros h H. cbn [row_ok cn_history_codec] in H. destruct_and! H. read_back. by destruct h. Qed.
#[export] Instance reminder_codec_laws : RowCodecLaws Reminder.
Proof. split. intros h H. cbn [row_ok reminder_codec] in H. destruct_and! H. read_back. by destruct h. Qed.
#[export] Instance send_codec_laws : RowCodecLaws SendIdempotencyRecord.
Proof. split. intros h H. cbn [row_ok send_codec] in H. destruct_and! H. read_back. by destruct h. Qed.
#[export] Instance inbox_codec_laws : RowCodecLaws BusInboxRecord.
Proof. split. intros h H. cbn [row_ok inbox_codec] in H. destruct_and! H. read_back. by destruct h. Qed.

(** C40: a record reads back from the row its save writes, in all ten tables,
    when its ids carry the prefix of their own kind, its times and dates are in
    the years 0 to 9999 and no time is in a leap second, its amounts have at most
    28 decimals and 96 bits, its currency is three capital letters, a line's
    position is that of a [u32] and a schedule's cadence one that the parser
    accepts.  (The year is a real bound: a later one prints with a sign and more
    digits, which the RFC 3339 reader refuses.) *)
Theorem rows_read_back :
  (∀ c : Customer, row_ok c → row_decode (row_of c) = Ok c) ∧
  (∀ i : Invoice, row_ok i → row_decode (row_of i) = Ok i) ∧
  (∀ l : InvoiceLine, row_ok l → row_decode (row_of l) = Ok l) ∧
  (∀ h : InvoiceStateHistory, row_ok h → row_decode (row_of h) = Ok h) ∧
  (∀ n : CreditNote, row_ok n → row_decode (row_of n) = Ok n) ∧
  (∀ h : CreditNoteStateHistory, row_ok h → row_decode (row_of h) = Ok h) ∧
  (∀ r : Reminder, row_ok r → row_decode (row_of r) = Ok r) ∧
  (∀ s : Schedule, row_ok s → row_decode (row_of s) = Ok s) ∧
  (∀ s : SendIdempotencyRecord, row_ok s → row_decode (row_of s) = Ok s) ∧
  (∀ b : BusInboxRecord, row_ok b → row_decode (row_of b) = Ok b).
Proof. split_and!; intros a; apply row_roundtrip. Qed.

(** An upsert on rows is the upsert on records: overwriting the columns of
    its [DO UPDATE SET] in the stored row gives the row of the record that the
    repository is taken to store, in every table with an upsert. *)
Lemma upserts_refine_rows :
  (∀ o c : Customer, id_to_string (cust_id o) = id_to_string (cust_id c) →
     upsert_row CUSTOMER_SET (row_of o) (row_of c) = row_of (customer_upserted (Some o) c)) ∧
  (∀ o i : Invoice, id_to_string (inv_id o) = id_to_string (inv_id i) →
     upsert_row INVOICE_SET (row_of o) (row_of i) = row_of (invoice_upserted (Some o) i)) ∧
  (∀ o l : InvoiceLine, id_to_string (line_id o) = id_to_string (line_id l) →
     upsert_row LINE_SET (row_of o) (row_of l) = row_of l) ∧
  (∀ o n : CreditNote, id_to_string (cn_id o) = id_to_string (cn_id n) →
     upsert_row CREDIT_NOTE_SET (row_of o) (row_of n) = row_of (cn_upserted (Some o) n)) ∧
  (∀ o r : Reminder, id_to_string (rem_id o) = id_to_string (rem_id r) →
     upsert_row REMINDER_SET (row_of o) (row_of r) = row_of r) ∧
  (∀ o s : Schedule, id_to_string (sch_id o) = id_to_string (sch_id s) →
     upsert_row SCHEDULE_SET (row_of o) (row_of s) = row_of (schedule_upserted (Some o) s)).
Proof.
  split_and!; intros o n H; unfold row_of; cbn -[id_to_string]; rewrite H; reflexivity.
Qed.
End roundtrip_laws.

(** ** Witnesses *)

#[local] Existing Instance Concrete.platform.
#[local] Existing Instance Concrete.platform_laws.
#[local] Existing Instance ConcreteJson.serde.
#[local] Existing Instance ConcreteJson.serde_laws.
#[local] Existing Instance ConcreteJson.text_laws.

Definition cx_time : DateTime (Platform := Concrete.platform) :=
  Concrete.DT (Concrete.Date 2026 5 14 eq_refl) 9 30 0 250000000 eq_refl.
Definition cx_reminder : Reminder (P := Concrete.platform) :=
  MkReminder (id_new EReminder 3) (id_new EInvoice 1) cx_time (Some cx_time) RcBus RSent.

Lemma rows_read_back_witness :
  row_ok cx_reminder ∧ row_decode (row_of cx_reminder) = Ok cx_reminder.
Proof.
  assert (row_ok cx_reminder) as H by (vm_compute; repeat split; discriminate).
  split; [exact H|]. apply rows_read_back, H.
Defined.
Lemma upserts_refine_rows_witness :
  upsert_row REMINDER_SET (row_of cx_reminder) (row_of (set_rem_state RCancelled cx_reminder)) =
    row_of (set_rem_state RCancelled cx_reminder).
Proof. apply upserts_refine_rows. reflexivity. Defined.
