(* ===== verification/Render.v ===== *)
(** * Rendering ([core/src/render/])

    Template source selection, the view a template sees, and [render_html] /
    [render_pdf] around the Tera engine, which is third-party code and a
    parameter ([Tera]), as is the text of the bundled template. *)

From S2P Require Import Prelude External Concrete Money Ids Domain.

Section view.
Context `{P : Platform}.

(** [context.rs] *)
Record RenderContext := MkRenderContext {
  rc_invoice : Invoice;
  rc_customer : Customer;
  rc_lines : list InvoiceLine;
}.

Record TemplateView := MkTemplateView {
  tv_invoice : Invoice;
  tv_customer : Customer;
  tv_lines : list InvoiceLine;
  tv_invoice_label : string;
  tv_currency_code : string;
  tv_currency_scale : nat;
}.

Definition to_ascii_lowercase (c : ascii) : ascii :=
  let n := N_of_ascii c in
  if ((65 <=? n) && (n <=? 90))%N then ascii_of_N (n + 32) else c.
Fixpoint str_to_ascii_lowercase (s : string) : string :=
  match s with
  | EmptyString => EmptyString
  | String c s => String (to_ascii_lowercase c) (str_to_ascii_lowercase s)
  end.

(** [RenderContext::to_tera_context]; a currency code is ASCII, so
    [to_lowercase] is the ASCII one. *)
Definition to_tera_context (c : RenderContext) : TemplateView :=
  {| tv_invoice := rc_invoice c;
     tv_customer := rc_customer c;
     tv_lines := rc_lines c;
     tv_invoice_label := default "Draft" (inv_number (rc_invoice c));
     tv_currency_code := str_to_ascii_lowercase (Currency.as_str (inv_currency (rc_invoice c)));
     tv_currency_scale := Currency.scale (inv_currency (rc_invoice c)) |}.
End view.

(** The Tera engine with one registered template, and the bundled template. *)
Class Tera `{P : Platform} := {
  tera : Type;
  tera_one : string → string → string + tera;       (* name, body *)
  tera_render : tera → string → TemplateView → string + string;
  BUNDLED_INVOICE_TEMPLATE : string;
}.

(** [template.rs] *)
Definition BUNDLED_TEMPLATE_NAME : string := "invoice.html.tera".

Inductive TemplateSource := Bundled | Filesystem (path : string).

Definition TemplateSource_resolve (path : option string) : TemplateSource :=
  match path with Some p => Filesystem p | None => Bundled end.

(** The components of a path between slashes. *)
Fixpoint path_segments (acc : string) (s : string) : list string :=
  match s with
  | EmptyString => [acc]
  | String c s => if Ascii.eqb c "/" then acc :: path_segments EmptyString s
                  else path_segments (acc +:+ String c EmptyString) s
  end.
(** [Path::file_name]: the last component, unless it is [..]; empty and [.]
    components do not count. *)
Definition path_file_name (p : string) : option string :=
  match last (List.filter (λ s, negb (String.eqb s "") && negb (String.eqb s "."))
                (path_segments "" p)) with
  | Some s => if String.eqb s ".." then None else Some s
  | None => None
  end.

Definition template_name (source : TemplateSource) : string :=
  match source with
  | Bundled => BUNDLED_TEMPLATE_NAME
  | Filesystem path => default BUNDLED_TEMPLATE_NAME (path_file_name path)
  end.

Inductive RenderError :=
  | TemplateRead (path : string)
  | TemplateCompile (msg : string)
  | RenderFailed (msg : string).

Inductive PdfError :=
  | NoEngine
  | EngineNotImplemented (engine : string)
  | Engine (msg : string).

Section render.
Context `{T : Tera}.

(** [read] is [std::fs::read_to_string]. *)
Definition build_tera (read : string → option string) (source : TemplateSource)
    : res RenderError tera :=
  '(name, body) ← match source with
                  | Bundled => Ok (BUNDLED_TEMPLATE_NAME, BUNDLED_INVOICE_TEMPLATE)
                  | Filesystem path =>
                      body ← ok_or (TemplateRead path) (read path);
                      Ok (default BUNDLED_TEMPLATE_NAME (path_file_name path), body)
                  end;
  match tera_one name body with
  | inr t => Ok t
  | inl e => Err (TemplateCompile e)
  end.

Definition render_html (read : string → option string) (template_path : option string)
    (ctx : RenderContext) : res RenderError string :=
  let source := TemplateSource_resolve template_path in
  t ← build_tera read source;
  let name := template_name source in
  match tera_render t name (to_tera_context ctx) with
  | inr html => Ok html
  | inl e => Err (RenderFailed e)
  end.

End render.

(** The engine is the first of the compiled ones; a default build has the stub,
    which returns the HTML bytes. *)
Record PdfFeatures := MkPdfFeatures {
  pdf_stub : bool; pdf_typst : bool; pdf_wkhtmltopdf : bool; pdf_weasyprint : bool;
}.
Definition default_pdf_features : PdfFeatures := MkPdfFeatures true false false false.
Definition render_pdf_with (f : PdfFeatures) (html : string) : res PdfError string :=
  if pdf_stub f then Ok html
  else if pdf_typst f then Err (EngineNotImplemented "pdf-typst")
  else if pdf_wkhtmltopdf f then Err (EngineNotImplemented "pdf-wkhtmltopdf")
  else if pdf_weasyprint f then Err (EngineNotImplemented "pdf-weasyprint")
  else Err NoEngine.
Definition render_pdf (html : string) : res PdfError string := render_pdf_with default_pdf_features html.

(** [build_tera] registers the template under the name [render_html] asks for. *)
Lemma build_tera_name `{T : Tera} read source t :
  build_tera read source = Ok t → ∃ body, tera_one (template_name source) body = inr t.
Proof.
  unfold build_tera. destruct source as [|path]; cbn [template_name].
  - cbn. destruct (tera_one _ _) eqn:E; naive_solver.
  - intros H. inv_res.
    destruct (tera_one _ _) eqn:E; naive_solver.
Qed.

(** An engine that prints the invoice label. *)
#[export] Instance concrete_tera : Tera (P:=Concrete.platform) := {|
  tera := string;
  tera_one name body := if String.eqb body "" then inl "empty template" else inr name;
  tera_render t name v := if String.eqb t name then inr (tv_invoice_label v) else inl "not found";
  BUNDLED_INVOICE_TEMPLATE := "label";
|}.
