(* ===== verification/Command.v ===== *)
(** * The command layer's context and effects
    ([commands/src/ctx.rs], [error.rs], [publisher.rs])

    A command is a [prog]: a tree of atomic interactions with the world ([Act]:
    one database statement or transaction, one clock reading, one fresh id, one
    publish, one file write) ending in a value, a [CoreError] or a panic.
    [run] executes it against an environment that decides, interaction by
    interaction, what the clock reads and which interactions fail; [crash_run]
    kills it after a number of interactions. *)

From S2P Require Import Prelude External Concrete Money Ids Domain InvoiceFsm Tax Events Store.
From S2P Require Import Render.

Section command.
Context `{P : Platform}.

(** ** [error.rs] *)

Inductive CoreError :=
  | Validation (msg : string)
  | Idempotency (msg : string)
  | FsmTransition (e : TransitionError)
  | Repo (e : StoreError)
  | Tax (e : TaxError)
  | Render (e : RenderError)
  | Pdf (e : PdfError)
  | NotFound (msg : string)
  | NotImplemented (msg : string).

(** ** [ctx.rs] *)

Inductive Actor :=
  | ACli (name : string)
  | AApi (name : string)
  | AWs (name : string)
  | AMcp (name : string)
  | ABus (source : string).

Definition audit_string (a : Actor) : string :=
  match a with
  | ACli name | AApi name | AWs name | AMcp name => name
  | ABus source => source +:+ ".bus.consumer"
  end.

Inductive Channel := ChCli | ChApi | ChWs | ChMcp | ChBus.

(** [impl From<Channel> for HistoryChannel] *)
Definition history_channel (c : Channel) : HistoryChannel :=
  match c with ChCli => HCli | ChApi => HApi | ChWs => HWs | ChMcp => HMcp | ChBus => HBus end.

(** [draft.rs: history_channel_str] *)
Definition history_channel_str (c : HistoryChannel) : string :=
  match c with HCli => "cli" | HApi => "api" | HWs => "ws" | HMcp => "mcp" | HBus => "bus" end.

(** The bundle of dependencies.  The pool and the clock are the world and the
    environment below; a blob store answers [put] with the URI of the bytes; a
    publisher is present or not. *)
Record CoreCtx := MkCoreCtx {
  tax_table : TaxTable;
  nexus : NexusConfig;
  blob_store : option (string → string → SR string);
  publisher : bool;
}.

Definition CoreCtx_new (t : TaxTable) (n : NexusConfig) : CoreCtx := MkCoreCtx t n None false.
Definition with_blob_store (b : string → string → SR string) (c : CoreCtx) : CoreCtx :=
  MkCoreCtx (tax_table c) (nexus c) (Some b) (publisher c).
Definition with_publisher (c : CoreCtx) : CoreCtx :=
  MkCoreCtx (tax_table c) (nexus c) (blob_store c) true.

(** ** The world *)

(** One message accepted by the publisher. *)
Record BusMessage := MkBusMessage {
  bm_topic : string;
  bm_payload : json;
  bm_occurred_at : DateTime;
}.

Record World := MkWorld {
  w_db : Db;
  w_step : nat;                      (* interactions so far *)
  w_bus : list BusMessage;           (* accepted publishes, oldest first *)
  w_files : gmap string string;      (* files written *)
  w_sink : list string;              (* writes to the stdout sink *)
  w_blobs : gmap string string;      (* blobs stored, by URI *)
}.

Record Env := MkEnv {
  env_now : nat → DateTime;          (* the clock at an interaction *)
  env_db_ok : nat → bool;            (* the database answers *)
  env_publish_ok : nat → bool;       (* the publisher accepts *)
  env_io_ok : nat → bool;            (* the file system or sink accepts *)
  env_io_msg : nat → string;         (* the text of its error otherwise *)
  env_io_left : nat → option nat;    (* what a write that failed had done: nothing, or
                                        open the file and write that many bytes *)
}.

Definition tick (w : World) : World :=
  MkWorld (w_db w) (S (w_step w)) (w_bus w) (w_files w) (w_sink w) (w_blobs w).
Definition set_w_db (d : Db) (w : World) : World :=
  MkWorld d (w_step w) (w_bus w) (w_files w) (w_sink w) (w_blobs w).
Definition add_bus (m : BusMessage) (w : World) : World :=
  MkWorld (w_db w) (w_step w) (w_bus w ++ [m]) (w_files w) (w_sink w) (w_blobs w).
Definition add_file (path bytes : string) (w : World) : World :=
  MkWorld (w_db w) (w_step w) (w_bus w) (<[path := bytes]> (w_files w)) (w_sink w) (w_blobs w).
Definition add_sink (bytes : string) (w : World) : World :=
  MkWorld (w_db w) (w_step w) (w_bus w) (w_files w) (w_sink w ++ [bytes]) (w_blobs w).
Definition add_blob (uri bytes : string) (w : World) : World :=
  MkWorld (w_db w) (w_step w) (w_bus w) (w_files w) (w_sink w) (<[uri := bytes]> (w_blobs w)).

(** ** Programs *)

Inductive prog (A : Type) : Type :=
  | Ret (a : A)
  | Throw (e : CoreError)
  | Crash
  | Act {X : Type} (f : Env → World → World * X) (k : X → prog A).
#[global] Arguments Ret {A} a.
#[global] Arguments Throw {A} e.
#[global] Arguments Crash {A}.
#[global] Arguments Act {A X} f k.

Fixpoint prog_bind {A B} (f : A → prog B) (p : prog A) : prog B :=
  match p with
  | Ret a => f a
  | Throw e => Throw e
  | Crash => Crash
  | Act g k => Act g (λ x, prog_bind f (k x))
  end.
#[global] Instance prog_mret : MRet prog := λ A, Ret.
#[global] Instance prog_mbind : MBind prog := λ A B, prog_bind.

Fixpoint run {A} (E : Env) (p : prog A) (w : World) : World * res CoreError A :=
  match p with
  | Ret a => (w, Ok a)
  | Throw e => (w, Err e)
  | Crash => (w, Panic)
  | Act f k => let '(w', x) := f E w in run E (k x) w'
  end.

(** The process dies after [n] interactions. *)
Fixpoint crash_run {A} (E : Env) (n : nat) (p : prog A) (w : World) : World :=
  match n, p with
  | S n, Act f k => let '(w', x) := f E w in crash_run E n (k x) w'
  | _, _ => w
  end.

(** Lift a pure step, with the error conversion of [?]. *)
Definition lift {Er A} (conv : Er → CoreError) (m : res Er A) : prog A :=
  match m with
  | Ok a => Ret a
  | Err e => Throw (conv e)
  | Panic => Crash
  end.

(** One statement or transaction on the database: it answers, or fails without
    effect. *)
Definition db_query {A} (f : Db → SR A) : prog A :=
  Act (λ E w, (tick w, if env_db_ok E (w_step w) then f (w_db w) else Err (Sqlx Unavailable)))
      (lift Repo).
Definition db_exec (f : Db → SR Db) : prog () :=
  Act (λ E w,
         match (if env_db_ok E (w_step w) then f (w_db w) else Err (Sqlx Unavailable)) with
         | Ok d => (set_w_db d (tick w), Ok ())
         | Err e => (tick w, Err e)
         | Panic => (tick w, Panic)
         end)
      (lift Repo).

(** [ctx.clock.now()] *)
Definition clock_now : prog DateTime :=
  Act (λ E w, (tick w, env_now E (w_step w))) Ret.
(** [$name::new()] *)
Definition fresh (e : Entity) : prog (EntityId e) :=
  Act (λ E w, (tick w, id_new e (w_step w))) Ret.

(** [try_publish]: nothing without a publisher; a refused publish is logged and
    swallowed. *)
Definition try_publish (ctx : CoreCtx) (topic : string) (payload : json) (at_ : DateTime) : prog () :=
  if publisher ctx then
    Act (λ E w,
           (if env_publish_ok E (w_step w)
            then add_bus (MkBusMessage topic payload at_) (tick w) else tick w, ()))
        Ret
  else Ret ().

(** [blob_store.put(bytes, content_type)] *)
Definition blob_put (b : string → string → SR string) (bytes content_type : string) : prog string :=
  Act (λ E w,
         if env_io_ok E (w_step w) then
           match b bytes content_type with
           | Ok uri => (add_blob uri bytes (tick w), Ok uri)
           | r => (tick w, r)
           end
         else (tick w, Err IoError))
      (lift Repo).

(** [render_html(path, &ctx).await?] then [render_pdf(&html).await?]: the file
    system is read for a custom template. *)
Definition render_page {T : Tera} (template_path : option string) (rc : RenderContext) : prog string :=
  Act (λ E w, (tick w, render_html
                 (λ p, if env_io_ok E (w_step w) then w_files w !! p else None) template_path rc))
    (lift Render).
Definition render {T : Tera} (template_path : option string) (rc : RenderContext)
    : prog (string * string) :=
  html ← render_page template_path rc;
  pdf ← lift Pdf (render_pdf html);
  Ret (html, pdf).

(** What is left of a write that failed: [std::fs::write] opens the file,
    truncates it and then writes, so the first bytes may be there. *)
Definition io_left (E : Env) (put : string → World → World) (bytes : string) (w : World) : World :=
  match env_io_left E (w_step w) with
  | Some n => put (String.substring 0 n bytes) (tick w)
  | None => tick w
  end.

(** A call on the file system that writes no bytes; [msg] prefixes the
    operating system's error text. *)
Definition io_call (msg : string) : prog () :=
  Act (λ E w, (tick w, if env_io_ok E (w_step w) then Ok ()
                       else Err (msg +:+ env_io_msg E (w_step w))))
      (lift Validation).
(** A write of [bytes] to a file or to the caller's sink, by [put]. *)
Definition io_write (put : string → World → World) (bytes msg : string) : prog () :=
  Act (λ E w, if env_io_ok E (w_step w) then (put bytes (tick w), Ok ())
              else (io_left E put bytes w, Err (msg +:+ env_io_msg E (w_step w))))
      (lift Validation).

(** [x.await?.ok_or_else(|| CoreError::NotFound(..))] *)
Definition or_not_found {A} (msg : string) (o : option A) : prog A :=
  match o with Some a => Ret a | None => Throw (NotFound msg) end.

Fixpoint prog_mapM {A B} (f : A → prog B) (l : list A) : prog (list B) :=
  match l with
  | [] => Ret []
  | x :: l => y ← f x; ys ← prog_mapM f l; Ret (y :: ys)
  end.
Fixpoint prog_foldM {A B} (f : B → A → prog B) (b : B) (l : list A) : prog B :=
  match l with
  | [] => Ret b
  | x :: l => b' ← f b x; prog_foldM f b' l
  end.
End command.

(** ** Reasoning about runs *)

Section wp.
Context `{P : Platform}.
Implicit Types (E : Env) (w : World) (I : World → Prop).

(** [wpc I E p Q w]: [p] run from [w] passes only through worlds satisfying
    [I], so [I] holds wherever it is killed, and ends in a world and a result
    satisfying [Q]. *)
Fixpoint wpc {A} I E (p : prog A) (Q : World → res CoreError A → Prop) w : Prop :=
  I w ∧
  match p with
  | Ret a => Q w (Ok a)
  | Throw e => Q w (Err e)
  | Crash => Q w Panic
  | Act f k => wpc I E (k (f E w).2) Q (f E w).1
  end.

Lemma wpc_run {A} I E (p : prog A) Q w :
  wpc I E p Q w → I (run E p w).1 ∧ Q (run E p w).1 (run E p w).2.
Proof.
  revert w. induction p as [a|e| |X f k IH]; intros w; cbn; try by intros [? ?].
  intros [_ H]. destruct (f E w) as [w' x]. by apply IH.
Qed.
Lemma wpc_crash {A} I E (p : prog A) Q w n : wpc I E p Q w → I (crash_run E n p w).
Proof.
  revert n w. induction p as [a|e| |X f k IH]; intros n w; destruct n; cbn; try by intros [? ?].
  intros [_ H]. destruct (f E w) as [w' x]. by eapply IH.
Qed.

(** The continuation of a bind: run [f] on a value, stop on an error. *)
Definition wpc_cont {A B} I E (f : A → prog B) (Q : World → res CoreError B → Prop)
    : World → res CoreError A → Prop := λ w r,
  match r with
  | Ok a => wpc I E (f a) Q w
  | Err e => Q w (Err e)
  | Panic => Q w Panic
  end.

Lemma wpc_bind {A B} I E (p : prog A) (f : A → prog B) Q w :
  wpc I E p (wpc_cont I E f Q) w → wpc I E (p ≫= f) Q w.
Proof.
  revert w. induction p as [a|e| |X g k IH]; intros w; cbn; try by intros [? ?].
  intros [? H]. split; [done|]. by apply IH.
Qed.

Lemma wpc_mono {A} I E (p : prog A) (Q Q' : World → res CoreError A → Prop) w :
  (∀ w' r, Q w' r → Q' w' r) → wpc I E p Q w → wpc I E p Q' w.
Proof.
  intros HQ. revert w. induction p as [a|e| |X f k IH]; intros w; cbn; naive_solver.
Qed.

Lemma wpc_lift {Er A} I E (conv : Er → CoreError) (m : res Er A) Q w :
  I w → Q w (map_err conv m) → wpc I E (lift conv m) Q w.
Proof. by destruct m. Qed.

(** Programs that leave the database alone. *)
Record same_db (w w' : World) : Prop := {
  sd_db : w_db w' = w_db w;
  sd_step : (w_step w ≤ w_step w')%nat;
}.
#[export] Instance same_db_preorder : PreOrder same_db.
Proof. split; [by split|]. intros w1 w2 w3 [] []. split; [congruence|lia]. Qed.
Lemma same_db_tick w : same_db w (tick w).
Proof. split; cbn; [done|lia]. Qed.

(** The invariants used here speak of the database and of the ids drawn. *)
Definition stable I : Prop := ∀ w w', same_db w w' → I w → I w'.

Definition keeps_db {X} (f : Env → World → World * X) : Prop :=
  ∀ E w, same_db w (f E w).1.

Inductive quiet {A} : prog A → Prop :=
  | quiet_ret a : quiet (Ret a)
  | quiet_throw e : quiet (Throw e)
  | quiet_crash : quiet Crash
  | quiet_act X (f : Env → World → World * X) k :
      keeps_db f → (∀ x, quiet (k x)) → quiet (Act f k).

Lemma wpc_quiet {A} I E (p : prog A) Q w :
  quiet p → stable I → I w → (∀ w' r, same_db w w' → Q w' r) → wpc I E p Q w.
Proof.
  intros Hp HI. revert w.
  induction Hp as [| | |X f k Hf _ IH]; intros w Hw HQ; cbn; (split; [done|]);
    try (apply HQ; reflexivity).
  specialize (Hf E w). apply IH; [by eapply HI|]. intros w' r Hw'. apply HQ. by etrans.
Qed.

Lemma wpc_db_query {A} I E (f : Db → SR A) (Q : World → res CoreError A → Prop) w :
  stable I → I w →
  Q (tick w) (Err (Repo (Sqlx Unavailable))) → Q (tick w) (map_err Repo (f (w_db w))) →
  wpc I E (db_query f) Q w.
Proof.
  intros HI Hw H1 H2. cbn. split; [done|].
  apply wpc_lift; [eapply HI; [apply same_db_tick|done]|].
  by destruct (env_db_ok E (w_step w)).
Qed.

Lemma wpc_db_exec I E (f : Db → SR Db) (Q : World → res CoreError () → Prop) w :
  stable I → I w → (∀ e, Q (tick w) (Err e)) → Q (tick w) Panic →
  (∀ d, f (w_db w) = Ok d → I (set_w_db d (tick w)) ∧ Q (set_w_db d (tick w)) (Ok ())) →
  wpc I E (db_exec f) Q w.
Proof.
  intros HI Hw H1 H2 H3. cbn. split; [done|].
  assert (I (tick w)) by (eapply HI; [apply same_db_tick|done]).
  destruct (env_db_ok E (w_step w)); [|by split; [|apply H1]].
  destruct (f (w_db w)) eqn:Ef; cbn; auto.
Qed.

Lemma wpc_fresh I E e Q w :
  stable I → I w → Q (tick w) (Ok (id_new e (w_step w))) → wpc I E (fresh e) Q w.
Proof. intros HI Hw H. cbn. split; [done|]. split; [|done]. eapply HI; [apply same_db_tick|done]. Qed.

Lemma wpc_or_not_found {A} I E msg (o : option A) (Q : World → res CoreError A → Prop) w :
  I w → match o with Some a => Q w (Ok a) | None => Q w (Err (NotFound msg)) end →
  wpc I E (or_not_found msg o) Q w.
Proof. intros ? H. by destruct o. Qed.

(** At most one interaction of every run of [p] writes the database. *)
Inductive atomic {A} : prog A → Prop :=
  | atomic_quiet p : quiet p → atomic p
  | atomic_before X (f : Env → World → World * X) k :
      keeps_db f → (∀ x, atomic (k x)) → atomic (Act f k)
  | atomic_write X (f : Env → World → World * X) k : (∀ x, quiet (k x)) → atomic (Act f k).

Lemma quiet_run {A} E (p : prog A) w : quiet p → w_db (run E p w).1 = w_db w.
Proof.
  intros H. revert w. induction H as [| | |X f k Hf _ IH]; intros w; cbn; try done.
  specialize (Hf E w). destruct (f E w) as [w' x]. destruct Hf as [Hf _]. cbn in Hf. by rw IH.
Qed.
Lemma quiet_crash_run {A} E n (p : prog A) w : quiet p → w_db (crash_run E n p w) = w_db w.
Proof.
  intros H. revert n w. induction H as [| | |X f k Hf _ IH]; intros [|n] w; cbn; try done.
  specialize (Hf E w). destruct (f E w) as [w' x]. destruct Hf as [Hf _]. cbn in Hf. by rw IH.
Qed.

(** A program killed at any point leaves the database it found or the one a
    complete run leaves. *)
Lemma atomic_crash_run {A} E n (p : prog A) w :
  atomic p →
  w_db (crash_run E n p w) = w_db w ∨ w_db (crash_run E n p w) = w_db (run E p w).1.
Proof.
  intros H. revert n w. induction H as [p Hp|X f k Hf _ IH|X f k Hk]; intros n w.
  - left. by apply quiet_crash_run.
  - destruct n as [|n]; cbn; [by left|]. specialize (Hf E w). destruct (f E w) as [w' x].
    destruct Hf as [Hf _]. cbn in Hf. rw -Hf. apply IH.
  - destruct n as [|n]; cbn; [by left|]. right. destruct (f E w) as [w' x].
    rw quiet_crash_run // quiet_run //.
Qed.

Lemma quiet_bind {A B} (p : prog A) (f : A → prog B) :
  quiet p → (∀ a, quiet (f a)) → quiet (p ≫= f).
Proof. intros Hp Hf. induction Hp; cbn; try constructor; auto. Qed.
Lemma atomic_bind_quiet {A B} (p : prog A) (f : A → prog B) :
  quiet p → (∀ a, atomic (f a)) → atomic (p ≫= f).
Proof.
  intros Hp Hf. induction Hp; cbn; [apply Hf|apply atomic_quiet; constructor..|].
  by apply atomic_before.
Qed.
Lemma atomic_bind_write {A B} (p : prog A) (f : A → prog B) :
  atomic p → (∀ a, quiet (f a)) → atomic (p ≫= f).
Proof.
  intros Hp Hf. induction Hp as [p Hp|X g k Hg _ IH|X g k Hk]; cbn.
  - apply atomic_quiet. by apply quiet_bind.
  - by apply atomic_before.
  - apply atomic_write. intros x. by apply quiet_bind.
Qed.

Lemma quiet_lift {Er A} (conv : Er → CoreError) (m : res Er A) : quiet (lift conv m).
Proof. destruct m; constructor. Qed.
Lemma quiet_or_not_found {A} msg (o : option A) : quiet (or_not_found msg o).
Proof. destruct o; constructor. Qed.
Lemma quiet_db_query {A} (f : Db → SR A) : quiet (db_query f).
Proof. constructor; [intros E w; apply same_db_tick|]. intros. apply quiet_lift. Qed.
Lemma quiet_clock_now : quiet clock_now.
Proof. constructor; [intros E w; apply same_db_tick|constructor]. Qed.
Lemma quiet_fresh e : quiet (fresh e).
Proof. constructor; [intros E w; apply same_db_tick|constructor]. Qed.
Lemma quiet_try_publish ctx topic payload at_ : quiet (try_publish ctx topic payload at_).
Proof.
  unfold try_publish. destruct (publisher ctx); constructor; [|constructor].
  intros E w. cbn. destruct (env_publish_ok _ _); split; cbn; auto.
Qed.
Lemma quiet_blob_put b bytes ct : quiet (blob_put b bytes ct).
Proof.
  constructor; [|intros; apply quiet_lift]. intros E w.
  destruct (env_io_ok _ _); [destruct (b _ _)|]; split; cbn; auto.
Qed.
Lemma quiet_render_page {T : Tera} path rc : quiet (render_page path rc).
Proof. constructor; [intros E w; apply same_db_tick|intros; apply quiet_lift]. Qed.
Lemma quiet_render {T : Tera} path rc : quiet (render path rc).
Proof.
  apply quiet_bind; [apply quiet_render_page|]. intros. apply quiet_bind; [apply quiet_lift|constructor].
Qed.
Lemma quiet_io_call msg : quiet (io_call msg).
Proof. constructor; [intros E w; apply same_db_tick|intros; apply quiet_lift]. Qed.
Lemma quiet_io_write put bytes msg : (∀ b w, same_db w (put b w)) → quiet (io_write put bytes msg).
Proof.
  intros H. constructor; [|intros; apply quiet_lift]. intros E w. cbn. unfold io_left.
  destruct (env_io_ok E (w_step w)), (env_io_left E (w_step w)); cbn; try apply same_db_tick;
    (etrans; [apply same_db_tick|apply H]).
Qed.
Lemma atomic_db_exec f : atomic (db_exec f).
Proof. apply atomic_write. intros. apply quiet_lift. Qed.
Lemma quiet_mapM {A B} (f : A → prog B) l : (∀ a, quiet (f a)) → quiet (prog_mapM f l).
Proof.
  intros H. induction l; cbn [prog_mapM]; [constructor|].
  apply quiet_bind; [done|]. intros. apply quiet_bind; [done|constructor].
Qed.
Lemma quiet_foldM {A B} (f : B → A → prog B) b l : (∀ b a, quiet (f b a)) → quiet (prog_foldM f b l).
Proof.
  intros H. revert b. induction l; intros b; cbn [prog_foldM]; [constructor|].
  apply quiet_bind; [done|auto].
Qed.
End wp.

#[export] Hint Resolve quiet_lift quiet_or_not_found quiet_db_query quiet_clock_now quiet_fresh
  quiet_try_publish quiet_blob_put quiet_render quiet_mapM quiet_foldM atomic_db_exec : inv.
#[export] Hint Constructors quiet : inv.

(** [solve_quiet] and [solve_atomic] walk a program's binds and branches. *)
Ltac solve_quiet := solve [
  repeat (intros; cbn beta zeta; match goal with
  | |- quiet (_ ≫= _) => apply quiet_bind
  | |- quiet (prog_foldM _ _ _) => first [solve [eauto with inv] | apply quiet_foldM]
  | |- quiet (match ?x with _ => _ end) => destruct x
  | |- quiet _ => solve [eauto with inv]
  end)].
Ltac solve_atomic :=
  repeat (intros; cbn beta zeta; match goal with
  | |- atomic (match ?x with _ => _ end) => destruct x
  | |- atomic (db_exec _ ≫= _) => apply atomic_bind_write; [apply atomic_db_exec|solve_quiet]
  | |- atomic (_ ≫= _) => apply atomic_bind_quiet; [solve_quiet|]
  | |- atomic (db_exec _) => apply atomic_db_exec
  | |- atomic _ => apply atomic_quiet; solve_quiet
  end).

(** ** Programs without any effect but reading *)

Section silent.
Context `{P : Platform}.
Implicit Types (E : Env) (w : World).

(** Two worlds that differ in the interaction count only. *)
Record same_world w w' : Prop := {
  sw_db : w_db w' = w_db w;
  sw_bus : w_bus w' = w_bus w;
  sw_files : w_files w' = w_files w;
  sw_sink : w_sink w' = w_sink w;
  sw_blobs : w_blobs w' = w_blobs w;
  sw_step : (w_step w ≤ w_step w')%nat;
}.
#[export] Instance same_world_preorder : PreOrder same_world.
Proof. split; [by split|]. intros w1 w2 w3 [] []. split; try congruence. lia. Qed.
Lemma same_world_tick w : same_world w (tick w).
Proof. split; cbn; auto. Qed.

Inductive silent {A} : prog A → Prop :=
  | silent_ret a : silent (Ret a)
  | silent_throw e : silent (Throw e)
  | silent_crash : silent Crash
  | silent_act X (f : Env → World → World * X) k :
      (∀ E w, same_world w (f E w).1) → (∀ x, silent (k x)) → silent (Act f k).

Lemma silent_run {A} E (p : prog A) w : silent p → same_world w (run E p w).1.
Proof.
  intros H. revert w. induction H as [| | |X f k Hf _ IH]; intros w; cbn; try reflexivity.
  specialize (Hf E w). destruct (f E w) as [w' x]. etrans; [exact Hf|apply IH].
Qed.
Lemma silent_bind {A B} (p : prog A) (f : A → prog B) :
  silent p → (∀ a, silent (f a)) → silent (p ≫= f).
Proof. intros Hp Hf. induction Hp; cbn; try constructor; auto. Qed.
Lemma silent_lift {Er A} (conv : Er → CoreError) (m : res Er A) : silent (lift conv m).
Proof. destruct m; constructor. Qed.
Lemma silent_or_not_found {A} msg (o : option A) : silent (or_not_found msg o).
Proof. destruct o; constructor. Qed.
Lemma silent_db_query {A} (f : Db → SR A) : silent (db_query f).
Proof. constructor; [intros E w; apply same_world_tick|]. intros. apply silent_lift. Qed.
Lemma silent_clock_now : silent clock_now.
Proof. constructor; [intros E w; apply same_world_tick|constructor]. Qed.
Lemma silent_render {T : Tera} path rc : silent (render path rc).
Proof.
  apply silent_bind; [constructor; [intros E w; apply same_world_tick|intros; apply silent_lift]|].
  intros. apply silent_bind; [apply silent_lift|constructor].
Qed.
Lemma run_bind {A B} E (p : prog A) (f : A → prog B) w :
  run E (p ≫= f) w =
    match run E p w with
    | (w', Ok a) => run E (f a) w'
    | (w', Err e) => (w', Err e)
    | (w', Panic) => (w', Panic)
    end.
Proof.
  revert w. induction p as [a|e| |X g k IH]; intros w; cbn; try done.
  destruct (g E w) as [w' x]. apply IH.
Qed.

(** Two worlds that differ in the interaction count and the bus. *)
Record same_but_bus w w' : Prop := {
  sb_db : w_db w' = w_db w;
  sb_files : w_files w' = w_files w;
  sb_sink : w_sink w' = w_sink w;
  sb_blobs : w_blobs w' = w_blobs w;
}.
#[export] Instance same_but_bus_preorder : PreOrder same_but_bus.
Proof. split; [by split|]. intros w1 w2 w3 [] []. split; congruence. Qed.

Lemma run_io_call E msg w :
  run E (io_call msg) w =
    (tick w, if env_io_ok E (w_step w) then Ok () else Err (Validation (msg +:+ env_io_msg E (w_step w)))).
Proof. unfold io_call. cbn. by destruct (env_io_ok E (w_step w)). Qed.
Lemma run_io_write E put bytes msg w :
  run E (io_write put bytes msg) w =
    if env_io_ok E (w_step w) then (put bytes (tick w), Ok ())
    else (io_left E put bytes w, Err (Validation (msg +:+ env_io_msg E (w_step w)))).
Proof. unfold io_write. cbn. by destruct (env_io_ok E (w_step w)). Qed.
Lemma run_db_exec E f w :
  run E (db_exec f) w =
    match (if env_db_ok E (w_step w) then f (w_db w) else Err (Sqlx Unavailable)) with
    | Ok d => (set_w_db d (tick w), Ok ())
    | Err e => (tick w, Err (Repo e))
    | Panic => (tick w, Panic)
    end.
Proof.
  unfold db_exec. cbn. destruct (env_db_ok E (w_step w)); [|done]. by destruct (f (w_db w)).
Qed.
Lemma run_db_query {A} E (q : Db → SR A) w :
  run E (db_query q) w =
    (tick w, map_err Repo (if env_db_ok E (w_step w) then q (w_db w) else Err (Sqlx Unavailable))).
Proof.
  unfold db_query. cbn. destruct (env_db_ok E (w_step w)); [|done]. by destruct (q (w_db w)).
Qed.
Lemma run_fresh E e w : run E (fresh e) w = (tick w, Ok (id_new e (w_step w))).
Proof. done. Qed.

Lemma run_try_publish E ctx topic payload at_ w :
  (run E (try_publish ctx topic payload at_) w).2 = Ok () ∧
  same_but_bus w (run E (try_publish ctx topic payload at_) w).1.
Proof.
  unfold try_publish. destruct (publisher ctx); cbn; (split; [done|]); [|reflexivity].
  by destruct (env_publish_ok E (w_step w)).
Qed.
(** A sequence of publishes. *)
Lemma run_publish_then E ctx topic payload at_ (q : prog ()) w :
  (∀ w, (run E q w).2 = Ok () ∧ same_but_bus w (run E q w).1) →
  (run E (_ ← try_publish ctx topic payload at_; q) w).2 = Ok () ∧
  same_but_bus w (run E (_ ← try_publish ctx topic payload at_; q) w).1.
Proof.
  intros Hq. rw run_bind. destruct (run_try_publish E ctx topic payload at_ w) as [E1 H1].
  destruct (run E (try_publish _ _ _ _) w) as [w1 r]. cbn in E1, H1. subst r.
  destruct (Hq w1). split; [done|]. by etrans.
Qed.

(** The first interaction of a bind on a silent program, and what follows. *)
Lemma silent_run_bind {A B} E (p : prog A) (f : A → prog B) w :
  silent p → ∃ w', same_world w w' ∧ run E (p ≫= f) w =
    match (run E p w).2 with
    | Ok a => run E (f a) w'
    | Err e => (w', Err e)
    | Panic => (w', Panic)
    end.
Proof.
  intros Hp. exists (run E p w).1. split; [by apply silent_run|]. clear Hp.
  revert w. induction p as [a|e| |X g k IH]; intros w; cbn; try done.
  destruct (g E w) as [w' x]. apply IH.
Qed.
End silent.

Lemma silent_quiet `{P : Platform} {A} (p : prog A) : silent p → quiet p.
Proof.
  induction 1 as [| | |X f k Hf _ IH]; constructor; auto.
  intros E w. destruct (Hf E w). by split.
Qed.

#[export] Hint Resolve silent_lift silent_or_not_found silent_db_query silent_clock_now
  silent_render : inv.
#[export] Hint Constructors silent : inv.
Ltac solve_silent := solve [
  repeat (intros; cbn beta zeta; match goal with
  | |- silent (_ ≫= _) => apply silent_bind
  | |- silent (match ?x with _ => _ end) => destruct x
  | |- silent _ => solve [eauto with inv]
  end)].

(** ** Rules for the binds of a command

    [rejects Q w]: [Q] accepts any failure that leaves the database of [w]
    alone.  The rules follow a program's binds; an interaction that does not
    write the database carries the invariant and [rejects] along.  [safe] is
    the case where only the invariant matters. *)

Section rules.
Context `{P : Platform}.
Implicit Types (E : Env) (w : World).
Context (I : World → Prop) (HI : stable I).

Definition safe {A} E (p : prog A) w : Prop := wpc I E p (λ _ _, True) w.

Definition rejects {A} (Q : World → res CoreError A → Prop) w : Prop :=
  ∀ w' r, same_db w w' → is_ok r = false → Q w' r.
Lemma rejects_same_db {A} (Q : World → res CoreError A → Prop) w w' :
  same_db w w' → rejects Q w → rejects Q w'.
Proof. intros Hs HQ w'' r Hs'. apply HQ. by etrans. Qed.

Section binds.
Context {A B : Type} (Q : World → res CoreError B → Prop).

Lemma wpc_bind_quiet E (p : prog A) (f : A → prog B) w :
  quiet p → I w → rejects Q w →
  (∀ w' a, same_db w w' → I w' → rejects Q w' → wpc I E (f a) Q w') → wpc I E (p ≫= f) Q w.
Proof.
  intros Hp Hw HQ Hf. apply wpc_bind, wpc_quiet; [done..|].
  intros w' [a|e|] Hs; cbn; [|by apply HQ..].
  apply Hf; [done|by eapply HI|by eapply rejects_same_db].
Qed.

Lemma wpc_bind_lift {Er} E (conv : Er → CoreError) (m : res Er A) (f : A → prog B) w :
  I w → rejects Q w → (∀ a, m = Ok a → wpc I E (f a) Q w) → wpc I E (lift conv m ≫= f) Q w.
Proof.
  intros Hw HQ Hf. destruct m; cbn; [by apply Hf|..]; (split; [done|]); by apply HQ.
Qed.

Lemma wpc_bind_query E (q : Db → SR A) (f : A → prog B) w :
  I w → rejects Q w →
  (∀ w' a, q (w_db w) = Ok a → same_db w w' → I w' → rejects Q w' → wpc I E (f a) Q w') →
  wpc I E (db_query q ≫= f) Q w.
Proof.
  intros Hw HQ Hf. apply wpc_bind. pose proof (same_db_tick w).
  apply wpc_db_query; [done..|by apply HQ|].
  destruct (q (w_db w)) eqn:Eq; cbn; [|by apply HQ..].
  apply Hf; [done..|by eapply HI|by eapply rejects_same_db].
Qed.

Lemma wpc_bind_or_not_found E msg (o : option A) (f : A → prog B) w :
  I w → rejects Q w → (∀ a, o = Some a → wpc I E (f a) Q w) →
  wpc I E (or_not_found msg o ≫= f) Q w.
Proof. intros Hw HQ Hf. destruct o; [by apply Hf|]. split; [done|]. by apply HQ. Qed.
End binds.

Section binds.
Context {B : Type} (Q : World → res CoreError B → Prop).

Lemma wpc_bind_fresh E e (f : EntityId e → prog B) w :
  I w → rejects Q w →
  (∀ w', same_db w w' → w_step w' = S (w_step w) → I w' → rejects Q w' →
     wpc I E (f (id_new e (w_step w))) Q w') →
  wpc I E (fresh e ≫= f) Q w.
Proof.
  intros Hw HQ Hf. apply wpc_bind, wpc_fresh; [done..|]. pose proof (same_db_tick w).
  apply Hf; [done..|by eapply HI|by eapply rejects_same_db].
Qed.

Lemma wpc_bind_clock E (f : DateTime → prog B) w :
  I w → rejects Q w →
  (∀ w' m, same_db w w' → I w' → rejects Q w' → wpc I E (f (env_now E m)) Q w') →
  wpc I E (clock_now ≫= f) Q w.
Proof.
  intros Hw HQ Hf. cbn. pose proof (same_db_tick w). split; [done|].
  apply Hf; [done|by eapply HI|by eapply rejects_same_db].
Qed.

Lemma wpc_bind_exec E (q : Db → SR Db) (f : () → prog B) w :
  I w → rejects Q w →
  (∀ d, q (w_db w) = Ok d →
     I (set_w_db d (tick w)) ∧
     (I (set_w_db d (tick w)) → wpc I E (f ()) Q (set_w_db d (tick w)))) →
  wpc I E (db_exec q ≫= f) Q w.
Proof.
  intros Hw HQ Hf. apply wpc_bind. pose proof (same_db_tick w).
  apply wpc_db_exec; [done..|intros; by apply HQ|by apply HQ|]. intros d Hd.
  destruct (Hf d Hd) as [? H']. split; [done|by apply H'].
Qed.

(** A program that cannot fail and leaves the database alone, such as the
    publishing at the end of a command. *)
Lemma wpc_bind_total E (p : prog ()) (f : () → prog B) w :
  (∀ Q w, I w → (∀ w', same_db w w' → Q w' (Ok ())) → wpc I E p Q w) → I w →
  (∀ w', same_db w w' → I w' → wpc I E (f ()) Q w') → wpc I E (p ≫= f) Q w.
Proof. intros Hp Hw Hf. apply wpc_bind, Hp; [done|]. intros w' Hs. apply Hf; [done|by eapply HI]. Qed.
End binds.

Lemma wpc_try_publish E ctx topic payload at_ Q w :
  I w → (∀ w', same_db w w' → Q w' (Ok ())) → wpc I E (try_publish ctx topic payload at_) Q w.
Proof.
  intros Hw HQ. unfold try_publish. destruct (publisher ctx); cbn; split; try done.
  - assert (same_db w (if env_publish_ok E (w_step w)
      then add_bus (MkBusMessage topic payload at_) (tick w) else tick w)) as Hs.
    { destruct (env_publish_ok E (w_step w)); split; cbn; auto. }
    split; [by eapply HI|by apply HQ].
  - by apply HQ.
Qed.

(** What a page was rendered from. *)
Lemma wpc_render {T : Tera} E path rc w :
  I w → wpc I E (render path rc) (λ w' r, same_db w w' ∧ ∀ html pdf, r = Ok (html, pdf) →
    ∃ read, render_html read path rc = Ok html ∧ render_pdf html = Ok pdf) w.
Proof.
  intros Hw. pose proof (same_db_tick w) as Ht. assert (I (tick w)) as Hw' by (by eapply HI).
  unfold render, render_page. cbn. split; [done|].
  match goal with |- context [render_html ?read path rc] => destruct (render_html read path rc) as [html|e|] eqn:Eh end;
    cbn; [|by split..].
  destruct (render_pdf html) as [pdf|e|] eqn:Ep; cbn; [|by split..]. split; [done|]. split; [done|].
  intros ?? [= <- <-]. by eexists.
Qed.

(** Against a database that answers, an interaction has its result. *)
Section healthy.
Context {B : Type} (Q : World → res CoreError B → Prop) (E : Env).
Context (HE : ∀ n, env_db_ok E n = true).

Lemma healthy_query {A} (q : Db → SR A) (f : A → prog B) w a :
  I w → q (w_db w) = Ok a → (∀ w', same_db w w' → I w' → wpc I E (f a) Q w') →
  wpc I E (db_query q ≫= f) Q w.
Proof.
  intros Hw Hq Hf. cbn. split; [done|]. rw HE Hq. cbn.
  apply Hf; [apply same_db_tick|]. eapply HI; [apply same_db_tick|done].
Qed.
Lemma healthy_exec (q : Db → SR Db) (f : () → prog B) w d :
  I w → q (w_db w) = Ok d → wpc I E (f ()) Q (set_w_db d (tick w)) →
  wpc I E (db_exec q ≫= f) Q w.
Proof. intros Hw Hq Hf. cbn. split; [done|]. by rw HE Hq. Qed.
Lemma healthy_fresh e (f : EntityId e → prog B) w :
  I w → (∀ w', same_db w w' → w_step w' = S (w_step w) → I w' →
           wpc I E (f (id_new e (w_step w))) Q w') →
  wpc I E (fresh e ≫= f) Q w.
Proof.
  intros Hw Hf. cbn. split; [done|].
  apply Hf; [apply same_db_tick|done|]. eapply HI; [apply same_db_tick|done].
Qed.
Lemma healthy_clock (f : DateTime → prog B) w :
  I w → (∀ w' now, same_db w w' → I w' → wpc I E (f now) Q w') →
  wpc I E (clock_now ≫= f) Q w.
Proof.
  intros Hw Hf. cbn. split; [done|].
  apply Hf; [apply same_db_tick|]. eapply HI; [apply same_db_tick|done].
Qed.
End healthy.

Lemma safe_bind {A B} E (p : prog A) (f : A → prog B) w :
  safe E p w → (∀ w' a, I w' → safe E (f a) w') → safe E (p ≫= f) w.
Proof.
  intros Hp Hf. apply wpc_bind. unfold safe in Hp. revert w Hp.
  induction p as [a|e| |X g k IH]; intros w; cbn; try by intros [? _].
  - intros [? _]. split; [done|]. by apply Hf.
  - intros [? H]. split; [done|]. by apply IH.
Qed.

Lemma safe_foldM {A B} E (f : B → A → prog B) b l w :
  I w → (∀ w' b a, I w' → safe E (f b a) w') → safe E (prog_foldM f b l) w.
Proof.
  intros Hw Hf. revert b w Hw. induction l as [|a l IH]; intros b w Hw; [done|].
  cbn [prog_foldM]. apply safe_bind; [by apply Hf|]. intros. by apply IH.
Qed.

Lemma safe_quiet {A} E (p : prog A) w : quiet p → I w → safe E p w.
Proof. intros Hp Hw. by apply wpc_quiet. Qed.
Lemma safe_run {A} E (p : prog A) w : safe E p w → I (run E p w).1.
Proof. intros H. by apply wpc_run in H as [? _]. Qed.
Lemma safe_crash_run {A} E n (p : prog A) w : safe E p w → I (crash_run E n p w).
Proof. apply wpc_crash. Qed.
End rules.

(** A successful run, as an equation. *)
Lemma run_ok `{Platform} {A} E (p : prog A) w :
  is_ok (run E p w).2 = true → ∃ w' a, run E p w = (w', Ok a).
Proof. destruct (run E p w) as [w' [a|e|]]; cbn; [eauto|done..]. Qed.

(** Facts about a result are facts about the end of the run. *)
Lemma run_split `{Platform} {A} E (p : prog A) w (Q : World → res CoreError A → Prop) :
  Q (run E p w).1 (run E p w).2 → let '(w', r) := run E p w in Q w' r.
Proof. by destruct (run E p w). Qed.

(** The trivial invariant, for statements about the end of a run only. *)
Definition anywhere `{Platform} (w : World) : Prop := True.
Lemma stable_anywhere `{Platform} : stable anywhere.
Proof. done. Qed.
Lemma wpc_end `{Platform} {A} E (p : prog A) Q w :
  wpc anywhere E p Q w → Q (run E p w).1 (run E p w).2.
Proof. intros H1. by apply wpc_run in H1 as [_ ?]. Qed.
Lemma rejects_true `{Platform} {A} w : rejects (λ _ (_ : res CoreError A), True) w.
Proof. done. Qed.

#[export] Hint Resolve stable_anywhere rejects_true : inv.

(** [wp_skip] passes a bind on a quiet program, [wp_query], [wp_lift],
    [wp_found] and [wp_fresh] a bind whose result matters, [wp_exec] a
    transaction; side conditions come from the context. *)
Ltac wp_side := first [assumption | exact Logic.I | solve [eauto with inv]].
Ltac wp_skip :=
  cbv zeta; apply wpc_bind_quiet; [wp_side|solve_quiet|wp_side|wp_side|];
  let w := fresh "wx" in let x := fresh "x" in intros w x ? ? ?.
Ltac wp_lift a H := cbv zeta; apply wpc_bind_lift; [wp_side|wp_side|]; intros a H.
Ltac wp_query H :=
  cbv zeta; apply wpc_bind_query; [wp_side|wp_side|wp_side|];
  let w := fresh "wx" in let x := fresh "x" in intros w x H ? ? ?; try (injection H as <-).
Ltac wp_found i H := cbv zeta; apply wpc_bind_or_not_found; [wp_side|wp_side|]; intros i H.
Ltac wp_fresh := cbv zeta; apply wpc_bind_fresh; [wp_side|wp_side|wp_side|];
  let w := fresh "wx" in intros w ? ? ? ?.
Ltac wp_clock m := cbv zeta; apply wpc_bind_clock; [wp_side|wp_side|wp_side|];
  let w := fresh "wx" in intros w m ? ? ?.
Ltac wp_then lem := cbv zeta; apply wpc_bind; eapply wpc_mono; [|apply lem; wp_side].
Ltac wp_exec H := cbv zeta; apply wpc_bind_exec; [wp_side|wp_side|wp_side|]; 
  let d := fresh "d" in intros d H; split; [|intros ?].
