(* ===== verification/Effects.v ===== *)
(** * Programs with an error type of their own

    The adapters around the commands ([bus/src/], [api/src/]) call the same
    database, clock and publisher as the commands but answer their own error
    types.  Such a program is a [prog] whose value is a [res]; [x ←? p; q] is
    the [?] operator on it. *)

From S2P Require Import Prelude External Money Ids Domain Events Store Command.

Section effects.
Context `{P : Platform}.

(** [p?] followed by [f]. *)
Definition try_bind {Er A B} (p : prog (res Er A)) (f : A → prog (res Er B)) : prog (res Er B) :=
  r ← p;
  match r with
  | Ok a => f a
  | Err e => Ret (Err e)
  | Panic => Crash
  end.
(** [p.await.map_err(conv)] *)
Definition try_conv {Er Er' A} (conv : Er → Er') (p : prog (res Er A)) : prog (res Er' A) :=
  r ← p; Ret (map_err conv r).

Fixpoint try_foldM {Er A B} (f : B → A → prog (res Er B)) (b : B) (l : list A) : prog (res Er B) :=
  match l with
  | [] => Ret (Ok b)
  | a :: l => try_bind (f b a) (λ b, try_foldM f b l)
  end.

(** A statement whose outcome the caller handles. *)
Definition db_try {A} (f : Db → SR A) : prog (SR A) :=
  Act (λ E w, (tick w, if env_db_ok E (w_step w) then f (w_db w) else Err (Sqlx Unavailable))) Ret.
Definition db_try_exec (f : Db → SR Db) : prog (SR ()) :=
  Act (λ E w,
         match (if env_db_ok E (w_step w) then f (w_db w) else Err (Sqlx Unavailable)) with
         | Ok d => (set_w_db d (tick w), Ok ())
         | Err e => (tick w, Err e)
         | Panic => (tick w, Panic)
         end) Ret.

(** [publisher.publish(topic, payload, occurred_at)], which the caller checks. *)
Inductive PublishError := Backend (msg : string) | PublishJson.
Definition publish_try (topic : string) (payload : json) (at_ : DateTime) : prog (res PublishError ()) :=
  Act (λ E w,
         if env_publish_ok E (w_step w)
         then (add_bus (MkBusMessage topic payload at_) (tick w), Ok ())
         else (tick w, Err (Backend (env_io_msg E (w_step w))))) Ret.

(** A command called by an adapter: its [CoreError] is the adapter's to wrap. *)
Fixpoint catch {A} (p : prog A) : prog (res CoreError A) :=
  match p with
  | Ret a => Ret (Ok a)
  | Throw e => Ret (Err e)
  | Crash => Crash
  | Act f k => Act f (λ x, catch (k x))
  end.
End effects.

Notation "x ←? p ; q" := (try_bind p (λ x, q))
  (at level 20, p at level 100, q at level 200, right associativity) : stdpp_scope.

(** ** Rules *)

Section rules.
Context `{P : Platform}.
Implicit Types (E : Env) (w : World) (I : World → Prop).

(** What follows a [?]. *)
Definition wpc_try_cont {Er A B} I E (f : A → prog (res Er B))
    (Q : World → res CoreError (res Er B) → Prop) : World → res CoreError (res Er A) → Prop := λ w r,
  match r with
  | Ok (Ok a) => wpc I E (f a) Q w
  | Ok (Err e) => I w ∧ Q w (Ok (Err e))
  | Ok Panic | Panic => I w ∧ Q w Panic
  | Err e => Q w (Err e)
  end.

Lemma wpc_try_bind {Er A B} I E (p : prog (res Er A)) (f : A → prog (res Er B)) Q w :
  wpc I E p (wpc_try_cont I E f Q) w → wpc I E (try_bind p f) Q w.
Proof.
  intros H. apply wpc_bind. eapply wpc_mono; [|exact H].
  intros w' [[a|e|]|e|]; cbn; tauto.
Qed.
Lemma wpc_try_conv {Er Er' A} I E (conv : Er → Er') (p : prog (res Er A)) Q w :
  wpc I E p (λ w r, I w ∧ Q w (map_err id (match r with Ok x => Ok (map_err conv x)
                                                  | Err e => Err e | Panic => Panic end))) w →
  wpc I E (try_conv conv p) Q w.
Proof.
  intros H. apply wpc_bind. eapply wpc_mono; [|exact H]. intros w' [a|e|] [? ?]; cbn; auto.
Qed.

Lemma wpc_try_foldM {Er A B} I E (f : B → A → prog (res Er B)) (J : list A → B → World → Prop)
    (Q : World → res CoreError (res Er B) → Prop) b l w :
  (∀ done b a rest w, l = done ++ a :: rest → J done b w →
     wpc I E (f b a) (λ w' r,
       match r with
       | Ok (Ok b') => J (done ++ [a]) b' w'
       | Ok (Err e) => I w' ∧ Q w' (Ok (Err e))
       | Ok Panic | Panic => I w' ∧ Q w' Panic
       | Err e => Q w' (Err e)
       end) w) →
  (∀ b w, J l b w → I w ∧ Q w (Ok (Ok b))) →
  J [] b w → wpc I E (try_foldM f b l) Q w.
Proof.
  intros Hf HJ.
  assert (∀ rest don b w, l = don ++ rest → J don b w → wpc I E (try_foldM f b rest) Q w) as Hgen.
  { induction rest as [|a rest IH]; intros don b0 w0 El H0.
    - rw app_nil_r in El. subst don. by apply HJ.
    - cbn [try_foldM]. apply wpc_try_bind. eapply wpc_mono; [|by eapply Hf].
      intros w' [[b'|e|]|e|]; cbn; try tauto. intros H'. eapply IH; [|exact H'].
      by rw -app_assoc. }
  by apply (Hgen l []).
Qed.

(** Catching changes how a run ends, not what it does. *)
Lemma run_catch {A} E (p : prog A) w :
  run E (catch p) w =
    ((run E p w).1, match (run E p w).2 with Ok a => Ok (Ok a) | Err e => Ok (Err e) | Panic => Panic end).
Proof.
  revert w. induction p as [a|e| |X f k IH]; intros w; cbn; try done.
  destruct (f E w) as [w' x]. apply IH.
Qed.
Lemma crash_run_catch {A} E n (p : prog A) w : crash_run E n (catch p) w = crash_run E n p w.
Proof.
  revert n w. induction p as [a|e| |X f k IH]; intros [|n] w; cbn; try done.
  destruct (f E w) as [w' x]. apply IH.
Qed.
Lemma quiet_catch {A} (p : prog A) : quiet p → quiet (catch p).
Proof. induction 1; cbn; constructor; auto. Qed.
Lemma atomic_catch {A} (p : prog A) : atomic p → atomic (catch p).
Proof.
  induction 1; cbn.
  - by apply atomic_quiet, quiet_catch.
  - by apply atomic_before.
  - apply atomic_write. intros. by apply quiet_catch.
Qed.
Lemma safe_catch {A} I E (p : prog A) w : safe I E p w → safe I E (catch p) w.
Proof.
  unfold safe. revert w. induction p as [a|e| |X f k IH]; intros w; cbn; try tauto.
  intros [? ?]. auto.
Qed.
Lemma quiet_db_try {A} (f : Db → SR A) : quiet (db_try f).
Proof. constructor; [intros E w; apply same_db_tick|constructor]. Qed.
Lemma silent_db_try {A} (f : Db → SR A) : silent (db_try f).
Proof. constructor; [intros E w; apply same_world_tick|constructor]. Qed.
Lemma quiet_publish_try topic payload at_ : quiet (publish_try topic payload at_).
Proof.
  constructor; [|constructor]. intros E w. cbn. destruct (env_publish_ok _ _); split; cbn; auto.
Qed.
End rules.

#[export] Hint Resolve quiet_catch quiet_db_try quiet_publish_try silent_db_try : inv.

Section safe.
Context `{P : Platform} (I : World → Prop).

Lemma safe_try_bind {Er A B} E (p : prog (res Er A)) (f : A → prog (res Er B)) w :
  safe I E p w → (∀ w' a, I w' → safe I E (f a) w') → safe I E (try_bind p f) w.
Proof.
  intros Hp Hf. apply safe_bind; [done|]. intros w' [a|e|] Hw; [by apply Hf|done..].
Qed.
Lemma safe_try_conv {Er Er' A} E (conv : Er → Er') (p : prog (res Er A)) w :
  safe I E p w → safe I E (try_conv conv p) w.
Proof. intros Hp. by apply safe_bind. Qed.
Lemma safe_try_foldM {Er A B} E (f : B → A → prog (res Er B)) b l w :
  I w → (∀ w' b a, I w' → safe I E (f b a) w') → safe I E (try_foldM f b l) w.
Proof.
  intros Hw Hf. revert b w Hw. induction l as [|a l IH]; intros b w Hw; [done|].
  cbn [try_foldM]. apply safe_try_bind; [by apply Hf|]. intros. by apply IH.
Qed.
Lemma safe_db_try_exec E (f : Db → SR Db) w :
  stable I → I w → (∀ d, f (w_db w) = Ok d → I (set_w_db d (tick w))) → safe I E (db_try_exec f) w.
Proof.
  intros HI Hw Hd. split; [done|]. assert (I (tick w)) by (eapply HI, Hw; apply same_db_tick).
  destruct (env_db_ok _ _); [|done]. destruct (f (w_db w)) eqn:Ef; cbn; repeat split; auto.
Qed.
End safe.

(** What a [?] chain runs, as equations. *)
Lemma run_try_bind `{Platform} {Er A B} E (p : prog (res Er A)) (f : A → prog (res Er B)) w :
  run E (try_bind p f) w =
    match run E p w with
    | (w', Ok (Ok a)) => run E (f a) w'
    | (w', Ok (Err e)) => (w', Ok (Err e))
    | (w', Ok Panic) | (w', Panic) => (w', Panic)
    | (w', Err e) => (w', Err e)
    end.
Proof. unfold try_bind. rw run_bind. by destruct (run E p w) as [w' [[a|e|]|e|]]. Qed.
Lemma run_try_conv `{Platform} {Er Er' A} E (conv : Er → Er') (p : prog (res Er A)) w :
  run E (try_conv conv p) w =
    ((run E p w).1, match (run E p w).2 with
                    | Ok r => Ok (map_err conv r) | Err e => Err e | Panic => Panic
                    end).
Proof. unfold try_conv. rw run_bind. by destruct (run E p w) as [w' [r|e|]]. Qed.
