(* ===== verification/Transition.v ===== *)
(** * What the transition commands share

    [issue], [send], [pay] and [void] each write the mutated invoice and one
    history row in one transaction and then publish the mechanic triplet of
    [core/src/state/events.rs] before their own domain event; the source
    repeats that code in [publish_issued_events], [publish_sent_events],
    [publish_paid_events] and [publish_voided_events]. *)

From S2P Require Import Prelude External Money Ids Domain InvoiceFsm Events Store Command.

Section transition.
Context `{P : Platform}.

(** [InvoiceRepo::save_in_tx] then [InvoiceHistoryRepo::save_in_tx]. *)
Definition save_transition (invoice : Invoice) (h : InvoiceStateHistory) (d : Db) : SR Db :=
  d ← invoice_save_in_tx invoice d;
  history_save_in_tx h d.

(** The transaction of [draft] and [issue]: invoice, lines and history row. *)
Definition save_all (invoice : Invoice) (lines : list InvoiceLine) (h : InvoiceStateHistory)
    (d : Db) : SR Db :=
  d ← invoice_save_in_tx invoice d;
  d ← replace_for_invoice_in_tx (inv_id invoice) lines d;
  history_save_in_tx h d.

(** [CreditNoteRepo::save_in_tx] then [CreditNoteHistoryRepo::save_in_tx]. *)
Definition save_cn_transition (n : CreditNote) (h : CreditNoteStateHistory) (d : Db) : SR Db :=
  d ← cn_save_in_tx n d;
  cn_history_save_in_tx h d.

Definition publish_triplet (ctx : CoreCtx) (id : InvoiceId) (from to : InvoiceState)
    (event : InvoiceEvent) (actor_audit : string) (channel : HistoryChannel) (now : DateTime)
    : prog () :=
  _ ← try_publish ctx TOPIC_PROPOSED
        (InvoiceProposed_json (MkInvoiceProposed id from to event (Some actor_audit) channel now)) now;
  _ ← try_publish ctx TOPIC_TRANSITIONED
        (InvoiceTransitioned_json (MkInvoiceTransitioned id from to event (Some actor_audit) channel now)) now;
  try_publish ctx TOPIC_ENTERED
    (InvoiceEntered_json (MkInvoiceEntered id to channel (Some actor_audit) now)) now.

(** The history row of a transition command. *)
Definition transition_row (hid : HistoryId) (id : InvoiceId) (from to : InvoiceState)
    (event : string) (actor : Actor) (channel : Channel) (bus_event_id reason : option string)
    (now : DateTime) (metadata : Metadata) : InvoiceStateHistory :=
  {| h_id := hid;
     h_invoice_id := id;
     h_from_state := Some from;
     h_to_state := to;
     h_event := event;
     h_actor := Some (audit_string actor);
     h_channel := history_channel channel;
     h_bus_event_id := bus_event_id;
     h_reason := reason;
     h_occurred_at := now;
     h_published_at := None;
     h_metadata := metadata |}.

Lemma quiet_publish_triplet ctx id from to event actor channel now :
  quiet (publish_triplet ctx id from to event actor channel now).
Proof. unfold publish_triplet. solve_quiet. Qed.

Lemma wpc_publish_triplet (I : World → Prop) E ctx id from to event actor channel now Q w :
  stable I → I w → (∀ w', same_db w w' → Q w' (Ok ())) →
  wpc I E (publish_triplet ctx id from to event actor channel now) Q w.
Proof.
  intros HI Hw HQ. unfold publish_triplet.
  apply wpc_bind_total; [done|intros; by apply wpc_try_publish|done|]. intros w1 H1 Hw1.
  apply wpc_bind_total; [done|intros; by apply wpc_try_publish|done|]. intros w2 H2 Hw2.
  apply wpc_try_publish; [done..|]. intros w3 H3. apply HQ. etrans; [|done]. by etrans.
Qed.
Lemma run_publish_events E ctx id from to event actor channel now topic payload w :
  let p := (_ ← publish_triplet ctx id from to event actor channel now;
            try_publish ctx topic payload now) in
  (run E p w).2 = Ok () ∧ same_but_bus w (run E p w).1.
Proof.
  intros p.
  assert (p = (_ ← try_publish ctx TOPIC_PROPOSED
        (InvoiceProposed_json (MkInvoiceProposed id from to event (Some actor) channel now)) now;
    _ ← try_publish ctx TOPIC_TRANSITIONED
        (InvoiceTransitioned_json (MkInvoiceTransitioned id from to event (Some actor) channel now)) now;
    _ ← try_publish ctx TOPIC_ENTERED
        (InvoiceEntered_json (MkInvoiceEntered id to channel (Some actor) now)) now;
    try_publish ctx topic payload now)) as ->.
  { unfold p, publish_triplet, try_publish. by destruct (publisher ctx). }
  do 3 (apply run_publish_then; intros ?). apply run_try_publish.
Qed.

Lemma wpc_publish_events (I : World → Prop) E ctx id from to event actor channel now topic payload Q w :
  stable I → I w → (∀ w', same_db w w' → Q w' (Ok ())) →
  wpc I E (publish_triplet ctx id from to event actor channel now ≫=
           λ _, try_publish ctx topic payload now) Q w.
Proof.
  intros HI Hw HQ.
  apply wpc_bind_total; [done|intros; by apply wpc_publish_triplet|done|]. intros w1 H1 Hw1.
  apply wpc_try_publish; [done..|]. intros w2 H2. apply HQ. by etrans.
Qed.
End transition.

#[export] Hint Resolve quiet_publish_triplet : inv.
