(* ===== verification/Invariant.v ===== *)
(** * The database invariant

    What every state of the database satisfies: keys and constraints of the
    schema, agreement of an invoice's fields with its lifecycle state, and the
    audit trail: the history rows of an invoice, in commit order, replay legal
    steps of the state machine from its draft to its current state.  The
    transactions of the commands preserve it. *)

From S2P Require Import Prelude Rounding External Concrete Money Ids Domain InvoiceFsm.
From S2P Require Import CreditNoteFsm Events Store Command Transition.
From Stdlib Require Import Lqa.

Section invariant.
Context `{P : Platform}.

(** A nullable [UNIQUE] column holds distinct values in distinct rows. *)
Definition unique_by {A} (f : A → option string) (t : gmap string A) : Prop :=
  ∀ k1 k2 a1 a2 x, t !! k1 = Some a1 → t !! k2 = Some a2 →
    f a1 = Some x → f a2 = Some x → k1 = k2.

(** The rows of one invoice, in commit order. *)
Definition rows_of (k : string) (hs : list InvoiceStateHistory) : list InvoiceStateHistory :=
  List.filter (λ h, String.eqb (id_to_string (h_invoice_id h)) k) hs.
Definition cn_rows_of (k : string) (hs : list CreditNoteStateHistory) : list CreditNoteStateHistory :=
  List.filter (λ h, String.eqb (id_to_string (cnh_credit_note_id h)) k) hs.

(** A history row records a draft, a step of the state machine, or a resend. *)
Inductive row_legal : option InvoiceState → InvoiceState → string → Prop :=
  | legal_draft : row_legal None Draft "draft"
  | legal_step f e t : e ≠ Remind → Step f e t → row_legal (Some f) t (tag e)
  | legal_resend : row_legal (Some Sent) Sent (tag Send).

Inductive audit : option InvoiceState → list InvoiceStateHistory → option InvoiceState → Prop :=
  | audit_nil s : audit s [] s
  | audit_cons h hs s' :
      row_legal (h_from_state h) (h_to_state h) (h_event h) →
      audit (Some (h_to_state h)) hs s' → audit (h_from_state h) (h :: hs) s'.

Inductive cn_row_legal : option CreditNoteState → CreditNoteState → string → Prop :=
  | cn_legal_draft : cn_row_legal None CnDraft "draft"
  | cn_legal_issue : cn_row_legal (Some CnDraft) CnIssued "issue".

Inductive cn_audit
    : option CreditNoteState → list CreditNoteStateHistory → option CreditNoteState → Prop :=
  | cn_audit_nil s : cn_audit s [] s
  | cn_audit_cons h hs s' :
      cn_row_legal (cnh_from_state h) (cnh_to_state h) (cnh_event h) →
      cn_audit (Some (cnh_to_state h)) hs s' → cn_audit (cnh_from_state h) (h :: hs) s'.

(** The fields of an invoice agree with its state. *)
Record invoice_consistent (i : Invoice) : Prop := {
  ic_number : inv_number i = None ↔ inv_state i = Draft;
  ic_issued_at : inv_issued_at i = None ↔ inv_state i = Draft;
  ic_sent_at : inv_state i = Sent ∨ inv_state i = Viewed → inv_sent_at i ≠ None;
  ic_paid_at : inv_paid_at i ≠ None ↔ inv_state i = Paid;
  ic_voided_at : inv_voided_at i ≠ None ↔ inv_state i = Voided;
  ic_unpaid : inv_state i = Draft ∨ inv_state i = Issued ∨ inv_state i = Sent ∨ inv_state i = Viewed →
    (val (inv_amount_paid i) == 0)%Q;
  ic_partial : inv_state i = PartiallyPaid →
    (0 < val (inv_amount_paid i))%Q ∧ (val (inv_amount_paid i) < val (inv_total i))%Q;
  ic_paid : inv_state i = Paid →
    (0 < val (inv_amount_paid i))%Q ∧ (val (inv_total i) <= val (inv_amount_paid i))%Q;
}.

Record credit_note_consistent (n : CreditNote) : Prop := {
  cc_number : cn_number n = None ↔ cn_state n = CnDraft;
  cc_issued_at : cn_issued_at n = None ↔ cn_state n = CnDraft;
}.

Record db_ok (d : Db) : Prop := {
  ok_invoice_key k i : invoices d !! k = Some i → k = id_to_string (inv_id i);
  ok_number : unique_by inv_number (invoices d);
  ok_idempotency : unique_by inv_idempotency_key (invoices d);
  ok_invoice_customer k i : invoices d !! k = Some i → ∃ c, customer_get (inv_customer_id i) d = Some c;
  ok_consistent k i : invoices d !! k = Some i → invoice_consistent i;
  ok_audit k i : invoices d !! k = Some i →
    audit None (rows_of k (invoice_state_history d)) (Some (inv_state i));
  ok_no_orphan h : In h (invoice_state_history d) →
    ∃ i, invoices d !! id_to_string (h_invoice_id h) = Some i;
  ok_history_id : NoDup ((id_to_string ∘ h_id) <$> invoice_state_history d);
  ok_line k l : invoice_lines d !! k = Some l →
    k = id_to_string (line_id l) ∧ ∃ i, invoices d !! id_to_string (line_invoice_id l) = Some i;
  ok_cn_key k n : credit_notes d !! k = Some n → k = id_to_string (cn_id n);
  ok_cn_number : unique_by cn_number (credit_notes d);
  ok_cn_invoice k n : credit_notes d !! k = Some n →
    ∃ i, invoices d !! id_to_string (cn_invoice_id n) = Some i;
  ok_cn_consistent k n : credit_notes d !! k = Some n → credit_note_consistent n;
  ok_cn_audit k n : credit_notes d !! k = Some n →
    cn_audit None (cn_rows_of k (credit_note_state_history d)) (Some (cn_state n));
  ok_cn_no_orphan h : In h (credit_note_state_history d) →
    ∃ n, credit_notes d !! id_to_string (cnh_credit_note_id h) = Some n;
  ok_cn_history_id : NoDup ((id_to_string ∘ cnh_id) <$> credit_note_state_history d);
  ok_send k r : send_idempotency d !! k = Some r →
    k = (id_to_string (si_invoice_id r), si_idempotency_key r) ∧
    ∃ i, invoices d !! id_to_string (si_invoice_id r) = Some i;
  ok_reminder k r : reminders d !! k = Some r →
    k = id_to_string (rem_id r) ∧ ∃ i, invoices d !! id_to_string (rem_invoice_id r) = Some i;
  ok_schedule k s : schedules d !! k = Some s →
    k = id_to_string (sch_id s) ∧ ∃ c, customer_get (sch_customer_id s) d = Some c;
}.
End invariant.

#[global] Arguments rows_of {P} _ _ : simpl never.
#[global] Arguments cn_rows_of {P} _ _ : simpl never.
#[export] Hint Constructors row_legal audit cn_row_legal cn_audit : inv.

(** ** Lemmas on the repository operations *)

Section repo.
Context `{P : Platform}.
Implicit Types d : Db.

Lemma audit_snoc s hs s' h :
  audit s hs s' → h_from_state h = s' → row_legal (h_from_state h) (h_to_state h) (h_event h) →
  audit s (hs ++ [h]) (Some (h_to_state h)).
Proof. induction 1; cbn; intros; subst; eauto with inv. Qed.
Lemma cn_audit_snoc s hs s' h :
  cn_audit s hs s' → cnh_from_state h = s' →
  cn_row_legal (cnh_from_state h) (cnh_to_state h) (cnh_event h) →
  cn_audit s (hs ++ [h]) (Some (cnh_to_state h)).
Proof. induction 1; cbn; intros; subst; eauto with inv. Qed.

Lemma rows_of_snoc k hs h :
  rows_of k (hs ++ [h]) =
    if String.eqb (id_to_string (h_invoice_id h)) k then rows_of k hs ++ [h] else rows_of k hs.
Proof. unfold rows_of. rw List.filter_app. cbn. case_match; [done|]. apply app_nil_r. Qed.
Lemma cn_rows_of_snoc k hs h :
  cn_rows_of k (hs ++ [h]) =
    if String.eqb (id_to_string (cnh_credit_note_id h)) k then cn_rows_of k hs ++ [h]
    else cn_rows_of k hs.
Proof. unfold cn_rows_of. rw List.filter_app. cbn. case_match; [done|]. apply app_nil_r. Qed.

(** No rows belong to an invoice that does not exist. *)
Lemma rows_of_orphan k d :
  (∀ h, In h (invoice_state_history d) → ∃ i, invoices d !! id_to_string (h_invoice_id h) = Some i) →
  invoices d !! k = None → rows_of k (invoice_state_history d) = [].
Proof.
  intros Ho Hk. unfold rows_of. induction (invoice_state_history d) as [|h hs IH]; [done|].
  cbn. destruct (String.eqb_spec (id_to_string (h_invoice_id h)) k) as [<-|].
  - destruct (Ho h); [by left|]. congruence.
  - apply IH. intros h' Hh'. apply Ho. by right.
Qed.
Lemma cn_rows_of_orphan k d :
  (∀ h, In h (credit_note_state_history d) → ∃ n, credit_notes d !! id_to_string (cnh_credit_note_id h) = Some n) →
  credit_notes d !! k = None → cn_rows_of k (credit_note_state_history d) = [].
Proof.
  intros Ho Hk. unfold cn_rows_of. induction (credit_note_state_history d) as [|h hs IH]; [done|].
  cbn. destruct (String.eqb_spec (id_to_string (cnh_credit_note_id h)) k) as [<-|].
  - destruct (Ho h); [by left|]. congruence.
  - apply IH. intros h' Hh'. apply Ho. by right.
Qed.

Lemma existsb_others_false {A} (f : A → bool) (t : gmap string A) k :
  existsb (λ kv, f kv.2) (filter (λ kv, kv.1 ≠ k) (map_to_list t)) = false →
  ∀ k' a, k' ≠ k → t !! k' = Some a → f a = false.
Proof.
  intros H k' a Hne Ha. apply not_true_iff_false. intros Hf.
  apply not_true_iff_false in H. apply H, existsb_exists. exists (k', a). split; [|done].
  apply list_elem_of_In, list_elem_of_filter. split; [done|]. by apply elem_of_map_to_list.
Qed.

Lemma opt_clash_false a b : opt_clash a b = false → ∀ x, a = Some x → b = Some x → False.
Proof. intros H x -> ->. cbn in H. by rw String.eqb_refl in H. Qed.

(** Inserting a row that clashes with no other keeps a column unique. *)
Lemma unique_by_insert {A} (f : A → option string) (t : gmap string A) k a :
  unique_by f t → (∀ k' a', k' ≠ k → t !! k' = Some a' → opt_clash (f a) (f a') = false) →
  unique_by f (<[k := a]> t).
Proof.
  intros Hu Hc k1 k2 a1 a2 x. rw !lookup_insert_Some.
  intros [[<- <-]|[H1 E1]] [[<- <-]|[H2 E2]] F1 F2; try done.
  - exfalso. eapply opt_clash_false; [by eapply (Hc k2)|done|done].
  - exfalso. eapply opt_clash_false; [by eapply (Hc k1)|done|done].
  - by eapply Hu.
Qed.

Lemma invoice_upserted_eq old i :
  inv_id (invoice_upserted old i) = inv_id i ∧
  inv_number (invoice_upserted old i) = inv_number i ∧
  inv_idempotency_key (invoice_upserted old i) = inv_idempotency_key i ∧
  inv_customer_id (invoice_upserted old i) = inv_customer_id i ∧
  inv_state (invoice_upserted old i) = inv_state i.
Proof. by destruct old. Qed.
Lemma invoice_upserted_consistent old i :
  invoice_consistent i → invoice_consistent (invoice_upserted old i).
Proof. by destruct old; [intros []; split|]. Qed.

(** What a successful upsert of an invoice did. *)
Lemma invoice_save_in_tx_ok i d d' :
  invoice_save_in_tx i d = Ok d' →
  let k := id_to_string (inv_id i) in
  d' = set_invoices (<[k := invoice_upserted (invoices d !! k) i]> (invoices d)) d ∧
  (∃ c, customer_get (inv_customer_id i) d = Some c) ∧
  (∀ k' j, k' ≠ k → invoices d !! k' = Some j → opt_clash (inv_number i) (inv_number j) = false) ∧
  (∀ k' j, k' ≠ k → invoices d !! k' = Some j →
     opt_clash (inv_idempotency_key i) (inv_idempotency_key j) = false).
Proof.
  unfold invoice_save_in_tx, invoice_clash. cbn zeta.
  destruct (existsb _ _) eqn:E1; [done|]. destruct (existsb _ _) eqn:E2 in |- *; [done|].
  destruct (customer_get _ _) eqn:Ec; [|done]. intros [= <-].
  split; [done|]. split; [by eauto|]. split; intros k' j Hne Hj.
  - exact (existsb_others_false (λ j, opt_clash (inv_number i) (inv_number j)) _ _ E1 k' j Hne Hj).
  - exact (existsb_others_false (λ j, opt_clash (inv_idempotency_key i) (inv_idempotency_key j))
             _ _ E2 k' j Hne Hj).
Qed.

Lemma existsb_id_false {A} (f : A → string) l x :
  existsb (λ a, String.eqb (f a) x) l = false → x ∉ f <$> l.
Proof.
  intros H Hin. apply list_elem_of_fmap in Hin as (a & -> & Ha).
  apply not_true_iff_false in H. apply H, existsb_exists. exists a.
  split; [by apply list_elem_of_In|apply String.eqb_refl].
Qed.

Lemma history_save_in_tx_ok h d d' :
  history_save_in_tx h d = Ok d' →
  d' = set_history (invoice_state_history d ++ [h]) d ∧
  id_to_string (h_id h) ∉ ((id_to_string ∘ h_id) <$> invoice_state_history d) ∧
  ∃ i, invoice_get (h_invoice_id h) d = Some i.
Proof.
  unfold history_save_in_tx. destruct (existsb _ _) eqn:E; [done|].
  destruct (invoice_get _ _) eqn:Ei; [|done]. intros [= <-].
  split; [done|]. split; [|by eauto].
  exact (existsb_id_false (λ h', id_to_string (h_id h')) _ _ E).
Qed.

Lemma line_insert_ok d l d' :
  line_insert d l = Ok d' →
  d' = set_invoice_lines (<[id_to_string (line_id l) := l]> (invoice_lines d)) d ∧
  invoice_lines d !! id_to_string (line_id l) = None ∧
  ∃ i, invoice_get (line_invoice_id l) d = Some i.
Proof.
  unfold line_insert, line_save_in_tx. destruct (invoice_lines d !! _) eqn:E; [done|].
  destruct (line_clash _ _); [done|]. destruct (invoice_get _ _) eqn:Ei; [|done].
  intros [= <-]. eauto.
Qed.

(** Lines: every row of the table belongs to an existing invoice. *)
Definition lines_ok d : Prop :=
  ∀ k l, invoice_lines d !! k = Some l →
    k = id_to_string (line_id l) ∧ ∃ i, invoices d !! id_to_string (line_invoice_id l) = Some i.

Lemma line_inserts_keep ls d d' :
  res_foldM line_insert d ls = Ok d' → ∃ t, d' = set_invoice_lines t d.
Proof.
  revert d. induction ls as [|l ls IH]; intros d H; cbn in H.
  - inv_res. exists (invoice_lines d'). by destruct d'.
  - inv_res. apply line_insert_ok in H as (-> & _). destruct (IH _ H0) as [t ->]. by exists t.
Qed.
Lemma line_inserts_ok ls d d' :
  res_foldM line_insert d ls = Ok d' → lines_ok d →
  lines_ok d' ∧ ∃ t, d' = set_invoice_lines t d.
Proof.
  revert d. induction ls as [|l ls IH]; intros d H Hd; cbn in H.
  - inv_res. split; [done|]. exists (invoice_lines d'). by destruct d'.
  - inv_res. apply line_insert_ok in H as (-> & _ & i & Hi).
    destruct (IH _ H0) as (? & t & ->).
    + intros k l'. cbn. rw lookup_insert_Some. intros [[<- <-]|[? ?]]; [eauto|by apply Hd].
    + split; [done|]. by exists t.
Qed.

Lemma replace_for_invoice_in_tx_ok i ls d d' :
  replace_for_invoice_in_tx i ls d = Ok d' → lines_ok d →
  lines_ok d' ∧ ∃ t, d' = set_invoice_lines t d.
Proof.
  unfold replace_for_invoice_in_tx. intros H Hd. eapply line_inserts_ok in H.
  - destruct H as (? & t & ->). eauto.
  - intros k l. cbn. rw map_lookup_filter_Some. intros [? _]. by apply Hd.
Qed.
End repo.

(** ** The transactions of the commands *)

Section transactions.
Context `{P : Platform}.
Implicit Types d : Db.

(** An invoice row written together with its history row. *)
Definition written (i : Invoice) (h : InvoiceStateHistory) d : Db :=
  let k := id_to_string (inv_id i) in
  set_history (invoice_state_history d ++ [h])
    (set_invoices (<[k := invoice_upserted (invoices d !! k) i]> (invoices d)) d).

(** The history row that may accompany writing [i] over [old]. *)
Record row_fits (old : option Invoice) (i : Invoice) (h : InvoiceStateHistory) : Prop := {
  rf_invoice : h_invoice_id h = inv_id i;
  rf_from : h_from_state h = inv_state <$> old;
  rf_to : h_to_state h = inv_state i;
  rf_legal : row_legal (h_from_state h) (h_to_state h) (h_event h);
}.

Lemma written_ok i h d :
  let k := id_to_string (inv_id i) in
  db_ok d → row_fits (invoices d !! k) i h → invoice_consistent i →
  (∃ c, customer_get (inv_customer_id i) d = Some c) →
  (∀ k' j, k' ≠ k → invoices d !! k' = Some j → opt_clash (inv_number i) (inv_number j) = false) →
  (∀ k' j, k' ≠ k → invoices d !! k' = Some j →
     opt_clash (inv_idempotency_key i) (inv_idempotency_key j) = false) →
  id_to_string (h_id h) ∉ ((id_to_string ∘ h_id) <$> invoice_state_history d) →
  db_ok (written i h d).
Proof.
  intros k Hd [Hi Hf Ht Hl] Hc Hcust Hnum Hkey Hid.
  set (i' := invoice_upserted (invoices d !! k) i).
  destruct (invoice_upserted_eq (invoices d !! k) i) as (Eid & Enum & Ekey & Ecust & Est).
  fold i' in Eid, Enum, Ekey, Ecust, Est.
  assert (∀ k0, (∃ j, invoices d !! k0 = Some j) → ∃ j, invoices (written i h d) !! k0 = Some j) as Hmono.
  { intros k0 [j Hj]. cbn. fold k i'. destruct (decide (k = k0)) as [<-|Hne].
    - exists i'. by rw lookup_insert_eq.
    - exists j. by rw lookup_insert_ne. }
  assert (invoices (written i h d) !! k = Some i') as Hself by (cbn; by rw lookup_insert_eq).
  split; cbn; fold k; fold i'; try apply Hd.
  - intros k0 j. rw lookup_insert_Some. intros [[<- <-]|[_ H]]; [by rw Eid|].
    by eapply ok_invoice_key.
  - apply unique_by_insert; [apply Hd|]. intros k' a Hne Ha. rw Enum. by eapply Hnum.
  - apply unique_by_insert; [apply Hd|]. intros k' a Hne Ha. rw Ekey. by eapply Hkey.
  - intros k0 j. rw lookup_insert_Some. intros [[<- <-]|[_ H]]; [by rw Ecust|].
    exact (ok_invoice_customer d Hd k0 j H).
  - intros k0 j. rw lookup_insert_Some. intros [[<- <-]|[_ H]].
    + by apply invoice_upserted_consistent.
    + by eapply ok_consistent.
  - intros k0 j Hj. rw rows_of_snoc Hi.
    destruct (String.eqb_spec (id_to_string (inv_id i)) k0) as [<-|Hne].
    + rw lookup_insert_eq in Hj. injection Hj as <-. rw Est -Ht.
      destruct (invoices d !! k) as [o|] eqn:Eo; cbn in Hf.
      * eapply audit_snoc; [by eapply ok_audit|done|done].
      * rw rows_of_orphan; [apply Hd|done|]. cbn. rw -Hf. by constructor; [|constructor].
    + rw lookup_insert_ne // in Hj. by eapply ok_audit.
  - intros h' Hh'. apply in_app_or in Hh'. destruct Hh' as [Hh'|[<-|[]]].
    + apply Hmono. by eapply ok_no_orphan.
    + rw Hi. by exists i'.
  - rw fmap_app. apply NoDup_app. split; [apply Hd|]. split; [|apply NoDup_singleton].
    intros x Hx Hx'. cbn in Hx'. apply list_elem_of_singleton in Hx' as ->. by apply Hid.
  - intros k0 l Hl0. destruct (ok_line d Hd k0 l Hl0) as [? ?]. split; [done|by apply Hmono].
  - intros k0 n Hn. apply Hmono. by eapply ok_cn_invoice.
  - intros k0 r Hr. destruct (ok_send d Hd k0 r Hr). eauto.
  - intros k0 r Hr. destruct (ok_reminder d Hd k0 r Hr). eauto.
Qed.

Lemma save_transition_written i h d d' : save_transition i h d = Ok d' → d' = written i h d.
Proof.
  unfold save_transition. intros H. inv_res. apply invoice_save_in_tx_ok in H as (-> & _).
  by apply history_save_in_tx_ok in H0 as (-> & _).
Qed.

Lemma save_transition_ok i h d d' :
  save_transition i h d = Ok d' → db_ok d →
  row_fits (invoices d !! id_to_string (inv_id i)) i h → invoice_consistent i →
  db_ok d' ∧ d' = written i h d.
Proof.
  intros H Hd Hrow Hc. unfold save_transition in H. inv_res.
  apply invoice_save_in_tx_ok in H as (-> & Hcust & Hnum & Hkey).
  apply history_save_in_tx_ok in H0 as (-> & Hid & _). cbn in *.
  split; [|done]. by apply written_ok.
Qed.

Lemma db_ok_set_lines t d : db_ok d → lines_ok (set_invoice_lines t d) → db_ok (set_invoice_lines t d).
Proof. intros [] H. split; cbn; eauto. Qed.

Lemma lines_ok_of d : db_ok d → lines_ok d.
Proof. intros H k l. apply (ok_line d H). Qed.

(** What the three-table transaction wrote: the lines given replace the
    invoice's. *)
Lemma save_all_written i ls h d d' :
  save_all i ls h d = Ok d' →
  ∃ t, d' = set_invoice_lines t (written i h d) ∧
       res_foldM line_insert (set_invoice_lines (filter (λ kv,
         id_to_string (line_invoice_id kv.2) ≠ id_to_string (inv_id i)) (invoice_lines d))
         (set_invoices (<[id_to_string (inv_id i) :=
            invoice_upserted (invoices d !! id_to_string (inv_id i)) i]> (invoices d)) d)) ls =
       Ok (set_invoice_lines t (set_invoices (<[id_to_string (inv_id i) :=
            invoice_upserted (invoices d !! id_to_string (inv_id i)) i]> (invoices d)) d)).
Proof.
  unfold save_all. intros H. inv_res. apply invoice_save_in_tx_ok in H as (-> & _).
  match goal with H : replace_for_invoice_in_tx _ _ _ = Ok ?x |- _ =>
    destruct (line_inserts_keep _ _ _ H) as [t E]; rewrite -> E in *; exists t end.
  match goal with H : history_save_in_tx _ _ = _ |- _ =>
    apply history_save_in_tx_ok in H as (-> & _) end.
  split; [done|].
  match goal with H : replace_for_invoice_in_tx _ _ _ = _ |- _ => exact H end.
Qed.

Lemma save_all_ok i ls h d d' :
  save_all i ls h d = Ok d' → db_ok d →
  row_fits (invoices d !! id_to_string (inv_id i)) i h → invoice_consistent i →
  db_ok d' ∧ ∃ t, d' = set_invoice_lines t (written i h d).
Proof.
  intros H Hd Hrow Hc. unfold save_all in H. inv_res.
  apply invoice_save_in_tx_ok in H as (-> & Hcust & Hnum & Hkey).
  match goal with H : replace_for_invoice_in_tx _ _ _ = _ |- _ =>
    apply replace_for_invoice_in_tx_ok in H end.
  2: { intros k l Hl. cbn in Hl. destruct (ok_line d Hd k l Hl) as (? & j & Hj). split; [done|].
       cbn. destruct (decide (id_to_string (inv_id i) = id_to_string (line_invoice_id l))) as [<-|].
       - eexists. by rw lookup_insert_eq.
       - exists j. by rw lookup_insert_ne. }
  match goal with H : lines_ok _ ∧ _ |- _ => destruct H as (Hls & t & ->) end.
  match goal with H : history_save_in_tx _ _ = _ |- _ =>
    apply history_save_in_tx_ok in H as (-> & Hid & _) end. cbn in Hid.
  assert (db_ok (written i h d)) as Hw by (by apply written_ok).
  split; [|by exists t]. apply (db_ok_set_lines t (written i h d)); [done|]. exact Hls.
Qed.

(** A credit note written together with its history row. *)
Definition cn_written (n : CreditNote) (h : CreditNoteStateHistory) d : Db :=
  let k := id_to_string (cn_id n) in
  set_cn_history (credit_note_state_history d ++ [h])
    (set_credit_notes (<[k := cn_upserted (credit_notes d !! k) n]> (credit_notes d)) d).

Record cn_row_fits (old : option CreditNote) (n : CreditNote) (h : CreditNoteStateHistory) : Prop := {
  crf_note : cnh_credit_note_id h = cn_id n;
  crf_from : cnh_from_state h = cn_state <$> old;
  crf_to : cnh_to_state h = cn_state n;
  crf_legal : cn_row_legal (cnh_from_state h) (cnh_to_state h) (cnh_event h);
}.

Lemma cn_upserted_eq old n :
  cn_id (cn_upserted old n) = cn_id n ∧ cn_number (cn_upserted old n) = cn_number n ∧
  cn_invoice_id (cn_upserted old n) = cn_invoice_id n ∧ cn_state (cn_upserted old n) = cn_state n.
Proof. by destruct old. Qed.
Lemma cn_upserted_consistent old n :
  credit_note_consistent n → credit_note_consistent (cn_upserted old n).
Proof. by destruct old; [intros []; split|]. Qed.

Lemma cn_save_in_tx_ok n d d' :
  cn_save_in_tx n d = Ok d' →
  let k := id_to_string (cn_id n) in
  d' = set_credit_notes (<[k := cn_upserted (credit_notes d !! k) n]> (credit_notes d)) d ∧
  (∃ i, invoice_get (cn_invoice_id n) d = Some i) ∧
  (∀ k' m, k' ≠ k → credit_notes d !! k' = Some m → opt_clash (cn_number n) (cn_number m) = false).
Proof.
  unfold cn_save_in_tx, cn_clash. cbn zeta. destruct (existsb _ _) eqn:E1; [done|].
  destruct (invoice_get _ _) eqn:Ei; [|done]. intros [= <-].
  split; [done|]. split; [by eauto|]. intros k' m Hne Hm.
  exact (existsb_others_false (λ m, opt_clash (cn_number n) (cn_number m)) _ _ E1 k' m Hne Hm).
Qed.
Lemma cn_history_save_in_tx_ok h d d' :
  cn_history_save_in_tx h d = Ok d' →
  d' = set_cn_history (credit_note_state_history d ++ [h]) d ∧
  id_to_string (cnh_id h) ∉ ((id_to_string ∘ cnh_id) <$> credit_note_state_history d).
Proof.
  unfold cn_history_save_in_tx. destruct (existsb _ _) eqn:E; [done|].
  destruct (cn_get _ _) eqn:Ei; [|done]. intros [= <-]. split; [done|].
  exact (existsb_id_false (λ h', id_to_string (cnh_id h')) _ _ E).
Qed.

Lemma save_cn_transition_ok n h d d' :
  save_cn_transition n h d = Ok d' → db_ok d →
  cn_row_fits (credit_notes d !! id_to_string (cn_id n)) n h → credit_note_consistent n →
  db_ok d' ∧ d' = cn_written n h d.
Proof.
  intros H Hd [Hi Hf Ht Hl] Hc. unfold save_cn_transition in H. inv_res.
  apply cn_save_in_tx_ok in H as (-> & Hinv & Hnum).
  apply cn_history_save_in_tx_ok in H0 as (-> & Hid). cbn in Hid. split; [|done].
  set (k := id_to_string (cn_id n)) in *. set (n' := cn_upserted (credit_notes d !! k) n).
  destruct (cn_upserted_eq (credit_notes d !! k) n) as (Eid & Enum & Einv & Est).
  fold n' in Eid, Enum, Einv, Est.
  split; cbn; fold k; fold n'; try by apply Hd.
  - intros k0 m. rw lookup_insert_Some. intros [[<- <-]|[_ H]]; [by rw Eid|].
    by eapply ok_cn_key.
  - apply unique_by_insert; [apply Hd|]. intros k' a Hne Ha. rw Enum. by eapply Hnum.
  - intros k0 m. rw lookup_insert_Some. intros [[<- <-]|[_ H]]; [by rw Einv|].
    by eapply ok_cn_invoice.
  - intros k0 m. rw lookup_insert_Some. intros [[<- <-]|[_ H]].
    + by apply cn_upserted_consistent.
    + by eapply ok_cn_consistent.
  - intros k0 m Hm. rw cn_rows_of_snoc Hi. fold k.
    destruct (String.eqb_spec k k0) as [<-|Hne].
    + rw lookup_insert_eq in Hm. injection Hm as <-. rw Est -Ht.
      destruct (credit_notes d !! k) as [o|] eqn:Eo; cbn in Hf.
      * eapply cn_audit_snoc; [by eapply ok_cn_audit|done|done].
      * rw cn_rows_of_orphan; [apply Hd|done|]. cbn. rw -Hf. by constructor; [|constructor].
    + rw lookup_insert_ne // in Hm. by eapply ok_cn_audit.
  - intros h' Hh'. apply in_app_or in Hh'. destruct Hh' as [Hh'|[<-|[]]].
    + destruct (ok_cn_no_orphan d Hd h' Hh') as [m Hm].
      destruct (decide (k = id_to_string (cnh_credit_note_id h'))) as [<-|Hne].
      * exists n'. by rw lookup_insert_eq.
      * exists m. by rw lookup_insert_ne.
    + rw Hi. exists n'. by rw lookup_insert_eq.
  - rw fmap_app. apply NoDup_app. split; [apply Hd|]. split; [|apply NoDup_singleton].
    intros x Hx Hx'. cbn in Hx'. apply list_elem_of_singleton in Hx' as ->. by apply Hid.
Qed.

(** The other single-row writes. *)
Lemma send_idempotency_insert_written r d d' :
  send_idempotency_insert_in_tx r d = Ok d' →
  let k := (id_to_string (si_invoice_id r), si_idempotency_key r) in
  send_idempotency d !! k = None ∧ d' = set_send_idempotency (<[k := r]> (send_idempotency d)) d.
Proof.
  unfold send_idempotency_insert_in_tx. cbn zeta. destruct (send_idempotency d !! _); [done|].
  destruct (invoice_get _ _); [|done]. by intros [= <-].
Qed.
Lemma send_idempotency_insert_ok r d d' :
  send_idempotency_insert_in_tx r d = Ok d' → db_ok d → db_ok d'.
Proof.
  unfold send_idempotency_insert_in_tx. destruct (send_idempotency d !! _); [done|].
  destruct (invoice_get _ _) as [i|] eqn:Ei; [|done]. intros [= <-] Hd.
  destruct Hd. split; cbn; eauto.
  intros k r'. rw lookup_insert_Some. intros [[<- <-]|[_ H]]; [split; [done|by exists i]|eauto].
Qed.
Lemma customer_save_ok c d d' : customer_save c d = Ok d' → db_ok d → db_ok d'.
Proof.
  unfold customer_save. intros [= <-] Hd.
  assert (∀ k, (∃ c, customer_get k d = Some c) → ∃ c',
    customer_get k (set_customers (<[id_to_string (cust_id c) :=
      match customers d !! id_to_string (cust_id c) with
      | Some old => MkCustomer (cust_id c) (cust_display_name c) (cust_email c)
                      (cust_address c) (cust_metadata c) (cust_created_at old) (cust_updated_at c)
      | None => c end]> (customers d)) d) = Some c') as Hc.
  { intros k [c0 Hc0]. unfold customer_get in *. cbn.
    destruct (decide (id_to_string (cust_id c) = id_to_string k)) as [->|Hne].
    - rw lookup_insert_eq. eauto.
    - rw lookup_insert_ne //. eauto. }
  destruct Hd. split; cbn; eauto.
  intros k s Hs. destruct (ok_schedule0 k s Hs). eauto.
Qed.
Lemma reminder_save_ok r d d' : reminder_save r d = Ok d' → db_ok d → db_ok d'.
Proof.
  unfold reminder_save. destruct (invoice_get _ _) as [i|] eqn:Ei; [|done]. intros [= <-] Hd.
  destruct Hd. split; cbn; eauto.
  intros k r'. rw lookup_insert_Some. intros [[<- <-]|[_ H]]; [split; [done|by exists i]|eauto].
Qed.
Lemma schedule_save_ok s d d' : schedule_save s d = Ok d' → db_ok d → db_ok d'.
Proof.
  unfold schedule_save. destruct (customer_get _ _) as [c|] eqn:Ec; [|done]. intros [= <-] Hd.
  destruct Hd. split; cbn; eauto.
  intros k s'. rw lookup_insert_Some. intros [[<- <-]|[_ H]]; [|eauto].
  destruct (schedules d !! _); (split; [done|by exists c]).
Qed.
End transactions.
