(* ===== verification/Evolution.v ===== *)
(** * What the commands never undo

    [evolves d d'] relates two states of the database: invoices only move along
    the lifecycle and keep their identity; once issued, an invoice keeps its
    number, date, amounts and lines; credit notes keep their amount; the history
    tables only grow at the end, and of a written row only [published_at]
    changes; recorded sends and received events stay.  It is a preorder, and
    every transaction of the commands is a step of it. *)

From S2P Require Import Prelude External Money Ids Domain InvoiceFsm CreditNoteFsm Events Store.
From S2P Require Import Command Transition Invariant.

Section evolution.
Context `{P : Platform}.
Implicit Types (d : Db) (s : InvoiceState).

(** One step of the lifecycle. *)
Definition advances s s' : Prop := ∃ e, Step s e s'.

Record invoice_evolves (i i' : Invoice) : Prop := {
  ie_state : rtc advances (inv_state i) (inv_state i');
  ie_identity : inv_id i' = inv_id i ∧ inv_customer_id i' = inv_customer_id i ∧
    inv_seller_jurisdiction i' = inv_seller_jurisdiction i ∧ inv_currency i' = inv_currency i ∧
    inv_schedule_id i' = inv_schedule_id i ∧
    inv_idempotency_key i' = inv_idempotency_key i ∧ inv_created_at i' = inv_created_at i;
  ie_issued : inv_state i ≠ Draft →
    inv_number i' = inv_number i ∧ inv_issued_at i' = inv_issued_at i ∧
    inv_subtotal i' = inv_subtotal i ∧ inv_tax_total i' = inv_tax_total i ∧
    inv_total i' = inv_total i;
}.

Record credit_note_evolves (n n' : CreditNote) : Prop := {
  ce_state : cn_state n = CnDraft ∨ cn_state n' = CnIssued;
  ce_identity : cn_id n' = cn_id n ∧ cn_invoice_id n' = cn_invoice_id n ∧
    cn_amount n' = cn_amount n ∧ cn_currency n' = cn_currency n;
  ce_issued : cn_state n = CnIssued → cn_number n' = cn_number n ∧ cn_issued_at n' = cn_issued_at n;
}.

(** A table that only grows at its end, its rows changing within [R]. *)
Definition grows {A} (R : relation A) (l l' : list A) : Prop :=
  ∃ kept more, l' = kept ++ more ∧ Forall2 R l kept.
Definition row_kept (h h' : InvoiceStateHistory) : Prop :=
  h' = h ∨ ∃ t, h' = set_h_published_at (Some t) h.
Definition cn_row_kept (h h' : CreditNoteStateHistory) : Prop :=
  h' = h ∨ ∃ t, h' = set_cnh_published_at (Some t) h.

Record evolves d d' : Prop := {
  ev_invoice k i : invoices d !! k = Some i → ∃ i', invoices d' !! k = Some i' ∧ invoice_evolves i i';
  ev_line k l i : invoices d !! id_to_string (line_invoice_id l) = Some i → inv_state i ≠ Draft →
    invoice_lines d' !! k = Some l ↔ invoice_lines d !! k = Some l;
  ev_history : grows row_kept (invoice_state_history d) (invoice_state_history d');
  ev_credit_note k n : credit_notes d !! k = Some n →
    ∃ n', credit_notes d' !! k = Some n' ∧ credit_note_evolves n n';
  ev_cn_history :
    grows cn_row_kept (credit_note_state_history d) (credit_note_state_history d');
  ev_send k r : send_idempotency d !! k = Some r → send_idempotency d' !! k = Some r;
  ev_inbox : dom (bus_inbox d) ⊆ dom (bus_inbox d');
}.

#[export] Instance row_kept_preorder : PreOrder row_kept.
Proof.
  split; [by left|]. intros h1 h2 h3 [->|[t ->]] [->|[t' ->]]; [by left|right..]; eauto.
Qed.
#[export] Instance cn_row_kept_preorder : PreOrder cn_row_kept.
Proof.
  split; [by left|]. intros h1 h2 h3 [->|[t ->]] [->|[t' ->]]; [by left|right..]; eauto.
Qed.
Lemma grows_snoc {A} (R : relation A) `{!Reflexive R} l more : grows R l (l ++ more).
Proof. by exists l, more. Qed.
#[export] Instance grows_preorder {A} (R : relation A) `{!PreOrder R} : PreOrder (grows R).
Proof.
  split.
  - intros l. rw -{2}(app_nil_r l). apply grows_snoc, _.
  - intros l1 l2 l3 (k1 & m1 & -> & H1) (k2 & m2 & -> & H2).
    apply Forall2_app_inv_l in H2 as (k3 & m3 & H3 & _ & ->). exists k3, (m3 ++ m2).
    split; [by rw app_assoc|]. by etrans.
Qed.

Lemma advances_leaves_draft s s' : rtc advances s s' → s ≠ Draft → s' ≠ Draft.
Proof. intros H Hs. induction H as [|s t s' [e He] _ IH]; [done|]. apply IH. by destruct He. Qed.

#[export] Instance invoice_evolves_preorder : PreOrder invoice_evolves.
Proof.
  split.
  - intros i. split; auto using rtc_refl. by repeat split.
  - intros i1 i2 i3 [S1 N1 F1] [S2 N2 F2]. split; [by etrans| |].
    + destruct_and?. repeat split; congruence.
    + intros Hs. destruct (F1 Hs) as (?&?&?&?&?).
      destruct (F2 (advances_leaves_draft _ _ S1 Hs)) as (?&?&?&?&?). repeat split; congruence.
Qed.
#[export] Instance credit_note_evolves_preorder : PreOrder credit_note_evolves.
Proof.
  split.
  - intros n. split; [destruct (cn_state n); auto|by repeat split|done].
  - intros n1 n2 n3 [S1 N1 F1] [S2 N2 F2]. split; [|destruct_and?; repeat split; congruence|].
    + destruct S1 as [|E]; [by left|]. rewrite -> E in S2. destruct S2; [done|by right].
    + intros Hs. destruct S1 as [?|E]; [congruence|]. destruct (F1 Hs), (F2 E). split; congruence.
Qed.
#[export] Instance evolves_preorder : PreOrder evolves.
Proof.
  split.
  - intros d. split; try done; [intros k i Hi; by exists i|intros k n Hn; by exists n].
  - intros d1 d2 d3 [] []. split; [| |by etrans| |by etrans|by eauto|by etrans].
    + intros k i Hi. destruct (ev_invoice0 _ _ Hi) as (i2 & Hi2 & ?).
      destruct (ev_invoice1 _ _ Hi2) as (i3 & ? & ?). exists i3. split; [done|by etrans].
    + intros k l i Hi Hs. destruct (ev_invoice0 _ _ Hi) as (i2 & Hi2 & [Hst _ _]).
      etrans; [|by eapply ev_line0]. eapply ev_line1; [done|by eapply advances_leaves_draft].
    + intros k n Hn. destruct (ev_credit_note0 _ _ Hn) as (n2 & Hn2 & ?).
      destruct (ev_credit_note1 _ _ Hn2) as (n3 & ? & ?). exists n3. split; [done|by etrans].
Qed.

(** A transaction on other tables. *)
Lemma evolves_same d d' :
  invoices d' = invoices d → invoice_lines d' = invoice_lines d →
  invoice_state_history d' = invoice_state_history d → credit_notes d' = credit_notes d →
  credit_note_state_history d' = credit_note_state_history d →
  send_idempotency d' = send_idempotency d → dom (bus_inbox d) ⊆ dom (bus_inbox d') → evolves d d'.
Proof.
  intros E1 E2 E3 E4 E5 E6 E7. split; rw ?E1 ?E2 ?E3 ?E4 ?E5 ?E6; try done.
  - intros k i Hi. by exists i.
  - intros k n Hn. by exists n.
Qed.

(** What a transition keeps of the stored [i0]. *)
Record keeps (i0 i : Invoice) : Prop := {
  kp_identity : inv_customer_id i = inv_customer_id i0 ∧
    inv_seller_jurisdiction i = inv_seller_jurisdiction i0 ∧ inv_currency i = inv_currency i0 ∧
    inv_schedule_id i = inv_schedule_id i0 ∧ inv_idempotency_key i = inv_idempotency_key i0;
  kp_issued : inv_state i0 ≠ Draft →
    inv_number i = inv_number i0 ∧ inv_issued_at i = inv_issued_at i0 ∧
    inv_subtotal i = inv_subtotal i0 ∧ inv_tax_total i = inv_tax_total i0 ∧
    inv_total i = inv_total i0;
}.

Lemma row_legal_advances s s' ev : row_legal (Some s) s' ev → rtc advances s s'.
Proof.
  intros H. inversion H; subst; [|apply rtc_refl]. apply rtc_once. by eexists.
Qed.

Lemma evolves_written i0 i h d :
  invoices d !! id_to_string (inv_id i) = Some i0 → inv_id i = inv_id i0 → keeps i0 i →
  row_legal (Some (inv_state i0)) (inv_state i) (h_event h) → evolves d (written i h d).
Proof.
  intros H0 Eid [Hid Hiss] Hl. split; cbn; try done; try (apply grows_snoc, _).
  - intros k j Hj. destruct (decide (id_to_string (inv_id i) = k)) as [<-|Hne].
    + assert (j = i0) as -> by congruence. rw lookup_insert_eq H0. eexists. split; [done|].
      destruct_and?. split; cbn; [by eapply row_legal_advances|by repeat split|exact Hiss].
    + exists j. rewrite -> lookup_insert_ne by done. by split.
  - intros k n Hn. by exists n.
Qed.
Lemma evolves_written_new i h d :
  invoices d !! id_to_string (inv_id i) = None → evolves d (written i h d).
Proof.
  intros H0. split; cbn; try done; try (apply grows_snoc, _).
  - intros k j Hj. exists j. rewrite -> lookup_insert_ne by congruence. by split.
  - intros k n Hn. by exists n.
Qed.

(** Replacing the lines of an invoice leaves those of the others. *)
Lemma line_inserts_others iid ls d d' :
  res_foldM line_insert d ls = Ok d' → Forall (λ l, line_invoice_id l = iid) ls →
  ∀ k l, line_invoice_id l ≠ iid → invoice_lines d' !! k = Some l ↔ invoice_lines d !! k = Some l.
Proof.
  revert d. induction ls as [|x ls IH]; intros d H Hall k l Hl; cbn in H; inv_res; [done|].
  apply Forall_cons in Hall as [Hx Hall]. apply line_insert_ok in H as (-> & Hnone & _).
  rewrite -> (IH _ H0 Hall k l Hl). cbn. rw lookup_insert_Some. split; [|intros Hk].
  - intros [[_ ->]|[_ ?]]; [congruence|done].
  - destruct (decide (id_to_string (line_id x) = k)) as [<-|]; [congruence|by right].
Qed.
Lemma save_all_evolves i ls h d d' :
  save_all i ls h d = Ok d' → evolves d (written i h d) →
  Forall (λ l, line_invoice_id l = inv_id i) ls →
  (∀ i0, invoices d !! id_to_string (inv_id i) = Some i0 → inv_state i0 = Draft) → evolves d d'.
Proof.
  intros (t & -> & Hfold)%save_all_written [] Hls Hdraft. split; try done.
  cbn. intros k l j Hj Hs.
  assert (id_to_string (line_invoice_id l) ≠ id_to_string (inv_id i)) as Hne.
  { intros E. rewrite -> E in Hj. by apply Hdraft in Hj. }
  etrans; [eapply (line_inserts_others (inv_id i) ls _ _ Hfold Hls); congruence|].
  cbn. rw map_lookup_filter_Some. cbn. tauto.
Qed.

Lemma evolves_cn_written n h d :
  (∀ n0, credit_notes d !! id_to_string (cn_id n) = Some n0 → credit_note_evolves n0 n) →
  evolves d (cn_written n h d).
Proof.
  intros H0. split; cbn; try done; try (apply grows_snoc, _).
  - intros k i Hi. by exists i.
  - intros k m Hm. destruct (decide (id_to_string (cn_id n) = k)) as [<-|Hne].
    + rw lookup_insert_eq Hm. eexists. split; [done|]. by destruct (H0 _ Hm).
    + exists m. by rewrite -> lookup_insert_ne.
Qed.
Lemma evolves_send k r d :
  send_idempotency d !! k = None →
  evolves d (set_send_idempotency (<[k := r]> (send_idempotency d)) d).
Proof.
  intros Hk. split; cbn; try done; try (apply grows_snoc, _).
  - intros k' i Hi. by exists i.
  - intros k' n Hn. by exists n.
  - intros k' r' Hr. rewrite -> lookup_insert_ne by congruence. done.
Qed.
End evolution.
