(* ===== verification/Written.v ===== *)
(** * What a transaction wrote, table by table

    The outcome of a command is stated in these terms, and not by the repository
    operations it calls: which row the table of invoices gained, which lines
    the invoice has now, which history row was appended, and that every other
    table is as it was. *)

From S2P Require Import Prelude External Money Ids Domain Store Transition Invariant.

Section written.
Context `{P : Platform}.
Implicit Types d : Db.

(** The stored lines of an invoice, in the order of their positions. *)
Definition lines_of (iid : InvoiceId) d (ls : list InvoiceLine) : Prop :=
  ls ≡ₚ filter (λ l, id_to_string (line_invoice_id l) = id_to_string iid) (map_to_list (invoice_lines d)).*2 ∧
  Sorted Z.le (line_position <$> ls).

(** Afterwards the invoice has exactly these lines, each under its own id, and
    the lines of the other invoices are the ones they had. *)
Definition lines_become (iid : InvoiceId) (ls : list InvoiceLine) (t t' : gmap string InvoiceLine) : Prop :=
  ∀ k l, t' !! k = Some l ↔
    (l ∈ ls ∧ k = id_to_string (line_id l)) ∨
    (t !! k = Some l ∧ id_to_string (line_invoice_id l) ≠ id_to_string iid).

(** The row an invoice is stored as: a row that was there keeps its date of
    creation. *)
Definition stored_invoice (old : option Invoice) (i : Invoice) : Invoice :=
  {| inv_id := inv_id i; inv_number := inv_number i; inv_customer_id := inv_customer_id i;
     inv_seller_jurisdiction := inv_seller_jurisdiction i; inv_currency := inv_currency i;
     inv_state := inv_state i; inv_issued_at := inv_issued_at i; inv_due_at := inv_due_at i;
     inv_sent_at := inv_sent_at i; inv_viewed_at := inv_viewed_at i; inv_paid_at := inv_paid_at i;
     inv_voided_at := inv_voided_at i; inv_subtotal := inv_subtotal i;
     inv_tax_total := inv_tax_total i; inv_total := inv_total i;
     inv_amount_paid := inv_amount_paid i; inv_schedule_id := inv_schedule_id i;
     inv_template_path := inv_template_path i; inv_pdf_blob_ref := inv_pdf_blob_ref i;
     inv_idempotency_key := inv_idempotency_key i; inv_nexus_review := inv_nexus_review i;
     inv_metadata := inv_metadata i; inv_created_at := from_option inv_created_at (inv_created_at i) old;
     inv_updated_at := inv_updated_at i |}.

(** One invoice row and one history row were written; the tables of customers,
    reminders, schedules, credit notes and received events are as before. *)
Record wrote (i : Invoice) (h : InvoiceStateHistory) d d' : Prop := {
  wr_invoice : let k := id_to_string (inv_id i) in
    invoices d' = <[k := stored_invoice (invoices d !! k) i]> (invoices d);
  wr_history : invoice_state_history d' = invoice_state_history d ++ [h];
  wr_others : customers d' = customers d ∧ reminders d' = reminders d ∧ schedules d' = schedules d ∧
    credit_notes d' = credit_notes d ∧ credit_note_state_history d' = credit_note_state_history d ∧
    bus_inbox d' = bus_inbox d;
}.

Lemma invoice_upserted_stored old i : invoice_upserted old i = stored_invoice old i.
Proof. by destruct old, i. Qed.

Lemma written_wrote i h d : wrote i h d (written i h d).
Proof. split; cbn; [by rw invoice_upserted_stored|done|by repeat split]. Qed.
Lemma wrote_set_lines i h d d' t : wrote i h d d' → wrote i h d (set_invoice_lines t d').
Proof. by intros [? ? ?]; split. Qed.
Lemma wrote_set_sends i h d d' t : wrote i h d d' → wrote i h d (set_send_idempotency t d').
Proof. by intros [? ? ?]; split. Qed.

Lemma line_inserts_table ls d d' :
  res_foldM line_insert d ls = Ok d' →
  ∀ k l, invoice_lines d' !! k = Some l ↔
    (l ∈ ls ∧ k = id_to_string (line_id l)) ∨ invoice_lines d !! k = Some l.
Proof.
  revert d. induction ls as [|x ls IH]; intros d H k l; cbn in H; inv_res.
  - rewrite -> elem_of_nil. tauto.
  - apply line_insert_ok in H as (-> & Hnone & _). rewrite -> (IH _ H0 k l), elem_of_cons. cbn.
    rewrite -> lookup_insert_Some. split; [naive_solver|].
    intros [[[->|?] ->]|Hk]; [by auto..|]. right. right. split; [|done]. congruence.
Qed.

(** The three-table transaction of [draft] and [issue]. *)
Lemma save_all_wrote i ls h d d' :
  save_all i ls h d = Ok d' →
  ∃ t, d' = set_invoice_lines t (written i h d) ∧ lines_become (inv_id i) ls (invoice_lines d) t.
Proof.
  intros (t & -> & Hf)%save_all_written. exists t. split; [done|]. intros k l.
  rewrite -> (line_inserts_table _ _ _ Hf k l). cbn. rewrite -> map_lookup_filter_Some. done.
Qed.

Context {L : PlatformLaws P}.
Lemma line_list_lines_of iid d : lines_of iid d (line_list_for_invoice iid d).
Proof.
  unfold lines_of, line_list_for_invoice. split; [by rewrite -> sql_order_int_perm|].
  pose proof (sql_order_int_sorted line_position (filter
    (λ l, id_to_string (line_invoice_id l) = id_to_string iid) (rows (invoice_lines d)))) as H.
  induction H as [|l ls _ IH Hhd]; cbn; constructor; [done|]. by inversion Hhd; constructor.
Qed.
End written.
