(* ===== verification/World.v ===== *)
(** * The invariant of the world

    [world_ok] is the database invariant together with the freshness of the ids
    drawn so far: every invoice and credit note was created under an id drawn by
    an earlier interaction, so the next draw is new.  The lemmas here carry it
    across the transactions the commands commit. *)

From S2P Require Import Prelude External Concrete Money Ids Domain InvoiceFsm CreditNoteFsm Events.
From S2P Require Import Store Command Transition Invariant Evolution.

Section world.
Context `{P : Platform}.
Implicit Types (d : Db) (w : World).

(** [x] is one of the first [n] ids drawn for its entity. *)
Definition drawn {e} (n : nat) (x : EntityId e) : Prop :=
  ∃ m, (m < n)%nat ∧ x = id_new e m.

(** Every invoice, credit note and history row carries one of the first [n]
    ids. *)
Record ids_below (n : nat) d : Prop := {
  ids_invoice k i : invoices d !! k = Some i → drawn n (inv_id i);
  ids_credit_note k c : credit_notes d !! k = Some c → drawn n (cn_id c);
  ids_history h : In h (invoice_state_history d) → drawn n (h_id h);
  ids_cn_history h : In h (credit_note_state_history d) → drawn n (cnh_id h);
}.

Record world_ok w : Prop := {
  wo_db : db_ok (w_db w);
  wo_ids : ids_below (w_step w) (w_db w);
}.

Lemma drawn_mono {e} n m (x : EntityId e) : (n ≤ m)%nat → drawn n x → drawn m x.
Proof. intros Hle (k & ? & ->). exists k. split; [lia|done]. Qed.
Lemma ids_below_mono n m d : (n ≤ m)%nat → ids_below n d → ids_below m d.
Proof. intros Hle []. split; eauto using drawn_mono. Qed.

Lemma world_ok_stable : stable world_ok.
Proof.
  intros w w' [E Hle] [Hd Hi]. split; rw E; [done|]. by eapply ids_below_mono.
Qed.

Lemma world_ok_exec w d :
  world_ok w → db_ok d → ids_below (S (w_step w)) d → world_ok (set_w_db d (tick w)).
Proof. by split. Qed.

Lemma ids_below_tick w : world_ok w → ids_below (S (w_step w)) (w_db w).
Proof. intros [_ Hi]. eapply ids_below_mono; [|done]. lia. Qed.

(** A transaction on other tables. *)
Lemma world_ok_same w d :
  world_ok w → db_ok d → invoices d = invoices (w_db w) → credit_notes d = credit_notes (w_db w) →
  invoice_state_history d = invoice_state_history (w_db w) →
  credit_note_state_history d = credit_note_state_history (w_db w) →
  world_ok (set_w_db d (tick w)).
Proof.
  intros Hw Hd E1 E2 E3 E4. apply world_ok_exec; [done..|].
  destruct (ids_below_tick w Hw). split; rw ?E1 ?E2 ?E3 ?E4; eauto.
Qed.

Lemma ids_below_written n i h d :
  ids_below n d → drawn n (inv_id i) → drawn n (h_id h) → ids_below n (written i h d).
Proof.
  intros [] Hi Hh. split; cbn; eauto.
  - intros k j. rw lookup_insert_Some. intros [[<- <-]|[_ ?]]; [|eauto].
    destruct (invoice_upserted_eq (invoices d !! id_to_string (inv_id i)) i) as (E & _).
    by rw E.
  - intros h' Hin. apply in_app_or in Hin as [?|[<-|[]]]; eauto.
Qed.
Lemma ids_below_cn_written n c h d :
  ids_below n d → drawn n (cn_id c) → drawn n (cnh_id h) → ids_below n (cn_written c h d).
Proof.
  intros [] Hi Hh. split; cbn; eauto.
  - intros k j. rw lookup_insert_Some. intros [[<- <-]|[_ ?]]; [|eauto].
    destruct (cn_upserted_eq (credit_notes d !! id_to_string (cn_id c)) c) as (E & _).
    by rw E.
  - intros h' Hin. apply in_app_or in Hin as [?|[<-|[]]]; eauto.
Qed.
Lemma ids_below_lines n t d : ids_below n d → ids_below n (set_invoice_lines t d).
Proof. by intros []; split. Qed.

(** [h] records the step from the stored [i0] to its replacement [i]. *)
Record transition_fits (i0 i : Invoice) (h : InvoiceStateHistory) : Prop := {
  tf_id : inv_id i = inv_id i0;
  tf_row_id : h_invoice_id h = inv_id i0;
  tf_from : h_from_state h = Some (inv_state i0);
  tf_to : h_to_state h = inv_state i;
  tf_legal : row_legal (Some (inv_state i0)) (inv_state i) (h_event h);
  tf_consistent : invoice_consistent i0 → invoice_consistent i;
  tf_keeps : keeps i0 i;
}.

Lemma transition_fits_row i0 i h d :
  db_ok d → invoice_get (inv_id i0) d = Some i0 → transition_fits i0 i h →
  row_fits (invoices d !! id_to_string (inv_id i)) i h ∧ invoice_consistent i.
Proof.
  intros Hd Hi [Eid Erid Ef Et Hl Hc _]. unfold invoice_get in Hi. split.
  - split; [congruence| |done|by rw Ef Et]. by rw Eid Hi Ef.
  - apply Hc. by eapply ok_consistent.
Qed.

Lemma invoice_get_id iid d i : db_ok d → invoice_get iid d = Some i →
  invoice_get (inv_id i) d = Some i.
Proof. intros Hd H. unfold invoice_get in *. by rw -(ok_invoice_key d Hd _ _ H). Qed.

Lemma invoice_get_drawn iid d n i : ids_below n d → invoice_get iid d = Some i → drawn n (inv_id i).
Proof. intros H Hi. by eapply ids_invoice. Qed.

Lemma world_ok_transition w i0 i h d :
  world_ok w → invoice_get (inv_id i0) (w_db w) = Some i0 → transition_fits i0 i h →
  drawn (S (w_step w)) (h_id h) →
  save_transition i h (w_db w) = Ok d → world_ok (set_w_db d (tick w)).
Proof.
  intros Hw Hi Hf Hh H. destruct (transition_fits_row i0 i h (w_db w)) as [Hrow Hc]; [apply Hw|done..|].
  apply save_transition_ok in H as [Hd ->]; [|by apply Hw|done..].
  apply world_ok_exec; [done..|]. apply ids_below_written; [by apply ids_below_tick| |done].
  rw (tf_id _ _ _ Hf). by eapply invoice_get_drawn; [apply ids_below_tick|].
Qed.

Lemma world_ok_transition_lines w i0 i ls h d :
  world_ok w → invoice_get (inv_id i0) (w_db w) = Some i0 → transition_fits i0 i h →
  drawn (S (w_step w)) (h_id h) →
  save_all i ls h (w_db w) = Ok d → world_ok (set_w_db d (tick w)).
Proof.
  intros Hw Hi Hf Hh H. destruct (transition_fits_row i0 i h (w_db w)) as [Hrow Hc]; [apply Hw|done..|].
  apply save_all_ok in H as (Hd & t & ->); [|by apply Hw|done..].
  apply world_ok_exec; [done..|]. apply ids_below_lines, ids_below_written; [by apply ids_below_tick| |done].
  rw (tf_id _ _ _ Hf). by eapply invoice_get_drawn; [apply ids_below_tick|].
Qed.

(** [h] is the first row of a new draft [i]. *)
Record draft_fits (i : Invoice) (h : InvoiceStateHistory) : Prop := {
  df_state : inv_state i = Draft;
  df_row_id : h_invoice_id h = inv_id i;
  df_from : h_from_state h = None;
  df_to : h_to_state h = Draft;
  df_event : h_event h = "draft";
  df_consistent : invoice_consistent i;
}.

Lemma world_ok_new_invoice w i ls h d :
  world_ok w → invoices (w_db w) !! id_to_string (inv_id i) = None → draft_fits i h →
  drawn (S (w_step w)) (inv_id i) → drawn (S (w_step w)) (h_id h) →
  save_all i ls h (w_db w) = Ok d → world_ok (set_w_db d (tick w)).
Proof.
  intros Hw Hnew [Es Ei Ef Et Ee Hc] Hi Hh H.
  assert (row_fits (invoices (w_db w) !! id_to_string (inv_id i)) i h) as Hrow.
  { rw Hnew. split; [done|by rw Ef|by rw Et Es|]. rw Ef Et Ee. constructor. }
  apply save_all_ok in H as (Hd & t & ->); [|by apply Hw|done..].
  apply world_ok_exec; [done..|]. apply ids_below_lines, ids_below_written; [|done..].
  by apply ids_below_tick.
Qed.

(** ** The invariant since a database

    [ok_since d0 w]: [w] is in order and its database evolved from [d0].  The
    commands are proved safe for this invariant; that they are safe for
    [world_ok] follows. *)
Record ok_since d0 w : Prop := {
  os_ok : world_ok w;
  os_evolves : evolves d0 (w_db w);
}.

Lemma ok_since_stable d0 : stable (ok_since d0).
Proof.
  intros w w' Hs [Hw He]. split; [by eapply world_ok_stable|]. by rw (sd_db _ _ Hs).
Qed.
Lemma ok_since_refl w : world_ok w → ok_since (w_db w) w.
Proof. by split. Qed.
Lemma wpc_weaken {A} (I I' : World → Prop) E (p : prog A) Q w :
  (∀ w, I w → I' w) → wpc I E p Q w → wpc I' E p Q w.
Proof.
  intros HI. revert w. induction p as [a|e| |X f k IH]; intros w; cbn; intros [? ?]; split; auto.
Qed.
Lemma since_safe {A} E (p : prog A) w :
  (∀ d0, ok_since d0 w → safe (ok_since d0) E p w) → world_ok w → safe world_ok E p w.
Proof.
  intros Hp Hw. eapply wpc_weaken; [|apply Hp, ok_since_refl, Hw]. by intros ? [].
Qed.

Lemma since_step d0 w d :
  ok_since d0 w → world_ok (set_w_db d (tick w)) → evolves (w_db w) d →
  ok_since d0 (set_w_db d (tick w)).
Proof. intros [_ H1] Hw H2. split; [done|]. cbn. by etrans. Qed.

Lemma since_transition d0 w i0 i h d :
  ok_since d0 w → invoice_get (inv_id i0) (w_db w) = Some i0 → transition_fits i0 i h →
  drawn (S (w_step w)) (h_id h) →
  save_transition i h (w_db w) = Ok d → ok_since d0 (set_w_db d (tick w)).
Proof.
  intros Hw Hi Hf Hh H. apply since_step; [done|by eapply world_ok_transition; [apply Hw|..]|].
  apply save_transition_written in H as ->. destruct Hf.
  eapply evolves_written; [by rw tf_id0|done..].
Qed.
Lemma since_transition_lines d0 w i0 i ls h d :
  ok_since d0 w → invoice_get (inv_id i0) (w_db w) = Some i0 → transition_fits i0 i h →
  drawn (S (w_step w)) (h_id h) → inv_state i0 = Draft →
  Forall (λ l, line_invoice_id l = inv_id i) ls →
  save_all i ls h (w_db w) = Ok d → ok_since d0 (set_w_db d (tick w)).
Proof.
  intros Hw Hi Hf Hh Hs Hls H.
  apply since_step; [done|by eapply world_ok_transition_lines; [apply Hw|..]|].
  destruct Hf. unfold invoice_get in Hi. eapply save_all_evolves; [exact H| |done|].
  - eapply evolves_written; [by rw tf_id0|done..].
  - rw tf_id0 Hi. by intros ? [= <-].
Qed.
Lemma since_new_invoice d0 w i ls h d :
  ok_since d0 w → invoices (w_db w) !! id_to_string (inv_id i) = None → draft_fits i h →
  drawn (S (w_step w)) (inv_id i) → drawn (S (w_step w)) (h_id h) →
  Forall (λ l, line_invoice_id l = inv_id i) ls →
  save_all i ls h (w_db w) = Ok d → ok_since d0 (set_w_db d (tick w)).
Proof.
  intros Hw Hnew Hf Hi Hh Hls H.
  apply since_step; [done|by eapply world_ok_new_invoice; [apply Hw|..]|].
  eapply save_all_evolves; [exact H|by apply evolves_written_new|done|by rw Hnew].
Qed.
Lemma since_same d0 w d :
  ok_since d0 w → world_ok (set_w_db d (tick w)) →
  invoices d = invoices (w_db w) → invoice_lines d = invoice_lines (w_db w) →
  invoice_state_history d = invoice_state_history (w_db w) →
  credit_notes d = credit_notes (w_db w) →
  credit_note_state_history d = credit_note_state_history (w_db w) →
  send_idempotency d = send_idempotency (w_db w) → dom (bus_inbox (w_db w)) ⊆ dom (bus_inbox d) →
  ok_since d0 (set_w_db d (tick w)).
Proof. intros. apply since_step; [done..|]. by apply evolves_same. Qed.

Context {L : PlatformLaws P}.

(** An id that is not among the first [n] names no row. *)
Lemma drawn_fresh e n : ¬ drawn n (id_new e n).
Proof. intros (m & Hlt & E%id_new_inj). lia. Qed.
Lemma fresh_key {A e} (t : gmap string A) (f : A → EntityId e) n m :
  (∀ k a, t !! k = Some a → k = id_to_string (f a) ∧ drawn n (f a)) → (n ≤ m)%nat →
  t !! id_to_string (id_new e m) = None.
Proof.
  intros Ht Hle. destruct (t !! _) as [a|] eqn:Ea; [|done].
  destruct (Ht _ a Ea) as [Ek Hd]. apply id_to_string_inj in Ek.
  exfalso. apply (drawn_fresh e m). rw Ek. by eapply drawn_mono.
Qed.
Lemma fresh_invoice_key n m d :
  db_ok d → ids_below n d → (n ≤ m)%nat → invoices d !! id_to_string (id_new EInvoice m) = None.
Proof.
  intros Hd Hi. apply fresh_key with (f := inv_id). intros k i E.
  split; [by eapply ok_invoice_key|by eapply ids_invoice].
Qed.
Lemma fresh_credit_note_key n m d :
  db_ok d → ids_below n d → (n ≤ m)%nat →
  credit_notes d !! id_to_string (id_new ECreditNote m) = None.
Proof.
  intros Hd Hi. apply fresh_key with (f := cn_id). intros k i E.
  split; [by eapply ok_cn_key|by eapply ids_credit_note].
Qed.
Lemma fresh_history_id n m d h :
  ids_below n d → (n ≤ m)%nat → In h (invoice_state_history d) → h_id h ≠ id_new EHistory m.
Proof.
  intros Hi Hle Hin E. apply (drawn_fresh EHistory m). rw -E.
  eapply drawn_mono; [done|]. by eapply ids_history.
Qed.

Lemma drawn_new e n m : (m < n)%nat → drawn n (id_new e m).
Proof. exists m. done. Qed.

(** Writing an invoice over itself breaks no constraint when its number, key
    and customer are the stored ones and the history id is new. *)
Lemma others_no_clash {A} (f : A → option string) (t : gmap string A) k a i :
  unique_by f t → t !! k = Some a → f i = f a →
  existsb (λ kv, opt_clash (f i) (f kv.2)) (filter (λ kv, kv.1 ≠ k) (map_to_list t)) = false.
Proof.
  intros Hu Ha Ef. apply not_true_iff_false. rw existsb_exists. intros ((k' & a') & Hin & Hc).
  apply list_elem_of_In, list_elem_of_filter in Hin as [Hne Hin].
  apply elem_of_map_to_list in Hin. cbn in Hc, Hne.
  destruct (f i) as [x|] eqn:Ei; [|done]. destruct (f a') as [y|] eqn:Ey; [|done].
  cbn in Hc. apply String.eqb_eq in Hc as <-. apply Hne. by eapply (Hu k' k a' a x).
Qed.

Lemma invoice_save_in_tx_succeeds d i0 i :
  db_ok d → invoice_get (inv_id i0) d = Some i0 → inv_id i = inv_id i0 →
  inv_number i = inv_number i0 → inv_idempotency_key i = inv_idempotency_key i0 →
  inv_customer_id i = inv_customer_id i0 →
  invoice_save_in_tx i d =
    Ok (set_invoices (<[id_to_string (inv_id i) := invoice_upserted (Some i0) i]> (invoices d)) d).
Proof.
  intros Hd Hg Eid En Ek Ec. unfold invoice_get in Hg.
  unfold invoice_save_in_tx, invoice_clash. rw Eid.
  rewrite -> (others_no_clash inv_number (invoices d) _ i0 i), (others_no_clash inv_idempotency_key
    (invoices d) _ i0 i) by (try apply Hd; done).
  rw Ec Hg. by destruct (ok_invoice_customer d Hd _ _ Hg) as [c ->].
Qed.

Lemma history_save_in_tx_succeeds d h i n :
  ids_below n d → (∃ m, (n ≤ m)%nat ∧ h_id h = id_new EHistory m) →
  invoice_get (h_invoice_id h) d = Some i →
  history_save_in_tx h d = Ok (set_history (invoice_state_history d ++ [h]) d).
Proof.
  intros Hi (m & Hle & Eh) Hg. unfold history_save_in_tx.
  destruct (existsb _ _) eqn:Ex; [|by rw Hg].
  apply existsb_exists in Ex as (h' & Hin & E%String.eqb_eq).
  apply id_to_string_inj in E. rw Eh in E. by destruct (fresh_history_id n m d h').
Qed.

Lemma lines_listed iid d l :
  l ∈ line_list_for_invoice iid d → line_invoice_id l = iid.
Proof.
  unfold line_list_for_invoice. rewrite -> sql_order_int_perm, list_elem_of_filter.
  intros [E _]. by apply id_to_string_inj in E.
Qed.
Lemma invoice_get_same_id iid d i : db_ok d → invoice_get iid d = Some i → inv_id i = iid.
Proof. intros Hd H. apply (ok_invoice_key d Hd) in H. by apply id_to_string_inj in H. Qed.

Lemma save_transition_succeeds d i0 i h n :
  db_ok d → ids_below n d → invoice_get (inv_id i0) d = Some i0 →
  inv_id i = inv_id i0 → inv_number i = inv_number i0 →
  inv_idempotency_key i = inv_idempotency_key i0 → inv_customer_id i = inv_customer_id i0 →
  h_invoice_id h = inv_id i0 → (∃ m, (n ≤ m)%nat ∧ h_id h = id_new EHistory m) →
  save_transition i h d = Ok (written i h d).
Proof.
  intros Hd Hi Hg Eid En Ek Ec Eh Hh. unfold save_transition.
  rewrite -> (invoice_save_in_tx_succeeds d i0 i) by done. cbn [mbind res_bind].
  erewrite history_save_in_tx_succeeds with (n := n).
  - unfold written. unfold invoice_get in Hg. cbv zeta. rw Eid Hg. reflexivity.
  - pose proof (ids_invoice n d Hi _ i0 Hg) as Hdr.
    destruct Hi. split; cbn; eauto. intros k j. rw lookup_insert_Some.
    intros [[_ <-]|[_ ?]]; [by rw Eid|eauto].
  - done.
  - unfold invoice_get. cbn. rw Eh Eid. apply lookup_insert_eq.
Qed.
End world.

(** The keys of a selection of rows are distinct. *)
Lemma elem_of_rows {A} (t : gmap string A) a : a ∈ rows t ↔ ∃ k, t !! k = Some a.
Proof.
  unfold rows. rewrite -> list_elem_of_fmap. split.
  - intros ((k & x) & -> & H). exists k. by apply elem_of_map_to_list.
  - intros [k H]. exists (k, a). split; [done|]. by apply elem_of_map_to_list.
Qed.
Lemma NoDup_row_keys {A} (f : A → string) (p : A → Prop) `{∀ a, Decision (p a)} (t : gmap string A) :
  (∀ k a, t !! k = Some a → k = f a) → NoDup (f <$> filter p (rows t)).
Proof.
  intros Hk.
  assert (∀ xs : list (string * A), (∀ ka, ka ∈ xs → ka.1 = f ka.2) →
    NoDup xs.*1 → NoDup (f <$> filter p xs.*2)) as Hgen.
  { induction xs as [|[k a] xs IH]; intros Hf Hxs; [constructor|].
    rewrite -> !fmap_cons in *. apply NoDup_cons in Hxs as [Hnot Hxs]. cbn [fst snd].
    specialize (IH (λ ka Hka, Hf ka (list_elem_of_further _ _ _ Hka)) Hxs).
    rewrite -> filter_cons. case_decide; [|done]. rewrite -> fmap_cons. constructor; [|done].
    intros Hin. apply Hnot. apply list_elem_of_fmap in Hin as (a' & Ea & Hin).
    apply list_elem_of_filter in Hin as [_ Hin]. apply list_elem_of_fmap in Hin as ((k' & a'') & -> & Hin).
    apply list_elem_of_fmap. exists (k', a''). split; [|done].
    pose proof (Hf (k, a) ltac:(left)) as E1. pose proof (Hf (k', a'') ltac:(by right)) as E2.
    cbn in *. congruence. }
  apply Hgen; [|apply NoDup_fst_map_to_list].
  intros [k a] Hin. apply elem_of_map_to_list in Hin. by apply Hk.
Qed.

#[export] Hint Resolve world_ok_stable ok_since_stable os_ok : inv.

(** Read the facts on the world before a run of quiet interactions as facts on
    the world after it. *)
Ltac same_dbs :=
  repeat match goal with
  | H : same_db ?w ?w' |- _ => let E := fresh "Edb" in destruct H as [E _]; try rewrite -> E in *
  end.
