(* ===== verification/Numbering.v ===== *)
(** * Invoice and credit-note numbers ([commands/src/issue.rs], [credit.rs])

    A number is [PREFIX-YYYY-NNNN]: the year of issue and one more than the
    count of rows already issued in that year.  The count compares the stored
    RFC 3339 text of [issued_at] with the texts of two year starts; this file
    says exactly which instants that comparison puts in a year. *)

From S2P Require Import Prelude External Concrete Money Ids Domain.

(** [format!("INV-{year:04}-{:04}", n)], and the same for credit notes. *)
Definition format_number (prefix : string) (year n : Z) : string :=
  prefix +:+ "-" +:+ show_Z_pad 4 year +:+ "-" +:+ show_Z_pad 4 n.

(** [format!("{year:04}-01-01T00:00:00Z")] *)
Definition year_start (year : Z) : string := show_Z_pad 4 year +:+ "-01-01T00:00:00Z".

Section numbering.
Context `{P : Platform}.

(** The filter of the [SELECT COUNT( * )] on a nullable [issued_at] column:
    text comparison against the two bounds. *)
Definition issued_in_year (year : Z) (issued_at : option DateTime) : bool :=
  match issued_at with
  | None => false
  | Some t => String.leb (year_start year) (dt_to_rfc3339 t) &&
              String.ltb (dt_to_rfc3339 t) (year_start (year + 1))
  end.

(** [c.max(0) as u32] *)
Definition count_u32 (c : Z) : Z := Z.max c 0 mod 2 ^ 32.

(** [count + 1] on a [u32]; the overflow panics in a debug build. *)
Definition next_seq {E} (count : Z) : res E Z :=
  if count =? 2 ^ 32 - 1 then Panic else Ok (count + 1).
End numbering.

(** ** Comparing texts of fixed width *)

(** [Eq] means the texts agree so far; the next field decides. *)
Definition then_cmp (c c' : comparison) : comparison := match c with Eq => c' | _ => c end.

Lemma compare_app a b x y :
  String.length a = String.length b →
  String.compare (a +:+ x) (b +:+ y) =
    then_cmp (String.compare a b) (String.compare x y).
Proof.
  revert b. induction a as [|c a IH]; intros [|d b]; try done.
  rw !str_app_cons. cbn. intros [=]. destruct (Ascii.compare c d); cbn; auto.
Qed.

(** The digits of a number below [10 ^ w]. *)
Definition digit (n : Z) : ascii := ascii_of_nat (48 + Z.to_nat (n mod 10)).
Definition pad4_ok (n : nat) : bool :=
  let z := Z.of_nat n in
  String.eqb (show_Z_pad 4 z)
    (String (digit (z / 1000)) (String (digit (z / 100)) (String (digit (z / 10))
      (String (digit z) "")))).
Definition pad2_ok (n : nat) : bool :=
  let z := Z.of_nat n in
  String.eqb (show_Z_pad 2 z) (String (digit (z / 10)) (String (digit z) "")).

Lemma pad4_digits z : 0 ≤ z < 10000 →
  show_Z_pad 4 z = String (digit (z / 1000)) (String (digit (z / 100)) (String (digit (z / 10))
    (String (digit z) ""))).
Proof.
  intros Hz. assert (forallb pad4_ok (seq 0 (Z.to_nat 10000)) = true) as H by (vm_compute; reflexivity).
  rewrite -> forallb_forall in H. specialize (H (Z.to_nat z)). unfold pad4_ok in H.
  rewrite -> Z2Nat.id in H by lia. apply String.eqb_eq, H, in_seq. lia.
Qed.
Lemma pad2_digits z : 0 ≤ z < 100 →
  show_Z_pad 2 z = String (digit (z / 10)) (String (digit z) "").
Proof.
  intros Hz. assert (forallb pad2_ok (seq 0 100) = true) as H by (vm_compute; reflexivity).
  rewrite -> forallb_forall in H. specialize (H (Z.to_nat z)). unfold pad2_ok in H.
  rewrite -> Z2Nat.id in H by lia. apply String.eqb_eq, H, in_seq. lia.
Qed.

Lemma digit_compare a b : Ascii.compare (digit a) (digit b) = (a mod 10 ?= b mod 10).
Proof.
  unfold digit. pose proof (Z.mod_pos_bound a 10 ltac:(lia)). pose proof (Z.mod_pos_bound b 10 ltac:(lia)).
  generalize dependent (a mod 10). generalize dependent (b mod 10). intros y Hy x Hx.
  assert (forallb (λ x, forallb (λ y, match Ascii.compare (ascii_of_nat (48 + x)) (ascii_of_nat (48 + y)),
      Nat.compare x y with Eq, Eq | Lt, Lt | Gt, Gt => true | _, _ => false end)
    (seq 0 10)) (seq 0 10) = true) as H by (vm_compute; reflexivity).
  rewrite -> forallb_forall in H. specialize (H (Z.to_nat x) ltac:(apply in_seq; lia)).
  rewrite -> forallb_forall in H. specialize (H (Z.to_nat y) ltac:(apply in_seq; lia)).
  rewrite -> Z2Nat.inj_compare in H by lia. revert H.
  by destruct (Ascii.compare _ _), (x ?= y).
Qed.

(** Zero-padded numbers of one width compare as numbers. *)
Lemma compare_pad4 a b : 0 ≤ a < 10000 → 0 ≤ b < 10000 →
  String.compare (show_Z_pad 4 a) (show_Z_pad 4 b) = (a ?= b).
Proof.
  intros Ha Hb. rewrite -> !pad4_digits by done. cbn [String.compare].
  rewrite -> !digit_compare.
  repeat match goal with |- context [?x ?= ?y] => destruct (Z.compare_spec x y) end;
    try done; exfalso; Z.to_euclidean_division_equations; lia.
Qed.
Lemma compare_pad2 a b : 0 ≤ a < 100 → 0 ≤ b < 100 →
  String.compare (show_Z_pad 2 a) (show_Z_pad 2 b) = (a ?= b).
Proof.
  intros Ha Hb. rewrite -> !pad2_digits by done. cbn [String.compare].
  rewrite -> !digit_compare.
  repeat match goal with |- context [?x ?= ?y] => destruct (Z.compare_spec x y) end;
    try done; exfalso; Z.to_euclidean_division_equations; lia.
Qed.
Lemma pad4_length z : 0 ≤ z < 10000 → String.length (show_Z_pad 4 z) = 4%nat.
Proof. intros. by rewrite -> pad4_digits by done. Qed.
Lemma pad2_length z : 0 ≤ z < 100 → String.length (show_Z_pad 2 z) = 2%nat.
Proof. intros. by rewrite -> pad2_digits by done. Qed.

(** ** Which instants a year's count takes in *)

Section year.
Context {P : Platform} {L : PlatformLaws P}.

(** The first second of a year of the UTC calendar. *)
Definition first_second (t : DateTime) : Prop :=
  nd_month (dt_date_naive t) = 1 ∧ nd_day (dt_date_naive t) = 1 ∧
  dt_hour t = 0 ∧ dt_minute t = 0 ∧ dt_second t = 0.

(** An instant of a four-digit year, outside a leap second. *)
Definition plain (t : DateTime) : Prop := 0 ≤ dt_year t ≤ 9998 ∧ dt_nanosecond t < 1000000000.

Lemma compare_year_start Y t :
  0 ≤ Y < 10000 → plain t →
  String.compare (year_start Y) (dt_to_rfc3339 t) =
    then_cmp (Y ?= dt_year t) (then_cmp (1 ?= nd_month (dt_date_naive t))
      (then_cmp (1 ?= nd_day (dt_date_naive t)) (then_cmp (0 ?= dt_hour t)
        (then_cmp (0 ?= dt_minute t) (then_cmp (0 ?= dt_second t) Gt))))).
Proof.
  intros HY [Hy Hn]. rewrite -> dt_rfc3339_format by lia.
  destruct (dt_fields_valid t) as (? & ? & ? & ?).
  destruct (nd_fields_valid (dt_date_naive t)) as (? & ? & ?).
  unfold year_start, rfc3339. fold (dt_year t).
  change "-01-01T00:00:00Z" with ("-" +:+ show_Z_pad 2 1 +:+ "-" +:+ show_Z_pad 2 1 +:+ "T" +:+
    show_Z_pad 2 0 +:+ ":" +:+ show_Z_pad 2 0 +:+ ":" +:+ show_Z_pad 2 0 +:+ "Z").
  assert (String.compare "Z" (rfc3339_frac (dt_nanosecond t) +:+ "+00:00") = Gt) as Hz
    by (unfold rfc3339_frac; repeat case_match; done).
  assert (∀ c x y, String.compare (String c "" +:+ x) (String c "" +:+ y) = String.compare x y) as Hc.
  { intros c x y. rewrite -> compare_app by done. cbn.
    unfold Ascii.compare. by rewrite -> N.compare_refl. }
  rewrite -> compare_app, compare_pad4 by (rewrite ?pad4_length; lia). rewrite -> Hc.
  do 2 (rewrite -> compare_app, compare_pad2 by (rewrite ?pad2_length; lia); rewrite -> Hc).
  do 2 (rewrite -> compare_app, compare_pad2 by (rewrite ?pad2_length; lia); rewrite -> Hc).
  rewrite -> compare_app, compare_pad2 by (rewrite ?pad2_length; lia).
  by rewrite -> Hz.
Qed.

Lemma year_start_cmp Y t :
  0 ≤ Y < 10000 → plain t →
  String.compare (year_start Y) (dt_to_rfc3339 t) =
    if (Y <? dt_year t) || ((Y =? dt_year t) && negb (bool_decide (first_second t)))
    then Lt else Gt.
Proof.
  intros HY Ht. rewrite -> compare_year_start by done. unfold first_second.
  destruct (dt_fields_valid t) as (? & ? & ? & ?).
  destruct (nd_fields_valid (dt_date_naive t)) as (? & ? & ?).
  case_bool_decide as Hf.
  - destruct Hf as (-> & -> & -> & -> & ->). cbn.
    destruct (Z.compare_spec Y (dt_year t)), (Z.ltb_spec Y (dt_year t)), (Z.eqb_spec Y (dt_year t));
      try done; lia.
  - destruct (Z.compare_spec Y (dt_year t)), (Z.ltb_spec Y (dt_year t)), (Z.eqb_spec Y (dt_year t));
      try done; try lia. cbn [then_cmp orb andb negb].
    repeat match goal with |- context [?x ?= ?y] => destruct (Z.compare_spec x y); cbn [then_cmp]; try done; try lia end.
    all: exfalso; apply Hf; by repeat split.
Qed.

Lemma issued_in_year_spec Y t :
  0 ≤ Y ≤ 9998 → plain t →
  issued_in_year Y (Some t) = true ↔
    (dt_year t = Y ∧ ¬ first_second t) ∨ (dt_year t = Y + 1 ∧ first_second t).
Proof.
  intros HY Ht. unfold issued_in_year, String.leb, String.ltb.
  rewrite -> (String.compare_antisym (dt_to_rfc3339 t) (year_start (Y + 1))).
  rewrite -> !year_start_cmp by (done || lia). case_bool_decide as Hf; cbn [negb].
  all: destruct (Z.ltb_spec Y (dt_year t)), (Z.eqb_spec Y (dt_year t)),
    (Z.ltb_spec (Y + 1) (dt_year t)), (Z.eqb_spec (Y + 1) (dt_year t)); cbn; try lia; intuition lia.
Qed.

(** The count of a year takes in exactly the instants of that year after
    its first second and the first second of the next year: a stored text ends
    in [+00:00] or a fraction, and both sort before the [Z] of the bounds. *)
Lemma issued_in_year_iff Y t :
  0 ≤ Y ≤ 9998 → plain t →
  issued_in_year Y (Some t) = true ↔
    (dt_year t = Y ∧ ¬ first_second t) ∨ (dt_year t = Y + 1 ∧ first_second t).
Proof. exact (issued_in_year_spec Y t). Qed.

(** ** Numbers are read back from their text *)

Lemma uint_free u : str_free "-"%char (DecimalString.NilEmpty.string_of_uint u) = true.
Proof. induction u; cbn; auto. Qed.
Lemma show_Z_pad_free w z : 0 ≤ z → str_free "-"%char (show_Z_pad w z) = true.
Proof.
  intros Hz. unfold show_Z_pad. destruct (Z.ltb_spec z 0); [lia|].
  rewrite -> str_free_app. apply andb_true_iff. split; [|apply uint_free].
  by induction (w - _)%nat.
Qed.
Lemma show_Z_pad_inj w a b : 0 ≤ a → 0 ≤ b → show_Z_pad w a = show_Z_pad w b → a = b.
Proof.
  intros Ha Hb E. apply (f_equal digits_val) in E. rewrite -> !show_Z_pad_val in E by done.
  injection E. lia.
Qed.

(** A number determines its year and its place in the year. *)
Lemma format_number_inj p y n y' n' :
  0 ≤ y → 0 ≤ y' → 0 ≤ n → 0 ≤ n' →
  format_number p y n = format_number p y' n' → y = y' ∧ n = n'.
Proof.
  intros Hy Hy' Hn Hn'. unfold format_number. intros E%str_app_inj_l%str_app_inj_l.
  apply (f_equal (split_once "-"%char)) in E. rewrite -> !str_app_cons, !str_app_nil_l in E.
  rewrite -> !split_once_app in E by (by apply show_Z_pad_free).
  injection E as E1 E2. split; eapply show_Z_pad_inj; eauto.
Qed.
End year.

(** ** Witness *)

#[local] Existing Instance Concrete.platform.
#[local] Existing Instance Concrete.platform_laws.

Lemma issued_in_year_iff_witness :
  let noon : DateTime := Concrete.DT (Concrete.Date 2026 5 12 eq_refl) 12 0 0 0 eq_refl in
  let midnight : DateTime := Concrete.DT (Concrete.Date 2027 1 1 eq_refl) 0 0 0 0 eq_refl in
  issued_in_year 2026 (Some noon) = true ∧ issued_in_year 2027 (Some midnight) ≠ true.
Proof.
  intros noon midnight. split.
  - apply (issued_in_year_iff 2026 noon); [lia|split; cbn; lia|].
    left. split; [done|]. intros (H & _). discriminate H.
  - intros H. apply (issued_in_year_iff 2027 midnight) in H; [|lia|split; cbn; lia].
    destruct H as [[_ Hf]|[H _]]; [|discriminate H]. apply Hf. by repeat split.
Defined.
