(* ===== verification/TextOrder.v ===== *)
(** * The order of stored dates and instants

    The database compares dates and instants as texts.  For four-digit years,
    and outside leap seconds, that is their order on the calendar and on the
    clock: [compare_dates] and [compare_instants]. *)

From S2P Require Import Prelude Rounding External Numbering.

Lemma Ascii_compare_refl c : Ascii.compare c c = Eq.
Proof. apply N.compare_refl. Qed.
Lemma compare_refl s : String.compare s s = Eq.
Proof. induction s as [|c s IH]; [done|]. cbn. by rewrite -> Ascii_compare_refl. Qed.

(** ** Digits after the point *)

Definition digit_val (c : ascii) : Z := Z.of_N (N_of_ascii c) - 48.
Definition is_digit (c : ascii) : bool := (0 <=? digit_val c) && (digit_val c <=? 9).
Fixpoint digits (s : string) : bool :=
  match s with EmptyString => true | String c s => is_digit c && digits s end.

(** The digits of [s] as the leading ones of a number of [w] digits. *)
Fixpoint scaled (w : nat) (s : string) : Z :=
  match w, s with
  | S w, String c s => digit_val c * pow10 w + scaled w s
  | _, _ => 0
  end.

Lemma pow10_S w : pow10 (S w) = 10 * pow10 w.
Proof. unfold pow10. by rewrite -> Nat2Z.inj_succ, Z.pow_succ_r by lia. Qed.

Lemma scaled_bounds w s : digits s = true → 0 ≤ scaled w s < pow10 w.
Proof.
  revert s. induction w as [|w IH]; intros s Hs; [cbn; unfold pow10; cbn; lia|].
  pose proof (pow10_pos w) as Hp. rewrite -> pow10_S. destruct s as [|c s]; [cbn; lia|].
  cbn in Hs. unfold is_digit in Hs. apply andb_true_iff in Hs as [[Hc Hc']%andb_true_iff Hs].
  specialize (IH s Hs). cbn [scaled]. rewrite -> Z.leb_le in Hc, Hc'. nia.
Qed.

Lemma ascii_compare_val c d : Ascii.compare c d = (digit_val c ?= digit_val d).
Proof.
  unfold Ascii.compare, digit_val. rewrite <- N2Z.inj_compare.
  destruct (Z.compare_spec (Z.of_N (N_of_ascii c)) (Z.of_N (N_of_ascii d)));
    symmetry; [apply Z.compare_eq_iff|apply Z.compare_lt_iff|apply Z.compare_gt_iff]; lia.
Qed.

(** Two runs of digits before the same offset compare as numbers; of equal
    numbers the shorter run comes first. *)
Lemma compare_fractions w s t r :
  digits s = true → digits t = true → (String.length s ≤ w)%nat → (String.length t ≤ w)%nat →
  String.compare (s +:+ String "+" r) (t +:+ String "+" r) =
    then_cmp (scaled w s ?= scaled w t) (String.length s ?= String.length t)%nat.
Proof.
  revert s t. induction w as [|w IH]; intros s t Hs Ht Ls Lt'.
  { destruct s, t; cbn in Ls, Lt'; try lia. cbn. apply compare_refl. }
  pose proof (pow10_pos w) as Hp.
  assert (∀ c, is_digit c = true → Ascii.compare "+" c = Lt ∧ Ascii.compare c "+" = Gt) as Hplus.
  { intros c [H1%Z.leb_le H2%Z.leb_le]%andb_true_iff. rewrite -> !ascii_compare_val.
    change (digit_val "+") with (-5). split; [apply Z.compare_lt_iff|apply Z.compare_gt_iff]; lia. }
  destruct s as [|c s], t as [|d t]; cbn [digits] in Hs, Ht; cbn [String.length] in Ls, Lt'.
  - cbn. apply compare_refl.
  - apply andb_true_iff in Ht as [Hd Ht]. pose proof (scaled_bounds w t Ht).
    rewrite -> str_app_cons, str_app_nil_l. cbn [String.compare scaled String.length].
    destruct (Hplus d Hd) as [-> _]. apply andb_true_iff in Hd as [Hd _]. rewrite -> Z.leb_le in Hd.
    destruct (Z.compare_spec 0 (digit_val d * pow10 w + scaled w t)); [done|done|nia].
  - apply andb_true_iff in Hs as [Hc Hs]. pose proof (scaled_bounds w s Hs).
    rewrite -> str_app_cons, str_app_nil_l. cbn [String.compare scaled String.length].
    destruct (Hplus c Hc) as [_ ->]. apply andb_true_iff in Hc as [Hc _]. rewrite -> Z.leb_le in Hc.
    destruct (Z.compare_spec (digit_val c * pow10 w + scaled w s) 0); [done|nia|done].
  - apply andb_true_iff in Hs as [Hc Hs]. apply andb_true_iff in Ht as [Hd Ht].
    rewrite -> !str_app_cons. cbn [String.compare scaled String.length Nat.compare].
    rewrite -> ascii_compare_val, (IH s t) by (done || lia).
    pose proof (scaled_bounds w s Hs). pose proof (scaled_bounds w t Ht).
    destruct (Z.compare_spec (digit_val c) (digit_val d)) as [->|Hlt|Hlt].
    + by rewrite -> Z.add_compare_mono_l.
    + assert (digit_val c * pow10 w + scaled w s < digit_val d * pow10 w + scaled w t) as E by nia.
      by apply Z.compare_lt_iff in E as ->.
    + assert (digit_val d * pow10 w + scaled w t < digit_val c * pow10 w + scaled w s) as E by nia.
      by apply Z.compare_gt_iff in E as ->.
Qed.

(** ** Zero-padded numerals *)

Lemma digits_uint u : digits (DecimalString.NilEmpty.string_of_uint u) = true.
Proof. by induction u. Qed.
Lemma digits_app s t : digits (s +:+ t) = digits s && digits t.
Proof. induction s as [|c s IH]; [done|]. rewrite -> str_app_cons. cbn. by rewrite -> IH, andb_assoc. Qed.
Lemma digits_pad w z : 0 ≤ z → digits (show_Z_pad w z) = true.
Proof.
  intros Hz. unfold show_Z_pad. destruct (Z.ltb_spec z 0); [lia|]. rewrite -> digits_app.
  unfold uint_str. rewrite -> digits_uint, andb_true_r. by induction (w - _)%nat.
Qed.

Lemma scaled_of_uint_acc u p :
  Z.pos (Pos.of_uint_acc u p) = Z.pos p * pow10 (Decimal.nb_digits u) +
    scaled (Decimal.nb_digits u) (DecimalString.NilEmpty.string_of_uint u).
Proof.
  revert p. induction u; intros p; cbn [Pos.of_uint_acc Decimal.nb_digits DecimalString.NilEmpty.string_of_uint scaled];
    [unfold pow10; cbn; lia|..]; rewrite -> IHu, pow10_S; unfold digit_val; cbn [N_of_ascii N_of_digits]; lia.
Qed.
Lemma scaled_uint u :
  scaled (Decimal.nb_digits u) (DecimalString.NilEmpty.string_of_uint u) = Z.of_N (N.of_uint u).
Proof.
  induction u; cbn [Decimal.nb_digits DecimalString.NilEmpty.string_of_uint scaled]; [done|..].
  { rewrite -> IHu. done. }
  all: match goal with |- _ = Z.of_N (N.of_uint ?x) =>
    change (N.of_uint x) with (N.pos (match Pos.of_uint x with N0 => 1 | Npos p => p end)) end.
  all: cbn [Pos.of_uint Z.of_N]; rewrite -> scaled_of_uint_acc; unfold digit_val; cbn [N_of_ascii N_of_digits]; lia.
Qed.
Lemma scaled_uint_str n : scaled (String.length (uint_str n)) (uint_str n) = Z.of_N n.
Proof.
  unfold uint_str. rewrite -> string_of_uint_length, scaled_uint. by rewrite -> DecimalN.Unsigned.of_to.
Qed.
Lemma scaled_zeros k w s : scaled (k + w) (str_repeat "0" k +:+ s) = scaled w s.
Proof.
  induction k as [|k IH]; [done|]. cbn [str_repeat Nat.add]. rewrite -> str_app_cons. cbn [scaled].
  rewrite -> IH. change (digit_val "0") with 0. lia.
Qed.
Lemma scaled_pad w z : (1 ≤ w)%nat → 0 ≤ z < pow10 w → scaled w (show_Z_pad w z) = z.
Proof.
  intros Hw Hz. pose proof (uint_str_length (Z.to_N z) w Hw) as Hl. rewrite -> Z2N.id in Hl by lia.
  unfold pow10 in Hz. specialize (Hl ltac:(lia)).
  unfold show_Z_pad. destruct (Z.ltb_spec z 0); [lia|].
  replace w with ((w - String.length (uint_str (Z.to_N z))) + String.length (uint_str (Z.to_N z)))%nat at 1 by lia.
  rewrite -> scaled_zeros, scaled_uint_str. lia.
Qed.
Lemma scaled_more k w s : String.length s = k → scaled (k + w) s = scaled k s * pow10 w.
Proof.
  revert s. induction k as [|k IH]; intros [|c s]; try done; [by destruct w|]. cbn [String.length]. intros [= Hl].
  cbn [Nat.add scaled]. rewrite -> (IH s Hl). unfold pow10.
  rewrite -> Nat2Z.inj_add, Z.pow_add_r by lia. ring.
Qed.

(** ** Fractions of a second *)

Lemma frac_digits n :
  0 < n < 1000000000 →
  ∃ s, rfc3339_frac n = String "." s ∧ digits s = true ∧ (String.length s ≤ 9)%nat ∧ scaled 9 s = n.
Proof.
  intros Hn. assert (∀ k m, (1 ≤ k ≤ 9)%nat → n = m * pow10 (9 - k) →
    digits (show_Z_pad k m) = true ∧ (String.length (show_Z_pad k m) ≤ 9)%nat ∧ scaled 9 (show_Z_pad k m) = n) as H.
  { intros k m Hk Em. pose proof (pow10_pos (9 - k)) as Hp.
    assert (pow10 9 = pow10 k * pow10 (9 - k)) as E9
      by (unfold pow10; rewrite <- Z.pow_add_r by lia; f_equal; lia).
    change (pow10 9) with 1000000000 in E9. assert (0 ≤ m < pow10 k) as Hm by nia.
    pose proof (show_Z_pad_length k m ltac:(lia) Hm) as Hl.
    split; [apply digits_pad; lia|]. split; [lia|].
    replace 9%nat with (k + (9 - k))%nat at 1 by lia.
    rewrite -> (scaled_more k (9 - k) _ Hl), scaled_pad by (done || lia). lia. }
  unfold rfc3339_frac. destruct (Z.eqb_spec n 0); [lia|].
  destruct (Z.eqb_spec (n mod 1000000) 0); [|destruct (Z.eqb_spec (n mod 1000) 0)]; eexists; (split; [reflexivity|]);
    apply H; try lia.
  - change (pow10 (9 - 3)) with 1000000. pose proof (Z.div_mod n 1000000). lia.
  - change (pow10 (9 - 6)) with 1000. pose proof (Z.div_mod n 1000). lia.
  - change (pow10 (9 - 9)) with 1. lia.
Qed.

Lemma compare_fracs a b :
  0 ≤ a < 1000000000 → 0 ≤ b < 1000000000 →
  String.compare (rfc3339_frac a +:+ "+00:00") (rfc3339_frac b +:+ "+00:00") = (a ?= b).
Proof.
  intros Ha Hb. destruct (decide (a = b)) as [->|Hne]; [rewrite -> Z.compare_refl; apply compare_refl|].
  assert (∀ n, 0 < n < 1000000000 → rfc3339_frac 0 = "" ∧ (0 ?= n) = Lt ∧ (n ?= 0) = Gt) as H0.
  { intros n Hn. split; [done|]. split; [apply Z.compare_lt_iff|apply Z.compare_gt_iff]; lia. }
  destruct (decide (a = 0)) as [->|Ha0]; [|destruct (decide (b = 0)) as [->|Hb0]].
  - destruct (frac_digits b) as (s & -> & _); [lia|]. by destruct (H0 b) as (-> & -> & _); [lia|].
  - destruct (frac_digits a) as (s & -> & _); [lia|]. by destruct (H0 a) as (-> & _ & ->); [lia|].
  - destruct (frac_digits a) as (s & -> & Ds & Ls & Es); [lia|].
    destruct (frac_digits b) as (t & -> & Dt & Lt' & Et); [lia|].
    rewrite -> !str_app_cons. cbn [String.compare]. rewrite -> Ascii_compare_refl.
    rewrite -> (compare_fractions 9 s t "00:00" Ds Dt Ls Lt'), Es, Et.
    by destruct (Z.compare_spec a b).
Qed.

(** ** Dates and instants *)

Section order.
Context {P : Platform} {L : PlatformLaws P}.

(** A character of separation. *)
Lemma compare_sep c x y : String.compare (String c "" +:+ x) (String c "" +:+ y) = String.compare x y.
Proof. rewrite -> compare_app by done. cbn. by rewrite -> Ascii_compare_refl. Qed.

Lemma compare_dates a b :
  0 ≤ nd_year a ≤ 9999 → 0 ≤ nd_year b ≤ 9999 →
  String.compare (nd_to_string a) (nd_to_string b) = nd_cmp a b.
Proof.
  intros Ha Hb. rewrite -> !nd_string_format, nd_cmp_ymd by lia. unfold ymd_cmp. cbn [fst snd].
  pose proof (nd_fields_valid a). pose proof (nd_fields_valid b).
  rewrite -> compare_app, compare_pad4, compare_sep by (rewrite ?pad4_length; lia).
  rewrite -> compare_app, compare_pad2, compare_sep by (rewrite ?pad2_length; lia).
  rewrite -> compare_pad2 by lia. unfold then_cmp.
  by destruct (nd_year a ?= nd_year b), (nd_month a ?= nd_month b).
Qed.

Lemma compare_instants t u :
  0 ≤ dt_year t ≤ 9999 → 0 ≤ dt_year u ≤ 9999 →
  dt_nanosecond t < 1000000000 → dt_nanosecond u < 1000000000 →
  String.compare (dt_to_rfc3339 t) (dt_to_rfc3339 u) = dt_cmp t u.
Proof.
  intros Yt Yu Nt Nu. rewrite -> !dt_rfc3339_format, dt_cmp_fields, nd_cmp_ymd by lia.
  unfold rfc3339, ymd_cmp, dt_year in *. cbn [fst snd].
  pose proof (dt_fields_valid t). pose proof (dt_fields_valid u).
  pose proof (nd_fields_valid (dt_date_naive t)). pose proof (nd_fields_valid (dt_date_naive u)).
  rewrite -> compare_app, compare_pad4, compare_sep by (rewrite ?pad4_length; lia).
  do 4 (rewrite -> compare_app, compare_pad2, compare_sep by (rewrite ?pad2_length; lia)).
  rewrite -> compare_app, compare_pad2, compare_fracs by (rewrite ?pad2_length; lia).
  unfold then_cmp.
  repeat match goal with |- context [?x ?= ?y] => destruct (x ?= y) end; done.
Qed.
End order.
