(* ===== verification/Fixtures.v ===== *)
(** * A concrete world for the witnesses

    One customer and one invoice, in any given lifecycle state, with the
    history that leads there. *)

From S2P Require Import Prelude External Concrete Money Ids Domain InvoiceFsm CreditNoteFsm Events.
From S2P Require Import Tax Store Render Command Transition Invariant World.
From Stdlib Require Import Lqa.

#[local] Existing Instance Concrete.platform.
#[local] Existing Instance Concrete.platform_laws.

(** Noon of 2026-05-[d]. *)
Definition fx_date : NaiveDate := Concrete.Date 2026 5 12 eq_refl.
Definition fx_time : DateTime := Concrete.DT (Concrete.Date 2026 5 12 eq_refl) 12 0 0 0 eq_refl.
Definition fx_dec (cents : Z) : Decimal := Concrete.Dec cents 2.

Definition fx_customer_id : CustomerId := id_new ECustomer 0.
Definition fx_invoice_id : InvoiceId := id_new EInvoice 1.

Definition fx_customer : Customer :=
  {| cust_id := fx_customer_id;
     cust_display_name := "Acme";
     cust_email := Some "billing@acme.example";
     cust_address := country_only "US";
     cust_metadata := ∅;
     cust_created_at := fx_time;
     cust_updated_at := fx_time |}.

Definition fx_line : InvoiceLine :=
  {| line_id := id_new ELine 2;
     line_invoice_id := fx_invoice_id;
     line_position := 0;
     line_description := "Consulting";
     line_quantity := fx_dec 200;
     line_unit_price := fx_dec 5000;
     line_tax_rate_ids := [];
     line_tax_category := Standard;
     line_tax_amount := fx_dec 0;
     line_line_total := fx_dec 10000;
     line_metadata := ∅ |}.

Definition fx_issued (s : InvoiceState) : bool := match s with Draft => false | _ => true end.
Definition fx_when (b : bool) : option DateTime := if b then Some fx_time else None.

Definition fx_invoice (s : InvoiceState) : Invoice :=
  {| inv_id := fx_invoice_id;
     inv_number := if fx_issued s then Some "INV-2026-0001" else None;
     inv_customer_id := fx_customer_id;
     inv_seller_jurisdiction := DelawareUs;
     inv_currency := Currency.USD;
     inv_state := s;
     inv_issued_at := fx_when (fx_issued s);
     inv_due_at := Some fx_time;
     inv_sent_at := fx_when (match s with Sent | Viewed => true | _ => false end);
     inv_viewed_at := fx_when (match s with Viewed => true | _ => false end);
     inv_paid_at := fx_when (match s with Paid => true | _ => false end);
     inv_voided_at := fx_when (match s with Voided => true | _ => false end);
     inv_subtotal := fx_dec 10000;
     inv_tax_total := fx_dec 0;
     inv_total := fx_dec 10000;
     inv_amount_paid := fx_dec (match s with PartiallyPaid => 4000 | Paid => 10000 | _ => 0 end);
     inv_schedule_id := None;
     inv_template_path := None;
     inv_pdf_blob_ref := None;
     inv_idempotency_key := Some "key-1";
     inv_nexus_review := false;
     inv_metadata := ∅;
     inv_created_at := fx_time;
     inv_updated_at := fx_time |}.

Definition fx_row (n : nat) (from : option InvoiceState) (to : InvoiceState) (event : string)
    : InvoiceStateHistory :=
  {| h_id := id_new EHistory n;
     h_invoice_id := fx_invoice_id;
     h_from_state := from;
     h_to_state := to;
     h_event := event;
     h_actor := Some "ana";
     h_channel := HCli;
     h_bus_event_id := None;
     h_reason := None;
     h_occurred_at := fx_time;
     h_published_at := None;
     h_metadata := ∅ |}.

(** The steps from a draft to a state. *)
Definition fx_path (s : InvoiceState) : list InvoiceStateHistory :=
  let draft := fx_row 3 None Draft "draft" in
  let issue := fx_row 4 (Some Draft) Issued "issue" in
  let send := fx_row 5 (Some Issued) Sent "send" in
  match s with
  | Draft => [draft]
  | Issued => [draft; issue]
  | Sent => [draft; issue; send]
  | Viewed => [draft; issue; send; fx_row 6 (Some Sent) Viewed "view"]
  | PartiallyPaid => [draft; issue; fx_row 6 (Some Issued) PartiallyPaid "pay"]
  | Paid => [draft; issue; fx_row 6 (Some Issued) Paid "pay"]
  | Voided => [draft; issue; fx_row 6 (Some Issued) Voided "void"]
  end.

Definition fx_db (s : InvoiceState) : Db :=
  {| customers := {[ id_to_string fx_customer_id := fx_customer ]};
     invoices := {[ id_to_string fx_invoice_id := fx_invoice s ]};
     invoice_lines := {[ id_to_string (line_id fx_line) := fx_line ]};
     reminders := ∅;
     schedules := ∅;
     credit_notes := ∅;
     invoice_state_history := fx_path s;
     credit_note_state_history := [];
     bus_inbox := ∅;
     send_idempotency := ∅ |}.

Definition fx_world (s : InvoiceState) : World := MkWorld (fx_db s) 10 [] ∅ [] ∅.

(** Everything answers; a publisher listens. *)
Definition fx_env : Env := MkEnv (λ _, fx_time) (λ _, true) (λ _, true) (λ _, true) (λ _, "") (λ _, None).

(** The same with the clock stopped at [t], and a time after [fx_time]. *)
Definition fx_env_at (t : DateTime) : Env := MkEnv (λ _, t) (λ _, true) (λ _, true) (λ _, true) (λ _, "") (λ _, None).
Definition fx_later : DateTime := Concrete.DT (Concrete.Date 2026 6 12 eq_refl) 12 0 0 0 eq_refl.

Lemma fx_consistent s : invoice_consistent (fx_invoice s).
Proof.
  destruct s; split; cbn; intros; try (split; intros; (done || congruence));
    try (intuition discriminate); try done; try (split; reflexivity).
Qed.

Lemma fx_legal h s : In h (fx_path s) →
  row_legal (h_from_state h) (h_to_state h) (h_event h) ∧ h_invoice_id h = fx_invoice_id ∧
  drawn 10 (h_id h).
Proof.
  intros Hin.
  assert (∀ n, (n < 10)%nat → drawn (e:=EHistory) 10 (id_new EHistory n)) as Hn by (intros; by apply drawn_new).
  set (p := Pay (fx_dec 4000) (fx_dec 10000)). set (q := Pay (fx_dec 10000) (fx_dec 10000)).
  assert (row_legal None Draft "draft") by constructor.
  assert (row_legal (Some Draft) Issued "issue") by (apply (legal_step _ Issue); [done|apply next_state_sound; reflexivity]).
  assert (row_legal (Some Issued) Sent "send") by (apply (legal_step _ Send); [done|apply next_state_sound; reflexivity]).
  assert (row_legal (Some Sent) Viewed "view") by (apply (legal_step _ View); [done|apply next_state_sound; reflexivity]).
  assert (row_legal (Some Issued) PartiallyPaid "pay") by (apply (legal_step _ p); [done|apply next_state_sound; reflexivity]).
  assert (row_legal (Some Issued) Paid "pay") by (apply (legal_step _ q); [done|apply next_state_sound; reflexivity]).
  assert (row_legal (Some Issued) Voided "void") by (apply (legal_step _ Void); [done|apply next_state_sound; reflexivity]).
  destruct s; cbn in Hin; repeat destruct Hin as [<-|Hin]; try done;
    (split; [done|split; [done|apply Hn; lia]]).
Qed.

Lemma fx_audit s : audit None (fx_path s) (Some s).
Proof.
  assert (∀ h, In h (fx_path s) → row_legal (h_from_state h) (h_to_state h) (h_event h)) as Hl
    by (intros h Hh; by apply (fx_legal h s)).
  destruct s; cbn in *;
    repeat match goal with
    | |- audit _ [] _ => constructor
    | |- audit _ (?h :: ?l) _ => apply (audit_cons h l); [apply Hl; cbn; tauto|cbn]
    end.
Qed.

Lemma fx_rows s : rows_of (id_to_string fx_invoice_id) (fx_path s) = fx_path s.
Proof. destruct s; reflexivity. Qed.

Lemma fx_unique {A} (f : A → option string) k a : unique_by f {[ k := a ]}.
Proof.
  intros k1 k2 a1 a2 x. rw !lookup_singleton_Some. by intros [-> _] [-> _].
Qed.

Lemma fx_db_ok s : db_ok (fx_db s).
Proof.
  split; cbn [fx_db customers invoices invoice_lines reminders schedules credit_notes
    invoice_state_history credit_note_state_history send_idempotency]; try done; try apply fx_unique.
  - intros k i. rw lookup_singleton_Some. by intros [<- <-].
  - intros k i. rw lookup_singleton_Some. intros [_ <-]. exists fx_customer.
    unfold customer_get. apply lookup_singleton_eq.
  - intros k i. rw lookup_singleton_Some. intros [_ <-]. apply fx_consistent.
  - intros k i. rw lookup_singleton_Some. intros [<- <-]. rw fx_rows. apply fx_audit.
  - intros h Hh. apply fx_legal in Hh as (_ & -> & _). eexists. apply lookup_singleton_eq.
  - destruct s; apply (bool_decide_unpack _); reflexivity.
  - intros k l. rw lookup_singleton_Some. intros [<- <-]. split; [done|].
    eexists. apply lookup_singleton_eq.
  - constructor.
Qed.

Lemma fx_world_ok s : world_ok (fx_world s).
Proof.
  split; [apply fx_db_ok|]. split; cbn [w_db w_step fx_world fx_db invoices credit_notes
    invoice_state_history credit_note_state_history]; try done.
  - intros k i. rw lookup_singleton_Some. intros [_ <-]. apply drawn_new. lia.
  - intros h Hh. by apply fx_legal in Hh as (_ & _ & ?).
Qed.

Lemma fx_get s : invoice_get fx_invoice_id (fx_db s) = Some (fx_invoice s).
Proof. apply lookup_singleton_eq. Qed.

Lemma fx_only s k i :
  invoices (fx_db s) !! k = Some i → k = id_to_string fx_invoice_id ∧ i = fx_invoice s.
Proof. cbn [fx_db invoices]. rw lookup_singleton_Some. by intros [<- <-]. Qed.

(** A context with a publisher and no tax rates. *)
Definition fx_ctx : CoreCtx := with_publisher (CoreCtx_new (MkTaxTable []) (MkNexusConfig ∅)).
