(* ===== verification/Blob.v ===== *)
(** * Blob storage ([store/src/blob/])

    A [BlobRef] is a [blob://<backend>/<path>] text; the local store keeps each
    blob in a file under its root.  The file system is the world's files, keyed by
    the names on their path: symbolic links are not modelled, nor directories
    that hold no file. *)

From S2P Require Import Prelude External Concrete Money Ids Domain Events Tax Store Render Command Effects.
From S2P Require Import SignedLink InvoiceFsm Fixtures.

(** ** References ([blob_ref.rs]) *)

(** [format!("{:?}", s)] of a text of printable characters: quotes and backslashes
    are escaped. *)
Fixpoint debug_body (s : string) : string :=
  match s with
  | EmptyString => EmptyString
  | String c s =>
      if ((N_of_ascii c =? 34) || (N_of_ascii c =? 92))%N
      then String (ascii_of_N 92) (String c (debug_body s))
      else String c (debug_body s)
  end.
Definition debug_str (s : string) : string :=
  String (ascii_of_N 34) (debug_body s +:+ String (ascii_of_N 34) "").

Record BlobRef := MkBlobRef { blob_uri : string }.

Definition BlobRef_new (backend path : string) : SR BlobRef :=
  if String.eqb backend "" then Err (Blob "empty backend segment")
  else
    let path := default path (strip_prefix "/" path) in
    Ok (MkBlobRef ("blob://" +:+ str_to_ascii_lowercase backend +:+ "/" +:+ path)).
Definition BlobRef_parse (s : string) : SR BlobRef :=
  rest ← ok_or (Blob ("missing blob:// scheme in " +:+ debug_str s)) (strip_prefix "blob://" s);
  '(backend, path) ← ok_or (Blob ("missing path segment in " +:+ debug_str s)) (split_once "/" rest);
  BlobRef_new backend path.
Definition ref_rest (r : BlobRef) : string := default (blob_uri r) (strip_prefix "blob://" (blob_uri r)).
Definition backend (r : BlobRef) : string :=
  match split_once "/" (ref_rest r) with Some (b, _) => b | None => ref_rest r end.
Definition path (r : BlobRef) : string :=
  match split_once "/" (ref_rest r) with Some (_, p) => p | None => "" end.

Lemma ref_new_parts b p r :
  BlobRef_new b p = Ok r → str_free "/" b = true →
  backend r = str_to_ascii_lowercase b ∧ path r = default p (strip_prefix "/" p).
Proof.
  unfold BlobRef_new. destruct (String.eqb b ""); [done|]. intros [= <-] Hb.
  assert (str_free "/" (str_to_ascii_lowercase b) = true) as Hl.
  { clear -Hb. induction b as [|c b IH]; cbn in *; [done|]. apply andb_true_iff in Hb as [Hc Hb].
    rw (IH Hb) andb_true_r. clear -Hc. by destruct c as [[] [] [] [] [] [] [] []]. }
  unfold backend, path, ref_rest. cbn [blob_uri]. rw strip_prefix_app. cbn [default].
  change ("/" +:+ ?x) with (String "/" x). by rw split_once_app.
Qed.
Lemma ref_parse_new s r :
  BlobRef_parse s = Ok r → ∃ b p, s = "blob://" +:+ b +:+ "/" +:+ p ∧ b ≠ "" ∧ str_free "/" b = true ∧
    BlobRef_new b p = Ok r.
Proof.
  unfold BlobRef_parse. intros H. inv_res.
  match goal with H : strip_prefix _ _ = Some _ |- _ => apply strip_prefix_inv in H as -> end.
  match goal with x : string * string |- _ => destruct x as [b p] end.
  match goal with H : split_once _ _ = Some _ |- _ => apply split_once_Some in H as [-> Hb] end.
  exists b, p. split; [done|]. split; [|done]. intros ->. done.
Qed.

(** ** Paths of [std::path] on Unix *)

Inductive Component := RootDir | CurDir | ParentDir | Normal (name : string).
#[export] Instance Component_eq_dec : EqDecision Component.
Proof. solve_decision. Defined.
(** A segment between slashes; a dot counts only at the start of a relative path. *)
Definition segment (first : bool) (s : string) : list Component :=
  if String.eqb s "" then []
  else if String.eqb s "." then (if first then [CurDir] else [])
  else if String.eqb s ".." then [ParentDir]
  else [Normal s].
Definition components (p : string) : list Component :=
  match split_on "/" p with
  | s :: rest =>
      if String.eqb s "" then
        match rest with [] => [] | _ => RootDir :: concat (segment false <$> rest) end
      else segment true s ++ concat (segment false <$> rest)
  | [] => []
  end.
(** [Path::join]: an absolute path replaces. *)
Fixpoint ends_with_slash (s : string) : bool :=
  match s with
  | EmptyString => false
  | String c EmptyString => Ascii.eqb c "/"
  | String _ s => ends_with_slash s
  end.
Definition path_join (root p : string) : string :=
  match p with
  | String "/" _ => p
  | _ => if String.eqb root "" || ends_with_slash root then root +:+ p else root +:+ "/" +:+ p
  end.

(** The names on a path, which the file system resolves it by. *)
Definition names (p : string) : list string :=
  omap (λ c, match c with Normal n => Some n | _ => None end) (components p).

(** ** The local store ([local.rs]) *)

Record LocalBlobStore := MkLocalBlobStore { lb_root : string; lb_signing_key : string }.
Definition BACKEND : string := "local".

Definition allowed (c : Component) : bool :=
  match c with Normal _ | CurDir => true | RootDir | ParentDir => false end.
Definition resolve (st : LocalBlobStore) (r : BlobRef) : SR string :=
  if negb (String.eqb (backend r) BACKEND) then
    Err (Blob ("blob ref backend " +:+ debug_str (backend r) +:+ " is not handled by local store"))
  else
    let candidate := path_join (lb_root st) (path r) in
    if forallb allowed (components (path r)) then Ok candidate
    else Err (Blob ("blob path " +:+ debug_str (path r) +:+ " contains a disallowed component")).

Definition hmac_hex `{C : Crypto} (st : LocalBlobStore) (msg : string) : string :=
  hmac_sha256_hex (lb_signing_key st) msg.

Section store.
Context `{P : Platform}.

(** *** The file system *)

Definition file_key (ns : list string) : string := foldr (λ n s, "/" +:+ n +:+ s) "" ns.
Definition strict_prefix (a b : list string) : bool :=
  bool_decide (a `prefix_of` b) && negb (bool_decide (a = b)).
(** A path that is a directory, or that runs through a file. *)
Definition blocked (w : World) (ns : list string) : bool :=
  bool_decide (ns = []) ||
  existsb (λ f, strict_prefix ns (names f.1) || strict_prefix (names f.1) ns) (map_to_list (w_files w)).

Inductive IoKind := IoNotFound | IoOther.
Definition fs_create_dir_all (p : string) : prog (res IoKind ()) :=
  Act (λ E w, (tick w, if env_io_ok E (w_step w) then Ok () else Err IoOther)) Ret.
(** Opened, truncated and then written: a write that fails on the way leaves the
    file with the first bytes.  A write in which the process is killed is one
    that fails, and the kill comes next. *)
Definition fs_write (p bytes : string) : prog (res IoKind ()) :=
  Act (λ E w, if blocked w (names p) then (tick w, Err IoOther)
              else if env_io_ok E (w_step w) then (add_file (file_key (names p)) bytes (tick w), Ok ())
              else (io_left E (add_file (file_key (names p))) bytes w, Err IoOther)) Ret.
Definition fs_read (p : string) : prog (res IoKind string) :=
  Act (λ E w, (tick w, if env_io_ok E (w_step w) then
                         match w_files w !! file_key (names p) with
                         | Some bytes => Ok bytes
                         | None => Err (if blocked w (names p) then IoOther else IoNotFound)
                         end
                       else Err IoOther)) Ret.
Definition remove_file (key : string) (w : World) : World :=
  MkWorld (w_db w) (w_step w) (w_bus w) (delete key (w_files w)) (w_sink w) (w_blobs w).
Definition fs_remove_file (p : string) : prog (res IoKind ()) :=
  Act (λ E w, if env_io_ok E (w_step w) then
                match w_files w !! file_key (names p) with
                | Some _ => (remove_file (file_key (names p)) (tick w), Ok ())
                | None => (tick w, Err (if blocked w (names p) then IoOther else IoNotFound))
                end
              else (tick w, Err IoOther)) Ret.
(** The canonical form of a path where there are no links: absolute, from the
    working directory [cwd], without dots. *)
Definition resolved (cs : list Component) : list string :=
  foldl (λ ns c, match c with
                 | RootDir => [] | CurDir => ns | ParentDir => take (pred (length ns)) ns | Normal n => ns ++ [n]
                 end) [] cs.
Definition canonical (cwd p : string) : string :=
  match resolved (components (path_join cwd p)) with [] => "/" | ns => file_key ns end.
Definition fs_canonicalize (cwd p : string) : prog (res IoKind string) :=
  Act (λ E w, (tick w, if env_io_ok E (w_step w) then Ok (canonical cwd p) else Err IoOther)) Ret.
Definition from_io {A} (p : prog (res IoKind A)) : prog (SR A) := try_conv (λ _, IoError) p.

(** [LocalBlobStore::new], in a process whose working directory is [cwd]. *)
Definition LocalBlobStore_new (cwd root signing_key : string) : prog (SR LocalBlobStore) :=
  _ ←? from_io (fs_create_dir_all root);
  root ←? from_io (fs_canonicalize cwd root);
  Ret (Ok (MkLocalBlobStore root signing_key)).

(** *** The trait ([store.rs]) and its implementations *)

Class BlobStore (St : Type) := {
  bs_put : St → string → string → prog (SR BlobRef);
  bs_get : St → BlobRef → prog (SR string);
  bs_delete : St → BlobRef → prog (SR ());
  bs_sign_url : St → BlobRef → Z → prog (SR string);
}.

(** ["blob".create_type_id::<V7>()] *)
Definition key_of (n : nat) : string := ti_to_string (new_typeid "blob" n).
Definition blob_key : prog string :=
  Act (λ _ w, (tick w, key_of (w_step w))) Ret.

Definition local_put (st : LocalBlobStore) (content content_type : string) : prog (SR BlobRef) :=
  key ← blob_key;
  let target := path_join (lb_root st) key in
  _ ←? from_io (fs_create_dir_all (lb_root st));
  _ ←? from_io (fs_write target content);
  Ret (BlobRef_new BACKEND key).
Definition local_get (st : LocalBlobStore) (r : BlobRef) : prog (SR string) :=
  path ←? Ret (resolve st r); from_io (fs_read path).
Definition local_delete (st : LocalBlobStore) (r : BlobRef) : prog (SR ()) :=
  path ←? Ret (resolve st r);
  removed ← fs_remove_file path;
  Ret (match removed with
       | Ok () => Ok ()
       | Err IoNotFound => Ok ()
       | Err IoOther => Err IoError
       | Panic => Panic
       end).

(** The clock of [SystemTime], in nanoseconds since the epoch. *)
Class SystemClock := system_nanos : DateTime → Z.
Definition NANOS : Z := 10 ^ 9.
(** [now.checked_add(ttl)], after the epoch, in seconds. *)
Definition expiry (now ttl : Z) : option Z :=
  let t := now + ttl in
  if (t / NANOS <? 2 ^ 63) && (0 <=? t) then Some (t / NANOS) else None.
Definition local_sign_url `{C : Crypto} `{K : SystemClock} (st : LocalBlobStore) (r : BlobRef) (ttl : Z)
    : prog (SR string) :=
  path ←? Ret (resolve st r);
  now ← clock_now;
  exp ←? Ret (ok_or (Blob "expiry overflowed system clock") (expiry (system_nanos now) ttl));
  let msg := path +:+ "|" +:+ show_Z exp in
  let sig := hmac_hex st msg in
  Ret (Ok ("file://" +:+ path +:+ "?exp=" +:+ show_Z exp +:+ "&sig=" +:+ sig)).

#[export] Instance LocalBlobStore_BlobStore `{C : Crypto} `{K : SystemClock} : BlobStore LocalBlobStore := {
  bs_put := local_put;
  bs_get := local_get;
  bs_delete := local_delete;
  bs_sign_url := local_sign_url;
}.

(** The S3 stub ([s3.rs]) panics. *)
Record S3BlobStore := MkS3BlobStore { s3_bucket : string; s3_prefix : string }.
#[export] Instance S3BlobStore_BlobStore : BlobStore S3BlobStore := {
  bs_put _ _ _ := Crash;
  bs_get _ _ := Crash;
  bs_delete _ _ := Crash;
  bs_sign_url _ _ _ := Crash;
}.
End store.
#[global] Arguments key_of {P} _ : simpl never.

(** ** Confinement *)

Definition absolute (p : string) : bool := match p with String "/" _ => true | _ => false end.
Definition segments (p : string) : list Component := concat (segment false <$> split_on "/" p).

Lemma segments_join a b : segments (a +:+ String "/" b) = segments a ++ segments b.
Proof. unfold segments. by rw split_on_app fmap_app concat_app. Qed.
Lemma components_absolute p : absolute p = true → components p = RootDir :: segments p.
Proof.
  destruct p as [|c p]; [done|]. destruct (Ascii.eqb_spec c "/") as [->|Hc].
  - intros _. unfold components, segments. cbn [split_on]. cbn.
    destruct (split_on "/" p) as [|s l] eqn:E; [|done].
    exfalso. destruct p as [|x p]; [done|]. cbn in E. destruct (Ascii.eqb x "/"); [done|].
    by destruct (split_on "/" p).
  - destruct c as [[] [] [] [] [] [] [] []]; done.
Qed.
Lemma segments_relative p :
  absolute p = false → segments p = filter (λ c, c ≠ CurDir) (components p).
Proof.
  intros Hp. assert (∀ l, filter (λ c, c ≠ CurDir) (concat (segment false <$> l)) = concat (segment false <$> l)) as Hl.
  { induction l as [|s l IH]; [done|]. cbn. rw filter_app IH. f_equal. unfold segment.
    destruct (String.eqb s ""); [done|]. destruct (String.eqb s "."); [done|]. by destruct (String.eqb s ".."). }
  unfold segments, components. destruct (split_on "/" p) as [|s l] eqn:E; [done|]. cbn.
  destruct (String.eqb_spec s "") as [->|Hs].
  - destruct l; [done|]. exfalso. destruct p as [|c p]; [done|]. cbn in E.
    destruct (Ascii.eqb_spec c "/") as [->|]; [done|]. by destruct (split_on "/" p).
  - rw filter_app Hl. f_equal. unfold segment. destruct (String.eqb_spec s ""); [done|].
    destruct (String.eqb s "."); [done|]. by destruct (String.eqb s "..").
Qed.
Lemma ends_with_slash_inv s : ends_with_slash s = true → ∃ a, s = a +:+ "/".
Proof.
  induction s as [|c s IH]; [done|]. destruct s as [|d s].
  - cbn. intros ->%Ascii.eqb_eq. by exists "".
  - intros H. destruct (IH H) as [a ->]. exists (String c a). by rw str_app_cons.
Qed.
Lemma components_join root p :
  absolute root = true → absolute p = false →
  components (path_join root p) = components root ++ filter (λ c, c ≠ CurDir) (components p).
Proof.
  intros Hr Hp. rw -segments_relative; [done|].
  assert (segments (path_join root p) = segments root ++ segments p ∧ absolute (path_join root p) = true) as [Hs Ha].
  { assert (path_join root p = if String.eqb root "" || ends_with_slash root then root +:+ p
                               else root +:+ "/" +:+ p) as ->.
    { destruct p as [|c p]; [done|]. destruct c as [[] [] [] [] [] [] [] []]; done. }
    destruct root as [|c root]; [done|]. cbn [String.eqb orb].
    assert (∀ x, absolute (String c root +:+ x) = true) as Habs.
    { intros x. rw str_app_cons. by destruct c as [[] [] [] [] [] [] [] []]. }
    destruct (ends_with_slash (String c root)) eqn:E; (split; [|apply Habs]).
    - destruct (ends_with_slash_inv _ E) as [a ->]. rw -str_app_assoc.
      change ("/" +:+ p) with (String "/" p). change (a +:+ "/") with (a +:+ String "/" "").
      rw !segments_join. by rw app_nil_r.
    - change ("/" +:+ p) with (String "/" p). apply segments_join. }
  by rewrite -> (components_absolute _ Ha), (components_absolute _ Hr), Hs.
Qed.

(** *** The root of a store *)

(** What is left of a path is made of its own names. *)
Lemma resolved_names cs n : n ∈ resolved cs → Normal n ∈ cs.
Proof.
  unfold resolved. assert (∀ acc, n ∈ foldl (λ ns c, match c with
    | RootDir => [] | CurDir => ns | ParentDir => take (pred (length ns)) ns | Normal n => ns ++ [n]
    end) acc cs → n ∈ acc ∨ Normal n ∈ cs) as H.
  { induction cs as [|c cs IH]; intros acc; cbn; [by left|]. intros [Hin|Hin]%IH; [|right; by right].
    destruct c.
    - by apply elem_of_nil in Hin.
    - by left.
    - left. apply elem_of_take in Hin as (i & Hi & _). by eapply list_elem_of_lookup_2.
    - apply elem_of_app in Hin as [? | ->%list_elem_of_singleton]; [by left|right; left]. }
  intros [Hin|?]%H; [by apply elem_of_nil in Hin|done].
Qed.
Definition slash_free (ns : list string) : bool := forallb (str_free "/") ns.
Lemma names_slash_free p : slash_free (names p) = true.
Proof.
  assert (∀ s, Forall (λ s, str_free "/" s = true) (split_on "/" s)) as Hsplit.
  { induction s as [|c s IH]; cbn; [by repeat constructor|].
    destruct (Ascii.eqb c "/") eqn:E; [by constructor|].
    destruct (split_on "/" s) as [|x l]; [by repeat constructor; cbn; rewrite -> E|].
    apply Forall_cons in IH as [Hx Hl]. constructor; [cbn; by rewrite -> E, Hx|done]. }
  assert (∀ b l, Forall (λ s, str_free "/" s = true) l →
    Forall (λ s, str_free "/" s = true)
      (omap (λ c, match c with Normal n => Some n | _ => None end) (concat (segment b <$> l)))) as Hseg.
  { intros b l. induction 1 as [|s l Hs _ IH]; [constructor|]. cbn. rw omap_app. apply Forall_app_2; [|done].
    unfold segment. destruct (String.eqb s ""), (String.eqb s "."), (String.eqb s ".."), b; repeat constructor; done. }
  unfold slash_free, names. apply forallb_forall. intros x Hx. apply list_elem_of_In in Hx.
  revert x Hx. apply Forall_forall. unfold components. pose proof (Hsplit p) as Hp.
  destruct (split_on "/" p) as [|s l]; [constructor|]. inversion Hp as [|? ? Hs Hl]. subst.
  destruct (String.eqb s "").
  - destruct l; [constructor|]. apply (Hseg false). done.
  - rw omap_app. apply Forall_app_2; [|by apply Hseg]. specialize (Hseg true [s]). cbn in Hseg.
    rewrite -> app_nil_r in Hseg. apply Hseg. by repeat constructor.
Qed.
Lemma file_key_split ns : slash_free ns = true → ns ≠ [] → split_on "/" (file_key ns) = "" :: ns.
Proof.
  assert (∀ n l, file_key (n :: l) = "" +:+ String "/" (n +:+ file_key l)) as Hcons by done.
  induction ns as [|n ns IH]; [done|]. cbn [slash_free forallb]. intros [Hn Hns]%andb_true_iff _.
  rw Hcons split_on_app. cbn [split_on app]. f_equal.
  destruct ns as [|n' ns]; [cbn [file_key foldr]; rw str_app_nil_r; by apply split_on_free|].
  specialize (IH Hns ltac:(done)). rewrite -> Hcons, split_on_app in IH. cbn [split_on app] in IH.
  injection IH as IH. rw Hcons str_app_nil_l split_on_app IH. by rewrite -> (split_on_free _ _ Hn).
Qed.
(** A name is neither empty nor a dot. *)
Lemma names_proper p : Forall (λ n, segment false n = [Normal n]) (names p).
Proof.
  assert (∀ b s, Forall (λ n, segment false n = [Normal n])
    (omap (λ c, match c with Normal n => Some n | _ => None end) (segment b s))) as Hseg.
  { intros b s. unfold segment at 2. destruct (String.eqb_spec s ""), (String.eqb_spec s "."),
      (String.eqb_spec s ".."), b; repeat constructor; unfold segment;
      by repeat match goal with |- context [String.eqb ?x ?y] => destruct (String.eqb_spec x y) end. }
  assert (∀ l, Forall (λ n, segment false n = [Normal n])
    (omap (λ c, match c with Normal n => Some n | _ => None end) (concat (segment false <$> l)))) as Hl.
  { induction l as [|s l IH]; [constructor|]. cbn. rw omap_app. by apply Forall_app_2. }
  unfold names, components. destruct (split_on "/" p) as [|s l]; [constructor|].
  destruct (String.eqb s "").
  - destruct l as [|s' l]; [constructor|]. apply (Hl (s' :: l)).
  - rw omap_app. by apply Forall_app_2.
Qed.
Lemma components_key ns :
  slash_free ns = true → Forall (λ n, segment false n = [Normal n]) ns → ns ≠ [] →
  components (file_key ns) = RootDir :: (Normal <$> ns).
Proof.
  intros Hs Hp Hne. unfold components. rw (file_key_split _ Hs Hne). cbn [String.eqb].
  destruct ns as [|n ns]; [done|]. f_equal. clear Hne Hs. generalize (n :: ns) Hp. clear.
  induction 1 as [|n ns Hn _ IH]; [done|]. cbn. by rw Hn IH.
Qed.

Lemma names_absolute p ns : components p = RootDir :: (Normal <$> ns) → names p = ns.
Proof. unfold names. intros ->. cbn. induction ns as [|n ns IH]; [done|]. cbn. by rw IH. Qed.

Section root.
Context {P : Platform}.

(** The root of a store that was opened is absolute and made of names. *)
Lemma opened E cwd root key w w' st :
  run E (LocalBlobStore_new cwd root key) w = (w', Ok (Ok st)) →
  same_world w w' ∧ lb_signing_key st = key ∧
  components (lb_root st) = RootDir :: (Normal <$> names (lb_root st)) ∧ absolute (lb_root st) = true.
Proof.
  unfold LocalBlobStore_new, from_io, fs_create_dir_all, fs_canonicalize. cbn.
  destruct (env_io_ok E _); cbn; [|done]. destruct (env_io_ok E _); cbn; [|done]. intros [= <- <-]. cbn.
  split; [etrans; apply same_world_tick|]. split; [done|]. unfold canonical.
  set (cs := components (path_join cwd root)).
  assert (∀ n, n ∈ resolved cs → n ∈ names (path_join cwd root)) as Hin.
  { intros n Hn%resolved_names. unfold names. apply list_elem_of_omap. by exists (Normal n). }
  destruct (resolved cs) as [|n ns] eqn:Er; [done|]. split; [|done].
  assert (components (file_key (n :: ns)) = RootDir :: (Normal <$> n :: ns)) as Hc.
  2:{ cbn [lb_root]. by rw (names_absolute _ _ Hc). }
  apply components_key; [| |done].
  - apply forallb_forall. intros x Hx%list_elem_of_In%Hin. pose proof (names_slash_free (path_join cwd root)) as Hs.
    unfold slash_free in Hs. rewrite forallb_forall in Hs. by apply Hs, list_elem_of_In.
  - apply Forall_forall. intros x Hx%Hin. pose proof (names_proper (path_join cwd root)) as Hs.
    rewrite -> Forall_forall in Hs. by apply Hs.
Qed.

(** C38: the local store never leaves its root: however the store was opened, a
    reference resolves exactly when it names the local backend and its path is
    relative without a [..], and then to an absolute path of plain names, those of
    the root followed by those of the reference. *)
Theorem resolve_confined E cwd root key w w' st r p :
  run E (LocalBlobStore_new cwd root key) w = (w', Ok (Ok st)) →
  (resolve st r = Ok p ↔
     backend r = BACKEND ∧ p = path_join (lb_root st) (path r) ∧
     RootDir ∉ components (path r) ∧ ParentDir ∉ components (path r)) ∧
  (resolve st r = Ok p → components p = RootDir :: (Normal <$> names (lb_root st) ++ names (path r))).
Proof.
  intros (_ & _ & Eroot & Hroot)%opened.
  assert (∀ l, forallb allowed l = true ↔ RootDir ∉ l ∧ ParentDir ∉ l) as Hall.
  { induction l as [|c l IH]; [split; [split; apply not_elem_of_nil|done]|]. cbn.
    rw andb_true_iff IH !not_elem_of_cons. by destruct c; intuition. }
  assert (∀ l, forallb allowed l = true →
    filter (λ c, c ≠ CurDir) l = Normal <$> omap (λ c, match c with Normal n => Some n | _ => None end) l) as Hnames.
  { induction l as [|c l IH]; [done|]. cbn. intros [Hc Hl]%andb_true_iff.
    destruct c; try done; cbn; by rw (IH Hl). }
  assert (resolve st r = Ok p ↔ backend r = BACKEND ∧ forallb allowed (components (path r)) = true ∧
    p = path_join (lb_root st) (path r)) as Hres.
  { unfold resolve. destruct (String.eqb_spec (backend r) BACKEND); cbn; [|naive_solver].
    destruct (forallb _ _); naive_solver. }
  split.
  - rw Hres Hall. tauto.
  - intros (_ & Ha & ->)%Hres.
    rw components_join; [done| |by rewrite -> (Hnames _ Ha), Eroot, fmap_app].
    destruct (absolute (path r)) eqn:Ep; [|done]. rewrite -> (components_absolute _ Ep) in Ha. done.
Qed.
End root.

(** ** References round trip *)

Lemma lowercase_idem s : str_to_ascii_lowercase (str_to_ascii_lowercase s) = str_to_ascii_lowercase s.
Proof.
  induction s as [|c s IH]; [done|]. cbn. rw IH. f_equal.
  by destruct c as [[] [] [] [] [] [] [] []].
Qed.
Lemma lowercase_free s : str_free "/" s = true → str_free "/" (str_to_ascii_lowercase s) = true.
Proof.
  induction s as [|c b IH]; cbn; [done|]. intros [Hc Hb]%andb_true_iff. rw (IH Hb) andb_true_r.
  clear -Hc. by destruct c as [[] [] [] [] [] [] [] []].
Qed.

(** Parsing a reference's own text gives the reference back exactly when its
    path does not start with another slash: one leading slash is stripped on each
    parse.  The parts of a parsed reference are those of the text, the backend in
    lower case. *)
Lemma blob_ref_round_trip b p r :
  b ≠ "" → str_free "/" b = true → BlobRef_parse ("blob://" +:+ b +:+ "/" +:+ p) = Ok r →
  backend r = str_to_ascii_lowercase b ∧ path r = default p (strip_prefix "/" p) ∧
  (BlobRef_parse (blob_uri r) = Ok r ↔ absolute (path r) = false).
Proof.
  intros Hb Hf.
  assert (∀ b p, str_free "/" b = true → BlobRef_parse ("blob://" +:+ b +:+ "/" +:+ p) = BlobRef_new b p) as Hparse.
  { intros b0 p0 H0. unfold BlobRef_parse. rw strip_prefix_app. cbn [ok_or mbind res_bind].
    change ("/" +:+ p0) with (String "/" p0). by rw split_once_app. }
  rw Hparse; [done|]. intros Hnew. destruct (ref_new_parts _ _ _ Hnew Hf) as [Eb Ep].
  split; [done|]. split; [done|]. rw Ep.
  unfold BlobRef_new in Hnew. destruct (String.eqb_spec b ""); [done|].
  assert (r = MkBlobRef ("blob://" +:+ str_to_ascii_lowercase b +:+ "/" +:+ default p (strip_prefix "/" p))) as ->
    by congruence.
  cbn [blob_uri]. rw Hparse; [by apply lowercase_free|]. unfold BlobRef_new.
  destruct (String.eqb_spec (str_to_ascii_lowercase b) "") as [E|_]; [by destruct b|].
  rw lowercase_idem. generalize (default p (strip_prefix "/" p)) as q. intros q.
  destruct (absolute q) eqn:Ea.
  - split; [|done]. destruct q as [|c q]; [done|].
    assert (c = "/"%char) as -> by (clear -Ea; by destruct c as [[] [] [] [] [] [] [] []]).
    assert (strip_prefix "/" (String "/" q) = Some q) as -> by (by destruct q).
    cbn [default]. intros H1. injection H1 as H1. apply (f_equal String.length) in H1.
    rewrite -> !str_app_length in H1. cbn in H1. lia.
  - split; [done|]. intros _. destruct q as [|c q]; [done|].
    assert (strip_prefix "/" (String c q) = None) as ->; [|done].
    clear -Ea. by destruct c as [[] [] [] [] [] [] [] []].
Qed.

#[global] Arguments BlobRef_new : simpl never.
#[global] Arguments path_join : simpl never.
#[global] Arguments file_key : simpl never.
#[global] Arguments names : simpl never.

(** ** The local store is a map *)

Inductive BlobOp := BPut (content content_type : string) | BGet (r : BlobRef) | BDelete (r : BlobRef).
Inductive BlobAnswer := Stored (r : BlobRef) | Bytes (content : string) | Deleted | BlobFailed (e : StoreError).

(** What a store promises: [m] has the bytes under the names of a reference's path. *)
Inductive blob_step (m : list string → option string) :
    BlobOp → BlobAnswer → (list string → option string) → Prop :=
  | step_put c ct r m' :
      m (names (path r)) = None →
      (∀ ns, m' ns = if bool_decide (ns = names (path r)) then Some c else m ns) →
      blob_step m (BPut c ct) (Stored r) m'
  | step_get r c m' :
      m (names (path r)) = Some c → (∀ ns, m' ns = m ns) → blob_step m (BGet r) (Bytes c) m'
  | step_delete r m' :
      (∀ ns, m' ns = if bool_decide (ns = names (path r)) then None else m ns) →
      blob_step m (BDelete r) Deleted m'
  | step_put_failed c ct e ns left rest m' :
      m ns = None → c = left +:+ rest →
      (∀ ns', m' ns' = if bool_decide (ns' = ns) then Some left else m ns') →
      blob_step m (BPut c ct) (BlobFailed e) m'
  | step_failed op e m' : (∀ ns, m' ns = m ns) → blob_step m op (BlobFailed e) m'.

Section refinement.
Context `{P : Platform} {L : PlatformLaws P} (st : LocalBlobStore) (Hroot : absolute (lb_root st) = true).
Implicit Types (w : World) (E : Env).

Definition answer {A} (f : A → BlobAnswer) (p : prog (SR A)) : prog BlobAnswer :=
  r ← p; match r with Ok a => Ret (f a) | Err e => Ret (BlobFailed e) | Panic => Crash end.
Definition blob_exec (op : BlobOp) : prog BlobAnswer :=
  match op with
  | BPut c ct => answer Stored (local_put st c ct)
  | BGet r => answer Bytes (local_get st r)
  | BDelete r => answer (λ _, Deleted) (local_delete st r)
  end.

Definition contents w (ns : list string) : option string :=
  if slash_free ns then w_files w !! file_key (names (lb_root st) ++ ns) else None.
(** No file has the name of a blob that is still to come. *)
Definition keys_fresh w : Prop := ∀ n, (w_step w ≤ n)%nat → contents w [key_of n] = None.

Lemma file_key_inj ns ns' :
  slash_free ns = true → slash_free ns' = true → file_key ns = file_key ns' → ns = ns'.
Proof.
  intros H H' E. destruct ns as [|n ns], ns' as [|n' ns']; try done.
  apply (f_equal (split_on "/")) in E. rewrite -> !file_key_split in E by done. congruence.
Qed.
Lemma slash_free_app a b : slash_free (a ++ b) = slash_free a && slash_free b.
Proof. apply forallb_app. Qed.

(** A write or a removal under the root, seen through [contents]. *)
Lemma contents_alter f w w' ns :
  slash_free ns = true →
  (∀ k, w_files w' !! k = if bool_decide (k = file_key (names (lb_root st) ++ ns)) then f else w_files w !! k) →
  ∀ ns', contents w' ns' = if bool_decide (ns' = ns) then f else contents w ns'.
Proof.
  intros Hns Hw ns'. unfold contents. destruct (slash_free ns') eqn:E.
  - rw Hw. repeat case_bool_decide; try done; subst; [|done].
    match goal with H : file_key _ = file_key _ |- _ =>
      apply file_key_inj in H; [by apply app_inv_head in H|by rw slash_free_app names_slash_free..] end.
  - case_bool_decide; [|done]. subst. congruence.
Qed.

Lemma names_join p : absolute p = false → names (path_join (lb_root st) p) = names (lb_root st) ++ names p.
Proof.
  intros Hp. unfold names. rw components_join; [done..|]. rw omap_app. f_equal.
  generalize (components p) as l. induction l as [|c l IH]; [done|].
  rw filter_cons. destruct c; cbn; try case_decide; cbn; by rewrite -> ?IH.
Qed.
Lemma key_shape n : ∃ s, key_of n = "blob_" +:+ s ∧ str_free "/" (key_of n) = true.
Proof.
  destruct (ti_to_string_shape (new_typeid "blob" n)) as [s Hs]; [by rw ti_prefix_create|].
  exists s. unfold key_of. split; [by rw Hs ti_prefix_create|].
  pose proof (ti_to_string_text (new_typeid "blob" n)) as Ht. specialize (Ht ltac:(by rewrite ti_prefix_create)).
  revert Ht. generalize (ti_to_string (new_typeid "blob" n)) as t.
  induction t as [|c t IH]; [done|]. cbn. intros [Hc Ht]%andb_true_iff. rw (IH Ht) andb_true_r.
  clear -Hc. by destruct c as [[] [] [] [] [] [] [] []].
Qed.
Lemma names_key n : names (key_of n) = [key_of n] ∧ absolute (key_of n) = false.
Proof.
  destruct (key_shape n) as (s & E & Hf). unfold names, components. rw split_on_free; [done|].
  rw E. split; [|done]. unfold segment.
  change ("blob_" +:+ s) with (String "b" (String "l" (String "o" (String "b" (String "_" s))))). done.
Qed.
Lemma key_inj n n' : key_of n = key_of n' → n = n'.
Proof. intros H%ti_to_string_inj. by apply ti_create_fresh in H. Qed.
Lemma key_ref n : ∃ r, BlobRef_new BACKEND (key_of n) = Ok r ∧ backend r = BACKEND ∧ path r = key_of n.
Proof.
  assert (∃ r, BlobRef_new BACKEND (key_of n) = Ok r) as [r Hr] by (by eexists).
  exists r. split; [done|]. destruct (ref_new_parts _ _ _ Hr eq_refl) as [-> ->]. split; [done|].
  destruct (key_shape n) as (s & -> & _). done.
Qed.
Lemma resolve_names r p :
  resolve st r = Ok p → names p = names (lb_root st) ++ names (path r) ∧ slash_free (names (path r)) = true.
Proof.
  unfold resolve. destruct (String.eqb _ _); cbn; [|done]. destruct (forallb _ _) eqn:Ha; [|done].
  intros [= <-]. split; [|apply names_slash_free]. apply names_join.
  destruct (absolute (path r)) eqn:E; [|done]. rewrite -> (components_absolute _ E) in Ha. done.
Qed.

Lemma resolve_never_panics r : resolve st r ≠ Panic.
Proof. unfold resolve. destruct (negb _); [done|]. by destruct (forallb allowed _). Qed.

(** The world but for the files. *)
Record only_files w w' : Prop := {
  of_db : w_db w' = w_db w;
  of_bus : w_bus w' = w_bus w;
  of_sink : w_sink w' = w_sink w;
  of_blobs : w_blobs w' = w_blobs w;
  of_step : (w_step w ≤ w_step w')%nat;
}.
Definition refines w op (w' : World) (out : res CoreError BlobAnswer) : Prop :=
  ∃ a, out = Ok a ∧ blob_step (contents w) op a (contents w') ∧ keys_fresh w' ∧ only_files w w'.

Ltac only_files_still := split; cbn; first [done | lia].
Lemma refines_still w op w' a :
  keys_fresh w → w_files w' = w_files w → only_files w w' →
  blob_step (contents w) op a (contents w') → refines w op w' (Ok a).
Proof.
  intros Hk Hf Ho Hs. exists a. split; [done|]. split; [done|]. split; [|done].
  intros n Hn. specialize (Hk n ltac:(destruct Ho; lia)). unfold contents in *. by rw Hf.
Qed.
Lemma contents_files w w' : w_files w' = w_files w → ∀ ns, contents w' ns = contents w ns.
Proof. intros H ns. unfold contents. by rw H. Qed.

Ltac still_failed := apply refines_still; [done|done|only_files_still|apply step_failed; by try apply contents_files].
Lemma put_refines E c ct w :
  keys_fresh w → let '(w', out) := run E (blob_exec (BPut c ct)) w in refines w (BPut c ct) w' out.
Proof.
  intros Hk. cbn [blob_exec]. unfold answer, local_put, blob_key, from_io, fs_create_dir_all, fs_write. cbn.
  destruct (key_ref (w_step w)) as (r & Hr & Hb & Hp).
  destruct (names_key (w_step w)) as [Hn Ha].
  destruct (env_io_ok E _); cbn; [|by still_failed].
  match goal with |- context [blocked ?w ?ns] => destruct (blocked w ns) end; cbn; [by still_failed|].
  assert (∀ bytes w', w' = add_file (file_key (names (path_join (lb_root st) (key_of (w_step w))))) bytes
      (tick (tick (tick w))) →
    (∀ ns, contents w' ns = if bool_decide (ns = names (path r)) then Some bytes else contents w ns) ∧
    keys_fresh w' ∧ only_files w w') as Hadd.
  { intros bytes w' Ew. assert (∀ ns, contents w' ns =
      if bool_decide (ns = names (path r)) then Some bytes else contents w ns) as Hw';
      [|split; [exact Hw'|rewrite -> Ew in *; split; [|only_files_still]]].
    - apply contents_alter; [apply names_slash_free|]. intros k. rewrite -> Ew. cbn. rw (names_join _ Ha) Hp.
      case_bool_decide as E0; [subst; by rewrite lookup_insert_eq|]. by rewrite lookup_insert_ne.
    - intros n Hm. rw Hw' Hp Hn. cbn in Hm. case_bool_decide as E0; [|apply Hk; lia].
      injection E0 as E0%key_inj. lia. }
  assert (contents w (names (path r)) = None) as Hnone by (rw Hp Hn; by apply Hk).
  destruct (env_io_ok E _); cbn.
  - rw Hr. cbn. destruct (Hadd c _ eq_refl) as (Hw' & ? & ?).
    exists (Stored r). split; [done|]. split; [by apply step_put|done].
  - unfold io_left. cbn. destruct (env_io_left E _) as [n|]; [|by still_failed].
    destruct (Hadd (String.substring 0 n c) _ eq_refl) as (Hw' & ? & ?).
    destruct (substring_prefix n c) as [rest Hrest].
    eexists. split; [done|]. split; [|done]. by eapply step_put_failed.
Qed.
Lemma get_refines E r w :
  keys_fresh w → let '(w', out) := run E (blob_exec (BGet r)) w in refines w (BGet r) w' out.
Proof.
  intros Hk. cbn [blob_exec]. unfold answer, local_get, from_io, fs_read.
  destruct (resolve st r) as [p|e|] eqn:Er; cbn.
  - destruct (resolve_names _ _ Er) as [Hn Hs].
    destruct (env_io_ok E _); cbn; [|by still_failed].
    destruct (w_files w !! file_key (names p)) as [c|] eqn:Ef; cbn.
    + apply refines_still; [done..|only_files_still|].
      apply step_get; [|done]. unfold contents. by rewrite -> Hs, <- Hn.
    + by still_failed.
  - by still_failed.
  - by apply resolve_never_panics in Er.
Qed.
Lemma delete_refines E r w :
  keys_fresh w → let '(w', out) := run E (blob_exec (BDelete r)) w in refines w (BDelete r) w' out.
Proof.
  intros Hk. cbn [blob_exec]. unfold answer, local_delete, fs_remove_file.
  destruct (resolve st r) as [p|e|] eqn:Er; cbn;
    [|by still_failed|by apply resolve_never_panics in Er].
  destruct (resolve_names _ _ Er) as [Hn Hs].
  destruct (env_io_ok E _); cbn; [|by still_failed].
  destruct (w_files w !! file_key (names p)) as [c|] eqn:Ef; cbn.
  - set (w' := remove_file _ _).
    assert (∀ ns, contents w' ns = if bool_decide (ns = names (path r)) then None else contents w ns) as Hw'.
    { apply contents_alter; [done|]. intros k. cbn. rw Hn.
      case_bool_decide as E0; [subst; by rewrite lookup_delete_eq|]. by rewrite lookup_delete_ne. }
    exists Deleted. split; [done|]. split; [by apply step_delete|]. split; [|only_files_still].
    intros n Hm. rw Hw'. case_bool_decide; [done|]. apply Hk. cbn in Hm. lia.
  - match goal with |- context [blocked ?w ?ns] => destruct (blocked w ns) end; cbn; [by still_failed|].
    apply refines_still; [done..|only_files_still|]. apply step_delete. intros ns.
    rw (contents_files w); [done|]. case_bool_decide as E0; [|done].
    subst ns. unfold contents. by rewrite -> Hs, <- Hn.
Qed.


(** *** What was stored stays *)

Fixpoint exec_all (ops : list BlobOp) : prog () :=
  match ops with [] => Ret () | op :: ops => _ ← blob_exec op; exec_all ops end.
Definition deletes (ns : list string) (op : BlobOp) : bool :=
  match op with BDelete r => bool_decide (names (path r) = ns) | _ => false end.

Lemma step_keeps m op a m' ns c :
  blob_step m op a m' → deletes ns op = false → m ns = Some c → m' ns = Some c.
Proof.
  intros Hs Hd Hm. destruct Hs as [c' ct r m' Hnone Hm'|r c' m' _ Hm'|r m' Hm'|c' ct e ns' ? ? m' Hnone _ Hm'|op e m' Hm'];
    rw Hm'; try done.
  - destruct (bool_decide_reflect (ns = names (path r))); [congruence|done].
  - cbn in Hd. destruct (bool_decide_reflect (ns = names (path r))) as [->|]; [|done].
    by rewrite bool_decide_true in Hd.
  - destruct (bool_decide_reflect (ns = ns')); [congruence|done].
Qed.
Lemma exec_all_keeps E ops ns c w :
  keys_fresh w → forallb (λ op, negb (deletes ns op)) ops = true → contents w ns = Some c →
  keys_fresh (run E (exec_all ops) w).1 ∧ contents (run E (exec_all ops) w).1 ns = Some c.
Proof.
  revert w. induction ops as [|op ops IH]; intros w Hk Hd Hc; [done|].
  cbn in Hd. apply andb_true_iff in Hd as [Hop Hd]. cbn [exec_all]. rw run_bind.
  assert (let '(w', out) := run E (blob_exec op) w in refines w op w' out) as H
    by (destruct op; [by apply put_refines|by apply get_refines|by apply delete_refines]).
  destruct (run E (blob_exec op) w) as [w1 out]. destruct H as (a & -> & Hs & Hk' & _).
  apply IH; [done..|]. eapply step_keeps; [done| |done]. by apply negb_true_iff.
Qed.

Lemma put_ref E content content_type w w1 r :
  run E (local_put st content content_type) w = (w1, Ok (Ok r)) → ∃ p, resolve st r = Ok p.
Proof.
  unfold local_put, blob_key, from_io, fs_create_dir_all, fs_write. cbn.
  destruct (key_ref (w_step w)) as (r' & Hr & Hb & Hp).
  destruct (env_io_ok E _); cbn; [|done].
  match goal with |- context [blocked ?w ?ns] => destruct (blocked w ns) end; cbn; [done|].
  destruct (env_io_ok E _); cbn; [|done].
  rw Hr. intros [= _ <-]. eexists. unfold resolve. rw Hb Hp. cbn.
  assert (components (key_of (w_step w)) = [Normal (key_of (w_step w))]) as ->; [|done].
  destruct (key_shape (w_step w)) as (s & E0 & Hf). unfold components. rw split_on_free; [done|]. rw E0.
  change ("blob_" +:+ s) with (String "b" (String "l" (String "o" (String "b" (String "_" s))))). done.
Qed.

(** What was stored can be read back: a [put] that answered a reference, then any
    operations on the store, but for a delete of those names, then a [get] of the
    reference answers the bytes, as soon as the file system does. *)
Lemma put_get_round_trip E content content_type ops w w1 w2 r :
  keys_fresh w →
  run E (local_put st content content_type) w = (w1, Ok (Ok r)) →
  forallb (λ op, negb (deletes (names (path r)) op)) ops = true →
  (run E (exec_all ops) w1).1 = w2 → env_io_ok E (w_step w2) = true →
  (run E (local_get st r) w2).2 = Ok (Ok content).
Proof.
  intros Hk Hput Hd Hw2 Hio.
  pose proof (put_refines E content content_type w Hk) as H. cbn [blob_exec] in H. unfold answer in H.
  rewrite -> run_bind, Hput in H. cbn in H. destruct H as (a & [= <-] & Hs & Hk1 & _).
  assert (contents w1 (names (path r)) = Some content) as Hc.
  { inversion Hs as [? ? ? ? _ Hm'|? ? ? _ _|? ? _|? ? ? ? ? ? ? _ _ _|? ? ? _]; subst. rw Hm'. by case_bool_decide. }
  destruct (exec_all_keeps E ops _ _ _ Hk1 Hd Hc) as [_ Hc2]. rewrite -> Hw2 in Hc2.
  destruct (put_ref _ _ _ _ _ _ Hput) as [p Hp]. destruct (resolve_names _ _ Hp) as [Hn Hsf].
  unfold contents in Hc2. rewrite -> Hsf, <- Hn in Hc2.
  unfold local_get, from_io, fs_read. rw Hp. cbn. by rw Hio Hc2.
Qed.
End refinement.

(** *** Concrete instances *)

#[local] Existing Instance Concrete.platform.
#[local] Existing Instance Concrete.platform_laws.

Definition fx_store : LocalBlobStore := MkLocalBlobStore "/var/blobs" "key".
Definition fx_root_world : World := MkWorld (w_db (fx_world Draft)) 0 [] ∅ [] ∅.
Definition fx_ref : BlobRef := MkBlobRef "blob://local/2026/./a.html".
Definition fx_escape : BlobRef := MkBlobRef "blob://local/../../etc/passwd".
Definition fx_stored : BlobRef := MkBlobRef ("blob://local/" +:+ key_of 0).

Lemma fx_opened :
  run fx_env (LocalBlobStore_new "/srv" "../var/./blobs/" (lb_signing_key fx_store)) fx_root_world =
    (tick (tick fx_root_world), Ok (Ok fx_store)).
Proof. reflexivity. Qed.
Lemma resolve_confined_witness :
  BlobRef_parse "blob://LOCAL//2026/./a.html" = Ok fx_ref ∧
  resolve fx_store fx_ref = Ok "/var/blobs/2026/./a.html" ∧
  components "/var/blobs/2026/./a.html" = (RootDir :: (Normal <$> ["var"; "blobs"; "2026"; "a.html"])) ∧
  resolve fx_store fx_escape ≠ Ok "/var/blobs/../../etc/passwd".
Proof.
  split; [done|]. split; [|split].
  - apply (resolve_confined _ _ _ _ _ _ _ _ _ fx_opened). split; [done|]. split; [done|].
    by split; apply (bool_decide_unpack _); vm_compute.
  - by apply (resolve_confined _ _ _ _ _ _ fx_store fx_ref _ fx_opened).
  - intros (_ & _ & _ & Hp)%(resolve_confined _ _ _ _ _ _ _ _ _ fx_opened). apply Hp.
    by apply (bool_decide_unpack _); vm_compute.
Defined.

Lemma blob_ref_round_trip_witness :
  ∃ r r', BlobRef_parse "blob://Local/x" = Ok r ∧ path r = "x" ∧ BlobRef_parse (blob_uri r) = Ok r ∧
    BlobRef_parse "blob://Local///x" = Ok r' ∧ path r' = "/x" ∧ BlobRef_parse (blob_uri r') ≠ Ok r'.
Proof.
  exists (MkBlobRef "blob://local/x"), (MkBlobRef "blob://local//x").
  pose proof (blob_ref_round_trip "Local" "x" (MkBlobRef "blob://local/x") ltac:(done) eq_refl eq_refl) as (_ & Hp & H).
  pose proof (blob_ref_round_trip "Local" "//x" (MkBlobRef "blob://local//x") ltac:(done) eq_refl eq_refl)
    as (_ & Hp' & H').
  split; [done|]. split; [done|]. split; [by apply H|]. split; [done|]. split; [done|].
  by intros E%H'.
Defined.

Lemma fx_keys_fresh : keys_fresh fx_store fx_root_world.
Proof. intros n _. unfold contents. by destruct (slash_free _). Qed.

Definition fx_uri (o : res CoreError (SR BlobRef)) : string := match o with Ok (Ok r) => blob_uri r | _ => "" end.
Lemma fx_put_run :
  (run fx_env (local_put fx_store "bytes" "text/html") fx_root_world).2 = Ok (Ok fx_stored).
Proof.
  assert (fx_uri (run fx_env (local_put fx_store "bytes" "text/html") fx_root_world).2 = blob_uri fx_stored)
    as H by (by vm_compute).
  unfold fx_uri in H. destruct (_.2) as [[r| |]| |]; [|done..]. destruct r. by cbn in H; subst.
Qed.
Lemma fx_put_out :
  (run fx_env (blob_exec fx_store (BPut "bytes" "text/html")) fx_root_world).2 = Ok (Stored fx_stored).
Proof.
  pose proof fx_put_run as H. cbn [blob_exec]. unfold answer. rw run_bind.
  destruct (run fx_env (local_put fx_store "bytes" "text/html") fx_root_world) as [w1 out]. by cbn in H; subst.
Qed.


(** Two blobs are stored and the second deleted before the first is read. *)
Definition fx_ops : list BlobOp :=
  [BPut "other" "text/html"; BDelete (MkBlobRef ("blob://local/" +:+ key_of 3)); BGet fx_stored].
Lemma put_get_round_trip_witness :
  let w1 := (run fx_env (local_put fx_store "bytes" "text/html") fx_root_world).1 in
  let w2 := (run fx_env (exec_all fx_store fx_ops) w1).1 in
  (run fx_env (local_get fx_store fx_stored) w2).2 = Ok (Ok "bytes").
Proof.
  cbv zeta.
  eapply (put_get_round_trip fx_store eq_refl fx_env "bytes" "text/html" fx_ops);
    [apply fx_keys_fresh| |by vm_compute|done|done].
  rewrite -> (surjective_pairing (run fx_env (local_put fx_store "bytes" "text/html") fx_root_world)). by rewrite -> fx_put_run.
Defined.
