(* ===== verification/Outbox.v ===== *)
(** * The outbox relay ([bus/src/outbox.rs])

    History rows double as an outbox: a pass of the relay reads the rows of
    both history tables that have no [published_at], publishes the events of
    each row and then marks it.  The two tables are handled alike, so the pass
    is written once over an [OutboxTable]. *)

From S2P Require Import Prelude External Concrete Money Ids Domain InvoiceFsm CreditNoteFsm Events.
From S2P Require Import Store Command Effects Transition Invariant Evolution World Fixtures.
From Stdlib Require Import Lqa.

Inductive RelayError := RelayPublish (e : PublishError) | RelayStore (e : StoreError).

Record OutboxStats := MkOutboxStats { rows_processed : Z; events_published : Z }.

Section outbox.
Context `{P : Platform}.

(** ** Rows to events *)

(** The [Pay] amounts are stand-ins that classify as the row's state. *)
Definition reconstruct_invoice_event (tag : string) (to_state : InvoiceState) : option InvoiceEvent :=
  if String.eqb tag "issue" then Some Issue
  else if String.eqb tag "send" then Some Send
  else if String.eqb tag "remind" then Some Remind
  else if String.eqb tag "view" then Some View
  else if String.eqb tag "pay" then
    match to_state with
    | Paid => Some (Pay dec_one dec_one)
    | PartiallyPaid => Some (Pay dec_one (dec_new 2 0))
    | _ => None
    end
  else if String.eqb tag "void" then Some Void
  else None.

Definition TOPIC_INVOICE_DRAFTED : string := "inv.billing.invoice.drafted".
Definition TOPIC_INVOICE_ISSUED : string := "inv.billing.invoice.issued".
Definition TOPIC_INVOICE_SENT : string := "inv.billing.invoice.sent".
Definition TOPIC_INVOICE_VIEWED : string := "inv.billing.invoice.viewed".
Definition TOPIC_INVOICE_PAID : string := "inv.billing.invoice.paid".
Definition TOPIC_INVOICE_PARTIALLY_PAID : string := "inv.billing.invoice.partially_paid".
Definition TOPIC_INVOICE_VOIDED : string := "inv.billing.invoice.voided".
Definition TOPIC_CREDITNOTE_DRAFTED : string := "inv.billing.creditnote.drafted".
Definition TOPIC_CREDITNOTE_ISSUED : string := "inv.billing.creditnote.issued".

Definition invoice_domain_topic (tag : string) (to_state : InvoiceState) : option string :=
  match to_state with
  | Draft => if String.eqb tag "draft" then Some TOPIC_INVOICE_DRAFTED else None
  | Issued => if String.eqb tag "issue" then Some TOPIC_INVOICE_ISSUED else None
  | Sent => if String.eqb tag "send" then Some TOPIC_INVOICE_SENT else None
  | Viewed => if String.eqb tag "view" then Some TOPIC_INVOICE_VIEWED else None
  | Paid => if String.eqb tag "pay" then Some TOPIC_INVOICE_PAID else None
  | PartiallyPaid => if String.eqb tag "pay" then Some TOPIC_INVOICE_PARTIALLY_PAID else None
  | Voided => if String.eqb tag "void" then Some TOPIC_INVOICE_VOIDED else None
  end.

Definition invoice_domain_payload (row : InvoiceStateHistory) : json :=
  JObj [("invoice_id", JStr (id_to_string (h_invoice_id row)));
        ("from_state", jopt (InvoiceState_str <$> h_from_state row));
        ("to_state", JStr (InvoiceState_str (h_to_state row)));
        ("event", JStr (h_event row));
        ("actor", jopt (h_actor row));
        ("channel", JStr (HistoryChannel_str (h_channel row)));
        ("occurred_at", JStr (dt_serialize (h_occurred_at row)));
        ("reason", jopt (h_reason row))].

(** The mechanic triplet of a transition. *)
Definition invoice_triplet (row : InvoiceStateHistory) (from : InvoiceState) (ev : InvoiceEvent)
    : list (string * json) :=
  [(Events.TOPIC_PROPOSED, InvoiceProposed_json (MkInvoiceProposed (h_invoice_id row) from
      (h_to_state row) ev (h_actor row) (h_channel row) (h_occurred_at row)));
   (Events.TOPIC_TRANSITIONED, InvoiceTransitioned_json (MkInvoiceTransitioned (h_invoice_id row)
      from (h_to_state row) ev (h_actor row) (h_channel row) (h_occurred_at row)));
   (Events.TOPIC_ENTERED, InvoiceEntered_json (MkInvoiceEntered (h_invoice_id row)
      (h_to_state row) (h_channel row) (h_actor row) (h_occurred_at row)))].

Definition domain_event {A} (topic : option string) (payload : A → json) (row : A)
    : list (string * json) :=
  match topic with Some t => [(t, payload row)] | None => [] end.

Definition invoice_row_to_events (row : InvoiceStateHistory) : list (string * json) :=
  (if bool_decide (h_from_state row = Some (h_to_state row)) then []
   else match h_from_state row with
   | None => []
   | Some from =>
       match reconstruct_invoice_event (h_event row) (h_to_state row) with
       | Some ev => invoice_triplet row from ev
       | None => []
       end
   end) ++
  domain_event (invoice_domain_topic (h_event row) (h_to_state row)) invoice_domain_payload row.

Definition credit_note_domain_topic (tag : string) (to_state : CreditNoteState) : option string :=
  match to_state with
  | CnDraft => if String.eqb tag "draft" then Some TOPIC_CREDITNOTE_DRAFTED else None
  | CnIssued => if String.eqb tag "issue" then Some TOPIC_CREDITNOTE_ISSUED else None
  end.

Definition credit_note_domain_payload (row : CreditNoteStateHistory) : json :=
  JObj [("credit_note_id", JStr (id_to_string (cnh_credit_note_id row)));
        ("from_state", jopt (CreditNoteState_str <$> cnh_from_state row));
        ("to_state", JStr (CreditNoteState_str (cnh_to_state row)));
        ("event", JStr (cnh_event row));
        ("actor", jopt (cnh_actor row));
        ("channel", JStr (HistoryChannel_str (cnh_channel row)));
        ("occurred_at", JStr (dt_serialize (cnh_occurred_at row)))].

Definition credit_note_triplet (row : CreditNoteStateHistory) (from : CreditNoteState)
    : list (string * json) :=
  let ev := CreditNoteFsm.CnIssue in
  [(CnTopics.TOPIC_PROPOSED, CreditNoteProposed_json (MkCreditNoteProposed (cnh_credit_note_id row)
      from (cnh_to_state row) ev (cnh_actor row) (cnh_channel row) (cnh_occurred_at row)));
   (CnTopics.TOPIC_TRANSITIONED, CreditNoteTransitioned_json (MkCreditNoteTransitioned
      (cnh_credit_note_id row) from (cnh_to_state row) ev (cnh_actor row) (cnh_channel row)
      (cnh_occurred_at row)));
   (CnTopics.TOPIC_ENTERED, CreditNoteEntered_json (MkCreditNoteEntered (cnh_credit_note_id row)
      (cnh_to_state row) (cnh_channel row) (cnh_actor row) (cnh_occurred_at row)))].

Definition credit_note_row_to_events (row : CreditNoteStateHistory) : list (string * json) :=
  (if bool_decide (cnh_from_state row = Some (cnh_to_state row)) then []
   else match cnh_from_state row with
   | None => []
   | Some from => credit_note_triplet row from
   end) ++
  domain_event (credit_note_domain_topic (cnh_event row) (cnh_to_state row))
    credit_note_domain_payload row.

(** ** The pass *)

(** What the relay needs of a history table. *)
Record OutboxTable := {
  ot_row : Type;
  ot_id : ot_row → string;
  ot_events : ot_row → list (string * json);
  ot_occurred_at : ot_row → DateTime;
  ot_pending : Z → Db → SR (list ot_row);
  ot_mark : DateTime → ot_row → Db → Db;
}.

Definition invoice_outbox : OutboxTable := {|
  ot_id h := id_to_string (h_id h);
  ot_events := invoice_row_to_events;
  ot_occurred_at := h_occurred_at;
  ot_pending := history_pending_outbox;
  ot_mark now h := history_mark_published now (h_id h);
|}.
Definition credit_note_outbox : OutboxTable := {|
  ot_id h := id_to_string (cnh_id h);
  ot_events := credit_note_row_to_events;
  ot_occurred_at := cnh_occurred_at;
  ot_pending := cn_history_pending_outbox;
  ot_mark now h := cn_history_mark_published now (cnh_id h);
|}.

Definition publish_one (at_ : DateTime) (stats : OutboxStats) (e : string * json)
    : prog (res RelayError OutboxStats) :=
  _ ←? try_conv RelayPublish (publish_try e.1 e.2 at_);
  Ret (Ok (MkOutboxStats (rows_processed stats) (events_published stats + 1))).

Definition relay_row (t : OutboxTable) (stats : OutboxStats) (row : ot_row t)
    : prog (res RelayError OutboxStats) :=
  stats ←? try_foldM (publish_one (ot_occurred_at t row)) stats (ot_events t row);
  now ← clock_now;
  _ ←? try_conv RelayStore (db_try_exec (λ d, Ok (ot_mark t now row d)));
  Ret (Ok (MkOutboxStats (rows_processed stats + 1) (events_published stats))).

Definition relay_table (t : OutboxTable) (limit : Z) (stats : OutboxStats)
    : prog (res RelayError OutboxStats) :=
  pending ←? try_conv RelayStore (db_try (ot_pending t limit));
  try_foldM (relay_row t) stats pending.

Definition run_outbox_relay (limit : Z) : prog (res RelayError OutboxStats) :=
  stats ←? relay_table invoice_outbox limit (MkOutboxStats 0 0);
  relay_table credit_note_outbox limit stats.
End outbox.

(** ** One table *)

Section table.
Context {P : Platform}.
Implicit Types (E : Env) (w : World).

(** The messages of a row. *)
Definition row_msgs (t : OutboxTable) (r : ot_row t) : list BusMessage :=
  (λ e, MkBusMessage e.1 e.2 (ot_occurred_at t r)) <$> ot_events t r.

(** A history table as a part of the database whose rows have a [published_at]. *)
Class OutboxLaws (t : OutboxTable) := {
  ot_rows : Db → list (ot_row t);
  ot_put : list (ot_row t) → Db → Db;
  ot_publish : DateTime → ot_row t → ot_row t;
  ot_published : ot_row t → bool;
  ot_rows_put l d : ot_rows (ot_put l d) = l;
  ot_put_put l l' d : ot_put l (ot_put l' d) = ot_put l d;
  ot_put_rows d : ot_put (ot_rows d) d = d;
  ot_publish_id now r : ot_id t (ot_publish now r) = ot_id t r;
  ot_publish_publish now now' r : ot_publish now (ot_publish now' r) = ot_publish now r;
  ot_mark_rows now r d :
    ot_mark t now r d =
      ot_put ((λ h, if String.eqb (ot_id t h) (ot_id t r) then ot_publish now h else h) <$> ot_rows d) d;
  ot_pending_rows n d : ∃ l, l ≡ₚ List.filter (λ h, negb (ot_published h)) (ot_rows d) ∧
    ot_pending t n d = Ok (if n <? 0 then l else take (Z.to_nat n) l);
}.

Context (t : OutboxTable) `{TL : !OutboxLaws t}.
Implicit Types (r h : ot_row t) (stats : OutboxStats).

(** Row [h] became [h'] while [msgs] were accepted: it is as it was, or it is
    newly published and all its messages were accepted. *)
Definition kept (msgs : list BusMessage) h h' : Prop :=
  h' = h ∨ (ot_published h = false ∧ (∃ now, h' = ot_publish now h) ∧ row_msgs t h ⊆ msgs).

(** From [w] to [w']: some messages were accepted, and only rows of this table
    whose messages are among them were marked. *)
Definition relayed w w' : Prop :=
  ∃ msgs hs, w_bus w' = w_bus w ++ msgs ∧ w_db w' = ot_put hs (w_db w) ∧
    Forall2 (kept msgs) (ot_rows (w_db w)) hs.

(** The rows [done] were relayed completely. *)
Definition marked (don : list (ot_row t)) h h' : Prop :=
  if bool_decide (ot_id t h ∈ ot_id t <$> don) then ∃ now, h' = ot_publish now h else h' = h.

Definition exactly (don : list (ot_row t)) stats w w' stats' : Prop :=
  w_bus w' = w_bus w ++ concat (row_msgs t <$> don) ∧
  (∃ hs, w_db w' = ot_put hs (w_db w) ∧ Forall2 (marked don) (ot_rows (w_db w)) hs) ∧
  stats' = MkOutboxStats (rows_processed stats + Z.of_nat (length don))
             (events_published stats + Z.of_nat (length (concat (row_msgs t <$> don)))).

Definition healthy E : Prop := (∀ n, env_db_ok E n = true) ∧ (∀ n, env_publish_ok E n = true).

(** Rows that are pending: distinct, stored and unpublished. *)
Definition pending_in (d : Db) (l : list (ot_row t)) : Prop :=
  ∀ r, r ∈ l → r ∈ ot_rows d ∧ ot_published r = false.

Lemma ot_pending_in n d :
  ∃ l, ot_pending t n d = Ok l ∧ pending_in d l ∧
    (Z.of_nat (length (ot_rows d)) ≤ n → l ≡ₚ List.filter (λ h, negb (ot_published h)) (ot_rows d)).
Proof.
  destruct (ot_pending_rows n d) as (l & Hl & E).
  assert (pending_in d l) as Hp.
  { intros r. rewrite -> Hl, list_elem_of_In, filter_In, <- list_elem_of_In. by rewrite -> negb_true_iff. }
  exists (if n <? 0 then l else take (Z.to_nat n) l). split; [done|].
  destruct (Z.ltb_spec n 0); [split; [done|by intros]|]. split.
  - intros r (i & Hi & _)%elem_of_take. by eapply Hp, list_elem_of_lookup_2.
  - intros Hn. rw take_ge; [|done]. apply Permutation_length in Hl.
    pose proof (List.filter_length_le (λ h, negb (ot_published h)) (ot_rows d)). lia.
Qed.

Lemma kept_mono msgs msgs' h h' : msgs ⊆ msgs' → kept msgs h h' → kept msgs' h h'.
Proof. intros Hm [->|(? & ? & ?)]; [by left|right]. split_and!; [done..|]. by etrans. Qed.
Lemma relayed_refl w : relayed w w.
Proof.
  exists [], (ot_rows (w_db w)). rw app_nil_r ot_put_rows. split_and!; [done..|].
  apply Forall_Forall2_diag, Forall_forall. by left.
Qed.

(** Publishing the events of a row. *)
Lemma wpc_relay_events E I w0 at_ evs stats (Q : World → res CoreError (res RelayError OutboxStats) → Prop) :
  let sent (evs : list (string * json)) w := w_db w = w_db w0 ∧
    w_bus w = w_bus w0 ++ ((λ e, MkBusMessage e.1 e.2 at_) <$> evs) in
  (∀ w evs, sent evs w → I w ∧ ∀ e, ¬ healthy E → Q w (Ok (Err e))) →
  (∀ w, sent evs w → Q w (Ok (Ok (MkOutboxStats (rows_processed stats)
     (events_published stats + Z.of_nat (length evs)))))) →
  wpc I E (try_foldM (publish_one at_) stats evs) Q w0.
Proof.
  intros sent HI HQ.
  apply wpc_try_foldM with (J := λ don st w, sent don w ∧
    st = MkOutboxStats (rows_processed stats) (events_published stats + Z.of_nat (length don))).
  - intros don st e rest w _ [Hs ->]. destruct (HI _ _ Hs) as [Hw _].
    unfold publish_one. apply wpc_try_bind, wpc_try_conv. cbn. split; [done|].
    destruct (env_publish_ok E (w_step w)) eqn:Ep; cbn.
    + assert (sent (don ++ [e]) (add_bus (MkBusMessage e.1 e.2 at_) (tick w))) as Hs'.
      { destruct Hs as [Ed Eb]. split; [done|]. cbn. by rw Eb fmap_app app_assoc. }
      destruct (HI _ _ Hs') as [Hw' _]. split_and!; [done..|].
      cbn. f_equal. rw length_app. cbn. lia.
    + assert (sent don (tick w)) as Hs' by done. destruct (HI _ _ Hs') as [Hw' He].
      split_and!; [done..|]. apply He. intros [_ Hpub]. by rw Hpub in Ep.
  - intros st w [Hs ->]. split; [by eapply HI|by apply HQ].
  - split; [split; [done|]|]; cbn; [by rw app_nil_r|]. destruct stats; cbn. f_equal. lia.
Qed.

Lemma wpc_relay_row E I w0 stats r (Q : World → res CoreError (res RelayError OutboxStats) → Prop) :
  (∀ w msgs, w_db w = w_db w0 → w_bus w = w_bus w0 ++ msgs →
     I w ∧ ∀ e, ¬ healthy E → Q w (Ok (Err e))) →
  (∀ w now, w_db w = ot_mark t now r (w_db w0) → w_bus w = w_bus w0 ++ row_msgs t r →
     I w ∧ Q w (Ok (Ok (MkOutboxStats (rows_processed stats + 1)
       (events_published stats + Z.of_nat (length (row_msgs t r))))))) →
  wpc I E (relay_row t stats r) Q w0.
Proof.
  intros HI HQ. unfold relay_row. apply wpc_try_bind, wpc_relay_events.
  - intros w evs [Ed Eb]. destruct (HI _ _ Ed Eb) as [? He]. split; [done|]. intros e Hn. cbn. auto.
  - intros w [Ed Eb]. cbn -[try_bind]. destruct (HI _ _ Ed Eb) as [Hw _].
    cbn. split; [done|]. destruct (HI (tick w) _ Ed Eb) as [Hw1 _]. split; [done|].
    destruct (env_db_ok E (S (w_step w))) eqn:Eok; cbn.
    + destruct (HQ (set_w_db (ot_mark t (env_now E (w_step w)) r (w_db w)) (tick (tick w)))
        (env_now E (w_step w))) as [? H]; [by cbn; rw Ed|done|].
      split; [done|]. unfold row_msgs in H. rw length_fmap in H. exact H.
    + destruct (HI (tick (tick w)) _ Ed Eb) as [? He]. split; [done|].
      apply He. intros [Hdb _]. by rw Hdb in Eok.
Qed.

Lemma exactly_relayed don stats w w' st l :
  NoDup (ot_id t <$> ot_rows (w_db w)) → pending_in (w_db w) l → (∀ r, r ∈ don → r ∈ l) →
  exactly don stats w w' st → relayed w w'.
Proof.
  intros Hnd Hp Hl (Eb & (hs & Ed & Hm) & _). exists (concat (row_msgs t <$> don)), hs.
  split_and!; [done..|]. clear Ed.
  assert (∀ h, h ∈ ot_rows (w_db w) → ot_id t h ∈ ot_id t <$> don →
    ot_published h = false ∧ row_msgs t h ⊆ concat (row_msgs t <$> don)) as Hin.
  { intros h Hh (r & Er & Hr)%list_elem_of_fmap. destruct (Hp r (Hl r Hr)) as [Hr' Hpub].
    assert (h = r) as ->.
    { apply list_elem_of_lookup in Hh as [i Hi], Hr' as [j Hj].
      assert (i = j) as ->; [|congruence]. eapply (NoDup_lookup (ot_id t <$> ot_rows (w_db w)));
        [done|by rw list_lookup_fmap Hi|rw list_lookup_fmap Hj; cbn; by f_equal]. }
    split; [done|]. intros m Hm'. apply list_elem_of_In, in_concat. exists (row_msgs t r). rewrite <- !list_elem_of_In.
    split; [by apply list_elem_of_fmap_2|done]. }
  revert hs Hm Hin. generalize (ot_rows (w_db w)). induction l0 as [|h hs0 IH]; intros hs Hm Hin;
    inversion Hm as [|? h' ? hs' H1 H2]; subst; constructor.
  - unfold marked in H1. case_bool_decide as Hc; [|by left].
    right. destruct (Hin h ltac:(left) Hc). auto.
  - apply IH; [done|]. intros. apply Hin; [by right|done].
Qed.

(** Marking one more row. *)
Lemma exactly_snoc don stats w w1 w2 st r now :
  exactly don stats w w1 st →
  w_db w2 = ot_mark t now r (w_db w1) → w_bus w2 = w_bus w1 ++ row_msgs t r →
  exactly (don ++ [r]) stats w w2
    (MkOutboxStats (rows_processed st + 1) (events_published st + Z.of_nat (length (row_msgs t r)))).
Proof.
  intros (Eb & (hs & Ed & Hm) & ->) Ed2 Eb2. unfold exactly.
  rw !fmap_app !concat_app. cbn. rw !app_nil_r !length_app. cbn. split_and!.
  - by rw Eb2 Eb app_assoc.
  - exists ((λ h, if String.eqb (ot_id t h) (ot_id t r) then ot_publish now h else h) <$> hs).
    rw Ed2 Ed ot_mark_rows ot_rows_put ot_put_put. split; [done|].
    apply Forall2_fmap_r. eapply Forall2_impl; [exact Hm|]. intros h h1 Hh. cbn.
    unfold marked in *. rw fmap_app.
    assert (ot_id t h1 = ot_id t h) as ->.
    { case_bool_decide; [|by subst]. destruct Hh as [? ->]. apply ot_publish_id. }
    destruct (String.eqb_spec (ot_id t h) (ot_id t r)) as [E|E].
    + rw bool_decide_true; [apply elem_of_app; right; rw E; by left|].
      case_bool_decide; [|subst; eauto]. destruct Hh as [? ->]. rw ot_publish_publish. eauto.
    + rw (bool_decide_ext _ (ot_id t h ∈ ot_id t <$> don)); [|done].
      rw elem_of_app list_elem_of_singleton. naive_solver.
  - f_equal; lia.
Qed.

Lemma wpc_relay_table E I limit stats w0 (Q : World → res CoreError (res RelayError OutboxStats) → Prop) :
  NoDup (ot_id t <$> ot_rows (w_db w0)) →
  (∀ w, relayed w0 w → I w ∧ ∀ e, ¬ healthy E → Q w (Ok (Err e))) →
  (∀ w l st, ot_pending t limit (w_db w0) = Ok l → pending_in (w_db w0) l →
     exactly l stats w0 w st → Q w (Ok (Ok st))) →
  wpc I E (relay_table t limit stats) Q w0.
Proof.
  intros Hnd HI HQ. unfold relay_table. apply wpc_try_bind, wpc_try_conv. cbn.
  destruct (HI w0 (relayed_refl w0)) as [Hw _]. split; [done|].
  assert (relayed w0 (tick w0)) as Ht.
  { destruct (relayed_refl w0) as (msgs & hs & H). by exists msgs, hs. }
  destruct (HI _ Ht) as [Hw1 He]. split_and!; [done..|].
  destruct (env_db_ok E (w_step w0)) eqn:Eok; [|split; [done|]; apply He; intros [Hdb _]; by rw Hdb in Eok].
  destruct (ot_pending_in limit (w_db w0)) as (l & El & Hp & _). rw El. cbn.
  apply wpc_try_foldM with (J := λ don st w, exactly don stats w0 w st).
  - intros don st r rest w Hl Hj.
    assert (∀ r, r ∈ don → r ∈ l) as Hsub by (intros; rw Hl; apply elem_of_app; by left).
    apply wpc_relay_row.
    + intros w' msgs Ed Eb. assert (relayed w0 w') as Hr.
      { destruct (exactly_relayed _ _ _ _ _ _ Hnd Hp Hsub Hj) as (m1 & hs & E1 & E2 & Hk).
        exists (m1 ++ msgs), hs. rw Eb E1 -app_assoc Ed. split_and!; [done..|].
        eapply Forall2_impl; [exact Hk|]. intros h h'. apply kept_mono. set_solver. }
      destruct (HI _ Hr). split; [done|]. auto.
    + intros w' now Ed Eb. pose proof (exactly_snoc _ _ _ _ _ _ _ _ Hj Ed Eb) as Hs.
      split; [|done]. apply HI. eapply exactly_relayed; [done|done| |exact Hs].
      intros r' [?|Hr]%elem_of_app; [by apply Hsub|]. apply list_elem_of_singleton in Hr as ->.
      rw Hl. apply elem_of_app. right. by left.
  - intros st w Hj. split; [|by eapply HQ]. apply HI. by eapply exactly_relayed.
  - split_and!; cbn; [by rw app_nil_r| |destruct stats; cbn; f_equal; lia].
    exists (ot_rows (w_db w0)). rw ot_put_rows. split; [done|].
    apply Forall_Forall2_diag, Forall_forall. intros h _. unfold marked.
    rw bool_decide_false; [|done]. apply not_elem_of_nil.
Qed.
End table.

(** ** Both tables *)

Section relay.
Context {P : Platform} {L : PlatformLaws P}.
Implicit Types (E : Env) (w : World).

#[export] Program Instance invoice_outbox_laws : OutboxLaws invoice_outbox := {|
  ot_rows := invoice_state_history;
  ot_put := set_history;
  ot_publish now h := set_h_published_at (Some now) h;
  ot_published h := is_some (h_published_at h);
|}.
Next Obligation. done. Qed.
Next Obligation. done. Qed.
Next Obligation. by intros []. Qed.
Next Obligation. done. Qed.
Next Obligation. done. Qed.
Next Obligation. done. Qed.
Next Obligation. intros n d. eexists. split; [apply sql_order_text_perm|done]. Qed.

#[export] Program Instance credit_note_outbox_laws : OutboxLaws credit_note_outbox := {|
  ot_rows := credit_note_state_history;
  ot_put := set_cn_history;
  ot_publish now h := set_cnh_published_at (Some now) h;
  ot_published h := is_some (cnh_published_at h);
|}.
Next Obligation. done. Qed.
Next Obligation. done. Qed.
Next Obligation. by intros []. Qed.
Next Obligation. done. Qed.
Next Obligation. done. Qed.
Next Obligation. done. Qed.
Next Obligation. intros n d. eexists. split; [apply sql_order_text_perm|done]. Qed.

(** The pass as a whole: what holds wherever it stops, and what a complete
    pass has done. *)
Definition relay_between w w' : Prop :=
  ∃ msgs hs cs, w_bus w' = w_bus w ++ msgs ∧
    w_db w' = set_cn_history cs (set_history hs (w_db w)) ∧
    Forall2 (kept invoice_outbox msgs) (invoice_state_history (w_db w)) hs ∧
    Forall2 (kept credit_note_outbox msgs) (credit_note_state_history (w_db w)) cs.

Definition relay_done limit w w' (st : OutboxStats) : Prop :=
  ∃ inv cns hs cs,
    history_pending_outbox limit (w_db w) = Ok inv ∧
    cn_history_pending_outbox limit (w_db w) = Ok cns ∧
    pending_in invoice_outbox (w_db w) inv ∧ pending_in credit_note_outbox (w_db w) cns ∧
    w_bus w' = w_bus w ++ concat (row_msgs invoice_outbox <$> inv) ++
                          concat (row_msgs credit_note_outbox <$> cns) ∧
    w_db w' = set_cn_history cs (set_history hs (w_db w)) ∧
    Forall2 (marked invoice_outbox inv) (invoice_state_history (w_db w)) hs ∧
    Forall2 (marked credit_note_outbox cns) (credit_note_state_history (w_db w)) cs ∧
    st = MkOutboxStats (Z.of_nat (length inv) + Z.of_nat (length cns))
           (Z.of_nat (length (concat (row_msgs invoice_outbox <$> inv))) +
            Z.of_nat (length (concat (row_msgs credit_note_outbox <$> cns)))).

Lemma wpc_relay E limit w :
  NoDup (ot_id invoice_outbox <$> invoice_state_history (w_db w)) →
  NoDup (ot_id credit_note_outbox <$> credit_note_state_history (w_db w)) →
  wpc (relay_between w) E (run_outbox_relay limit) (λ w' r,
    match r with
    | Ok (Ok st) => relay_done limit w w' st
    | Ok (Err _) => ¬ healthy E
    | _ => False
    end) w.
Proof.
  intros Hd Hcd. set (Q := λ w' r, _). unfold run_outbox_relay. apply wpc_try_bind.
  assert (∀ d hs, set_cn_history (credit_note_state_history d) (set_history hs d) = set_history hs d)
    as Hid by (by intros []).
  apply (wpc_relay_table invoice_outbox); [exact Hd|..].
  - intros w1 (msgs & hs & Eb & Ed & Hk). assert (relay_between w w1) as Hr.
    { exists msgs, hs, (credit_note_state_history (w_db w)). cbn in Ed. rw Eb Ed Hid.
      split_and!; [done..|]. apply Forall_Forall2_diag, Forall_forall. by left. }
    split; [done|]. cbn. auto.
  - intros w1 inv st Einv Hinv Hex. cbn.
    pose proof (exactly_relayed invoice_outbox _ _ _ _ _ _ Hd Hinv (λ _ H, H) Hex)
      as (m1 & hs' & Eb' & Ed' & Hk1).
    destruct Hex as (Eb1 & (hs & Ed1 & Hm1) & Est). cbn in Ed1, Ed'.
    assert (hs' = hs) as -> by (apply (f_equal invoice_state_history) in Ed'; rw Ed1 in Ed'; done).
    assert (credit_note_state_history (w_db w1) = credit_note_state_history (w_db w)) as Ecs by (by rw Ed1).
    apply (wpc_relay_table credit_note_outbox); cbn [ot_rows credit_note_outbox_laws]; rw ?Ecs; [exact Hcd|..].
    + intros w2 (msgs & cs & Eb2 & Ed2 & Hk2). cbn in Hk2. rw Ecs in Hk2. split; [|auto].
      exists (m1 ++ msgs), hs, cs. rw Eb2 Eb' Ed2 Ed1 -app_assoc. split_and!; try done.
      * eapply Forall2_impl; [exact Hk1|]. intros. eapply kept_mono; [|done]. set_solver.
      * eapply Forall2_impl; [exact Hk2|]. intros. eapply kept_mono; [|done]. set_solver.
    + intros w2 cns st' Ecns Hcns (Eb2 & (cs & Ed2 & Hm2) & ->). cbn in Hm2, Ed2. rw Ecs in Hm2.
      exists inv, cns, hs, cs. rw Ed1 in Ecns.
      change (cn_history_pending_outbox limit (w_db w) = Ok cns) in Ecns.
      split_and!; try done.
      * intros c Hc. destruct (Hcns c Hc) as [Hin ?]. cbn in Hin. rw Ecs in Hin. done.
      * by rw Eb2 Eb1 app_assoc.
      * by rw Ed2 Ed1.
      * rw Est. cbn. f_equal; lia.
Qed.

(** C5: the relay is at-least-once: wherever a pass stops, and whatever fails,
    a history row is marked published only if every event of that row was
    accepted by the publisher; unmarked rows are as they were and nothing else
    in the database changes. *)
Theorem relay_at_least_once E limit n w :
  db_ok (w_db w) →
  let w' := crash_run E n (run_outbox_relay limit) w in
  ∃ msgs, w_bus w' = w_bus w ++ msgs ∧
    w_db w' = set_cn_history (credit_note_state_history (w_db w'))
                (set_history (invoice_state_history (w_db w')) (w_db w)) ∧
    Forall2 (kept invoice_outbox msgs) (invoice_state_history (w_db w))
      (invoice_state_history (w_db w')) ∧
    Forall2 (kept credit_note_outbox msgs) (credit_note_state_history (w_db w))
      (credit_note_state_history (w_db w')).
Proof.
  intros Hd w'. destruct (wpc_crash _ _ _ _ _ n (wpc_relay E limit w (ok_history_id _ Hd) (ok_cn_history_id _ Hd)))
    as (msgs & hs & cs & Eb & Ed & Hk1 & Hk2).
  exists msgs. fold w' in Eb, Ed. rw Ed. done.
Qed.

(** Once every row is marked a pass does nothing. *)
Definition all_published d : Prop :=
  Forall (λ h, is_some (h_published_at h) = true) (invoice_state_history d) ∧
  Forall (λ h, is_some (cnh_published_at h) = true) (credit_note_state_history d).

Lemma pending_none (t : OutboxTable) `{TL : !OutboxLaws t} d n :
  Forall (λ h, ot_published h = true) (ot_rows d) → ot_pending t n d = Ok [].
Proof.
  intros Hall. destruct (ot_pending_in t n d) as ([|r l] & El & Hp & _); [done|].
  destruct (Hp r ltac:(left)) as [Hr Hpub]. rw Forall_forall in Hall.
  apply Hall in Hr. congruence.
Qed.

Lemma relay_idle E limit w :
  all_published (w_db w) →
  w_bus (run E (run_outbox_relay limit) w).1 = w_bus w ∧
  w_db (run E (run_outbox_relay limit) w).1 = w_db w.
Proof.
  intros [H1 H2].
  pose proof (pending_none invoice_outbox (w_db w) limit H1) as E1.
  pose proof (pending_none credit_note_outbox (w_db w) limit H2) as E2.
  revert E1 E2. unfold run_outbox_relay, relay_table.
  generalize invoice_outbox credit_note_outbox. intros t1 t2 E1 E2. cbn. rw E1.
  destruct (env_db_ok _ _); cbn; [|done]. rw E2. by destruct (env_db_ok _ _).
Qed.

(** Marking every pending row leaves none. *)
Lemma marked_all (t : OutboxTable) `{TL : !OutboxLaws t} don d hs :
  (∀ now h, ot_published (ot_publish now h) = true) →
  don ≡ₚ List.filter (λ h, negb (ot_published h)) (ot_rows d) →
  Forall2 (marked t don) (ot_rows d) hs →
  Forall (λ h, ot_published h = true) hs.
Proof.
  intros Hpub Hdon Hm. apply Forall_forall. intros h' Hh'.
  apply list_elem_of_lookup in Hh' as [i Hi].
  destruct (Forall2_lookup_r _ _ _ _ _ Hm Hi) as (h & Hh & Hmark). unfold marked in Hmark.
  case_bool_decide as Hc; [by destruct Hmark as [? ->]|]. subst h'.
  destruct (ot_published h) eqn:Ep; [done|]. destruct Hc.
  apply list_elem_of_fmap_2. rw Hdon. apply list_elem_of_In, filter_In.
  rw -list_elem_of_In Ep. split; [by eapply list_elem_of_lookup_2|done].
Qed.

(** A pass that is not interrupted, with a batch limit that covers both
    tables, answers the exact counts, sends the messages of every unpublished
    row and nothing else, invoice rows before credit-note rows, and leaves every
    row published, so that a second pass sends nothing and changes nothing. *)
Lemma relay_drains E limit w :
  db_ok (w_db w) → healthy E →
  Z.of_nat (length (invoice_state_history (w_db w))) ≤ limit →
  Z.of_nat (length (credit_note_state_history (w_db w))) ≤ limit →
  ∃ inv cns w',
    inv ≡ₚ List.filter (λ h, negb (is_some (h_published_at h))) (invoice_state_history (w_db w)) ∧
    cns ≡ₚ List.filter (λ h, negb (is_some (cnh_published_at h)))
             (credit_note_state_history (w_db w)) ∧
    let sent := concat (row_msgs invoice_outbox <$> inv) ++
                concat (row_msgs credit_note_outbox <$> cns) in
    run E (run_outbox_relay limit) w =
      (w', Ok (Ok (MkOutboxStats (Z.of_nat (length inv + length cns)) (Z.of_nat (length sent))))) ∧
    w_bus w' = w_bus w ++ sent ∧ all_published (w_db w') ∧
    (∀ E', w_bus (run E' (run_outbox_relay limit) w').1 = w_bus w' ∧
           w_db (run E' (run_outbox_relay limit) w').1 = w_db w').
Proof.
  intros Hd Hh Hn Hn'. pose proof (wpc_run _ _ _ _ _ (wpc_relay E limit w (ok_history_id _ Hd) (ok_cn_history_id _ Hd))) as [_ H].
  destruct (run E (run_outbox_relay limit) w) as [w' r] eqn:Er. cbn in H.
  destruct r as [[st|e|]|e|]; try done.
  destruct H as (inv & cns & hs & cs & Ei & Ec & _ & _ & Eb & Ed & Hm1 & Hm2 & ->).
  destruct (ot_pending_in invoice_outbox limit (w_db w)) as (l & El & _ & Hl).
  destruct (ot_pending_in credit_note_outbox limit (w_db w)) as (l' & El' & _ & Hl').
  cbn in Hl, Hl'.
  assert (Ok inv = Ok l :> SR _) as [= ->] by (rw -Ei; exact El).
  assert (Ok cns = Ok l' :> SR _) as [= ->] by (rw -Ec; exact El').
  exists l, l', w'. split_and!; [by apply Hl|by apply Hl'|].
  assert (all_published (w_db w')) as Hall.
  { split; rw Ed; cbn.
    - exact (marked_all invoice_outbox _ _ _ (λ _ _, eq_refl) (Hl Hn) Hm1).
    - exact (marked_all credit_note_outbox _ _ _ (λ _ _, eq_refl) (Hl' Hn') Hm2). }
  split_and!; [|done..|intros; by apply relay_idle].
  rw length_app. do 4 f_equal; lia.
Qed.

(** *** What the rows say *)

Lemma audit_legal s hs s' h :
  audit s hs s' → In h hs → row_legal (h_from_state h) (h_to_state h) (h_event h).
Proof. induction 1; [done|]. intros [->|?]; auto. Qed.
Lemma cn_audit_legal s hs s' h :
  cn_audit s hs s' → In h hs → cn_row_legal (cnh_from_state h) (cnh_to_state h) (cnh_event h).
Proof. induction 1; [done|]. intros [->|?]; auto. Qed.

Lemma stored_row_legal d h :
  db_ok d → In h (invoice_state_history d) → row_legal (h_from_state h) (h_to_state h) (h_event h).
Proof.
  intros Hd Hin. destruct (ok_no_orphan d Hd h Hin) as [i Hi].
  eapply audit_legal; [by eapply ok_audit|]. apply filter_In. split; [done|]. apply String.eqb_refl.
Qed.

(** Replaying the tag of a step gives its event, up to the amounts of a payment. *)
Lemma reconstruct_step f e t :
  e ≠ Remind → Step f e t →
  ∃ ev, reconstruct_invoice_event (tag e) t = Some ev ∧ tag ev = tag e ∧
    next_state f ev = Ok t ∧ ((∀ a b, e ≠ Pay a b) → ev = e).
Proof.
  intros He Hs.
  assert (val dec_one == 1)%Q as H1 by apply val_one.
  assert (val (dec_new 2 0) == 2)%Q as H2 by (rw val_new; [lia|reflexivity]).
  enough (∃ ev, reconstruct_invoice_event (tag e) t = Some ev ∧ tag ev = tag e ∧
    Step f ev t ∧ ((∀ a b, e ≠ Pay a b) → ev = e)) as (ev & ? & ? & ?%next_state_complete & ?) by eauto.
  destruct Hs as [| | | |s a b Ho|s a b Ho|s Ho]; try done;
    eexists; (split; [reflexivity|split; [done|split]]); try done; try by constructor.
  - constructor; [done|lra|lra].
  - intros Hn. by destruct (Hn a b).
  - constructor; [done|lra|lra].
  - intros Hn. by destruct (Hn a b).
Qed.

Lemma legal_row_topic from to tg :
  row_legal from to tg → ∃ topic, invoice_domain_topic tg to = Some topic.
Proof. destruct 1 as [|f e t He Hs|]; [by eexists| |by eexists]. destruct Hs; try done; by eexists. Qed.

(** Every invoice row the program stores is replayed faithfully: its
    domain event has a topic; a row that did not move the invoice gives only
    that event; a row that moved it gives the proposed, transitioned and entered
    messages of an event which carries the row's tag and which the transition
    table takes from the row's first state to its second, and then the domain
    event.  No row is dropped and no row is replayed as another step. *)
Lemma relay_rows_replay d h :
  db_ok d → In h (invoice_state_history d) →
  ∃ topic, invoice_domain_topic (h_event h) (h_to_state h) = Some topic ∧
  match h_from_state h with
  | None => invoice_row_to_events h = [(topic, invoice_domain_payload h)]
  | Some from =>
      if bool_decide (from = h_to_state h)
      then invoice_row_to_events h = [(topic, invoice_domain_payload h)]
      else ∃ ev, tag ev = h_event h ∧ next_state from ev = Ok (h_to_state h) ∧
        invoice_row_to_events h =
          invoice_triplet h from ev ++ [(topic, invoice_domain_payload h)]
  end.
Proof.
  intros Hd Hin. pose proof (stored_row_legal d h Hd Hin) as Hl.
  destruct (legal_row_topic _ _ _ Hl) as [topic Ht]. exists topic. split; [done|].
  unfold invoice_row_to_events. rw Ht. inversion Hl as [E1 E2 E3|f e t He Hs E1 E2 E3|E1 E2 E3].
  - done.
  - subst t. destruct (reconstruct_step f e _ He Hs) as (ev & Er & Et & En & _). case_bool_decide as Hc.
    + rw bool_decide_true; [congruence|done].
    + rw bool_decide_false; [congruence|]. rw Er. exists ev. rw Et. done.
  - rw !bool_decide_true; done.
Qed.
End relay.

(** *** Marking keeps the database in order *)

Section marking.
Context {P : Platform} {L : PlatformLaws P}.
Implicit Types (d : Db) (w : World).

Lemma row_kept_fields h h' :
  row_kept h h' → h_id h' = h_id h ∧ h_invoice_id h' = h_invoice_id h ∧
  h_from_state h' = h_from_state h ∧ h_to_state h' = h_to_state h ∧ h_event h' = h_event h.
Proof. by intros [->|[t ->]]. Qed.
Lemma cn_row_kept_fields h h' :
  cn_row_kept h h' → cnh_id h' = cnh_id h ∧ cnh_credit_note_id h' = cnh_credit_note_id h ∧
  cnh_from_state h' = cnh_from_state h ∧ cnh_to_state h' = cnh_to_state h ∧
  cnh_event h' = cnh_event h.
Proof. by intros [->|[t ->]]. Qed.

Lemma audit_kept s hs s' hs' : audit s hs s' → Forall2 row_kept hs hs' → audit s hs' s'.
Proof.
  intros H. revert hs'. induction H as [s|h hs s' Hl _ IH]; intros hs' Hk;
    inversion Hk as [|? h' ? hs'' Hh Hhs]; subst; [constructor|].
  apply row_kept_fields in Hh as (_ & _ & Ef & Et & Ee). rw -Ef.
  constructor; [by rw Ef Et Ee|]. rw Et. by apply IH.
Qed.
Lemma cn_audit_kept s hs s' hs' : cn_audit s hs s' → Forall2 cn_row_kept hs hs' → cn_audit s hs' s'.
Proof.
  intros H. revert hs'. induction H as [s|h hs s' Hl _ IH]; intros hs' Hk;
    inversion Hk as [|? h' ? hs'' Hh Hhs]; subst; [constructor|].
  apply cn_row_kept_fields in Hh as (_ & _ & Ef & Et & Ee). rw -Ef.
  constructor; [by rw Ef Et Ee|]. rw Et. by apply IH.
Qed.

Lemma Forall2_filter_in {A} (R : relation A) (p : A → bool) l l' :
  (∀ a b, R a b → p b = p a) → Forall2 R l l' → Forall2 R (List.filter p l) (List.filter p l').
Proof.
  intros Hp. induction 1 as [|a b l l' Hab _ IH]; cbn; [constructor|]. rw (Hp a b Hab).
  destruct (p a); [by constructor|done].
Qed.
Lemma Forall2_fmap_eq {A B} (R : relation A) (f : A → B) l l' :
  (∀ a b, R a b → f b = f a) → Forall2 R l l' → f <$> l' = f <$> l.
Proof. intros Hf. induction 1; cbn; [done|]. f_equal; auto. Qed.
Lemma Forall2_in_r {A} (R : relation A) l l' b : Forall2 R l l' → In b l' → ∃ a, In a l ∧ R a b.
Proof. induction 1; cbn; [done|]. intros [->|?]; naive_solver. Qed.

Lemma db_ok_kept d hs : db_ok d → Forall2 row_kept (invoice_state_history d) hs → db_ok (set_history hs d).
Proof.
  intros Hd Hk. destruct Hd. split; cbn; try done.
  - intros k i Hi. eapply audit_kept; [by apply ok_audit|]. apply Forall2_filter_in; [|done].
    intros h h' (_ & -> & _)%row_kept_fields. done.
  - intros h' Hh'. destruct (Forall2_in_r _ _ _ _ Hk Hh') as (h & Hh & (_ & -> & _)%row_kept_fields). eauto.
  - rw (Forall2_fmap_eq row_kept _ (invoice_state_history d)); [|done|done].
    intros h h' (E & _)%row_kept_fields. cbn. by rw E.
Qed.
Lemma db_ok_cn_kept d hs :
  db_ok d → Forall2 cn_row_kept (credit_note_state_history d) hs → db_ok (set_cn_history hs d).
Proof.
  intros Hd Hk. destruct Hd. split; cbn; try done.
  - intros k i Hi. eapply cn_audit_kept; [by apply ok_cn_audit|]. apply Forall2_filter_in; [|done].
    intros h h' (_ & -> & _)%cn_row_kept_fields. done.
  - intros h' Hh'.
    destruct (Forall2_in_r _ _ _ _ Hk Hh') as (h & Hh & (_ & -> & _)%cn_row_kept_fields). eauto.
  - rw (Forall2_fmap_eq cn_row_kept _ (credit_note_state_history d)); [|done|done].
    intros h h' (E & _)%cn_row_kept_fields. cbn. by rw E.
Qed.

Lemma since_kept d0 w hs :
  ok_since d0 w → Forall2 row_kept (invoice_state_history (w_db w)) hs →
  ok_since d0 (set_w_db (set_history hs (w_db w)) (tick w)).
Proof.
  intros Hw Hk. apply since_step; [done|apply world_ok_exec|].
  - apply Hw.
  - apply db_ok_kept; [apply Hw|done].
  - destruct (ids_below_tick w (os_ok _ _ Hw)). split; cbn; try done.
    intros h' Hh'. destruct (Forall2_in_r _ _ _ _ Hk Hh') as (h & Hh & (-> & _)%row_kept_fields). eauto.
  - split; cbn; try done.
    + intros k i Hi. by exists i.
    + exists hs, []. by rw app_nil_r.
    + intros k n Hn. by exists n.
Qed.
Lemma since_cn_kept d0 w hs :
  ok_since d0 w → Forall2 cn_row_kept (credit_note_state_history (w_db w)) hs →
  ok_since d0 (set_w_db (set_cn_history hs (w_db w)) (tick w)).
Proof.
  intros Hw Hk. apply since_step; [done|apply world_ok_exec|].
  - apply Hw.
  - apply db_ok_cn_kept; [apply Hw|done].
  - destruct (ids_below_tick w (os_ok _ _ Hw)). split; cbn; try done.
    intros h' Hh'. destruct (Forall2_in_r _ _ _ _ Hk Hh') as (h & Hh & (-> & _)%cn_row_kept_fields). eauto.
  - split; cbn; try done.
    + intros k i Hi. by exists i.
    + intros k n Hn. by exists n.
    + exists hs, []. by rw app_nil_r.
Qed.

Lemma relay_table_since d0 (t : OutboxTable) limit stats E w :
  (∀ w now r, ok_since d0 w → ok_since d0 (set_w_db (ot_mark t now r (w_db w)) (tick w))) →
  ok_since d0 w → safe (ok_since d0) E (relay_table t limit stats) w.
Proof.
  intros Ht Hw. apply safe_try_bind.
  { apply safe_try_conv, safe_quiet; auto with inv. }
  intros w1 pending Hw1. apply safe_try_foldM; [done|]. intros w2 st r Hw2.
  apply safe_try_bind.
  { apply safe_try_foldM; [done|]. intros w3 st' e Hw3. apply safe_try_bind; [|done].
    apply safe_try_conv, safe_quiet; auto with inv. }
  intros w3 st' Hw3. apply safe_bind; [apply safe_quiet; auto with inv|]. intros w4 now Hw4.
  apply safe_try_bind; [|done]. apply safe_try_conv, safe_db_try_exec; [auto with inv|done|].
  intros d [= <-]. by apply Ht.
Qed.

Lemma run_outbox_relay_since d0 limit E w :
  ok_since d0 w → safe (ok_since d0) E (run_outbox_relay limit) w.
Proof.
  intros Hw. apply safe_try_bind; [apply relay_table_since; [|done]|intros w1 st Hw1; apply relay_table_since; [|done]].
  - intros w1 now r Hw1. apply since_kept; [done|]. apply Forall2_fmap_r, Forall_Forall2_diag, Forall_forall.
    intros h _. cbn. case_match; [right; eauto|by left].
  - intros w2 now r Hw2. apply since_cn_kept; [done|]. apply Forall2_fmap_r, Forall_Forall2_diag, Forall_forall.
    intros h _. cbn. case_match; [right; eauto|by left].
Qed.
End marking.

(** ** Witnesses *)

#[local] Existing Instance Concrete.platform.
#[local] Existing Instance Concrete.platform_laws.

(** A sent invoice, three rows to relay; the process dies within the second row. *)
Lemma relay_at_least_once_witness :
  let w := fx_world Sent in let w' := crash_run fx_env 7 (run_outbox_relay 10) w in
  (length (w_bus w') = 4%nat ∧
   (λ h, is_some (h_published_at h)) <$> invoice_state_history (w_db w') = [true; false; false]) ∧
  ∃ msgs, w_bus w' = w_bus w ++ msgs ∧
    w_db w' = set_cn_history (credit_note_state_history (w_db w'))
                (set_history (invoice_state_history (w_db w')) (w_db w)) ∧
    Forall2 (kept invoice_outbox msgs) (invoice_state_history (w_db w))
      (invoice_state_history (w_db w')) ∧
    Forall2 (kept credit_note_outbox msgs) (credit_note_state_history (w_db w))
      (credit_note_state_history (w_db w')).
Proof.
  intros w w'. split; [split; vm_compute; reflexivity|].
  apply (relay_at_least_once fx_env 10 7 w). apply fx_db_ok.
Defined.

Lemma relay_drains_witness :
  let w := fx_world Sent in
  ∃ inv cns w',
    inv ≡ₚ List.filter (λ h, negb (is_some (h_published_at h))) (invoice_state_history (w_db w)) ∧
    cns ≡ₚ List.filter (λ h, negb (is_some (cnh_published_at h)))
             (credit_note_state_history (w_db w)) ∧
    let sent := concat (row_msgs invoice_outbox <$> inv) ++
                concat (row_msgs credit_note_outbox <$> cns) in
    run fx_env (run_outbox_relay 10) w =
      (w', Ok (Ok (MkOutboxStats (Z.of_nat (length inv + length cns)) (Z.of_nat (length sent))))) ∧
    w_bus w' = w_bus w ++ sent ∧ all_published (w_db w') ∧
    (∀ E', w_bus (run E' (run_outbox_relay 10) w').1 = w_bus w' ∧
           w_db (run E' (run_outbox_relay 10) w').1 = w_db w').
Proof. intros w. apply (relay_drains fx_env 10 w); [apply fx_db_ok|by split|done|done]. Defined.

Lemma relay_rows_replay_witness :
  let h := fx_row 5 (Some Issued) Sent "send" in
  ∃ topic, invoice_domain_topic (h_event h) (h_to_state h) = Some topic ∧
  match h_from_state h with
  | None => invoice_row_to_events h = [(topic, invoice_domain_payload h)]
  | Some from =>
      if bool_decide (from = h_to_state h)
      then invoice_row_to_events h = [(topic, invoice_domain_payload h)]
      else ∃ ev, tag ev = h_event h ∧ next_state from ev = Ok (h_to_state h) ∧
        invoice_row_to_events h =
          invoice_triplet h from ev ++ [(topic, invoice_domain_payload h)]
  end.
Proof.
  intros h. apply (relay_rows_replay (fx_db Sent) h); [apply fx_db_ok|]. right. right. by left.
Defined.
