(* ===== verification/Draft.v ===== *)
(** * Drafting an invoice ([commands/src/draft.rs]) *)

From S2P Require Import Prelude Rounding External Concrete Money Ids Domain InvoiceFsm Events Tax.
From S2P Require Import Store Render Command Transition Invariant Evolution Written World Fixtures.
From Stdlib Require Import Lqa.

Section draft.
Context `{P : Platform}.

Record DraftLineInput := MkDraftLineInput {
  dl_description : string;
  dl_quantity : Decimal;
  dl_unit_price : Decimal;
  dl_tax_category : TaxCategory;
}.

Record DraftInvoiceInput := MkDraftInvoiceInput {
  di_customer_id : CustomerId;
  di_seller_jurisdiction : Jurisdiction;
  di_currency : Currency;
  di_lines : list DraftLineInput;
  di_idempotency_key : option string;
  di_actor : Actor;
  di_channel : Channel;
  di_due_at : option DateTime;
  di_template_path : option string;
  di_schedule_id : option ScheduleId;
}.

(** The checks on one line of [validate], with its index. *)
Definition validate_line (i : Z) (line : DraftLineInput) : res CoreError () :=
  if is_blank (dl_description line)
  then Err (Validation ("line " +:+ show_Z i +:+ ": description must not be empty"))
  else if dec_leb (dl_quantity line) dec_zero
  then Err (Validation ("line " +:+ show_Z i +:+ ": quantity must be > 0 (got " +:+
                        dec_to_string (dl_quantity line) +:+ ")"))
  else if dec_ltb (dl_unit_price line) dec_zero
  then Err (Validation ("line " +:+ show_Z i +:+ ": unit_price must be >= 0 (got " +:+
                        dec_to_string (dl_unit_price line) +:+ ")"))
  else Ok ().

Fixpoint validate_lines (i : Z) (lines : list DraftLineInput) : res CoreError () :=
  match lines with
  | [] => Ok ()
  | l :: lines => _ ← validate_line i l; validate_lines (i + 1) lines
  end.

(** [DraftInvoiceInput::validate] *)
Definition draft_validate (input : DraftInvoiceInput) : res CoreError () :=
  match di_lines input with
  | [] => Err (Validation "draft_invoice requires at least one line")
  | _ =>
      let cur := Currency.as_str (di_currency input) in
      if String.eqb cur "USD" || String.eqb cur "CAD" || String.eqb cur "DZD"
      then validate_lines 0 (di_lines input)
      else Err (Validation ("currency " +:+ cur +:+
                            " not supported at v1 (use USD, CAD, or DZD)"))
  end.

Record DraftInvoiceOutput := MkDraftInvoiceOutput {
  do_invoice : Invoice;
  do_lines : list InvoiceLine;
  do_idempotency_replay : bool;
}.

(** One turn of the loop that builds the lines and the running subtotal. *)
Definition draft_line (currency : Currency) (invoice_id : InvoiceId)
    (acc : Z * list InvoiceLine * Decimal) (l : DraftLineInput)
    : prog (Z * list InvoiceLine * Decimal) :=
  let '(pos, lines, subtotal) := acc in
  line_subtotal ← lift Validation (dmul (dl_quantity l) (dl_unit_price l));
  let rounded := Currency.round currency line_subtotal in
  subtotal ← lift Validation (dadd subtotal rounded);
  lid ← fresh ELine;
  Ret (pos + 1,
       lines ++ [MkInvoiceLine lid invoice_id (pos mod 2 ^ 32) (dl_description l)
                   (dl_quantity l) (dl_unit_price l) [] (dl_tax_category l) dec_zero rounded ∅],
       subtotal).

Definition drafted_payload (invoice : Invoice) (actor : Actor) (channel : HistoryChannel) : json :=
  JObj [("invoice_id", JStr (id_to_string (inv_id invoice)));
        ("customer_id", JStr (id_to_string (inv_customer_id invoice)));
        ("currency", JStr (Currency.as_str (inv_currency invoice)));
        ("subtotal", JStr (dec_to_string (inv_subtotal invoice)));
        ("total", JStr (dec_to_string (inv_total invoice)));
        ("actor", JStr (audit_string actor));
        ("channel", JStr (history_channel_str channel))].

Definition draft_build (input : DraftInvoiceInput) (invoice_id : InvoiceId) (subtotal : Decimal)
    (now : DateTime) : Invoice :=
  {| inv_id := invoice_id;
     inv_number := None;
     inv_customer_id := di_customer_id input;
     inv_seller_jurisdiction := di_seller_jurisdiction input;
     inv_currency := di_currency input;
     inv_state := Draft;
     inv_issued_at := None;
     inv_due_at := di_due_at input;
     inv_sent_at := None;
     inv_viewed_at := None;
     inv_paid_at := None;
     inv_voided_at := None;
     inv_subtotal := subtotal;
     inv_tax_total := dec_zero;
     inv_total := subtotal;
     inv_amount_paid := dec_zero;
     inv_schedule_id := di_schedule_id input;
     inv_template_path := di_template_path input;
     inv_pdf_blob_ref := None;
     inv_idempotency_key := di_idempotency_key input;
     inv_nexus_review := false;
     inv_metadata := ∅;
     inv_created_at := now;
     inv_updated_at := now |}.

Definition draft_history (input : DraftInvoiceInput) (hid : HistoryId) (invoice_id : InvoiceId)
    (now : DateTime) : InvoiceStateHistory :=
  {| h_id := hid;
     h_invoice_id := invoice_id;
     h_from_state := None;
     h_to_state := Draft;
     h_event := "draft";
     h_actor := Some (audit_string (di_actor input));
     h_channel := history_channel (di_channel input);
     h_bus_event_id := None;
     h_reason := None;
     h_occurred_at := now;
     h_published_at := None;
     h_metadata := ∅ |}.

(** Steps 3 to 5: build, persist and publish a new draft. *)
Definition draft_new (ctx : CoreCtx) (input : DraftInvoiceInput) : prog DraftInvoiceOutput :=
  now ← clock_now;
  invoice_id ← fresh EInvoice;
  '(_, lines, subtotal) ← prog_foldM (draft_line (di_currency input) invoice_id)
                            (0, [], dec_zero) (di_lines input);
  let subtotal := Currency.round (di_currency input) subtotal in
  let invoice := draft_build input invoice_id subtotal now in
  hid ← fresh EHistory;
  let history := draft_history input hid invoice_id now in
  _ ← db_exec (save_all invoice lines history);
  _ ← try_publish ctx "inv.billing.invoice.drafted"
        (drafted_payload invoice (di_actor input) (h_channel history)) now;
  Ret (MkDraftInvoiceOutput invoice lines false).

(** Step 2: a known key answers with the invoice it created. *)
Definition draft_replay (input : DraftInvoiceInput) : prog (option DraftInvoiceOutput) :=
  match di_idempotency_key input with
  | None => Ret None
  | Some key =>
      existing ← db_query (λ d, Ok (invoice_find_by_idempotency_key key d));
      match existing with
      | None => Ret None
      | Some existing =>
          lines ← db_query (λ d, Ok (line_list_for_invoice (inv_id existing) d));
          Ret (Some (MkDraftInvoiceOutput existing lines true))
      end
  end.

Definition draft_invoice (ctx : CoreCtx) (input : DraftInvoiceInput) : prog DraftInvoiceOutput :=
  _ ← lift id (draft_validate input);
  replay ← draft_replay input;
  match replay with
  | Some out => Ret out
  | None => draft_new ctx input
  end.

Lemma quiet_draft_replay input : quiet (draft_replay input).
Proof. unfold draft_replay. solve_quiet. Qed.
Lemma quiet_draft_line c iid acc l : quiet (draft_line c iid acc l).
Proof. unfold draft_line. destruct acc as [[pos lines] sub]. solve_quiet. Qed.
End draft.

#[export] Hint Resolve quiet_draft_line quiet_draft_replay : inv.

(** ** What drafting does *)

Section draft_theorems.
Context {P : Platform} {L : PlatformLaws P}.

(** The line built from one input. *)
Record draft_line_of (c : Currency) (iid : InvoiceId) (l : DraftLineInput) (x : InvoiceLine) : Prop := {
  dlo_invoice : line_invoice_id x = iid;
  dlo_description : line_description x = dl_description l;
  dlo_quantity : line_quantity x = dl_quantity l;
  dlo_unit_price : line_unit_price x = dl_unit_price l;
  dlo_category : line_tax_category x = dl_tax_category l;
  dlo_untaxed : line_tax_rate_ids x = [] ∧ line_tax_amount x = dec_zero;
  dlo_total : ∃ p, dec_mul (dl_quantity l) (dl_unit_price l) = Some p ∧
                   line_line_total x = Currency.round c p;
}.

Lemma draft_line_eq c iid pos lines sub l :
  draft_line c iid (pos, lines, sub) l =
    match dec_mul (dl_quantity l) (dl_unit_price l) with
    | Some p =>
        match dec_add sub (Currency.round c p) with
        | Some sub =>
            lid ← fresh ELine;
            Ret (pos + 1,
                 lines ++ [MkInvoiceLine lid iid (pos mod 2 ^ 32) (dl_description l)
                   (dl_quantity l) (dl_unit_price l) [] (dl_tax_category l) dec_zero
                   (Currency.round c p) ∅], sub)
        | None => Crash
        end
    | None => Crash
    end.
Proof.
  unfold draft_line, dmul, dadd. destruct (dec_mul _ _) as [p|]; [|done]. cbn.
  by destruct (dec_add _ _).
Qed.

Lemma wpc_draft_lines I E c iid ls pos lines sub w :
  stable I → I w →
  wpc I E (prog_foldM (draft_line c iid) (pos, lines, sub) ls)
    (λ w' r, same_db w w' ∧ ∀ pos' lines' sub', r = Ok (pos', lines', sub') →
       ∃ news, lines' = lines ++ news ∧ Forall2 (draft_line_of c iid) ls news ∧
               dec_sum sub (line_line_total <$> news) = Some sub' ∧
               ∀ n x, news !! n = Some x →
                 line_position x = (pos + Z.of_nat n) mod 2 ^ 32 ∧ line_metadata x = ∅) w.
Proof.
  intros HI. revert pos lines sub w.
  induction ls as [|l ls IH]; intros pos lines sub w Hw.
  - split; [done|]. split; [reflexivity|]. intros ??? [= <- <- <-]. exists [].
    by rw app_nil_r.
  - cbn [prog_foldM]. rw draft_line_eq.
    destruct (dec_mul (dl_quantity l) (dl_unit_price l)) as [p|] eqn:Ep.
    2: { split; [done|]. split; [reflexivity|done]. }
    destruct (dec_add sub (Currency.round c p)) as [sub1|] eqn:Es.
    2: { split; [done|]. split; [reflexivity|done]. }
    split; [done|]. cbn [mbind prog_mbind prog_bind fst snd].
    pose proof (same_db_tick w) as Ht.
    eapply wpc_mono; [|apply IH; by eapply HI]. cbn. intros w' r [Hs Hr].
    split; [by etrans|]. intros pos' lines' sub' Er.
    destruct (Hr _ _ _ Er) as (news & -> & Hf & Hsum & Hpos). eexists (_ :: news).
    rw -app_assoc. split; [done|]. split; [constructor; [|done]|split; [cbn; by rw Es|]].
    + split; try done. by exists p.
    + intros [|n] x; cbn; [|intros Hx; destruct (Hpos _ _ Hx) as [-> ?]; split; [f_equal; lia|done]].
      intros [= <-]. split; [cbn; f_equal; lia|done].
Qed.

Lemma draft_build_fits input iid sub hid now :
  draft_fits (draft_build input iid sub now) (draft_history input hid iid now).
Proof.
  split; try done. split; cbn; try done; try (intuition discriminate).
  - intros. apply val_zero.
Qed.

Lemma draft_lines_invoice c iid ls xs :
  Forall2 (draft_line_of c iid) ls xs → Forall (λ x, line_invoice_id x = iid) xs.
Proof. intros H. induction H as [|l x ls xs [] _ IH]; by constructor. Qed.

Lemma draft_new_since d0 ctx input E w :
  ok_since d0 w → safe (ok_since d0) E (draft_new ctx input) w.
Proof.
  intros Hw. unfold draft_new, safe. wp_skip. wp_fresh.
  apply wpc_bind. eapply wpc_mono; [|apply wpc_draft_lines; wp_side]. intros w1 r [Hs1 Hr].
  destruct r as [[[pos lines] sub]|e|]; cbn [wpc_cont]; [|done..].
  destruct (Hr _ _ _ eq_refl) as (news & -> & Hl & _ & _).
  assert (ok_since d0 w1) as Hw1 by (by eapply ok_since_stable).
  cbv zeta. wp_fresh. wp_exec Hd.
  - pose proof (sd_step _ _ H) as Hle0. pose proof (sd_step _ _ Hs1) as Hle1.
    eapply since_new_invoice; [done| |apply draft_build_fits| | | |exact Hd].
    + cbn. same_dbs. eapply fresh_invoice_key with (n := w_step w); [apply Hw..|]. exact Hle0.
    + apply drawn_new. cbn. lia.
    + apply drawn_new. cbn. lia.
    + by eapply draft_lines_invoice.
  - apply safe_quiet; [wp_side|solve_quiet|done].
Qed.
Lemma draft_new_safe ctx input E w : world_ok w → safe world_ok E (draft_new ctx input) w.
Proof. apply since_safe. intros d0. apply draft_new_since. Qed.

Lemma draft_invoice_since d0 ctx input E w :
  ok_since d0 w → safe (ok_since d0) E (draft_invoice ctx input) w.
Proof.
  intros Hw. unfold draft_invoice, safe. wp_skip. wp_skip. destruct x0; [done|].
  by apply draft_new_since.
Qed.
Lemma draft_invoice_safe ctx input E w : world_ok w → safe world_ok E (draft_invoice ctx input) w.
Proof. apply since_safe. intros d0. apply draft_invoice_since. Qed.

Lemma draft_new_atomic ctx input : atomic (draft_new ctx input).
Proof.
  unfold draft_new. apply atomic_bind_quiet; [solve_quiet|intros now].
  apply atomic_bind_quiet; [solve_quiet|intros iid].
  apply atomic_bind_quiet; [solve_quiet|intros [[? ?] ?]]. solve_atomic.
Qed.
Lemma draft_invoice_atomic ctx input : atomic (draft_invoice ctx input).
Proof.
  unfold draft_invoice. do 2 (apply atomic_bind_quiet; [solve_quiet|intros ?]).
  case_match; [apply atomic_quiet; solve_quiet|apply draft_new_atomic].
Qed.

Lemma wpc_draft_replay E input w :
  wpc anywhere E (draft_replay input) (λ w' r, same_db w w' ∧ ∀ o, r = Ok o →
    match o with
    | Some out => ∃ key i, di_idempotency_key input = Some key ∧
        invoice_find_by_idempotency_key key (w_db w) = Some i ∧
        out = MkDraftInvoiceOutput i (line_list_for_invoice (inv_id i) (w_db w)) true
    | None => ∀ key, di_idempotency_key input = Some key →
        invoice_find_by_idempotency_key key (w_db w) = None
    end) w.
Proof.
  set (Q := λ w' r, _). assert (rejects Q w) as HQ by (intros w' [] Hs ?; by split).
  unfold draft_replay. destruct (di_idempotency_key input) as [key|].
  2: { split; [done|]. split; [reflexivity|]. by intros ? [= <-]. }
  wp_query Hq. destruct (invoice_find_by_idempotency_key key (w_db w)) as [i|] eqn:Ei.
  - wp_query Hl. split; [done|]. split; [by etrans|]. intros ? [= <-]. exists key, i.
    same_dbs. done.
  - split; [done|]. split; [done|]. intros ? [= <-]. by intros ? [= <-].
Qed.

(** What a new draft is: the invoice of [draft_build] over one line per input,
    its subtotal the rounded running sum of the line totals, in a database that
    gained exactly that invoice, its lines and one [draft] row. *)
Record drafted (input : DraftInvoiceInput) (d d' : Db) (out : DraftInvoiceOutput) : Prop := {
  dr_lines : Forall2 (draft_line_of (di_currency input) (inv_id (do_invoice out)))
               (di_lines input) (do_lines out);
  dr_invoice : ∃ sub now, dec_sum dec_zero (line_line_total <$> do_lines out) = Some sub ∧
    do_invoice out = draft_build input (inv_id (do_invoice out))
                       (Currency.round (di_currency input) sub) now;
  dr_write : ∃ t hid, d' = set_invoice_lines t (written (do_invoice out)
    (draft_history input hid (inv_id (do_invoice out)) (inv_created_at (do_invoice out))) d) ∧
    lines_become (inv_id (do_invoice out)) (do_lines out) (invoice_lines d) t;
  dr_positions : ∀ n x, do_lines out !! n = Some x →
    line_position x = Z.of_nat n mod 2 ^ 32 ∧ line_metadata x = ∅;
}.

(** The id of a draft is drawn during the command. *)
Definition draws_id (w : World) (i : Invoice) : Prop :=
  ∃ n, (w_step w ≤ n)%nat ∧ inv_id i = id_new EInvoice n.

Lemma wpc_draft_new E ctx input w :
  wpc anywhere E (draft_new ctx input) (λ w' r,
    match r with
    | Ok out => do_idempotency_replay out = false ∧ drafted input (w_db w) (w_db w') out ∧
                draws_id w (do_invoice out)
    | _ => w_db w' = w_db w
    end) w.
Proof.
  set (Q := λ w' r, _).
  assert (∀ w0, same_db w w0 → rejects Q w0) as HQ
    by (intros w0 [E0 _] w' [] [E1 _] ?; unfold Q; try done; congruence).
  unfold draft_new. pose proof (HQ w ltac:(reflexivity)). wp_skip. wp_fresh.
  apply wpc_bind. eapply wpc_mono; [|by apply wpc_draft_lines].
  intros w1 r [Hs1 Hr].
  assert (same_db w w1) as Hs by (etrans; [|exact Hs1]; by etrans).
  destruct r as [[[pos lines] sub]|e|]; cbn [wpc_cont]; [|exact (sd_db _ _ Hs)..].
  destruct (Hr _ _ _ eq_refl) as (news & -> & Hl & Hsum & Hpos).
  pose proof (HQ w1 Hs). cbv zeta.
  wp_fresh. wp_exec Hd; [done|].
  apply wpc_bind_total; [done|intros; by apply wpc_try_publish|done|].
  intros w2 [E2 _] _. split; [done|]. unfold Q. split; [done|].
  cbn in E2. rw E2. apply save_all_wrote in Hd as (t & -> & Ht). split.
  - same_dbs. split; cbn; [done|by do 2 eexists|by do 2 eexists|exact Hpos].
  - eexists. split; [|reflexivity]. 
    match goal with H : same_db w ?v |- (_ ≤ w_step ?v)%nat => exact (sd_step _ _ H) end.
Qed.

Lemma find_by_key_some key d i :
  invoice_find_by_idempotency_key key d = Some i →
  inv_idempotency_key i = Some key ∧ ∃ k, invoices d !! k = Some i.
Proof.
  unfold invoice_find_by_idempotency_key. intros H%head_Some_elem_of.
  apply list_elem_of_filter in H as [Hk Hin]. split; [done|].
  unfold rows in Hin. apply list_elem_of_fmap in Hin as ((k & j) & -> & Hin).
  exists k. by apply elem_of_map_to_list.
Qed.
Lemma find_by_key_none key d k i :
  invoice_find_by_idempotency_key key d = None → invoices d !! k = Some i →
  inv_idempotency_key i ≠ Some key.
Proof.
  unfold invoice_find_by_idempotency_key. intros H Hi Hk.
  assert (i ∈ filter (λ i, inv_idempotency_key i = Some key) (rows (invoices d))) as Hin.
  { apply list_elem_of_filter. split; [done|]. unfold rows. apply list_elem_of_fmap.
    exists (k, i). split; [done|]. by apply elem_of_map_to_list. }
  destruct (filter _ _); [by apply not_elem_of_nil in Hin|done].
Qed.

(** [DraftInvoiceInput::validate] accepts exactly the well-formed requests. *)
Definition line_valid (l : DraftLineInput) : Prop :=
  is_blank (dl_description l) = false ∧ (0 < val (dl_quantity l))%Q ∧
  (0 <= val (dl_unit_price l))%Q.

Lemma validate_line_ok i l : validate_line i l = Ok () ↔ line_valid l.
Proof.
  unfold validate_line, line_valid. destruct (is_blank _); [naive_solver|].
  destruct (dec_leb (dl_quantity l) dec_zero) eqn:Eq.
  { rw dec_leb_val val_zero in Eq. split; [done|]. intros (_ & ? & _). lra. }
  rw dec_leb_val_false val_zero in Eq.
  destruct (dec_ltb (dl_unit_price l) dec_zero) eqn:Ep.
  { rw dec_ltb_val val_zero in Ep. split; [done|]. intros (_ & _ & ?). lra. }
  rw dec_ltb_val_false val_zero in Ep. done.
Qed.
Lemma validate_lines_ok i ls : validate_lines i ls = Ok () ↔ Forall line_valid ls.
Proof.
  revert i. induction ls as [|l ls IH]; intros i; [done|]. rw Forall_cons -(IH (i + 1)).
  rewrite <- (validate_line_ok i l). cbn.
  destruct (validate_line i l) as [[]|e|]; cbn; naive_solver.
Qed.
Lemma draft_validate_ok input :
  draft_validate input = Ok () ↔
    di_lines input ≠ [] ∧ Forall line_valid (di_lines input) ∧
    Currency.as_str (di_currency input) ∈ ["USD"; "CAD"; "DZD"].
Proof.
  unfold draft_validate. set (cur := Currency.as_str _).
  assert ((String.eqb cur "USD" || String.eqb cur "CAD" || String.eqb cur "DZD") = true
          ↔ cur ∈ ["USD"; "CAD"; "DZD"]) as Hc.
  { rw !orb_true_iff !String.eqb_eq. set_solver. }
  destruct (di_lines input) as [|l ls] eqn:El; [naive_solver|].
  destruct (_ || _) eqn:E; [rw validate_lines_ok|]; naive_solver.
Qed.

(** The outcome of [draft_invoice]. *)
Definition draft_post (input : DraftInvoiceInput) (w w' : World) (r : res CoreError DraftInvoiceOutput) : Prop :=
  match r with
  | Ok out =>
      draft_validate input = Ok () ∧
      if do_idempotency_replay out then
        w_db w' = w_db w ∧
        ∃ key, di_idempotency_key input = Some key ∧
          invoice_find_by_idempotency_key key (w_db w) = Some (do_invoice out) ∧
          do_lines out = line_list_for_invoice (inv_id (do_invoice out)) (w_db w)
      else
        (drafted input (w_db w) (w_db w') out ∧ draws_id w (do_invoice out)) ∧
        ∀ key, di_idempotency_key input = Some key →
          invoice_find_by_idempotency_key key (w_db w) = None
  | _ => w_db w' = w_db w
  end.

Lemma run_draft_invoice E ctx input w :
  let '(w', r) := run E (draft_invoice ctx input) w in
  draft_post input w w' r.
Proof.
  unfold draft_post.
  apply run_split, wpc_end. set (Q := λ w' r, _).
  assert (∀ w0, same_db w w0 → rejects Q w0) as HQ
    by (intros w0 [E0 _] w' [] [E1 _] ?; unfold Q; try done; congruence).
  unfold draft_invoice. pose proof (HQ w ltac:(reflexivity)).
  wp_lift u Hv. destruct u. apply wpc_bind. eapply wpc_mono; [|apply wpc_draft_replay].
  intros w1 r [Hs Hr]. destruct r as [o|e|]; cbn [wpc_cont]; [|exact (sd_db _ _ Hs)..].
  specialize (Hr o eq_refl). destruct o as [out|].
  - split; [done|]. destruct Hr as (key & i & Ek & Ei & ->). unfold Q. cbn.
    unfold id in Hv. split; [done|]. split; [by same_dbs|]. eauto.
  - eapply wpc_mono; [|apply wpc_draft_new]. intros w2 r. rw (sd_db _ _ Hs).
    unfold Q. destruct r as [out|e|]; [|done..]. intros (-> & Hd & n & Hn & En).
    split; [done|]. split; [|done]. split; [done|]. exists n. split; [|done]. pose proof (sd_step _ _ Hs). lia.
Qed.

(** What the command promises of a new draft, in terms of the tables. *)
Record drafts (input : DraftInvoiceInput) (d d' : Db) (out : DraftInvoiceOutput) : Prop := {
  dra_lines : Forall2 (draft_line_of (di_currency input) (inv_id (do_invoice out)))
                (di_lines input) (do_lines out);
  dra_positions : ∀ n x, do_lines out !! n = Some x →
    line_position x = Z.of_nat n mod 2 ^ 32 ∧ line_metadata x = ∅;
  dra_invoice : ∃ sub now hid,
    dec_sum dec_zero (line_line_total <$> do_lines out) = Some sub ∧
    do_invoice out =
      {| inv_id := inv_id (do_invoice out); inv_number := None;
         inv_customer_id := di_customer_id input;
         inv_seller_jurisdiction := di_seller_jurisdiction input;
         inv_currency := di_currency input; inv_state := Draft;
         inv_issued_at := None; inv_due_at := di_due_at input; inv_sent_at := None;
         inv_viewed_at := None; inv_paid_at := None; inv_voided_at := None;
         inv_subtotal := Currency.round (di_currency input) sub; inv_tax_total := dec_zero;
         inv_total := Currency.round (di_currency input) sub; inv_amount_paid := dec_zero;
         inv_schedule_id := di_schedule_id input; inv_template_path := di_template_path input;
         inv_pdf_blob_ref := None; inv_idempotency_key := di_idempotency_key input;
         inv_nexus_review := false; inv_metadata := ∅; inv_created_at := now;
         inv_updated_at := now |} ∧
    wrote (do_invoice out)
      {| h_id := hid; h_invoice_id := inv_id (do_invoice out); h_from_state := None;
         h_to_state := Draft; h_event := "draft";
         h_actor := Some (audit_string (di_actor input));
         h_channel := history_channel (di_channel input); h_bus_event_id := None;
         h_reason := None; h_occurred_at := now; h_published_at := None; h_metadata := ∅ |} d d';
  dra_table : lines_become (inv_id (do_invoice out)) (do_lines out) (invoice_lines d) (invoice_lines d');
  dra_sends : send_idempotency d' = send_idempotency d;
}.

Lemma drafted_drafts input d d' out : drafted input d d' out → drafts input d d' out.
Proof.
  intros [Hl (sub & now & Hsum & Ei) (t & hid & -> & Ht) Hpos]. split; try done.
  exists sub, now, hid. split; [done|]. split; [exact Ei|]. apply wrote_set_lines.
  assert (inv_created_at (do_invoice out) = now) as -> by (by rw Ei). apply written_wrote.
Qed.

(** C10: [draft_invoice] fails and leaves the database as it was, or answers a
    known idempotency key with the stored invoice and its lines and writes
    nothing, or, the request being valid and its key unused, creates one draft
    that was not there before: a line per input, in order, stored with the
    draft; their rounded totals summed; one history row; and no other row
    changed. *)
Theorem draft_invoice_spec E ctx input w :
  let '(w', r) := run E (draft_invoice ctx input) w in
  match r with
  | Ok out =>
      (di_lines input ≠ [] ∧ Forall line_valid (di_lines input) ∧
       Currency.as_str (di_currency input) ∈ ["USD"; "CAD"; "DZD"]) ∧
      if do_idempotency_replay out then
        w_db w' = w_db w ∧
        ∃ key k, di_idempotency_key input = Some key ∧
          invoices (w_db w) !! k = Some (do_invoice out) ∧
          inv_idempotency_key (do_invoice out) = Some key ∧
          lines_of (inv_id (do_invoice out)) (w_db w) (do_lines out)
      else
        drafts input (w_db w) (w_db w') out ∧
        (∀ key k i, di_idempotency_key input = Some key → invoices (w_db w) !! k = Some i →
           inv_idempotency_key i ≠ Some key) ∧
        (world_ok w → invoices (w_db w) !! id_to_string (inv_id (do_invoice out)) = None)
  | _ => w_db w' = w_db w
  end.
Proof.
  pose proof (run_draft_invoice E ctx input w) as H. unfold draft_post in H.
  destruct (run E (draft_invoice ctx input) w) as [w' [out|e|]]; [|exact H..].
  destruct H as [Hv H]. split; [by apply draft_validate_ok|]. destruct (do_idempotency_replay out).
  - destruct H as (? & key & Hk & Hf & El). split; [done|]. apply find_by_key_some in Hf as [? [k ?]].
    exists key, k. do 3 (split; [done|]). rw El. apply line_list_lines_of.
  - destruct H as [[Hd (n & Hn & En)] Hkey]. split; [by apply drafted_drafts|]. split.
    + intros key k i Hk Hi. eapply find_by_key_none; [by apply Hkey|done].
    + intros Hw. rw En. eapply fresh_invoice_key; [apply Hw..|done].
Qed.

(** A keyed draft happens once: killed at any point and retried, the
    command answers with the one invoice that carries the key, and when the
    first attempt had already committed, the retry writes nothing. *)
Lemma draft_retry_once E n E' ctx input key w w2 out :
  world_ok w → di_idempotency_key input = Some key →
  let w1 := crash_run E n (draft_invoice ctx input) w in
  run E' (draft_invoice ctx input) w1 = (w2, Ok out) →
  (w_db w1 = w_db w ∨ do_idempotency_replay out = true ∧ w_db w2 = w_db w1) ∧
  inv_idempotency_key (do_invoice out) = Some key ∧
  ∀ k i, invoices (w_db w2) !! k = Some i → inv_idempotency_key i = Some key →
    k = id_to_string (inv_id (do_invoice out)).
Proof.
  intros Hw Hk w1 Hrun.
  assert (world_ok w1) as Hw1 by (by apply safe_crash_run, draft_invoice_safe).
  assert (world_ok w2) as Hw2.
  { pose proof (draft_invoice_safe ctx input E' w1 Hw1) as Hsafe.
    apply safe_run in Hsafe. by rw Hrun in Hsafe. }
  pose proof (run_draft_invoice E' ctx input w1) as H2. unfold draft_post in H2. rw Hrun in H2. destruct H2 as [_ H2].
  assert (inv_idempotency_key (do_invoice out) = Some key ∧
    ∃ k i, invoices (w_db w2) !! k = Some i ∧ inv_idempotency_key i = Some key ∧
      inv_id i = inv_id (do_invoice out)) as [Hkey (k & i & Hi & Hik & Eid)].
  { destruct (do_idempotency_replay out).
    - destruct H2 as (E2 & key' & Hk' & Hf & _). assert (key' = key) as -> by congruence.
      apply find_by_key_some in Hf as (? & k & ?). split; [done|]. rw E2. eauto.
    - destruct H2 as [[[_ (sub & now & _ & Ei) (t & hid & -> & _) _] _] _].
      split; [by rw Ei|]. do 2 eexists. split; [cbn; apply lookup_insert_eq|].
      destruct (invoice_upserted_eq (invoices (w_db w1) !! id_to_string (inv_id (do_invoice out)))
        (do_invoice out)) as (-> & _ & -> & _). by rw Ei. }
  split; [|split; [done|]].
  - destruct (atomic_crash_run E n (draft_invoice ctx input) w
      (draft_invoice_atomic ctx input)) as [?|Hd]; [by left|].
    pose proof (run_draft_invoice E ctx input w) as H1. unfold draft_post in H1. fold w1 in Hd. revert H1 Hd.
    destruct (run E (draft_invoice ctx input) w) as [w' [o|e|]]; [|intros H1 Hd; left; cbn [fst] in Hd; congruence..].
    cbn [fst]. intros [_ H1] Hd. destruct (do_idempotency_replay o).
    { left. destruct H1 as [H1 _]. congruence. }
    right. destruct H1 as [[[_ (sub & now & _ & Ei) (t & hid & Hw' & _) _] _] _].
    destruct (do_idempotency_replay out); [by destruct H2|]. exfalso.
    destruct H2 as [_ Hnone]. specialize (Hnone key Hk). rw Hd Hw' in Hnone.
    eapply find_by_key_none; [exact Hnone|cbn; apply lookup_insert_eq|].
    destruct (invoice_upserted_eq (invoices (w_db w) !! id_to_string (inv_id (do_invoice o)))
        (do_invoice o)) as (_ & _ & -> & _). by rw Ei.
  - intros k' i' Hi' Hk'. rw -Eid -(ok_invoice_key _ (wo_db _ Hw2) _ _ Hi).
    by eapply (ok_idempotency _ (wo_db _ Hw2)).
Qed.

(** The exact amount of a requested line. *)
Definition line_value (c : Currency) (l : DraftLineInput) : Q :=
  round_dp (val (dl_quantity l) * val (dl_unit_price l)) (Currency.scale c).

Lemma line_value_facts c iid l x :
  line_valid l → representable (val (dl_quantity l) * val (dl_unit_price l)) →
  draft_line_of c iid l x →
  (val (line_line_total x) == line_value c l)%Q ∧ (0 <= line_value c l)%Q.
Proof.
  intros (_ & Hq & Hp) Hr [_ _ _ _ _ _ (p & Ep & ->)]. unfold line_value. split.
  - rw round_val. by rewrite -> (dec_mul_val _ _ _ Ep Hr).
  - apply round_dp_nonneg, Qmult_le_0_compat; lra.
Qed.

Lemma draft_lines_values c iid ls xs :
  Forall line_valid ls → Forall (λ l, representable (val (dl_quantity l) * val (dl_unit_price l))) ls →
  Forall2 (draft_line_of c iid) ls xs →
  (Qsum (val <$> (line_line_total <$> xs)) == Qsum (line_value c <$> ls))%Q ∧
  Forall (λ x, on_grid (Currency.scale c) (val x)) (line_line_total <$> xs) ∧
  Forall (λ x, 0 <= x)%Q (val <$> (line_line_total <$> xs)).
Proof.
  intros Hv Hr H. induction H as [|l x ls xs Hx _ IH]; [repeat split; constructor|].
  apply Forall_cons in Hv as [Hv Hvs]. apply Forall_cons in Hr as [Hr Hrs].
  destruct (IH Hvs Hrs) as (Hsum & Hall & Hpos). destruct (line_value_facts c iid l x) as [Ex H0]; [done..|].
  unfold Qsum in *. cbn. split; [rw Ex Hsum; ring|].
  split; (constructor; [|done]); [|lra]. destruct Hx as [_ _ _ _ _ _ (p & _ & ->)]. apply round_on_grid.
Qed.

(** The totals of a new draft are exact: when every product of quantity and
    price fits a [Decimal] and the amounts stay below 2^89, the subtotal and the
    total are the sum, over the requested lines, of the product rounded half to
    even at the currency's scale, and no rounding step adds to that. *)
Lemma draft_total_exact E ctx input w w' out :
  run E (draft_invoice ctx input) w = (w', Ok out) → do_idempotency_replay out = false →
  Forall (λ l, representable (val (dl_quantity l) * val (dl_unit_price l))) (di_lines input) →
  (Qsum (line_value (di_currency input) <$> di_lines input) < inject_Z (2 ^ 89))%Q →
  (val (inv_subtotal (do_invoice out)) == Qsum (line_value (di_currency input) <$> di_lines input))%Q ∧
  inv_total (do_invoice out) = inv_subtotal (do_invoice out).
Proof.
  intros Hrun Hr Hp Hb. pose proof (run_draft_invoice E ctx input w) as H. unfold draft_post in H. rw Hrun in H.
  destruct H as [Hv H]. rw Hr in H. destruct H as [[[Hl (sub & now & Hsum & ->) _ _] _] _].
  cbn [inv_subtotal inv_total draft_build]. split; [|done].
  apply draft_validate_ok in Hv as (_ & Hv & _).
  destruct (draft_lines_values _ _ _ _ Hv Hp Hl) as (Hq & Hall & Hpos).
  destruct (dec_sum_exact (di_currency input) dec_zero (line_line_total <$> do_lines out))
    as (s & Es & Hs & Hg).
  - rw val_zero. apply on_grid_0.
  - done.
  - rewrite -> (Qsum_abs _ Hpos), Hq, val_zero. change (Qabs.Qabs 0) with 0%Q. lra.
  - rewrite -> Es in Hsum. injection Hsum as ->. rewrite -> round_on_grid_fixed by done.
    rw Hs val_zero Hq. ring.
Qed.
End draft_theorems.

(** ** Witnesses *)

#[local] Existing Instance Concrete.platform.
#[local] Existing Instance Concrete.platform_laws.

Definition fx_draft (key : option string) : DraftInvoiceInput :=
  {| di_customer_id := fx_customer_id;
     di_seller_jurisdiction := DelawareUs;
     di_currency := Currency.USD;
     di_lines := [MkDraftLineInput "Consulting" (fx_dec 150) (fx_dec 3335) Standard];
     di_idempotency_key := key;
     di_actor := ACli "ana";
     di_channel := ChCli;
     di_due_at := None;
     di_template_path := None;
     di_schedule_id := None |}.

(** A known key is replayed, and without a key the draft is new. *)
Lemma draft_invoice_spec_witness :
  w_db (run fx_env (draft_invoice fx_ctx (fx_draft (Some "key-1"))) (fx_world Issued)).1 =
  fx_db Issued ∧
  ∃ w' out, run fx_env (draft_invoice fx_ctx (fx_draft None)) (fx_world Issued) = (w', Ok out) ∧
    drafts (fx_draft None) (fx_db Issued) (w_db w') out ∧
    invoices (fx_db Issued) !! id_to_string (inv_id (do_invoice out)) = None.
Proof.
  split.
  - pose proof (draft_invoice_spec fx_env fx_ctx (fx_draft (Some "key-1")) (fx_world Issued)) as H.
    assert (match (run fx_env (draft_invoice fx_ctx (fx_draft (Some "key-1"))) (fx_world Issued)).2 with
            | Ok o => do_idempotency_replay o | _ => true end = true) as Hr by reflexivity.
    destruct (run _ _ _) as [w' [out|e|]]; [|exact H..].
    destruct H as [_ H]. cbn in Hr. rewrite -> Hr in H. apply H.
  - destruct (run_ok fx_env (draft_invoice fx_ctx (fx_draft None)) (fx_world Issued) eq_refl)
      as (w' & out & Hrun). exists w', out. split; [exact Hrun|].
    pose proof (draft_invoice_spec fx_env fx_ctx (fx_draft None) (fx_world Issued)) as H.
    rewrite -> Hrun in H. destruct H as [_ H].
    assert (do_idempotency_replay out = false) as Hr.
    { apply (f_equal (λ r, match r.2 with Ok o => do_idempotency_replay o | _ => false end)) in Hrun.
      cbn [snd] in Hrun. symmetry. exact Hrun. }
    rewrite -> Hr in H. destruct H as (Hd & _ & Hnew).
    split; [exact Hd|]. apply Hnew, fx_world_ok.
Defined.

(** Killed after the transaction and retried. *)
Lemma draft_retry_once_witness :
  ∃ w2 out, run fx_env (draft_invoice fx_ctx (fx_draft (Some "key-2")))
    (crash_run fx_env 6 (draft_invoice fx_ctx (fx_draft (Some "key-2"))) (fx_world Issued)) =
    (w2, Ok out) ∧ inv_idempotency_key (do_invoice out) = Some "key-2".
Proof.
  destruct (run fx_env (draft_invoice fx_ctx (fx_draft (Some "key-2")))
    (crash_run fx_env 6 (draft_invoice fx_ctx (fx_draft (Some "key-2"))) (fx_world Issued)))
    as [w2 [out|e|]] eqn:Hrun.
  - exists w2, out. split; [done|].
    exact (proj1 (proj2 (draft_retry_once fx_env 6 fx_env fx_ctx (fx_draft (Some "key-2")) "key-2"
      (fx_world Issued) w2 out (fx_world_ok Issued) eq_refl Hrun))).
  - exfalso. apply (f_equal (λ r, is_ok r.2)) in Hrun. cbn [snd is_ok] in Hrun.
    revert Hrun. apply not_false_iff_true. reflexivity.
  - exfalso. apply (f_equal (λ r, is_ok r.2)) in Hrun. cbn [snd is_ok] in Hrun.
    revert Hrun. apply not_false_iff_true. reflexivity.
Defined.

Lemma draft_total_exact_witness :
  ∃ w' out, run fx_env (draft_invoice fx_ctx (fx_draft None)) (fx_world Issued) = (w', Ok out) ∧
    (val (inv_subtotal (do_invoice out)) == 5002 # 100)%Q.
Proof.
  destruct (run fx_env (draft_invoice fx_ctx (fx_draft None)) (fx_world Issued))
    as [w' [out|e|]] eqn:Hrun.
  - exists w', out. split; [done|].
    assert (do_idempotency_replay out = false) as Hr.
    { apply (f_equal (λ r, match r.2 with Ok o => do_idempotency_replay o | _ => false end)) in Hrun.
      cbn [snd] in Hrun. symmetry. exact Hrun. }
    destruct (draft_total_exact _ _ _ _ _ _ Hrun Hr) as [H _].
    + constructor; [|constructor]. exists 500250, 4%nat.
      split; [lia|]. split; [reflexivity|reflexivity].
    + reflexivity.
    + rewrite -> H. reflexivity.
  - exfalso. apply (f_equal (λ r, is_ok r.2)) in Hrun. cbn [snd is_ok] in Hrun.
    revert Hrun. apply not_false_iff_true. reflexivity.
  - exfalso. apply (f_equal (λ r, is_ok r.2)) in Hrun. cbn [snd is_ok] in Hrun.
    revert Hrun. apply not_false_iff_true. reflexivity.
Defined.
