(* ===== verification/Pay.v ===== *)
(** * Recording a payment ([commands/src/pay.rs]) *)

From S2P Require Import Prelude Rounding External Concrete Money Ids Domain InvoiceFsm Events Tax.
From S2P Require Import Store Render Command Transition Invariant Evolution World Fixtures.
From Stdlib Require Import Lqa.

Section pay.
Context `{P : Platform}.

Record MarkPaidInput := MkMarkPaidInput {
  mp_invoice_id : InvoiceId;
  mp_amount : Decimal;
  mp_received_at : option DateTime;
  mp_idempotency_key : option string;
  mp_bus_event_id : option string;
  mp_actor : Actor;
  mp_channel : Channel;
}.

Definition mark_paid_validate (input : MarkPaidInput) : res CoreError () :=
  if dec_leb (mp_amount input) dec_zero
  then Err (Validation ("payment amount must be > 0, got " +:+ dec_to_string (mp_amount input)))
  else Ok ().

Record MarkPaidOutput := MkMarkPaidOutput { mpo_invoice : Invoice; mpo_fully_paid : bool }.

Definition paid_payload (invoice : Invoice) (input : MarkPaidInput) (channel : HistoryChannel) : json :=
  JObj [("invoice_id", JStr (id_to_string (inv_id invoice)));
        ("amount", JStr (dec_to_string (mp_amount input)));
        ("amount_paid", JStr (dec_to_string (inv_amount_paid invoice)));
        ("total", JStr (dec_to_string (inv_total invoice)));
        ("currency", JStr (Currency.as_str (inv_currency invoice)));
        ("actor", JStr (audit_string (mp_actor input)));
        ("channel", JStr (history_channel_str channel));
        ("bus_event_id", jopt (mp_bus_event_id input))].

Definition publish_paid_events (ctx : CoreCtx) (invoice : Invoice) (input : MarkPaidInput)
    (from to : InvoiceState) (event : InvoiceEvent) (channel : HistoryChannel) (now : DateTime)
    (fully_paid : bool) : prog () :=
  _ ← publish_triplet ctx (inv_id invoice) from to event (audit_string (mp_actor input)) channel now;
  try_publish ctx (if fully_paid then "inv.billing.invoice.paid"
                   else "inv.billing.invoice.partially_paid")
    (paid_payload invoice input channel) now.

(** The mutated invoice of step 3. *)
Definition pay_mutate (invoice : Invoice) (new_amount_paid : Decimal) (to : InvoiceState)
    (fully_paid : bool) (now : DateTime) : Invoice :=
  let invoice := set_inv_updated_at now (set_inv_state to (set_inv_amount_paid new_amount_paid invoice)) in
  if fully_paid then set_inv_paid_at (Some now) invoice else invoice.

Definition is_paid (s : InvoiceState) : bool := match s with Paid => true | _ => false end.

Definition mark_paid (ctx : CoreCtx) (input : MarkPaidInput) : prog MarkPaidOutput :=
  _ ← lift id (mark_paid_validate input);
  found ← db_query (λ d, Ok (invoice_get (mp_invoice_id input) d));
  invoice ← or_not_found ("invoice " +:+ id_to_string (mp_invoice_id input)) found;
  new_amount_paid ← lift Validation (dadd (inv_amount_paid invoice) (mp_amount input));
  let from_state := inv_state invoice in
  let event := Pay new_amount_paid (inv_total invoice) in
  to_state ← lift FsmTransition (next_state from_state event);
  let fully_paid := is_paid to_state in
  now ← match mp_received_at input with Some t => Ret t | None => clock_now end;
  let invoice := pay_mutate invoice new_amount_paid to_state fully_paid now in
  hid ← fresh EHistory;
  let history := transition_row hid (inv_id invoice) from_state to_state (tag event)
                   (mp_actor input) (mp_channel input) (mp_bus_event_id input) None now
                   {[ "amount" := dec_to_string (mp_amount input) ]} in
  _ ← db_exec (save_transition invoice history);
  _ ← publish_paid_events ctx invoice input from_state to_state event
        (history_channel (mp_channel input)) now fully_paid;
  Ret (MkMarkPaidOutput invoice fully_paid).

Lemma quiet_publish_paid_events ctx invoice input from to event channel now fully_paid :
  quiet (publish_paid_events ctx invoice input from to event channel now fully_paid).
Proof. unfold publish_paid_events. solve_quiet. Qed.
End pay.

#[export] Hint Resolve quiet_publish_paid_events : inv.

(** ** What recording a payment does *)

Section pay_theorems.
Context {P : Platform} {L : PlatformLaws P}.

(** The states a payment is accepted in. *)
Definition payable (s : InvoiceState) : Prop :=
  s = Issued ∨ s = Sent ∨ s = Viewed ∨ s = PartiallyPaid.

Lemma next_state_pay_inv s a t s' :
  next_state s (Pay a t) = Ok s' →
  payable s ∧ (0 < val a)%Q ∧
  ((s' = Paid ∧ (val t <= val a)%Q) ∨ (s' = PartiallyPaid ∧ (val a < val t)%Q)).
Proof.
  unfold payable. intros H.
  assert (payable s ∧ pay_from_open a t = Ok s') as [Hs Hp] by (unfold payable; destruct s; naive_solver).
  split; [done|]. unfold pay_from_open, classify_payment in Hp.
  destruct (dec_leb a dec_zero) eqn:E0; [done|]. rw dec_leb_val_false val_zero in E0.
  split; [done|]. destruct (dec_leb t a) eqn:E1; cbn in Hp.
  - rw dec_leb_val in E1. injection Hp as <-. by left.
  - rw dec_leb_val_false in E1. injection Hp as <-. by right.
Qed.

Lemma next_state_pays s a t :
  payable s → (0 < val a)%Q → ∃ s', next_state s (Pay a t) = Ok s'.
Proof.
  intros Hs Ha.
  assert (next_state s (Pay a t) = pay_from_open a t) as ->
    by (destruct Hs as [->|[->|[->| ->]]]; done).
  unfold pay_from_open, classify_payment.
  rewrite -> (proj2 (dec_leb_val_false a dec_zero)) by (by rw val_zero).
  destruct (dec_leb t a); cbn; eauto.
Qed.

(** No invoice has a negative amount paid. *)
Lemma paid_not_negative i : invoice_consistent i → inv_state i ≠ Voided →
  (0 <= val (inv_amount_paid i))%Q.
Proof.
  intros Hc Hv. pose proof (ic_unpaid i Hc) as H0. pose proof (ic_partial i Hc) as H1.
  pose proof (ic_paid i Hc) as H2. destruct (inv_state i) eqn:E; try done.
  1-4: rewrite -> H0 by naive_solver; lra.
  - by apply Qlt_le_weak, H1.
  - by apply Qlt_le_weak, H2.
Qed.

Lemma pay_mutate_consistent i a s now :
  next_state (inv_state i) (Pay a (inv_total i)) = Ok s →
  invoice_consistent i → invoice_consistent (pay_mutate i a s (is_paid s) now).
Proof.
  intros H Hc. apply next_state_pay_inv in H as (Hs & Ha & Hd).
  assert (inv_state i ≠ Draft ∧ inv_state i ≠ Paid ∧ inv_state i ≠ Voided) as (? & ? & ?)
    by (destruct Hs as [E|[E|[E|E]]]; by rw E).
  destruct Hc. destruct Hd as [[-> Hle]|[-> Hlt]]; cbn; split; cbn; timeout 60 naive_solver.
Qed.

Lemma pay_transition_fits input hid i0 a now s :
  next_state (inv_state i0) (Pay a (inv_total i0)) = Ok s →
  transition_fits i0 (pay_mutate i0 a s (is_paid s) now)
    (transition_row hid (inv_id (pay_mutate i0 a s (is_paid s) now)) (inv_state i0) s (tag (Pay a (inv_total i0)))
       (mp_actor input) (mp_channel input) (mp_bus_event_id input) None now
       {[ "amount" := dec_to_string (mp_amount input) ]}).
Proof.
  intros H. split; try (by destruct s).
  - replace (inv_state (pay_mutate _ _ _ _ _)) with s by (by destruct s).
    apply legal_step; [done|]. by apply next_state_sound.
  - by apply pay_mutate_consistent.
Qed.

Lemma mark_paid_since d0 ctx input E w :
  ok_since d0 w → safe (ok_since d0) E (mark_paid ctx input) w.
Proof.
  intros Hw. unfold mark_paid, safe.
  wp_skip. wp_query Hq. wp_found i0 Hf. wp_lift a Ha. wp_lift s Hs.
  wp_skip. cbv zeta. wp_fresh. wp_exec Hd.
  - eapply since_transition; [done| | | |exact Hd].
    + same_dbs. by eapply invoice_get_id; [apply Hw|].
    + by apply pay_transition_fits.
    + apply drawn_new. lia.
  - apply safe_quiet; [wp_side|solve_quiet|done].

Qed.
Lemma mark_paid_safe ctx input E w : world_ok w → safe world_ok E (mark_paid ctx input) w.
Proof. apply since_safe. intros d0. apply mark_paid_since. Qed.

Lemma pay_mutate_fields i a s now :
  inv_amount_paid (pay_mutate i a s (is_paid s) now) = a ∧
  inv_total (pay_mutate i a s (is_paid s) now) = inv_total i ∧
  inv_state (pay_mutate i a s (is_paid s) now) = s ∧
  inv_id (pay_mutate i a s (is_paid s) now) = inv_id i ∧
  inv_paid_at (pay_mutate i a s (is_paid s) now) =
    if is_paid s then Some now else inv_paid_at i.
Proof. by destruct s. Qed.

(** [f] continues at the time given, or at the clock's. *)
Lemma wpc_bind_received {A} (I : World → Prop) E (o : option DateTime) (f : DateTime → prog A)
    (Q : World → res CoreError A → Prop) w :
  stable I → I w → rejects Q w →
  (∀ w' now, same_db w w' → (∀ t, o = Some t → now = t) → I w' → rejects Q w' → wpc I E (f now) Q w') →
  wpc I E (match o with Some t => Ret t | None => clock_now end ≫= f) Q w.
Proof.
  intros HI Hw HQ Hf. destruct o as [t|]; cbn; [apply Hf; [done|by intros ? [= ->]|done..]|].
  pose proof (same_db_tick w). split; [done|].
  apply Hf; [done|done|by eapply HI|by eapply rejects_same_db].
Qed.

(** [i] is [i0] but for what a payment of [amount] at [now] changes. *)
Record payment_on (i0 i : Invoice) (amount : Decimal) (fully_paid : bool) (now : DateTime) : Prop := {
  po_payable : payable (inv_state i0);
  po_positive : (0 < val amount)%Q;
  po_amount : dec_add (inv_amount_paid i0) amount = Some (inv_amount_paid i);
  po_state : fully_paid = true ∧ inv_state i = Paid ∧ inv_paid_at i = Some now ∧
      (val (inv_total i0) <= val (inv_amount_paid i))%Q ∨
    fully_paid = false ∧ inv_state i = PartiallyPaid ∧ inv_paid_at i = inv_paid_at i0 ∧
      (0 < val (inv_amount_paid i))%Q ∧ (val (inv_amount_paid i) < val (inv_total i0))%Q;
  po_updated : inv_updated_at i = now;
  po_rest : i0 = set_inv_updated_at (inv_updated_at i0) (set_inv_paid_at (inv_paid_at i0)
    (set_inv_state (inv_state i0) (set_inv_amount_paid (inv_amount_paid i0) i)));
}.

Definition pay_post input w w' (r : res CoreError MarkPaidOutput) : Prop :=
  match r with
  | Ok out =>
      ∃ i0 now hid, let i := mpo_invoice out in
      invoice_get (mp_invoice_id input) (w_db w) = Some i0 ∧
      (∀ t, mp_received_at input = Some t → now = t) ∧
      payment_on i0 i (mp_amount input) (mpo_fully_paid out) now ∧
      w_db w' = written i (transition_row hid (inv_id i0) (inv_state i0) (inv_state i) "pay"
        (mp_actor input) (mp_channel input) (mp_bus_event_id input) None now
        {[ "amount" := dec_to_string (mp_amount input) ]}) (w_db w)
  | _ => w_db w' = w_db w
  end.

Lemma pay_mutate_payment i0 a amount s now :
  (0 < val amount)%Q → dec_add (inv_amount_paid i0) amount = Some a →
  next_state (inv_state i0) (Pay a (inv_total i0)) = Ok s →
  payment_on i0 (pay_mutate i0 a s (is_paid s) now) amount (is_paid s) now.
Proof.
  intros Hpos Ha Hs. apply next_state_pay_inv in Hs as (? & ? & Hcases).
  edestruct (pay_mutate_fields i0 a s now) as (Ea & _ & Es & _ & Ep).
  split; rw ?Ea ?Es ?Ep; try done.
  - destruct Hcases as [[-> ?]|[-> ?]]; cbn; naive_solver.
  - by destruct s.
  - by destruct i0, s.
Qed.

Lemma run_mark_paid E ctx input w :
  let '(w', r) := run E (mark_paid ctx input) w in pay_post input w w' r.
Proof.
  unfold pay_post. apply run_split, wpc_end. set (Q := λ w' r, _).
  assert (rejects Q w) as HQ by (intros w' [] [E0 _] ?; done).
  unfold mark_paid. wp_lift u Hv. wp_query Hq. wp_found i0 Hf. wp_lift a Ha. wp_lift s Hs.
  cbv zeta. apply wpc_bind_received; [wp_side..|]. intros wn now ? Hnow ? ?.
  cbv zeta. wp_fresh. wp_exec Hd; [done|].
  apply wpc_bind_total; [done|intros; by apply wpc_publish_events|done|].
  intros wf [E' _] _. split; [done|]. unfold Q. cbn [mpo_invoice mpo_fully_paid].
  apply save_transition_written in Hd. cbn in E'. rewrite -> Hd in E'. same_dbs.
  exists i0, now. eexists. split; [done|]. split; [done|]. split.
  - apply pay_mutate_payment; [| |done].
    + unfold mark_paid_validate in Hv. destruct (dec_leb _ _) eqn:Ep; [done|].
      by rewrite -> dec_leb_val_false, val_zero in Ep.
    + unfold dadd, or_panic in Ha. destruct (dec_add _ _); [by injection Ha as ->|done].
  - edestruct (pay_mutate_fields i0 a s now) as (_ & _ & -> & Eid & _). by rewrite -> Eid in E'.
Qed.

(** C11: [mark_paid] either fails and leaves the database as it was, or records
    the payment: a positive amount, on an invoice that was issued and not yet
    settled, is added to what was paid; the invoice becomes [Paid] (and gets
    its payment date, the time of receipt if one is given) exactly when that
    covers the total and [PartiallyPaid] otherwise; no other field of it but the
    update time changes, and the write is that invoice and one [pay] row. *)
Theorem mark_paid_records_payment E ctx input w :
  let '(w', r) := run E (mark_paid ctx input) w in
  match r with
  | Ok out =>
      ∃ i0 now hid, let i := mpo_invoice out in
      invoice_get (mp_invoice_id input) (w_db w) = Some i0 ∧
      (∀ t, mp_received_at input = Some t → now = t) ∧
      payment_on i0 i (mp_amount input) (mpo_fully_paid out) now ∧
      w_db w' = written i (transition_row hid (inv_id i0) (inv_state i0) (inv_state i) "pay"
        (mp_actor input) (mp_channel input) (mp_bus_event_id input) None now
        {[ "amount" := dec_to_string (mp_amount input) ]}) (w_db w)
  | _ => w_db w' = w_db w
  end.
Proof. exact (run_mark_paid E ctx input w). Qed.

(** What follows the lookup of the invoice. *)
Definition pay_found (ctx : CoreCtx) (input : MarkPaidInput) (invoice : Invoice) : prog MarkPaidOutput :=
  new_amount_paid ← lift Validation (dadd (inv_amount_paid invoice) (mp_amount input));
  let from_state := inv_state invoice in
  let event := Pay new_amount_paid (inv_total invoice) in
  to_state ← lift FsmTransition (next_state from_state event);
  let fully_paid := is_paid to_state in
  now ← match mp_received_at input with Some t => Ret t | None => clock_now end;
  let invoice := pay_mutate invoice new_amount_paid to_state fully_paid now in
  hid ← fresh EHistory;
  let history := transition_row hid (inv_id invoice) from_state to_state (tag event)
                   (mp_actor input) (mp_channel input) (mp_bus_event_id input) None now
                   {[ "amount" := dec_to_string (mp_amount input) ]} in
  _ ← db_exec (save_transition invoice history);
  _ ← publish_paid_events ctx invoice input from_state to_state event
        (history_channel (mp_channel input)) now fully_paid;
  Ret (MkMarkPaidOutput invoice fully_paid).

(** The payment goes through whatever the row holds by now, as long as the fields
    under a constraint are those that were read. *)
Lemma pay_found_goes_through E ctx input w i0 i1 a s :
  world_ok w → (∀ n, env_db_ok E n = true) → invoice_get (inv_id i1) (w_db w) = Some i1 →
  inv_id i0 = inv_id i1 → inv_number i0 = inv_number i1 →
  inv_idempotency_key i0 = inv_idempotency_key i1 → inv_customer_id i0 = inv_customer_id i1 →
  dec_add (inv_amount_paid i0) (mp_amount input) = Some a →
  next_state (inv_state i0) (Pay a (inv_total i0)) = Ok s →
  wpc anywhere E (pay_found ctx input i0) (λ w' r, ∃ now hid,
    let i := pay_mutate i0 a s (is_paid s) now in
    r = Ok (MkMarkPaidOutput i (is_paid s)) ∧
    w_db w' = written i (transition_row hid (inv_id i0) (inv_state i0) s "pay" (mp_actor input) (mp_channel input)
      (mp_bus_event_id input) None now {[ "amount" := dec_to_string (mp_amount input) ]}) (w_db w)) w.
Proof.
  intros Hw HE Hg Eid En Ek Ec Ea Es. unfold pay_found, dadd. rw Ea. cbn. cbv zeta. rw Es. cbn.
  set (Q := λ (w' : World) (r : res CoreError MarkPaidOutput), _).
  assert (∀ w', same_db w w' → ∀ now, wpc anywhere E (
    hid ← fresh EHistory;
    let invoice := pay_mutate i0 a s (is_paid s) now in
    _ ← db_exec (save_transition invoice (transition_row hid (inv_id invoice) (inv_state i0) s
                   (tag (Pay a (inv_total i0))) (mp_actor input) (mp_channel input)
                   (mp_bus_event_id input) None now {[ "amount" := dec_to_string (mp_amount input) ]}));
    _ ← publish_paid_events ctx invoice input (inv_state i0) s (Pay a (inv_total i0))
          (history_channel (mp_channel input)) now (is_paid s);
    Ret (MkMarkPaidOutput invoice (is_paid s))) Q w') as Hrest.
  { intros w2 H2 now. apply healthy_fresh; [wp_side|exact Logic.I|]. intros w3 H3 Hstep _.
    pose proof (sd_step _ _ H2) as Hle. eapply healthy_exec; [done|exact Logic.I| |].
    - apply (save_transition_succeeds _ i1) with (n := w_step w);
        try (destruct s; cbn; congruence); same_dbs; try apply Hw; try done.
      exists (w_step w2). done.
    - apply wpc_bind_total; [wp_side|intros; by apply wpc_publish_events|exact Logic.I|].
      intros w4 [E4 _] _. split; [done|]. exists now. eexists. split; [done|]. rw E4. same_dbs.
      edestruct (pay_mutate_fields i0 a s now) as (_ & _ & _ & Eid' & _). by rewrite -> Eid'. }
  destruct (mp_received_at input); [by apply Hrest|].
  apply healthy_clock; [wp_side|exact Logic.I|]. intros w2 now H2 _. by apply Hrest.
Qed.

(** The sum of a payment on a stored invoice and the state it leads to. *)
Lemma payment_accepted w input i0 :
  world_ok w → invoice_get (mp_invoice_id input) (w_db w) = Some i0 → payable (inv_state i0) →
  (0 < val (mp_amount input))%Q → representable (val (inv_amount_paid i0) + val (mp_amount input)) →
  ∃ a s, dec_add (inv_amount_paid i0) (mp_amount input) = Some a ∧
    (val a == val (inv_amount_paid i0) + val (mp_amount input))%Q ∧
    next_state (inv_state i0) (Pay a (inv_total i0)) = Ok s.
Proof.
  intros Hw Hg Hs Hpos Hr. destruct (dec_add_exact _ _ Hr) as (a & Ea & Hva).
  assert (0 < val a)%Q as Ha.
  { rw Hva. pose proof (paid_not_negative i0 (ok_consistent _ (wo_db _ Hw) _ _ Hg)) as H0.
    assert (inv_state i0 ≠ Voided) as Hv by (intros E0; rw E0 in Hs; by destruct Hs as [|[|[|]]]).
    specialize (H0 Hv). lra. }
  destruct (next_state_pays (inv_state i0) a (inv_total i0) Hs Ha) as [s Es]. by exists a, s.
Qed.

(** The first two steps of [mark_paid] let a positive payment on a stored invoice by. *)
Lemma mark_paid_found ctx input :
  (0 < val (mp_amount input))%Q →
  mark_paid ctx input =
    (found ← db_query (λ d, Ok (invoice_get (mp_invoice_id input) d));
     invoice ← or_not_found ("invoice " +:+ id_to_string (mp_invoice_id input)) found;
     pay_found ctx input invoice).
Proof.
  intros Hpos. unfold mark_paid, mark_paid_validate.
  assert (dec_leb (mp_amount input) dec_zero = false) as -> by (by rw dec_leb_val_false val_zero). done.
Qed.

Lemma mark_paid_goes_through E ctx input w i0 :
  world_ok w → (∀ n, env_db_ok E n = true) →
  invoice_get (mp_invoice_id input) (w_db w) = Some i0 → payable (inv_state i0) →
  (0 < val (mp_amount input))%Q →
  representable (val (inv_amount_paid i0) + val (mp_amount input)) →
  ∃ w' out, run E (mark_paid ctx input) w = (w', Ok out) ∧
    (val (inv_amount_paid (mpo_invoice out)) == val (inv_amount_paid i0) + val (mp_amount input))%Q.
Proof.
  intros Hw HE Hg Hs Hpos Hr. destruct (payment_accepted w input i0) as (a & s & Ea & Hva & Es); [done..|].
  set (Q := λ (w' : World) (r : res CoreError MarkPaidOutput), ∃ out, r = Ok out ∧
    (val (inv_amount_paid (mpo_invoice out)) == val (inv_amount_paid i0) + val (mp_amount input))%Q).
  assert (wpc anywhere E (mark_paid ctx input) Q w) as Hrun.
  2: { apply wpc_end in Hrun as (out & Er & ?). destruct (run _ _ _) as [w' r]. cbn in Er.
       subst r. by exists w', out. }
  rw mark_paid_found; [done|]. eapply healthy_query; [wp_side|done|exact Logic.I|done|]. intros w1 H1 _.
  rw Hg. cbn [or_not_found mbind prog_mbind prog_bind].
  assert (invoice_get (inv_id i0) (w_db w1) = Some i0) as Hg1
    by (rw (sd_db _ _ H1); by eapply invoice_get_id; [apply Hw|]).
  eapply wpc_mono, (pay_found_goes_through E ctx input w1 i0 i0 a s); try done.
  - intros w' r (now & hid & -> & _). eexists. split; [done|]. cbn [mpo_invoice].
    by destruct (pay_mutate_fields i0 a s now) as (-> & _).
  - by eapply world_ok_stable.
Qed.

(** Against a database that answers, a positive payment on an invoice that
    was issued and not yet settled always goes through, whatever the publisher
    does: no constraint of the schema can refuse it, and the amount paid grows
    by exactly the payment. *)
Lemma mark_paid_succeeds E ctx input w i0 :
  world_ok w → (∀ n, env_db_ok E n = true) →
  invoice_get (mp_invoice_id input) (w_db w) = Some i0 → payable (inv_state i0) →
  (0 < val (mp_amount input))%Q →
  representable (val (inv_amount_paid i0) + val (mp_amount input)) →
  ∃ w' out, run E (mark_paid ctx input) w = (w', Ok out) ∧
    (val (inv_amount_paid (mpo_invoice out)) == val (inv_amount_paid i0) + val (mp_amount input))%Q.
Proof. apply mark_paid_goes_through. Qed.

(** A payment is one transaction: killed anywhere, it left the database as it
    was or as the complete run leaves it. *)
Lemma mark_paid_atomic ctx input : atomic (mark_paid ctx input).
Proof. unfold mark_paid. solve_atomic. Qed.
End pay_theorems.

(** ** Witnesses *)

#[local] Existing Instance Concrete.platform.
#[local] Existing Instance Concrete.platform_laws.

Definition fx_payment (cents : Z) : MarkPaidInput :=
  MkMarkPaidInput fx_invoice_id (fx_dec cents) None None None (ACli "ana") ChCli.

Lemma mark_paid_succeeds_witness :
  ∃ w' out, run fx_env (mark_paid fx_ctx (fx_payment 6000)) (fx_world PartiallyPaid) = (w', Ok out) ∧
    (val (inv_amount_paid (mpo_invoice out)) == 100)%Q.
Proof.
  destruct (mark_paid_succeeds fx_env fx_ctx (fx_payment 6000) (fx_world PartiallyPaid)
    (fx_invoice PartiallyPaid)) as (w' & out & H & Hv).
  - apply fx_world_ok.
  - done.
  - apply fx_get.
  - by do 3 right.
  - reflexivity.
  - exists 10000, 2%nat. split; [lia|]. split; [reflexivity|reflexivity].
  - exists w', out. split; [exact H|]. rewrite -> Hv. reflexivity.
Defined.

Lemma mark_paid_records_payment_witness :
  w_db (run fx_env (mark_paid fx_ctx (fx_payment 6000)) (fx_world Voided)).1 = fx_db Voided.
Proof.
  pose proof (mark_paid_records_payment fx_env fx_ctx (fx_payment 6000) (fx_world Voided)) as H.
  assert (is_ok (run fx_env (mark_paid fx_ctx (fx_payment 6000)) (fx_world Voided)).2 = false)
    as Hr by reflexivity.
  destruct (run _ _ _) as [w' [out|e|]]; [done|exact H..].
Defined.
