(* ===== verification/Void.v ===== *)
(** * Voiding an invoice ([commands/src/void.rs]) *)

From S2P Require Import Prelude External Concrete Money Ids Domain InvoiceFsm Events Tax Store.
From S2P Require Import Render Command Transition Invariant Evolution World Fixtures.

Section void.
Context `{P : Platform}.

Record VoidInvoiceInput := MkVoidInvoiceInput {
  vi_invoice_id : InvoiceId;
  vi_reason : option string;
  vi_idempotency_key : option string;
  vi_actor : Actor;
  vi_channel : Channel;
}.

Definition void_validate (input : VoidInvoiceInput) : res CoreError () := Ok ().

Definition voided_payload (invoice : Invoice) (input : VoidInvoiceInput) (channel : HistoryChannel) : json :=
  JObj [("invoice_id", JStr (id_to_string (inv_id invoice)));
        ("reason", jopt (vi_reason input));
        ("actor", JStr (audit_string (vi_actor input)));
        ("channel", JStr (history_channel_str channel))].

Definition publish_voided_events (ctx : CoreCtx) (invoice : Invoice) (input : VoidInvoiceInput)
    (from to : InvoiceState) (event : InvoiceEvent) (channel : HistoryChannel) (now : DateTime)
    : prog () :=
  _ ← publish_triplet ctx (inv_id invoice) from to event (audit_string (vi_actor input)) channel now;
  try_publish ctx "inv.billing.invoice.voided" (voided_payload invoice input channel) now.

Definition void_mutate (invoice : Invoice) (to : InvoiceState) (now : DateTime) : Invoice :=
  set_inv_updated_at now (set_inv_voided_at (Some now) (set_inv_state to invoice)).

Definition void_invoice (ctx : CoreCtx) (input : VoidInvoiceInput) : prog Invoice :=
  _ ← lift id (void_validate input);
  found ← db_query (λ d, Ok (invoice_get (vi_invoice_id input) d));
  invoice ← or_not_found ("invoice " +:+ id_to_string (vi_invoice_id input)) found;
  let from_state := inv_state invoice in
  let event := Void in
  to_state ← lift FsmTransition (next_state from_state event);
  now ← clock_now;
  let invoice := void_mutate invoice to_state now in
  hid ← fresh EHistory;
  let history := transition_row hid (inv_id invoice) from_state to_state (tag event)
                   (vi_actor input) (vi_channel input) None (vi_reason input) now ∅ in
  _ ← db_exec (save_transition invoice history);
  _ ← publish_voided_events ctx invoice input from_state to_state event
        (history_channel (vi_channel input)) now;
  Ret invoice.

Lemma quiet_publish_voided_events ctx invoice input from to event channel now :
  quiet (publish_voided_events ctx invoice input from to event channel now).
Proof. unfold publish_voided_events. solve_quiet. Qed.
End void.

#[export] Hint Resolve quiet_publish_voided_events : inv.

(** ** What voiding does *)

Section void_theorems.
Context {P : Platform} {L : PlatformLaws P}.

(** The states an invoice can be voided from. *)
Definition voidable (s : InvoiceState) : Prop :=
  s = Issued ∨ s = Sent ∨ s = Viewed ∨ s = PartiallyPaid.

Lemma next_state_void_iff s s' : next_state s Void = Ok s' ↔ voidable s ∧ s' = Voided.
Proof. unfold voidable. destruct s; cbn; naive_solver. Qed.

Lemma void_mutate_consistent i now :
  voidable (inv_state i) → invoice_consistent i → invoice_consistent (void_mutate i Voided now).
Proof.
  intros Hs Hc.
  assert (inv_state i ≠ Draft ∧ inv_state i ≠ Paid) as [? ?]
    by (destruct Hs as [E|[E|[E|E]]]; by rw E).
  destruct Hc. split; cbn; timeout 60 naive_solver.
Qed.

Lemma void_transition_fits input hid i0 now :
  voidable (inv_state i0) →
  transition_fits i0 (void_mutate i0 Voided now)
    (transition_row hid (inv_id i0) (inv_state i0) Voided "void"
       (vi_actor input) (vi_channel input) None (vi_reason input) now ∅).
Proof.
  intros H. split; try done.
  - apply (legal_step _ Void); [done|]. apply next_state_sound. by apply next_state_void_iff.
  - by apply void_mutate_consistent.
Qed.

Lemma void_invoice_since d0 ctx input E w :
  ok_since d0 w → safe (ok_since d0) E (void_invoice ctx input) w.
Proof.
  intros Hw. unfold void_invoice, safe.
  wp_skip. wp_query Hq. wp_found i0 Hf. wp_lift s Hs. apply next_state_void_iff in Hs as [Hs ->].
  wp_skip. cbv zeta. wp_fresh. wp_exec Hd.
  - eapply since_transition; [done| | | |exact Hd].
    + same_dbs. by eapply invoice_get_id; [apply Hw|].
    + by apply (void_transition_fits input _ i0).
    + apply drawn_new. lia.
  - apply safe_quiet; [wp_side|solve_quiet|done].
Qed.
Lemma void_invoice_safe ctx input E w : world_ok w → safe world_ok E (void_invoice ctx input) w.
Proof. apply since_safe. intros d0. apply void_invoice_since. Qed.

(** [void_invoice] either fails and leaves the database as it was, or turns
    an issued, sent, viewed or partially paid invoice into a [Voided] one with
    its date, touching neither its number nor its amounts, and appends one
    [void] row with the caller's reason. *)
Lemma void_invoice_spec E ctx input w :
  let '(w', r) := run E (void_invoice ctx input) w in
  match r with
  | Ok i =>
      ∃ i0 now hid, invoice_get (vi_invoice_id input) (w_db w) = Some i0 ∧
      voidable (inv_state i0) ∧
      i = set_inv_updated_at now (set_inv_voided_at (Some now) (set_inv_state Voided i0)) ∧
      w_db w' = written i (transition_row hid (inv_id i0) (inv_state i0) Voided "void"
        (vi_actor input) (vi_channel input) None (vi_reason input) now ∅) (w_db w)
  | _ => w_db w' = w_db w
  end.
Proof.
  apply run_split, wpc_end. set (Q := λ w' r, _).
  assert (rejects Q w) as HQ by (intros w' [] [E0 _] ?; done).
  unfold void_invoice. wp_lift u Hv. wp_query Hq. wp_found i0 Hf. wp_lift s Hs.
  apply next_state_void_iff in Hs as [Hs ->].
  wp_skip. cbv zeta. wp_fresh. wp_exec Hd; [done|].
  apply wpc_bind_total; [done|intros; by apply wpc_publish_events|done|].
  intros wf [E' _] _. split; [done|]. unfold Q.
  apply save_transition_written in Hd. cbn in E'. rewrite -> Hd in E'. same_dbs.
  do 3 eexists. by repeat split.
Qed.

(** Against a database that answers, voiding goes through exactly when the
    invoice exists in a voidable state: anything else is refused. *)
Lemma void_invoice_accepts E ctx input w i0 :
  world_ok w → (∀ n, env_db_ok E n = true) →
  invoice_get (vi_invoice_id input) (w_db w) = Some i0 →
  (voidable (inv_state i0) → ∃ i, (run E (void_invoice ctx input) w).2 = Ok i) ∧
  (¬ voidable (inv_state i0) →
     (run E (void_invoice ctx input) w).2 =
       Err (FsmTransition (Illegal (inv_state i0) "void"))).
Proof.
  intros Hw HE Hg. split; intros Hs.
  - set (Q := λ (w' : World) (r : res CoreError Invoice), ∃ i, r = Ok i).
    enough (wpc anywhere E (void_invoice ctx input) Q w) as Hrun by exact (wpc_end _ _ _ _ Hrun).
    unfold void_invoice. cbn [void_validate lift mbind prog_mbind prog_bind].
    eapply healthy_query; [wp_side|done|exact Logic.I|done|]. intros w1 H1 _.
    rw Hg. cbn [or_not_found mbind prog_mbind prog_bind]. cbv zeta.
    rewrite -> (proj2 (next_state_void_iff (inv_state i0) Voided)) by done.
    cbn [lift mbind prog_mbind prog_bind].
    apply healthy_clock; [wp_side|exact Logic.I|]. intros w2 now H2 _.
    apply healthy_fresh; [wp_side|exact Logic.I|]. intros w3 H3 Hstep _.
    pose proof (sd_step _ _ H1) as Hle1. pose proof (sd_step _ _ H2) as Hle2.
    eapply healthy_exec; [done|exact Logic.I| |].
    + apply (save_transition_succeeds _ i0) with (n := w_step w); try done; same_dbs; try apply Hw.
      * by eapply invoice_get_id; [apply Hw|].
      * exists (w_step w2). split; [lia|done].
    + apply wpc_bind_total; [wp_side|intros; by apply wpc_publish_events|exact Logic.I|].
      intros w4 _ _. split; [done|]. by eexists.
  - unfold void_invoice. cbn. rw HE Hg. cbn.
    destruct (inv_state i0) eqn:E0; cbn; try done; by exfalso; apply Hs; unfold voidable; auto.
Qed.

Lemma void_invoice_atomic ctx input : atomic (void_invoice ctx input).
Proof. unfold void_invoice. solve_atomic. Qed.
End void_theorems.

(** ** Witnesses *)

#[local] Existing Instance Concrete.platform.
#[local] Existing Instance Concrete.platform_laws.

Definition fx_void : VoidInvoiceInput :=
  MkVoidInvoiceInput fx_invoice_id (Some "duplicate") None (ACli "ana") ChCli.

Lemma void_invoice_spec_witness :
  w_db (run fx_env (void_invoice fx_ctx fx_void) (fx_world Paid)).1 = fx_db Paid.
Proof.
  pose proof (void_invoice_spec fx_env fx_ctx fx_void (fx_world Paid)) as H.
  assert (is_ok (run fx_env (void_invoice fx_ctx fx_void) (fx_world Paid)).2 = false)
    as Hr by reflexivity.
  destruct (run _ _ _) as [w' [out|e|]]; [done|exact H..].
Defined.

Lemma void_invoice_accepts_witness :
  (∃ i, (run fx_env (void_invoice fx_ctx fx_void) (fx_world PartiallyPaid)).2 = Ok i) ∧
  (run fx_env (void_invoice fx_ctx fx_void) (fx_world Draft)).2 =
    Err (FsmTransition (Illegal Draft "void")).
Proof.
  split.
  - apply (void_invoice_accepts fx_env fx_ctx fx_void (fx_world PartiallyPaid)
      (fx_invoice PartiallyPaid)); [apply fx_world_ok|done|apply fx_get|by do 3 right].
  - apply (void_invoice_accepts fx_env fx_ctx fx_void (fx_world Draft) (fx_invoice Draft));
      [apply fx_world_ok|done|apply fx_get|]. intros [H|[H|[H|H]]]; discriminate H.
Defined.
