(* ===== verification/Issue.v ===== *)
(** * Issuing an invoice ([commands/src/issue.rs]) *)

From S2P Require Import Prelude Rounding External Concrete Money Ids Domain InvoiceFsm Events Tax.
From S2P Require Import Store Render Command Transition Invariant Evolution Written World Numbering.
From S2P Require Import Fixtures.
From Stdlib Require Import Lqa.

Section issue.
Context `{P : Platform}.

Definition count_invoices_issued_in_year (year : Z) (d : Db) : Z :=
  count_u32 (Z.of_nat (length (List.filter (λ i, issued_in_year year (inv_issued_at i))
                                 (rows (invoices d))))).

Record IssueInvoiceInput := MkIssueInvoiceInput {
  ii_invoice_id : InvoiceId;
  ii_idempotency_key : option string;
  ii_actor : Actor;
  ii_channel : Channel;
}.

(** [IssueInvoiceInput::validate] *)
Definition issue_validate (input : IssueInvoiceInput) : res CoreError () := Ok ().

Record IssueInvoiceOutput := MkIssueInvoiceOutput {
  io_invoice : Invoice;
  io_lines : list InvoiceLine;
  io_html : string;
  io_pdf : string;
}.

(** Step 4: tax and totals of every line, in order. *)
Record Totals := MkTotals {
  t_lines : list InvoiceLine;
  t_subtotal : Decimal;
  t_tax_total : Decimal;
  t_nexus_review : bool;
}.

Definition issue_line (invoice : Invoice) (customer : Customer) (ctx : CoreCtx) (now : DateTime)
    (acc : Totals) (line : InvoiceLine) : res CoreError Totals :=
  resolved ← map_err Tax (resolve_tax (inv_seller_jurisdiction invoice) (cust_address customer) line
               (inv_currency invoice) (tax_table ctx) (nexus ctx) NexusFigures_default now);
  product ← dmul (line_quantity line) (line_unit_price line);
  let line_subtotal := Currency.round (inv_currency invoice) product in
  gross ← dadd line_subtotal (rt_amount resolved);
  let line := set_line_line_total (Currency.round (inv_currency invoice) gross)
                (set_line_tax_amount (rt_amount resolved)
                  (set_line_tax_rate_ids (rt_applied_rate_ids resolved) line)) in
  subtotal ← dadd (t_subtotal acc) line_subtotal;
  tax_total ← dadd (t_tax_total acc) (rt_amount resolved);
  Ok (MkTotals (t_lines acc ++ [line]) subtotal tax_total
        (t_nexus_review acc || rt_nexus_review resolved)).

Definition issue_totals (invoice : Invoice) (customer : Customer) (ctx : CoreCtx) (now : DateTime)
    (lines : list InvoiceLine) : res CoreError Totals :=
  res_foldM (issue_line invoice customer ctx now) (MkTotals [] dec_zero dec_zero false) lines.

(** Step 6. *)
Definition issue_mutate (invoice : Invoice) (number : string) (now : DateTime)
    (subtotal tax_total total : Decimal) (nexus_review : bool) : Invoice :=
  set_inv_updated_at now (set_inv_nexus_review nexus_review (set_inv_total total
    (set_inv_tax_total tax_total (set_inv_subtotal subtotal (set_inv_issued_at (Some now)
      (set_inv_number (Some number) (set_inv_state Issued invoice))))))).

Definition issued_payload (invoice : Invoice) (actor : Actor) (channel : HistoryChannel) : json :=
  JObj [("invoice_id", JStr (id_to_string (inv_id invoice)));
        ("number", jopt (inv_number invoice));
        ("customer_id", JStr (id_to_string (inv_customer_id invoice)));
        ("currency", JStr (Currency.as_str (inv_currency invoice)));
        ("subtotal", JStr (dec_to_string (inv_subtotal invoice)));
        ("tax_total", JStr (dec_to_string (inv_tax_total invoice)));
        ("total", JStr (dec_to_string (inv_total invoice)));
        ("nexus_review", JBool (inv_nexus_review invoice));
        ("actor", JStr (audit_string actor));
        ("channel", JStr (history_channel_str channel))].

Definition publish_issued_events (ctx : CoreCtx) (invoice : Invoice) (from to : InvoiceState)
    (event : InvoiceEvent) (actor : Actor) (channel : HistoryChannel) (now : DateTime) : prog () :=
  _ ← publish_triplet ctx (inv_id invoice) from to event (audit_string actor) channel now;
  try_publish ctx "inv.billing.invoice.issued" (issued_payload invoice actor channel) now.

(** Step 7a: the PDF goes to the blob store when there is one. *)
Definition store_pdf (ctx : CoreCtx) (pdf : string) (invoice : Invoice) : prog Invoice :=
  match blob_store ctx with
  | None => Ret invoice
  | Some b =>
      uri ← blob_put b pdf "application/pdf";
      Ret (set_inv_pdf_blob_ref (Some uri) invoice)
  end.

Context {T : Tera}.

Definition issue_invoice (ctx : CoreCtx) (input : IssueInvoiceInput) : prog IssueInvoiceOutput :=
  _ ← lift id (issue_validate input);
  let iid := ii_invoice_id input in
  found ← db_query (λ d, Ok (invoice_get iid d));
  invoice ← or_not_found ("invoice " +:+ id_to_string iid) found;
  lines ← db_query (λ d, Ok (line_list_for_invoice iid d));
  let from_state := inv_state invoice in
  let event := Issue in
  to_state ← lift FsmTransition (next_state from_state event);
  found ← db_query (λ d, Ok (customer_get (inv_customer_id invoice) d));
  customer ← or_not_found ("customer " +:+ id_to_string (inv_customer_id invoice) +:+
                           " (referenced by invoice " +:+ id_to_string iid +:+ ")") found;
  now ← clock_now;
  totals ← lift id (issue_totals invoice customer ctx now lines);
  let lines := t_lines totals in
  let subtotal := Currency.round (inv_currency invoice) (t_subtotal totals) in
  let tax_total := Currency.round (inv_currency invoice) (t_tax_total totals) in
  sum ← lift Validation (dadd subtotal tax_total);
  let total := Currency.round (inv_currency invoice) sum in
  let year := dt_year now in
  count ← db_query (λ d, Ok (count_invoices_issued_in_year year d));
  seq ← lift Validation (next_seq count);
  let number := format_number "INV" year seq in
  let invoice := issue_mutate invoice number now subtotal tax_total total (t_nexus_review totals) in
  '(html, pdf) ← render (inv_template_path invoice) (MkRenderContext invoice customer lines);
  invoice ← store_pdf ctx pdf invoice;
  hid ← fresh EHistory;
  let history := transition_row hid (inv_id invoice) from_state to_state (tag event)
                   (ii_actor input) (ii_channel input) None None now ∅ in
  _ ← db_exec (save_all invoice lines history);
  _ ← publish_issued_events ctx invoice from_state to_state event (ii_actor input)
        (h_channel history) now;
  Ret (MkIssueInvoiceOutput invoice lines html pdf).

Lemma quiet_publish_issued_events ctx invoice from to event actor channel now :
  quiet (publish_issued_events ctx invoice from to event actor channel now).
Proof. unfold publish_issued_events. solve_quiet. Qed.
Lemma quiet_store_pdf ctx pdf invoice : quiet (store_pdf ctx pdf invoice).
Proof. unfold store_pdf. solve_quiet. Qed.
End issue.

#[export] Hint Resolve quiet_publish_issued_events quiet_store_pdf : inv.

(** ** The totals *)

Section totals.
Context {P : Platform} {L : PlatformLaws P}.

(** What a line comes to before tax, at the currency's scale. *)
Definition line_sub (c : Currency) (l : InvoiceLine) : Decimal :=
  match dec_mul (line_quantity l) (line_unit_price l) with
  | Some p => Currency.round c p
  | None => dec_zero
  end.

(** The tax of a line as [issue] asks for it. *)
Definition line_tax (invoice : Invoice) (customer : Customer) (ctx : CoreCtx) (now : DateTime)
    (l : InvoiceLine) : res TaxError ResolvedTax :=
  resolve_tax (inv_seller_jurisdiction invoice) (cust_address customer) l (inv_currency invoice)
    (tax_table ctx) (nexus ctx) NexusFigures_default now.

(** [l'] is [l] with its tax and its total frozen. *)
Record taxed_line (invoice : Invoice) (customer : Customer) (ctx : CoreCtx) (now : DateTime)
    (l l' : InvoiceLine) : Prop := {
  tl_product : ∃ p, dec_mul (line_quantity l) (line_unit_price l) = Some p;
  tl_line : ∃ r gross, line_tax invoice customer ctx now l = Ok r ∧
    dec_add (line_sub (inv_currency invoice) l) (rt_amount r) = Some gross ∧
    l' = set_line_line_total (Currency.round (inv_currency invoice) gross)
           (set_line_tax_amount (rt_amount r) (set_line_tax_rate_ids (rt_applied_rate_ids r) l));
}.

Definition needs_review (invoice : Invoice) (customer : Customer) (ctx : CoreCtx) (now : DateTime)
    (l : InvoiceLine) : bool :=
  match line_tax invoice customer ctx now l with Ok r => rt_nexus_review r | _ => false end.

Lemma taxed_line_fields i c ctx now l l' :
  taxed_line i c ctx now l l' →
  line_quantity l' = line_quantity l ∧ line_unit_price l' = line_unit_price l ∧
  line_invoice_id l' = line_invoice_id l ∧ line_id l' = line_id l.
Proof. by intros [_ (r & g & _ & _ & ->)]. Qed.

Lemma issue_totals_fold i c ctx now ls acc t :
  res_foldM (issue_line i c ctx now) acc ls = Ok t →
  ∃ news, t_lines t = t_lines acc ++ news ∧ Forall2 (taxed_line i c ctx now) ls news ∧
    dec_sum (t_subtotal acc) (line_sub (inv_currency i) <$> news) = Some (t_subtotal t) ∧
    dec_sum (t_tax_total acc) (line_tax_amount <$> news) = Some (t_tax_total t) ∧
    t_nexus_review t = t_nexus_review acc || existsb (needs_review i c ctx now) ls.
Proof.
  revert acc. induction ls as [|l ls IH]; intros acc H; cbn in H.
  - injection H as <-. exists []. rw app_nil_r orb_false_r. by repeat split.
  - apply res_bind_ok in H as (acc1 & H1 & H). destruct (IH _ H) as (news & El & Hl & Hs & Ht & Hn).
    unfold issue_line in H1. fold (line_tax i c ctx now l) in H1.
    destruct (line_tax i c ctx now l) as [r|e|] eqn:Er; [|done..]. cbn in H1.
    unfold dmul, dadd in H1.
    destruct (dec_mul (line_quantity l) (line_unit_price l)) as [p|] eqn:Ep; [|done]. cbn in H1.
    destruct (dec_add (Currency.round _ p) (rt_amount r)) as [g|] eqn:Eg; [|done]. cbn in H1.
    destruct (dec_add (t_subtotal acc) (Currency.round _ p)) as [sub|] eqn:Es; [|done]. cbn in H1.
    destruct (dec_add (t_tax_total acc) (rt_amount r)) as [tax|] eqn:Ex; [|done]. cbn in H1.
    injection H1 as <-. cbn in El, Hs, Ht, Hn.
    eexists (_ :: news). rw El -app_assoc. split; [done|].
    assert (line_sub (inv_currency i) l = Currency.round (inv_currency i) p) as Esub
      by (unfold line_sub; by rw Ep).
    split; [|split; [|split]].
    + constructor; [|done]. split; [by eexists|]. exists r, g. by rw Esub.
    + rw fmap_cons. cbn [dec_sum]. unfold line_sub at 1. cbn. rw Ep Es. exact Hs.
    + rw fmap_cons. cbn [dec_sum]. cbn [line_tax_amount set_line_line_total set_line_tax_amount].
      by rw Ex.
    + rw Hn. cbn. unfold needs_review at 2. by rw Er orb_assoc.
Qed.

Lemma line_sub_on_grid c l : on_grid (Currency.scale c) (val (line_sub c l)).
Proof.
  unfold line_sub. destruct (dec_mul _ _); [apply round_on_grid|]. rw val_zero. auto.
Qed.

Lemma line_sub_taxed i c ctx now l l' cur :
  taxed_line i c ctx now l l' → line_sub cur l' = line_sub cur l.
Proof. intros (Eq & Ep & _)%taxed_line_fields. unfold line_sub. by rw Eq Ep. Qed.

(** Every total is the net amount plus the tax, and both are on the grid. *)
Lemma taxed_lines_values i c ctx now ls news :
  let cur := inv_currency i in
  Forall2 (taxed_line i c ctx now) ls news →
  (Qsum (Qabs.Qabs <$> (val <$> (line_sub cur <$> news))) +
   Qsum (Qabs.Qabs <$> (val <$> (line_tax_amount <$> news))) < inject_Z (2 ^ 89))%Q →
  Forall (λ x, on_grid (Currency.scale cur) (val x)) (line_sub cur <$> news) ∧
  Forall (λ x, on_grid (Currency.scale cur) (val x)) (line_tax_amount <$> news) ∧
  (Qsum (val <$> (line_line_total <$> news)) ==
     Qsum (val <$> (line_sub cur <$> news)) + Qsum (val <$> (line_tax_amount <$> news)))%Q.
Proof.
  intros cur H. induction H as [|l l' ls news Hl _ IH]; intros Hb; [by repeat split; constructor|].
  rewrite -> !fmap_cons, !Qsum_cons in Hb. rewrite -> !fmap_cons, !Qsum_cons.
  pose proof (Qsum_abs_nonneg (val <$> (line_sub cur <$> news))) as H1.
  pose proof (Qsum_abs_nonneg (val <$> (line_tax_amount <$> news))) as H2.
  pose proof (Qabs.Qabs_nonneg (val (line_sub cur l'))) as H3.
  pose proof (Qabs.Qabs_nonneg (val (line_tax_amount l'))) as H4.
  destruct IH as (Hg1 & Hg2 & Hs); [lra|].
  pose proof (line_sub_on_grid cur l') as Hgs.
  destruct Hl as [_ (r & gross & Er & Eg & ->)].
  destruct (resolve_tax_rounded _ _ _ _ _ _ _ _ _ Er) as [a Ea].
  fold cur in Eg, Ea |- *.
  change (line_tax_amount (set_line_line_total _ _)) with (rt_amount r) in *.
  change (line_line_total (set_line_line_total ?x _)) with x.
  change (line_sub cur (set_line_line_total _ _)) with (line_sub cur l) in *.
  assert (on_grid (Currency.scale cur) (val (rt_amount r))) as Hgt by (rw Ea; apply round_on_grid).
  pose proof (Qabs.Qabs_triangle (val (line_sub cur l)) (val (rt_amount r))) as Ht.
  assert (val gross == val (line_sub cur l) + val (rt_amount r))%Q as Hv.
  { apply (dec_add_val _ _ _ Eg), (money_representable cur); [auto|]. lra. }
  split; [by constructor|]. split; [by constructor|].
  rewrite -> round_on_grid_fixed by (rw Hv; auto). rw Hv Hs. ring.
Qed.
End totals.


(** ** What issuing does *)

Section issue_theorems.
Context {P : Platform} {L : PlatformLaws P} {T : Tera}.

(** How many rows the count of a year takes in. *)
Definition in_year (Y : Z) (i : Invoice) : bool := issued_in_year Y (inv_issued_at i).
Definition issued_rows (Y : Z) (t : gmap string Invoice) : nat :=
  length (List.filter (in_year Y) (rows t)).

Lemma next_state_issue s s' : next_state s Issue = Ok s' ↔ s = Draft ∧ s' = Issued.
Proof. destruct s; cbn; naive_solver. Qed.

(** The reference the blob store gave, if any. *)
Definition stamp (ref : option string) (i : Invoice) : Invoice :=
  match ref with Some u => set_inv_pdf_blob_ref (Some u) i | None => i end.

Lemma wpc_store_pdf I E ctx pdf i w :
  stable I → I w →
  wpc I E (store_pdf ctx pdf i)
    (λ w' r, same_db w w' ∧
       ∀ i', r = Ok i' → ∃ ref, i' = stamp ref i ∧ (ref = None ↔ blob_store ctx = None)) w.
Proof.
  intros HI Hw. unfold store_pdf. destruct (blob_store ctx) as [b|].
  - apply wpc_bind, wpc_quiet; [apply quiet_blob_put|done..|].
    intros w' r Hs. destruct r as [u|e|]; cbn; [|by split..].
    split; [by eapply HI|]. split; [done|]. intros i' [= <-]. exists (Some u). by split.
  - split; [done|]. split; [reflexivity|]. intros i' [= <-]. by exists None.
Qed.

Lemma issue_mutate_consistent i ref number now subtotal tax_total total review :
  inv_state i = Draft → invoice_consistent i →
  invoice_consistent (stamp ref (issue_mutate i number now subtotal tax_total total review)).
Proof.
  intros Hs Hc. pose proof (ic_unpaid i Hc (or_introl Hs)) as H0.
  pose proof (ic_paid_at i Hc) as Hp. pose proof (ic_voided_at i Hc) as Hv. rw Hs in Hp Hv.
  destruct ref; split; cbn; try done; try (by split); try (by intros [|]); intuition congruence.
Qed.

Lemma issue_transition_fits input hid i0 ref number now subtotal tax_total total review :
  inv_state i0 = Draft →
  let i := stamp ref (issue_mutate i0 number now subtotal tax_total total review) in
  transition_fits i0 i (transition_row hid (inv_id i) (inv_state i0) Issued "issue"
    (ii_actor input) (ii_channel input) None None now ∅).
Proof.
  intros Hs i.
  assert (inv_id i = inv_id i0 ∧ inv_state i = Issued) as [Ei Es] by (by destruct ref).
  split; cbn [h_invoice_id h_from_state h_to_state h_event transition_row]; try done.
  - rw Es Hs. by apply (legal_step _ Issue _), (next_state_sound Draft Issue Issued eq_refl).
  - by apply issue_mutate_consistent.
  - split; [by destruct ref|by intros ?].
Qed.

Lemma issue_invoice_since d0 ctx input E w :
  ok_since d0 w → safe (ok_since d0) E (issue_invoice ctx input) w.
Proof.
  intros Hw. unfold issue_invoice, safe. wp_skip. cbv zeta.
  wp_query Hq. wp_found i0 Hf. wp_query Hls.
  wp_lift s Hs. apply next_state_issue in Hs as [Hs ->].
  wp_query Hc. wp_found c Hcf. wp_skip. wp_lift tots HT. wp_lift tot Hsum.
  wp_query Hn. wp_lift nseq Hseq. wp_skip.
  match goal with |- wpc _ _ (let '(_, _) := ?p in _) _ _ => destruct p as [html pdf] end.
  wp_then wpc_store_pdf. intros wb r [Hsb Hr].
  destruct r as [ib|e|]; cbn [wpc_cont]; [|done..].
  destruct (Hr ib eq_refl) as (ref & -> & _).
  assert (ok_since d0 wb) by (eapply (ok_since_stable d0); eauto).
  wp_fresh. wp_exec Hd.
  - eapply since_transition_lines; [done| | | |done| |exact Hd].
    + same_dbs. by eapply invoice_get_id; [apply Hw|].
    + by apply (issue_transition_fits input _ i0).
    + apply drawn_new. cbn. lia.
    + unfold id in HT. destruct (issue_totals i0 _ _ _ _) eqn:ET in HT; [|done..].
      injection HT as <-. apply issue_totals_fold in ET as (news & -> & Hf2 & _).
      apply Forall_forall. intros l' Hl'. apply list_elem_of_lookup_1 in Hl' as [j Hj].
      destruct (Forall2_lookup_r _ _ _ _ _ Hf2 Hj) as (l & Hl & Htl).
      apply taxed_line_fields in Htl as (_ & _ & -> & _).
      apply list_elem_of_lookup_2, lines_listed in Hl. rewrite -> Hl.
      transitivity (inv_id i0); [|by destruct ref]. symmetry.
      eapply invoice_get_same_id; [|exact Hf]. by eapply wo_db, os_ok.
  - apply safe_quiet; [wp_side|solve_quiet|done].
Qed.
Lemma issue_invoice_safe ctx input E w : world_ok w → safe world_ok E (issue_invoice ctx input) w.
Proof. apply since_safe. intros d0. apply issue_invoice_since. Qed.

Lemma issue_invoice_atomic ctx input : atomic (issue_invoice ctx input).
Proof.
  unfold issue_invoice. do 12 (apply atomic_bind_quiet; [solve_quiet|intros ?]).
  apply atomic_bind_quiet; [solve_quiet|intros [html pdf]]. solve_atomic.
Qed.

(** What issuing an invoice amounts to: the draft's lines are taxed, the number
    is the next of the year, and the invoice, its lines and one [issue] row are
    what the database gained. *)
Record issued (ctx : CoreCtx) (input : IssueInvoiceInput) (d d' : Db) (out : IssueInvoiceOutput)
    (i0 : Invoice) (c : Customer) (now : DateTime) (tots : Totals) (tot : Decimal) : Prop := {
  is_draft : invoice_get (ii_invoice_id input) d = Some i0 ∧ inv_state i0 = Draft;
  is_customer : customer_get (inv_customer_id i0) d = Some c;
  is_totals : issue_totals i0 c ctx now (line_list_for_invoice (ii_invoice_id input) d) = Ok tots;
  is_lines : io_lines out = t_lines tots;
  is_sum : dec_add (Currency.round (inv_currency i0) (t_subtotal tots))
             (Currency.round (inv_currency i0) (t_tax_total tots)) = Some tot;
  is_invoice : ∃ ref n, (ref = None ↔ blob_store ctx = None) ∧ next_seq (E:=string) (count_invoices_issued_in_year (dt_year now) d) = Ok n ∧
    io_invoice out = stamp ref (issue_mutate i0 (format_number "INV" (dt_year now) n) now
      (Currency.round (inv_currency i0) (t_subtotal tots))
      (Currency.round (inv_currency i0) (t_tax_total tots))
      (Currency.round (inv_currency i0) tot) (t_nexus_review tots));
  is_write : ∃ t hid, d' = set_invoice_lines t (written (io_invoice out)
    (transition_row hid (inv_id (io_invoice out)) Draft Issued "issue"
       (ii_actor input) (ii_channel input) None None now ∅) d) ∧
    lines_become (inv_id (io_invoice out)) (io_lines out) (invoice_lines d) t;
}.

(** The outcome of [issue_invoice]. *)
Definition issue_post (E : Env) (ctx : CoreCtx) (input : IssueInvoiceInput) (w w' : World)
    (r : res CoreError IssueInvoiceOutput) : Prop :=
  match r with
  | Ok out => ∃ i0 c m tots tot, issued ctx input (w_db w) (w_db w') out i0 c (env_now E m) tots tot
  | _ => w_db w' = w_db w
  end.

Lemma run_issue_invoice E ctx input w :
  let '(w', r) := run E (issue_invoice ctx input) w in
  issue_post E ctx input w w' r.
Proof.
  unfold issue_post.
  apply run_split, wpc_end. set (Q := λ w' r, _).
  assert (∀ w0, same_db w w0 → rejects Q w0) as HQ
    by (intros w0 [E0 _] w' [] [E1 _] ?; unfold Q; try done; congruence).
  unfold issue_invoice. pose proof (HQ w ltac:(reflexivity)). wp_skip. cbv zeta.
  wp_query Hq. wp_found i0 Hf. wp_query Hls.
  wp_lift s Hs. apply next_state_issue in Hs as [Hs ->].
  wp_query Hc. wp_found c Hcf. wp_clock m. wp_lift tots HT. wp_lift tot Hsum.
  wp_query Hn. wp_lift n Hseq. wp_skip.
  match goal with |- wpc _ _ (let '(_, _) := ?p in _) _ _ => destruct p as [html pdf] end.
  wp_then wpc_store_pdf. intros wb r [Hsb Hr].
  assert (same_db w wb) as Hwb by (repeat (etrans; [eassumption|]); reflexivity).
  destruct r as [ib|e|]; cbn [wpc_cont]; [|exact (sd_db _ _ Hwb)..].
  destruct (Hr ib eq_refl) as (ref & -> & Href). pose proof (HQ wb Hwb).
  wp_fresh. wp_exec Hd; [done|].
  apply wpc_bind_total; [done|intros; by apply wpc_publish_events|done|].
  intros wf [E' _] _. split; [done|]. unfold Q.
  cbn in E'. rw E'. apply save_all_wrote in Hd as (t & -> & Ht).
  exists i0, c, m, tots, tot.
  match goal with H : same_db wb ?w1 |- _ =>
    rewrite -> (sd_db _ _ H), (sd_db _ _ Hwb) end.
  split; cbn [io_invoice io_lines].
  - same_dbs. by split.
  - same_dbs. done.
  - unfold id in HT. destruct (issue_totals _ _ _ _ _) eqn:ET in HT; [|done..].
    injection HT as <-. same_dbs. exact ET.
  - done.
  - unfold dadd in Hsum. destruct (dec_add _ _); [by injection Hsum as ->|done].
  - exists ref, n. split; [done|]. split; [|done]. same_dbs. exact Hseq.
  - rw Hs. exists t, (id_new EHistory (w_step wb)). split; [done|]. same_dbs. exact Ht.
Qed.

(** What the command promises, in terms of the tables: the invoice was a draft;
    each of its lines is taxed; the totals are the sums over the lines, rounded;
    the number is the next of the year; the invoice, its lines and one [issue]
    row are what was written. *)
Record issues (ctx : CoreCtx) (input : IssueInvoiceInput) (d d' : Db) (out : IssueInvoiceOutput)
    (i0 : Invoice) (c : Customer) (now : DateTime) : Prop := {
  iss_draft : invoices d !! id_to_string (ii_invoice_id input) = Some i0 ∧ inv_state i0 = Draft;
  iss_customer : customers d !! id_to_string (inv_customer_id i0) = Some c;
  iss_invoice : ∃ ls sub tax tot n ref,
    lines_of (ii_invoice_id input) d ls ∧ Forall2 (taxed_line i0 c ctx now) ls (io_lines out) ∧
    dec_sum dec_zero (line_sub (inv_currency i0) <$> io_lines out) = Some sub ∧
    dec_sum dec_zero (line_tax_amount <$> io_lines out) = Some tax ∧
    dec_add (Currency.round (inv_currency i0) sub) (Currency.round (inv_currency i0) tax) = Some tot ∧
    n = Z.of_nat (issued_rows (dt_year now) (invoices d)) mod 2 ^ 32 + 1 ∧ n < 2 ^ 32 ∧
    (ref = None ↔ blob_store ctx = None) ∧
    io_invoice out =
      {| inv_id := inv_id i0;
         inv_number := Some ("INV-" +:+ show_Z_pad 4 (dt_year now) +:+ "-" +:+ show_Z_pad 4 n);
         inv_customer_id := inv_customer_id i0;
         inv_seller_jurisdiction := inv_seller_jurisdiction i0;
         inv_currency := inv_currency i0;
         inv_state := Issued;
         inv_issued_at := Some now;
         inv_due_at := inv_due_at i0; inv_sent_at := inv_sent_at i0;
         inv_viewed_at := inv_viewed_at i0; inv_paid_at := inv_paid_at i0;
         inv_voided_at := inv_voided_at i0;
         inv_subtotal := Currency.round (inv_currency i0) sub;
         inv_tax_total := Currency.round (inv_currency i0) tax;
         inv_total := Currency.round (inv_currency i0) tot;
         inv_amount_paid := inv_amount_paid i0;
         inv_schedule_id := inv_schedule_id i0;
         inv_template_path := inv_template_path i0;
         inv_pdf_blob_ref := match ref with Some u => Some u | None => inv_pdf_blob_ref i0 end;
         inv_idempotency_key := inv_idempotency_key i0;
         inv_nexus_review := existsb (needs_review i0 c ctx now) ls;
         inv_metadata := inv_metadata i0;
         inv_created_at := inv_created_at i0;
         inv_updated_at := now |};
  iss_wrote : ∃ hid, wrote (io_invoice out)
    {| h_id := hid; h_invoice_id := inv_id i0; h_from_state := Some Draft; h_to_state := Issued;
       h_event := "issue"; h_actor := Some (audit_string (ii_actor input));
       h_channel := history_channel (ii_channel input); h_bus_event_id := None; h_reason := None;
       h_occurred_at := now; h_published_at := None; h_metadata := ∅ |} d d';
  iss_lines : lines_become (inv_id i0) (io_lines out) (invoice_lines d) (invoice_lines d');
  iss_sends : send_idempotency d' = send_idempotency d;
}.

Lemma issued_issues ctx input d d' out i0 c now tots tot :
  issued ctx input d d' out i0 c now tots tot → issues ctx input d d' out i0 c now.
Proof.
  intros [Hd Hc HT Hl Hsum (ref & n & Href & Hn & Ei) (t & hid & -> & Ht)].
  unfold issue_totals in HT. apply issue_totals_fold in HT as (news & En & Hf & Hs & Hx & Hr).
  cbn [t_lines t_subtotal t_tax_total t_nexus_review app orb] in En, Hs, Hx, Hr.
  assert (inv_id (io_invoice out) = inv_id i0) as Eid by (rw Ei; by destruct ref).
  rw -En -Hl in Hf Hs Hx. rw Eid in Ht. split; [done|done| | | |done].
  - exists (line_list_for_invoice (ii_invoice_id input) d), (t_subtotal tots), (t_tax_total tots), tot, n, ref.
    split; [apply line_list_lines_of|]. do 4 (split; [done|]).
    unfold next_seq in Hn. case_match eqn:En2; [done|]. injection Hn as <-.
    unfold count_invoices_issued_in_year, count_u32 in *.
    change (length (List.filter _ _)) with (issued_rows (dt_year now) (invoices d)) in *.
    rewrite -> Z.max_l in * by lia.
    split; [done|]. split.
    { pose proof (Z.mod_pos_bound (Z.of_nat (issued_rows (dt_year now) (invoices d))) (2 ^ 32)). lia. }
    split; [done|]. rw Ei -Hr. by destruct ref.
  - exists hid. apply wrote_set_lines. rewrite <- Eid. apply written_wrote.
  - done.
Qed.

(** C7: [issue_invoice] either fails and leaves the database as it was, or
    issues a draft, all at once: every line is taxed and stored with its tax and
    total, the invoice takes the rounded sums of its lines and the number after
    the count of the current year, one [issue] row is appended, and nothing else
    changes. *)
Theorem issue_invoice_spec E ctx input w :
  let '(w', r) := run E (issue_invoice ctx input) w in
  match r with
  | Ok out => ∃ i0 c m, issues ctx input (w_db w) (w_db w') out i0 c (env_now E m)
  | _ => w_db w' = w_db w
  end.
Proof.
  pose proof (run_issue_invoice E ctx input w) as H. unfold issue_post in H.
  destruct (run E (issue_invoice ctx input) w) as [w' [out|e|]]; [|exact H..].
  destruct H as (i0 & c & m & tots & tot & H). exists i0, c, m. by eapply issued_issues.
Qed.

Lemma issued_sums E ctx input w w' out :
  run E (issue_invoice ctx input) w = (w', Ok out) →
  let i := io_invoice out in
  let subs := val ∘ line_sub (inv_currency i) <$> io_lines out in
  let taxes := val ∘ line_tax_amount <$> io_lines out in
  (Qsum (Qabs.Qabs <$> subs) + Qsum (Qabs.Qabs <$> taxes) < inject_Z (2 ^ 89))%Q →
  (val (inv_subtotal i) == Qsum subs)%Q ∧ (val (inv_tax_total i) == Qsum taxes)%Q ∧
  (val (inv_total i) == Qsum subs + Qsum taxes)%Q ∧
  (val (inv_total i) == Qsum (val ∘ line_line_total <$> io_lines out))%Q.
Proof.
  intros Hrun i subs taxes Hb. pose proof (run_issue_invoice E ctx input w) as H. unfold issue_post in H. rw Hrun in H.
  destruct H as (i0 & c & m & tots & tot & [_ _ HT Hl Hsum (ref & n & _ & _ & Ei) _]).
  unfold issue_totals in HT. apply issue_totals_fold in HT as (news & En & Hf & Hs & Ht & _).
  cbn [t_lines t_subtotal t_tax_total app] in En, Hs, Ht. rw -En -Hl in Hf Hs Ht.
  assert (inv_currency i = inv_currency i0) as Ec by (unfold i; rw Ei; by destruct ref).
  unfold subs, taxes in *. rw Ec in Hb |- *. rw !list_fmap_compose in Hb |- *.
  destruct (taxed_lines_values _ _ _ _ _ _ Hf Hb) as (Hg1 & Hg2 & Htot).
  set (cur := inv_currency i0) in *.
  set (S1 := val <$> (line_sub cur <$> io_lines out)) in *.
  set (S2 := val <$> (line_tax_amount <$> io_lines out)) in *.
  pose proof (Qsum_abs_nonneg S1) as H1. pose proof (Qsum_abs_nonneg S2) as H2.
  assert (Qabs.Qabs (val dec_zero) == 0)%Q as Hz0 by (by rw val_zero).
  pose proof val_zero as Hz.
  assert (on_grid (Currency.scale cur) (val dec_zero)) as Hgz by (rw Hz; auto).
  destruct (dec_sum_exact cur dec_zero (line_sub cur <$> io_lines out)) as (s1 & Es1 & Hv1 & Hgs1);
    [done|done|fold S1; lra|].
  destruct (dec_sum_exact cur dec_zero (line_tax_amount <$> io_lines out)) as (s2 & Es2 & Hv2 & Hgs2);
    [done|done|fold S2; lra|].
  rewrite -> Es1 in Hs. injection Hs as Hs. rewrite -> Es2 in Ht. injection Ht as Ht.
  rewrite <- Hs, <- Ht in *.
  fold S1 in Hv1. fold S2 in Hv2.
  assert (val (Currency.round cur s1) == Qsum S1)%Q as Hr1
    by (rewrite -> round_on_grid_fixed by done; lra).
  assert (val (Currency.round cur s2) == Qsum S2)%Q as Hr2
    by (rewrite -> round_on_grid_fixed by done; lra).
  pose proof (Qsum_triangle S1) as T1. pose proof (Qsum_triangle S2) as T2.
  pose proof (Qabs.Qabs_triangle (Qsum S1) (Qsum S2)) as T3.
  assert (val tot == Qsum S1 + Qsum S2)%Q as Hvt.
  { rewrite <- Hr1, <- Hr2. apply (dec_add_val _ _ _ Hsum), (money_representable cur).
    - apply on_grid_plus; apply round_on_grid.
    - rw Hr1 Hr2. lra. }
  assert (val (Currency.round cur tot) == Qsum S1 + Qsum S2)%Q as Hrt.
  { rewrite -> round_on_grid_fixed; [done|]. rw Hvt -Hr1 -Hr2.
    apply on_grid_plus; apply round_on_grid. }
  assert (inv_subtotal i = Currency.round cur s1 ∧ inv_tax_total i = Currency.round cur s2 ∧
          inv_total i = Currency.round cur tot) as (-> & -> & ->)
    by (unfold i; rw Ei; by destruct ref).
  split; [done|]. split; [done|]. split; [done|]. by rw Htot.
Qed.

(** C8: the totals of an issued invoice add up: with amounts in the range of a
    [Decimal], the subtotal is the sum of the lines' net amounts, the tax total
    is the sum of the lines' taxes, the total is their sum and also the sum of
    the line totals, to the last digit. *)
Theorem issue_amounts_add_up E ctx input w w' out :
  run E (issue_invoice ctx input) w = (w', Ok out) →
  let i := io_invoice out in
  let subs := val ∘ line_sub (inv_currency i) <$> io_lines out in
  let taxes := val ∘ line_tax_amount <$> io_lines out in
  (Qsum (Qabs.Qabs <$> subs) + Qsum (Qabs.Qabs <$> taxes) < inject_Z (2 ^ 89))%Q →
  (val (inv_subtotal i) == Qsum subs)%Q ∧ (val (inv_tax_total i) == Qsum taxes)%Q ∧
  (val (inv_total i) == Qsum subs + Qsum taxes)%Q ∧
  (val (inv_total i) == Qsum (val ∘ line_line_total <$> io_lines out))%Q.
Proof. apply issued_sums. Qed.

(** A sum whose terms are each off by at most [e]. *)
Lemma Qsum_off {A} (f g : A → Q) (e : Q) l :
  Forall (λ a, Qabs.Qabs (f a - g a) <= e)%Q l →
  (Qabs.Qabs (Qsum (f <$> l) - Qsum (g <$> l)) <= inject_Z (Z.of_nat (length l)) * e)%Q.
Proof.
  induction 1 as [|a l Ha _ IH]; [cbn; by rewrite -> Qmult_0_l|].
  rewrite -> !fmap_cons, !Qsum_cons. cbn [length]. rewrite -> Nat2Z.inj_succ. unfold Z.succ.
  rewrite -> inject_Z_plus, Qmult_plus_distr_l, Qmult_1_l.
  assert (f a + Qsum (f <$> l) - (g a + Qsum (g <$> l)) ==
          (Qsum (f <$> l) - Qsum (g <$> l)) + (f a - g a))%Q as -> by ring.
  eapply Qle_trans; [apply Qabs.Qabs_triangle|]. by apply Qplus_le_compat.
Qed.
Lemma line_sub_error c l :
  representable (val (line_quantity l) * val (line_unit_price l)) →
  (Qabs.Qabs (val (line_sub c l) - val (line_quantity l) * val (line_unit_price l)) <=
   (1 # 2) / inject_Z (pow10 (Currency.scale c)))%Q.
Proof.
  intros Hr. destruct (dec_mul_exact _ _ Hr) as (p & Ep & Hv). unfold line_sub. rewrite -> Ep.
  rewrite -> round_val, Hv, Qabs.Qabs_Qminus. apply round_dp_error.
Qed.

(** C36: rounding stays small: with amounts in the range of a [Decimal], the subtotal
    of an issued invoice is off the exact sum of quantity times price by at most
    half a unit of the currency's last digit per line. *)
Theorem subtotal_rounding_bound E ctx input w w' out :
  run E (issue_invoice ctx input) w = (w', Ok out) →
  let i := io_invoice out in
  (Qsum (Qabs.Qabs <$> (val ∘ line_sub (inv_currency i) <$> io_lines out)) +
   Qsum (Qabs.Qabs <$> (val ∘ line_tax_amount <$> io_lines out)) < inject_Z (2 ^ 89))%Q →
  Forall (λ l, representable (val (line_quantity l) * val (line_unit_price l))) (io_lines out) →
  (Qabs.Qabs (val (inv_subtotal i) - Qsum ((λ l, val (line_quantity l) * val (line_unit_price l)) <$> io_lines out)) <=
   inject_Z (Z.of_nat (length (io_lines out))) * ((1 # 2) / inject_Z (pow10 (Currency.scale (inv_currency i)))))%Q.
Proof.
  intros Hrun i Hb Hr. destruct (issued_sums _ _ _ _ _ _ Hrun Hb) as [Hs _]. fold i in Hs. rw Hs.
  apply (Qsum_off (val ∘ line_sub (inv_currency i))). eapply Forall_impl; [exact Hr|]. intros l. apply line_sub_error.
Qed.
End issue_theorems.

(** ** The numbers *)

Section numbers.
Context {P : Platform} {L : PlatformLaws P} {T : Tera}.
Implicit Types d : Db.

Lemma rows_insert {A} (t : gmap string A) k a : rows (<[k := a]> t) ≡ₚ a :: rows (delete k t).
Proof.
  unfold rows. rewrite <- (insert_delete_eq t k a), map_to_list_insert by apply lookup_delete_eq.
  by rewrite fmap_cons.
Qed.
Lemma rows_delete {A} (t : gmap string A) k a : t !! k = Some a → rows t ≡ₚ a :: rows (delete k t).
Proof. intros H. rewrite <- (insert_id t k a H) at 1. apply rows_insert. Qed.

Lemma filter_length_perm {A} (f : A → bool) l k :
  l ≡ₚ k → length (List.filter f l) = length (List.filter f k).
Proof.
  induction 1 as [|x l k _ IH|x y l|l k m _ IH1 _ IH2]; cbn; try congruence.
  - destruct (f x); cbn; congruence.
  - by destruct (f x), (f y).
Qed.

(** Replacing a row that was not counted. *)
Lemma issued_rows_insert Y t k i i0 :
  t !! k = Some i0 → in_year Y i0 = false →
  issued_rows Y (<[k := i]> t) = (issued_rows Y t + if in_year Y i then 1 else 0)%nat.
Proof.
  intros H H0. unfold issued_rows.
  rewrite -> (filter_length_perm _ _ _ (rows_insert t k i)), (filter_length_perm _ _ _ (rows_delete t k i0 H)).
  cbn. rw H0. destruct (in_year Y i); cbn; lia.
Qed.

Lemma count_rows Y d :
  Z.of_nat (size (invoices d)) < 2 ^ 32 →
  count_invoices_issued_in_year Y d = Z.of_nat (issued_rows Y (invoices d)).
Proof.
  intros Hs. unfold count_invoices_issued_in_year, count_u32.
  change (length (List.filter _ _)) with (issued_rows Y (invoices d)).
  assert (issued_rows Y (invoices d) ≤ size (invoices d))%nat.
  { unfold issued_rows. etrans; [apply List.filter_length_le|]. unfold rows.
    rewrite -> length_fmap. by rewrite -> length_map_to_list. }
  rewrite -> Z.max_l, Z.mod_small; lia.
Qed.

(** Every number is its year's and at most the year's count. *)
Definition numbering d : Prop := ∀ k i s,
  invoices d !! k = Some i → inv_number i = Some s →
  ∃ t n, inv_issued_at i = Some t ∧ plain t ∧ ¬ first_second t ∧
    s = format_number "INV" (dt_year t) n ∧
    1 ≤ n ≤ Z.of_nat (issued_rows (dt_year t) (invoices d)).

Lemma next_number_is_new d Y k i :
  numbering d → 0 ≤ Y → invoices d !! k = Some i →
  inv_number i ≠ Some (format_number "INV" Y (Z.of_nat (issued_rows Y (invoices d)) + 1)).
Proof.
  intros Hn HY Hi E. destruct (Hn _ _ _ Hi E) as (t & n & _ & [Ht _] & _ & Ef & Hb).
  apply format_number_inj in Ef as [-> <-]; lia.
Qed.

(** An issued row is counted in its own year only. *)
Lemma counted_in_its_year Y t :
  plain t → ¬ first_second t → 0 ≤ Y ≤ 9998 → issued_in_year Y (Some t) = bool_decide (Y = dt_year t).
Proof.
  intros Ht Hf HY. apply eq_true_iff_eq. rewrite -> issued_in_year_spec, bool_decide_eq_true by done.
  intuition congruence.
Qed.

Lemma numbering_insert d k i i0 now :
  numbering d → invoices d !! k = Some i0 → inv_issued_at i0 = None →
  inv_issued_at i = Some now → plain now → ¬ first_second now →
  inv_number i = Some (format_number "INV" (dt_year now)
                         (Z.of_nat (issued_rows (dt_year now) (invoices d)) + 1)) →
  ∀ d', invoices d' = <[k := i]> (invoices d) → numbering d'.
Proof.
  intros Hn H0 Hi0 Hi Hp Hf Hnum d' Ed k' j s Hj Hs. rw Ed in Hj |- *.
  assert (∀ Y, in_year Y i0 = false) as Hout by (intros Y; unfold in_year; by rw Hi0).
  apply lookup_insert_Some in Hj as [[<- <-]|[_ Hj]].
  - exists now, (Z.of_nat (issued_rows (dt_year now) (invoices d)) + 1).
    do 3 (split; [done|]). split; [congruence|].
    rewrite -> (issued_rows_insert _ _ _ i i0) by auto. unfold in_year. rw Hi.
    rewrite -> counted_in_its_year, bool_decide_true by (done || apply Hp). lia.
  - destruct (Hn _ _ _ Hj Hs) as (t & n & Et & Hpt & Hft & Es & Hb). exists t, n.
    do 4 (split; [done|]). rewrite -> (issued_rows_insert _ _ _ i i0) by auto. lia.
Qed.

(** What an issue did to the table of invoices. *)
Lemma issued_fields ctx input d d' out i0 c now tots tot :
  db_ok d → issued ctx input d d' out i0 c now tots tot →
  Z.of_nat (size (invoices d)) < 2 ^ 32 - 1 →
  inv_issued_at i0 = None ∧ inv_issued_at (io_invoice out) = Some now ∧
  inv_number (io_invoice out) = Some (format_number "INV" (dt_year now)
    (Z.of_nat (issued_rows (dt_year now) (invoices d)) + 1)) ∧
  invoices d !! id_to_string (inv_id (io_invoice out)) = Some i0 ∧
  invoices d' = <[id_to_string (inv_id (io_invoice out)) :=
                    invoice_upserted (Some i0) (io_invoice out)]> (invoices d).
Proof.
  intros Hd [[Hg Hdraft] _ _ _ _ (ref & n & _ & Hn & Ei) (t & hid & Ed & _)] Hsize.
  pose proof (invoice_get_id _ _ _ Hd Hg) as Hg'. unfold invoice_get in Hg'.
  assert (inv_id (io_invoice out) = inv_id i0 ∧ inv_issued_at (io_invoice out) = Some now ∧
    inv_number (io_invoice out) = Some (format_number "INV" (dt_year now) n)) as (Eid & Eat & Enum)
    by (rw Ei; by destruct ref).
  split. { by apply (ic_issued_at i0 (ok_consistent d Hd _ _ Hg')). }
  split; [done|]. split; [|split; [by rw Eid|]].
  - rw Enum. unfold next_seq in Hn. case_match; [done|]. injection Hn as <-.
    by rewrite -> count_rows by lia.
  - rw Ed. unfold written. cbv zeta. rw Eid Hg'. reflexivity.
Qed.

(** C9: as long as the clock never reads the first second of a year, issuing
    keeps every number within its year's count, so the number it assigns is the
    next of the year and no stored invoice carries it. *)
Theorem issue_keeps_numbering E ctx input w :
  world_ok w → numbering (w_db w) →
  (∀ m, plain (env_now E m) ∧ ¬ first_second (env_now E m)) →
  Z.of_nat (size (invoices (w_db w))) < 2 ^ 32 - 1 →
  let '(w', r) := run E (issue_invoice ctx input) w in
  numbering (w_db w') ∧
  ∀ out, r = Ok out → ∃ t n, inv_issued_at (io_invoice out) = Some t ∧
    inv_number (io_invoice out) = Some (format_number "INV" (dt_year t) n) ∧
    n = Z.of_nat (issued_rows (dt_year t) (invoices (w_db w))) + 1 ∧
    ∀ k i, invoices (w_db w) !! k = Some i → inv_number i ≠ inv_number (io_invoice out).
Proof.
  intros Hw Hn HE Hsize. pose proof (run_issue_invoice E ctx input w) as H. unfold issue_post in H.
  destruct (run E (issue_invoice ctx input) w) as [w' r].
  destruct r as [out|e|]; [|by rw H..]. destruct H as (i0 & c & m & tots & tot & H).
  destruct (HE m) as [Hp Hf].
  destruct (issued_fields _ _ _ _ _ _ _ _ _ _ (wo_db _ Hw) H Hsize)
    as (E0 & Eat & Enum & H0 & Ed).
  split.
  - eapply (numbering_insert (w_db w) _ (invoice_upserted (Some i0) (io_invoice out))); [done|exact H0|done|exact Eat|done|done|exact Enum|exact Ed].
  - intros ? [= <-]. do 2 eexists. split; [exact Eat|]. split; [exact Enum|]. split; [done|].
    intros k i Hi. rw Enum. eapply next_number_is_new; [done|apply Hp|done].
Qed.

(** An invoice issued in the first second of a year is not counted in
    that year, and stops it: when it is the first number of the year, every
    later issue of that year is refused, whatever the invoice. *)
Lemma first_second_blocks_year E ctx input w w1 out now E' ctx' input' :
  world_ok w → Z.of_nat (size (invoices (w_db w))) < 2 ^ 32 - 1 →
  run E (issue_invoice ctx input) w = (w1, Ok out) →
  inv_issued_at (io_invoice out) = Some now → plain now → first_second now →
  issued_rows (dt_year now) (invoices (w_db w)) = 0%nat →
  (∀ m, dt_year (env_now E' m) = dt_year now) →
  let '(w2, r) := run E' (issue_invoice ctx' input') w1 in
  is_ok r = false ∧ w_db w2 = w_db w1.
Proof.
  intros Hw Hsize Hrun Hnow Hp Hf Hrows HE.
  pose proof (run_issue_invoice E ctx input w) as H. unfold issue_post in H. rw Hrun in H.
  destruct H as (i0 & c & m & tots & tot & H).
  destruct (issued_fields _ _ _ _ _ _ _ _ _ _ (wo_db _ Hw) H Hsize)
    as (E0 & Eat & Enum & H0 & Ed).
  assert (env_now E m = now) as En by congruence. rw En in Enum. clear H En.
  set (Y := dt_year now) in *. set (k := id_to_string (inv_id (io_invoice out))) in *.
  assert (world_ok w1) as Hw1.
  { pose proof (issue_invoice_safe ctx input E w Hw) as Hs. apply safe_run in Hs. by rw Hrun in Hs. }
  set (i1 := invoice_upserted (Some i0) (io_invoice out)) in *.
  assert (issued_rows Y (invoices (w_db w1)) = 0%nat) as Hrows1.
  { rw Ed. rewrite -> (issued_rows_insert _ _ _ i1 i0 H0) by (unfold in_year; by rw E0).
    unfold in_year. change (inv_issued_at i1) with (inv_issued_at (io_invoice out)). rw Hnow Hrows.
    destruct (issued_in_year Y (Some now)) eqn:Ei; [|done].
    destruct Hp as [Hy Hns]. apply issued_in_year_spec in Ei as [[_ ?]|[Eq _]]; try done;
      fold Y in Hy |- *; unfold Y in *; lia. }
  assert (size (invoices (w_db w1)) = size (invoices (w_db w))) as Esize.
  { rw Ed. apply map_size_insert_Some. by eexists. }
  pose proof (run_issue_invoice E' ctx' input' w1) as H2. unfold issue_post in H2.
  pose proof (issue_invoice_safe ctx' input' E' w1 Hw1) as Hs2. apply safe_run in Hs2.
  destruct (run E' (issue_invoice ctx' input') w1) as [w2 [out2|e|]]; [exfalso|by split..].
  destruct H2 as (j0 & c2 & m2 & tots2 & tot2 & H2).
  destruct (issued_fields _ _ _ _ _ _ _ _ _ _ (wo_db _ Hw1) H2 ltac:(by rw Esize))
    as (F0 & Fat & Fnum & G0 & Fd).
  rw HE Hrows1 in Fnum. rw Hrows in Enum.
  set (k2 := id_to_string (inv_id (io_invoice out2))) in *.
  assert (invoices (w_db w1) !! k = Some i1) as Hk by (rw Ed; apply lookup_insert_eq).
  destruct (decide (k = k2)) as [Ek|Hne].
  - rw -Ek Hk in G0. injection G0 as <-. change (inv_issued_at i1) with (inv_issued_at (io_invoice out)) in F0.
    congruence.
  - apply Hne. eapply (ok_number _ (wo_db _ Hs2)).
    + cbn. rw Fd. rewrite -> lookup_insert_ne by done. exact Hk.
    + cbn. rw Fd. apply lookup_insert_eq.
    + exact Enum.
    + exact Fnum.
Qed.
End numbers.

(** ** Witnesses *)

#[local] Existing Instance Concrete.platform.
#[local] Existing Instance Concrete.platform_laws.
#[local] Existing Instance concrete_tera.

Definition fx_issue : IssueInvoiceInput := MkIssueInvoiceInput fx_invoice_id None (ACli "ana") ChCli.

Lemma fx_issue_runs : is_ok (run fx_env (issue_invoice fx_ctx fx_issue) (fx_world Draft)).2 = true.
Proof. reflexivity. Qed.

Lemma issue_invoice_spec_witness :
  ∃ w' out i0 c m, run fx_env (issue_invoice fx_ctx fx_issue) (fx_world Draft) = (w', Ok out) ∧
    issues fx_ctx fx_issue (fx_db Draft) (w_db w') out i0 c (env_now fx_env m) ∧
    map line_id (io_lines out) = map line_id (line_list_for_invoice fx_invoice_id (fx_db Draft)) ∧
    length (io_lines out) = 1%nat.
Proof.
  pose proof (issue_invoice_spec fx_env fx_ctx fx_issue (fx_world Draft)) as H.
  destruct (run_ok _ _ _ fx_issue_runs) as (w' & out & Hrun). rewrite -> Hrun in H.
  destruct H as (i0 & c & m & H). exists w', out, i0, c, m. split; [exact Hrun|]. split; [exact H|].
  apply (f_equal (λ r, match r.2 with Ok o => map line_id (io_lines o) | _ => [] end)) in Hrun.
  cbn [snd] in Hrun. rewrite <- (length_map line_id), <- Hrun. split; reflexivity.
Defined.

Lemma issue_amounts_add_up_witness :
  ∃ w' out, run fx_env (issue_invoice fx_ctx fx_issue) (fx_world Draft) = (w', Ok out) ∧
    (val (inv_total (io_invoice out)) ==
     Qsum (val ∘ line_line_total <$> io_lines out))%Q.
Proof.
  destruct (run_ok _ _ _ fx_issue_runs) as (w' & out & Hrun). exists w', out. split; [exact Hrun|].
  apply (issue_amounts_add_up _ _ _ _ _ _ Hrun).
  apply (f_equal (λ r, match r.2 with
    | Ok o => Qsum (Qabs.Qabs <$> (val ∘ line_sub (inv_currency (io_invoice o)) <$> io_lines o)) +
              Qsum (Qabs.Qabs <$> (val ∘ line_tax_amount <$> io_lines o))
    | _ => 0 end)%Q) in Hrun.
  cbn [snd] in Hrun. rewrite <- Hrun. reflexivity.
Defined.

Lemma subtotal_rounding_bound_witness :
  ∃ w' out, run fx_env (issue_invoice fx_ctx fx_issue) (fx_world Draft) = (w', Ok out) ∧
    length (io_lines out) = 1%nat ∧ (Qabs.Qabs (val (inv_subtotal (io_invoice out)) -
      Qsum ((λ l, val (line_quantity l) * val (line_unit_price l)) <$> io_lines out)) <= 1 # 200)%Q.
Proof.
  destruct (run_ok _ _ _ fx_issue_runs) as (w' & out & Hrun). exists w', out. split; [exact Hrun|].
  assert (∀ {A} (f : IssueInvoiceOutput → A) (d : A), match (run fx_env (issue_invoice fx_ctx fx_issue) (fx_world Draft)).2 with
    | Ok o => f o | _ => d end = f out) as Hf by (intros; by rewrite -> Hrun).
  assert (map line_quantity (io_lines out) = [fx_dec 200] ∧ map line_unit_price (io_lines out) = [fx_dec 5000]) as [Eq Ep]
    by (split; by rewrite <- (Hf _ _ [])).
  assert (length (io_lines out) = 1%nat) as El by (rewrite <- (length_map line_quantity); by rewrite -> Eq).
  split; [done|].
  assert (inv_currency (io_invoice out) = Currency.USD) as Ec
    by (by rewrite <- (Hf _ (λ o, inv_currency (io_invoice o)) Currency.USD)).
  eapply Qle_trans; [apply (subtotal_rounding_bound _ _ _ _ _ _ Hrun)|].
  - apply (f_equal (λ r, match r.2 with
      | Ok o => Qsum (Qabs.Qabs <$> (val ∘ line_sub (inv_currency (io_invoice o)) <$> io_lines o)) +
                Qsum (Qabs.Qabs <$> (val ∘ line_tax_amount <$> io_lines o))
      | _ => 0 end)%Q) in Hrun.
    cbn [snd] in Hrun. rewrite <- Hrun. reflexivity.
  - clear Hf Hrun. destruct (io_lines out) as [|l [|]]; [discriminate Eq| |discriminate Eq].
    assert (line_quantity l = fx_dec 200) as E1 by exact (f_equal (hd (fx_dec 0)) Eq).
    assert (line_unit_price l = fx_dec 5000) as E2 by exact (f_equal (hd (fx_dec 0)) Ep).
    constructor; [|constructor]. rewrite -> E1, E2. exists 10000, 2%nat. split; [lia|]. split; reflexivity.
  - rewrite -> Ec, El. discriminate.
Defined.

Lemma fx_plain : plain fx_time ∧ ¬ first_second fx_time.
Proof. split; [split; cbn; lia|]. intros (H & _). discriminate H. Qed.

Lemma issue_keeps_numbering_witness :
  numbering (run fx_env (issue_invoice fx_ctx fx_issue) (fx_world Draft)).1.(w_db).
Proof.
  pose proof (issue_keeps_numbering fx_env fx_ctx fx_issue (fx_world Draft) (fx_world_ok Draft)) as H.
  destruct (run fx_env (issue_invoice fx_ctx fx_issue) (fx_world Draft)) as [w' r].
  apply H.
  - intros k i s Hi Hs. apply fx_only in Hi as [_ ->]. discriminate Hs.
  - intros m. exact fx_plain.
  - reflexivity.
Defined.

(** Midnight of 1 January 2027, UTC; and noon of that day. *)
Definition fx_midnight : DateTime := Concrete.DT (Concrete.Date 2027 1 1 eq_refl) 0 0 0 0 eq_refl.
Definition fx_noon : DateTime := Concrete.DT (Concrete.Date 2027 1 1 eq_refl) 12 0 0 0 eq_refl.

Lemma first_second_blocks_year_witness :
  is_ok (run (fx_env_at fx_noon) (issue_invoice fx_ctx fx_issue)
          (run (fx_env_at fx_midnight) (issue_invoice fx_ctx fx_issue) (fx_world Draft)).1).2 = false.
Proof.
  assert (is_ok (run (fx_env_at fx_midnight) (issue_invoice fx_ctx fx_issue) (fx_world Draft)).2 = true)
    as Hok by reflexivity.
  destruct (run_ok _ _ _ Hok) as (w1 & out & Hrun).
  assert (inv_issued_at (io_invoice out) = Some fx_midnight) as Hat.
  { apply (f_equal (λ r, match r.2 with Ok o => inv_issued_at (io_invoice o) | _ => None end)) in Hrun.
    cbn [snd] in Hrun. rewrite <- Hrun. reflexivity. }
  pose proof (first_second_blocks_year _ _ _ _ _ _ _ (fx_env_at fx_noon) fx_ctx fx_issue
    (fx_world_ok Draft) eq_refl Hrun Hat) as H.
  rewrite -> Hrun. cbn [fst].
  destruct (run (fx_env_at fx_noon) (issue_invoice fx_ctx fx_issue) w1) as [w2 r].
  apply H.
  - split; cbn; lia.
  - by repeat split.
  - reflexivity.
  - done.
Defined.
