(* ===== verification/Send.v ===== *)
(** * Sending an invoice ([commands/src/send.rs])

    [send_invoice] renders an issued invoice, hands the bytes to a file or to
    the caller's sink, and then commits the transition to [Sent];
    [send_invoice_render] leaves the delivery to its caller.  A key that was
    used for the same invoice answers with the recorded delivery. *)

From S2P Require Import Prelude Rounding External Concrete Money Ids Domain InvoiceFsm Events Tax.
From S2P Require Import Store Render Command Transition Invariant Evolution Written World Fixtures.
From Stdlib Require Import Lqa.

(** ** Destination URIs *)

(** [uri.split(sep).next()]: the text before the first [sep], or all of it. *)
Fixpoint split_head (sep s : string) : string :=
  match strip_prefix sep s with
  | Some _ => EmptyString
  | None => match s with
            | EmptyString => EmptyString
            | String c s => String c (split_head sep s)
            end
  end.

Definition scheme_of (uri : string) : string :=
  let head := split_head "://" uri in
  if String.eqb head uri && String.eqb uri "stdout" then "stdout"
  else str_to_ascii_lowercase head.

(** [Path::parent]: the path without its last component; empty and [.]
    components do not count, except a leading one. *)
Fixpoint drop_trivial (l : list string) : list string :=
  match l with
  | s :: l' => if String.eqb s "" || String.eqb s "." then drop_trivial l' else l
  | [] => []
  end.
Definition trim_back (l : list string) : list string :=
  match l with [] => [] | s :: l => s :: rev (drop_trivial (rev l)) end.
Definition path_parent (p : string) : option string :=
  match rev (trim_back (path_segments "" p)) with
  | [] => None
  | [s] => if String.eqb s "" then None else Some ""
  | _ :: init =>
      match trim_back (rev init) with
      | [""] => Some "/"
      | segs => Some (String.concat "/" segs)
      end
  end.

Section send.
Context `{P : Platform}.

Definition file_path_from_uri (uri : string) : res CoreError string :=
  match strip_prefix "file://" uri with
  | None => Err (Validation ("file URI: missing `file://` prefix: " +:+ uri))
  | Some rest =>
      if String.eqb rest "" then Err (Validation "file URI: empty path component") else Ok rest
  end.

Record SendInvoiceInput := MkSendInvoiceInput {
  sd_invoice_id : InvoiceId;
  sd_destination_uri : string;
  sd_idempotency_key : option string;
  sd_actor : Actor;
  sd_channel : Channel;
  sd_sink : bool;               (* the caller supplied a sink *)
}.

Definition send_validate (input : SendInvoiceInput) : res CoreError () :=
  if is_blank (sd_destination_uri input)
  then Err (Validation "destination_uri must not be empty") else Ok ().

Record SendInvoiceOutput := MkSendInvoiceOutput {
  so_invoice : Invoice;
  so_lines : list InvoiceLine;
  so_html : string;
  so_pdf : string;
  so_delivered_to : string;
  so_idempotency_replay : bool;
}.

(** The scheme gate at the top of [send_invoice]. *)
Definition scheme_gate (scheme : string) : res CoreError () :=
  if String.eqb scheme "file" || String.eqb scheme "stdout" then Ok ()
  else if String.eqb scheme "bus" || String.eqb scheme "webhook" || String.eqb scheme "link"
  then Err (NotImplemented ("send_invoice: " +:+ scheme +:+
         ":// dispatch must go through send_invoice_render + an adapter-owned transport"))
  else Err (Validation ("send_invoice: unknown destination scheme `" +:+ scheme +:+ "`")).

Record PreparedSend := MkPreparedSend {
  ps_invoice : Invoice;
  ps_lines : list InvoiceLine;
  ps_html : string;
  ps_pdf : string;
  ps_from_state : InvoiceState;
  ps_to_state : InvoiceState;
  ps_now : DateTime;
}.

(** The target state: a resend of a sent invoice is allowed here. *)
Definition send_target (from_state : InvoiceState) : res TransitionError InvoiceState :=
  match from_state with
  | Issued | Viewed => next_state from_state Send
  | Sent => Ok Sent
  | other => Err (Illegal other "send")
  end.

Definition sent_payload (invoice : Invoice) (destination : string) (actor : Actor)
    (channel : HistoryChannel) : json :=
  JObj [("invoice_id", JStr (id_to_string (inv_id invoice)));
        ("number", jopt (inv_number invoice));
        ("destination", JStr destination);
        ("actor", JStr (audit_string actor));
        ("channel", JStr (history_channel_str channel))].

Definition publish_sent_events (ctx : CoreCtx) (invoice : Invoice) (from to : InvoiceState)
    (actor : Actor) (channel : HistoryChannel) (now : DateTime) (destination : string) : prog () :=
  _ ← publish_triplet ctx (inv_id invoice) from to Send (audit_string actor) channel now;
  try_publish ctx "inv.billing.invoice.sent" (sent_payload invoice destination actor channel) now.

Definition send_mutate (invoice : Invoice) (to : InvoiceState) (now : DateTime) : Invoice :=
  set_inv_updated_at now (set_inv_sent_at (Some now) (set_inv_state to invoice)).

(** The transaction of [finalize_send]. *)
Definition save_send (invoice : Invoice) (h : InvoiceStateHistory) (key : option string)
    (delivered_to : string) (now : DateTime) (d : Db) : SR Db :=
  d ← invoice_save_in_tx invoice d;
  d ← history_save_in_tx h d;
  match key with
  | Some key => send_idempotency_insert_in_tx
                  (MkSendIdempotency (inv_id invoice) key (h_id h) delivered_to now) d
  | None => Ok d
  end.

Definition finalize_send (ctx : CoreCtx) (prepared : PreparedSend) (actor : Actor)
    (channel : Channel) (delivered_to : string) (idempotency_key : option string)
    : prog SendInvoiceOutput :=
  let from_state := ps_from_state prepared in
  let to_state := ps_to_state prepared in
  let now := ps_now prepared in
  let invoice := send_mutate (ps_invoice prepared) to_state now in
  hid ← fresh EHistory;
  let history := transition_row hid (inv_id invoice) from_state to_state (tag Send) actor channel
                   None None now {[ "destination" := delivered_to ]} in
  _ ← db_exec (save_send invoice history idempotency_key delivered_to now);
  _ ← publish_sent_events ctx invoice from_state to_state actor (history_channel channel) now
        delivered_to;
  Ret (MkSendInvoiceOutput invoice (ps_lines prepared) (ps_html prepared) (ps_pdf prepared)
         delivered_to false).

Context {T : Tera}.

Definition prepare_send (ctx : CoreCtx) (invoice_id : InvoiceId) (actor : Actor) (channel : Channel)
    : prog PreparedSend :=
  found ← db_query (λ d, Ok (invoice_get invoice_id d));
  invoice ← or_not_found ("invoice " +:+ id_to_string invoice_id) found;
  lines ← db_query (λ d, Ok (line_list_for_invoice invoice_id d));
  let from_state := inv_state invoice in
  to_state ← lift FsmTransition (send_target from_state);
  found ← db_query (λ d, Ok (customer_get (inv_customer_id invoice) d));
  customer ← or_not_found ("customer " +:+ id_to_string (inv_customer_id invoice) +:+
                           " (referenced by invoice " +:+ id_to_string invoice_id +:+ ")") found;
  now ← clock_now;
  '(html, pdf) ← render (inv_template_path invoice) (MkRenderContext invoice customer lines);
  Ret (MkPreparedSend invoice lines html pdf from_state to_state now).

Definition try_replay (ctx : CoreCtx) (invoice_id : InvoiceId) (idempotency_key : string)
    : prog (option SendInvoiceOutput) :=
  record ← db_query (λ d, Ok (send_idempotency_find invoice_id idempotency_key d));
  match record with
  | None => Ret None
  | Some record =>
      found ← db_query (λ d, Ok (invoice_get invoice_id d));
      invoice ← or_not_found ("invoice " +:+ id_to_string invoice_id) found;
      lines ← db_query (λ d, Ok (line_list_for_invoice invoice_id d));
      found ← db_query (λ d, Ok (customer_get (inv_customer_id invoice) d));
      customer ← or_not_found ("customer " +:+ id_to_string (inv_customer_id invoice) +:+
                   " (referenced by invoice " +:+ id_to_string invoice_id +:+ ")") found;
      '(html, pdf) ← render (inv_template_path invoice) (MkRenderContext invoice customer lines);
      Ret (Some (MkSendInvoiceOutput invoice lines html pdf (si_delivered_to record) true))
  end.

(** [if let Some(key) = .. { if let Some(replay) = try_replay(..).await? .. }] *)
Definition replay_if_keyed (ctx : CoreCtx) (invoice_id : InvoiceId) (key : option string)
    : prog (option SendInvoiceOutput) :=
  match key with Some key => try_replay ctx invoice_id key | None => Ret None end.

(** The local delivery; [scheme] passed the gate. *)
Definition dispatch (input : SendInvoiceInput) (scheme pdf : string) : prog string :=
  if String.eqb scheme "file" then
    path ← lift id (file_path_from_uri (sd_destination_uri input));
    _ ← match path_parent path with
        | Some parent =>
            if String.eqb parent "" then Ret ()
            else io_call ("creating directory " +:+ parent +:+ ": ")
        | None => Ret ()
        end;
    _ ← io_write (add_file path) pdf ("writing " +:+ path +:+ ": ");
    Ret ("file://" +:+ path)
  else if String.eqb scheme "stdout" then
    _ ← (if sd_sink input then Ret () else
         Throw (Validation "send_invoice: stdout destination requires a sink (none supplied)"));
    _ ← io_write add_sink pdf "writing to stdout sink: ";
    Ret "stdout"
  else Crash.

Definition send_invoice (ctx : CoreCtx) (input : SendInvoiceInput) : prog SendInvoiceOutput :=
  _ ← lift id (send_validate input);
  let scheme := scheme_of (sd_destination_uri input) in
  _ ← lift id (scheme_gate scheme);
  replay ← replay_if_keyed ctx (sd_invoice_id input) (sd_idempotency_key input);
  match replay with
  | Some out => Ret out
  | None =>
      prepared ← prepare_send ctx (sd_invoice_id input) (sd_actor input) (sd_channel input);
      delivered_to ← dispatch input scheme (ps_pdf prepared);
      finalize_send ctx prepared (sd_actor input) (sd_channel input) delivered_to
        (sd_idempotency_key input)
  end.

Record SendInvoiceRenderInput := MkSendInvoiceRenderInput {
  sr_invoice_id : InvoiceId;
  sr_destination_uri : string;
  sr_idempotency_key : option string;
  sr_actor : Actor;
  sr_channel : Channel;
}.

Definition send_render_validate (input : SendInvoiceRenderInput) : res CoreError () :=
  if is_blank (sr_destination_uri input)
  then Err (Validation "destination_uri must not be empty") else Ok ().

Definition send_invoice_render (ctx : CoreCtx) (input : SendInvoiceRenderInput)
    : prog SendInvoiceOutput :=
  _ ← lift id (send_render_validate input);
  replay ← replay_if_keyed ctx (sr_invoice_id input) (sr_idempotency_key input);
  match replay with
  | Some out => Ret out
  | None =>
      prepared ← prepare_send ctx (sr_invoice_id input) (sr_actor input) (sr_channel input);
      finalize_send ctx prepared (sr_actor input) (sr_channel input) (sr_destination_uri input)
        (sr_idempotency_key input)
  end.

Lemma quiet_dispatch input scheme pdf : quiet (dispatch input scheme pdf).
Proof.
  unfold dispatch. destruct (String.eqb scheme "file").
  - apply quiet_bind; [apply quiet_lift|intros path]. apply quiet_bind.
    { destruct (path_parent path) as [parent|]; [|constructor].
      destruct (String.eqb parent ""); [constructor|]. apply quiet_io_call. }
    intros _. apply quiet_bind; [by apply quiet_io_write|constructor].
  - destruct (String.eqb scheme "stdout"); [|constructor].
    apply quiet_bind; [destruct (sd_sink input); constructor|intros _].
    apply quiet_bind; [by apply quiet_io_write|constructor].
Qed.
Lemma quiet_publish_sent_events ctx invoice from to actor channel now destination :
  quiet (publish_sent_events ctx invoice from to actor channel now destination).
Proof. unfold publish_sent_events. solve_quiet. Qed.
Lemma silent_try_replay ctx iid key : silent (try_replay ctx iid key).
Proof. unfold try_replay. solve_silent. Qed.
Lemma silent_replay_if_keyed ctx iid key : silent (replay_if_keyed ctx iid key).
Proof. destruct key; [apply silent_try_replay|constructor]. Qed.
Lemma silent_prepare_send ctx iid actor channel : silent (prepare_send ctx iid actor channel).
Proof. unfold prepare_send. solve_silent. Qed.
End send.

#[export] Hint Resolve quiet_dispatch quiet_publish_sent_events silent_try_replay
  silent_replay_if_keyed silent_prepare_send : inv.
#[export] Hint Extern 2 (quiet (replay_if_keyed _ _ _)) => apply silent_quiet : inv.
#[export] Hint Extern 2 (quiet (prepare_send _ _ _ _)) => apply silent_quiet : inv.
#[export] Hint Extern 2 (quiet (try_replay _ _ _)) => apply silent_quiet : inv.

(** ** What sending does *)

Section send_theorems.
Context {P : Platform} {L : PlatformLaws P} {T : Tera}.

Lemma send_target_ok s s' : send_target s = Ok s' ↔ (s = Issued ∨ s = Sent) ∧ s' = Sent.
Proof. destruct s; cbn; naive_solver. Qed.

Lemma send_mutate_consistent i now :
  inv_state i = Issued ∨ inv_state i = Sent →
  invoice_consistent i → invoice_consistent (send_mutate i Sent now).
Proof.
  intros Hs Hc. assert (inv_state i ≠ Draft ∧ inv_state i ≠ Paid ∧ inv_state i ≠ Voided) as (? & ? & ?)
    by (by destruct Hs as [E|E]; rw E).
  pose proof (ic_unpaid i Hc ltac:(tauto)) as Hzero.
  destruct Hc. split; cbn; try done; try (by intros [|]); intuition congruence.
Qed.

Definition sent_row (hid : HistoryId) (i0 : Invoice) (actor : Actor) (channel : Channel)
    (delivered_to : string) (now : DateTime) : InvoiceStateHistory :=
  transition_row hid (inv_id i0) (inv_state i0) Sent "send" actor channel None None now
    {[ "destination" := delivered_to ]}.

Lemma send_transition_fits i0 hid actor channel delivered_to now :
  inv_state i0 = Issued ∨ inv_state i0 = Sent →
  transition_fits i0 (send_mutate i0 Sent now) (sent_row hid i0 actor channel delivered_to now).
Proof.
  intros Hs. split; try done.
  - destruct Hs as [-> | ->]; [|constructor].
    by apply (legal_step _ Send _), (next_state_sound Issued Send Sent eq_refl).
  - by apply send_mutate_consistent.
Qed.

Lemma save_send_written i h key to now d d' :
  save_send i h key to now d = Ok d' →
  save_transition i h d = Ok (written i h d) ∧
  match key with
  | None => d' = written i h d
  | Some k => send_idempotency_insert_in_tx
                (MkSendIdempotency (inv_id i) k (h_id h) to now) (written i h d) = Ok d'
  end.
Proof.
  unfold save_send. intros H. inv_res.
  assert (save_transition i h d = Ok x0) as Hs.
  { unfold save_transition. match goal with H : invoice_save_in_tx _ _ = _ |- _ => rw H end. done. }
  pose proof (save_transition_written _ _ _ _ Hs) as ->. by destruct key; inv_res.
Qed.

Lemma world_ok_send w i0 i h key to now d :
  world_ok w → invoice_get (inv_id i0) (w_db w) = Some i0 → transition_fits i0 i h →
  drawn (S (w_step w)) (h_id h) →
  save_send i h key to now (w_db w) = Ok d → world_ok (set_w_db d (tick w)).
Proof.
  intros Hw Hi Hf Hh H. apply save_send_written in H as [Hs Hk].
  pose proof (world_ok_transition _ _ _ _ _ Hw Hi Hf Hh Hs) as Hw1.
  destruct key as [k|]; [|by subst].
  pose proof (send_idempotency_insert_ok _ _ _ Hk (wo_db _ Hw1)) as Hd.
  apply send_idempotency_insert_written in Hk as [_ ->].
  split; [done|]. by destruct (wo_ids _ Hw1); split.
Qed.

Lemma since_send d0 w i0 i h key to now d :
  ok_since d0 w → invoice_get (inv_id i0) (w_db w) = Some i0 → transition_fits i0 i h →
  drawn (S (w_step w)) (h_id h) →
  save_send i h key to now (w_db w) = Ok d → ok_since d0 (set_w_db d (tick w)).
Proof.
  intros Hw Hi Hf Hh H. apply since_step; [done|by eapply world_ok_send; [apply Hw|..]|].
  apply save_send_written in H as [Hs Hk].
  pose proof (since_transition _ _ _ _ _ _ (ok_since_refl _ (os_ok _ _ Hw)) Hi Hf Hh Hs) as [_ He].
  destruct key as [k|]; [|by subst]. apply send_idempotency_insert_written in Hk as [? ->].
  etrans; [exact He|by apply evolves_send].
Qed.

(** The page is the template's, on the stored invoice, its customer and its lines. *)
Definition rendered_from (i : Invoice) (ls : list InvoiceLine) (html pdf : string) (d : Db) : Prop :=
  ∃ c read, customers d !! id_to_string (inv_customer_id i) = Some c ∧
    render_html read (inv_template_path i) (MkRenderContext i c ls) = Ok html ∧
    render_pdf html = Ok pdf.

(** What [prepare_send] loads. *)
Lemma wpc_prepare_send I E ctx iid actor channel w :
  stable I → I w →
  wpc I E (prepare_send ctx iid actor channel)
    (λ w' r, same_db w w' ∧ ∀ p, r = Ok p →
       invoice_get iid (w_db w) = Some (ps_invoice p) ∧
       (inv_state (ps_invoice p) = Issued ∨ inv_state (ps_invoice p) = Sent) ∧
       ps_from_state p = inv_state (ps_invoice p) ∧ ps_to_state p = Sent ∧
       ps_lines p = line_list_for_invoice iid (w_db w) ∧
       rendered_from (ps_invoice p) (ps_lines p) (ps_html p) (ps_pdf p) (w_db w)) w.
Proof.
  intros HI Hw. set (Q := λ w' r, _).
  assert (∀ w0, same_db w w0 → rejects Q w0) as HQ
    by (intros w0 Hs0 w' [] Hs1 ?; (split; [by etrans|done])).
  pose proof (HQ w ltac:(reflexivity)).
  unfold prepare_send. wp_query Hq. wp_found i Hf. wp_query Hl. wp_lift s Hs.
  apply send_target_ok in Hs as [Hs ->]. wp_query Hc. wp_found c Hcf. wp_clock m.
  assert (same_db w wx2) as Hw2 by (by repeat (etrans; [eassumption|])).
  wp_then wpc_render. intros w' r [Hs' Hr].
  destruct r as [[html pdf]|e|]; cbn [wpc_cont]; [|split; [by etrans|done]..].
  destruct (Hr _ _ eq_refl) as (read & Hh & Hp). split; [by eapply HI|]. split; [by etrans|].
  intros p [= <-]. cbn. unfold rendered_from. same_dbs. eauto 10.
Qed.

Lemma finalize_send_since d0 ctx p actor channel to key E w i0 :
  ok_since d0 w → invoice_get (inv_id i0) (w_db w) = Some i0 → ps_invoice p = i0 →
  (inv_state i0 = Issued ∨ inv_state i0 = Sent) → ps_from_state p = inv_state i0 →
  ps_to_state p = Sent →
  safe (ok_since d0) E (finalize_send ctx p actor channel to key) w.
Proof.
  intros Hw Hi Ei Hs Ef Et. unfold finalize_send, safe. cbv zeta. rw Ei Ef Et.
  wp_fresh. wp_exec Hd.
  - eapply since_send; [done| | | |exact Hd].
    + same_dbs. exact Hi.
    + by apply (send_transition_fits i0).
    + apply drawn_new. cbn. lia.
  - apply safe_quiet; [wp_side|solve_quiet|done].
Qed.

Lemma send_invoice_since d0 ctx input E w :
  ok_since d0 w → safe (ok_since d0) E (send_invoice ctx input) w.
Proof.
  intros Hw. unfold send_invoice, safe. wp_skip. cbv zeta. wp_skip. wp_skip.
  match goal with |- wpc _ _ (match ?o with _ => _ end) _ _ => destruct o; [done|] end.
  wp_then wpc_prepare_send. intros w1 r [Hs Hr].
  destruct r as [p|e|]; cbn [wpc_cont]; [|done..].
  destruct (Hr p eq_refl) as (Hg & Hst & Hfr & Hto & _ & _).
  assert (ok_since d0 w1) by (eapply (ok_since_stable d0); eauto).
  wp_skip. eapply finalize_send_since; try done.
  same_dbs. eapply invoice_get_id; [|exact Hg]. by eapply wo_db, os_ok.
Qed.
Lemma send_invoice_safe ctx input E w : world_ok w → safe world_ok E (send_invoice ctx input) w.
Proof. apply since_safe. intros d0. apply send_invoice_since. Qed.
Lemma send_invoice_render_since d0 ctx input E w :
  ok_since d0 w → safe (ok_since d0) E (send_invoice_render ctx input) w.
Proof.
  intros Hw. unfold send_invoice_render, safe. wp_skip. wp_skip.
  match goal with |- wpc _ _ (match ?o with _ => _ end) _ _ => destruct o; [done|] end.
  wp_then wpc_prepare_send. intros w1 r [Hs Hr].
  destruct r as [p|e|]; cbn [wpc_cont]; [|done..].
  destruct (Hr p eq_refl) as (Hg & Hst & Hfr & Hto & _ & _).
  assert (ok_since d0 w1) by (eapply (ok_since_stable d0); eauto).
  eapply finalize_send_since; try done.
  same_dbs. eapply invoice_get_id; [|exact Hg]. by eapply wo_db, os_ok.
Qed.
Lemma send_invoice_render_safe ctx input E w : world_ok w → safe world_ok E (send_invoice_render ctx input) w.
Proof. apply since_safe. intros d0. apply send_invoice_render_since. Qed.

Lemma send_invoice_atomic ctx input : atomic (send_invoice ctx input).
Proof.
  unfold send_invoice. do 3 (apply atomic_bind_quiet; [solve_quiet|intros ?]).
  case_match; [apply atomic_quiet; constructor|].
  do 2 (apply atomic_bind_quiet; [solve_quiet|intros ?]). unfold finalize_send. solve_atomic.
Qed.

Lemma send_invoice_render_atomic ctx input : atomic (send_invoice_render ctx input).
Proof.
  unfold send_invoice_render. do 2 (apply atomic_bind_quiet; [solve_quiet|intros ?]).
  case_match; [apply atomic_quiet; constructor|].
  apply atomic_bind_quiet; [solve_quiet|intros ?]. unfold finalize_send. solve_atomic.
Qed.

Lemma file_path_from_uri_ok uri path :
  file_path_from_uri uri = Ok path → uri = "file://" +:+ path ∧ path ≠ "".
Proof.
  unfold file_path_from_uri. destruct (strip_prefix "file://" uri) as [rest|] eqn:E; [|done].
  apply strip_prefix_inv in E. destruct (String.eqb_spec rest ""); [done|]. by intros [= <-].
Qed.

(** How the bytes reached the destination. *)
Inductive delivered (input : SendInvoiceInput) (pdf to : string) (w w' : World) : Prop :=
  | delivered_file path :
      sd_destination_uri input = "file://" +:+ path → path ≠ "" → to = "file://" +:+ path →
      w_files w' = <[path := pdf]> (w_files w) → w_sink w' = w_sink w →
      delivered input pdf to w w'
  | delivered_stdout :
      sd_sink input = true → to = "stdout" →
      w_sink w' = w_sink w ++ [pdf] → w_files w' = w_files w →
      delivered input pdf to w w'.

Lemma run_dispatch E input scheme pdf w :
  let '(w', r) := run E (dispatch input scheme pdf) w in
  same_db w w' ∧ w_bus w' = w_bus w ∧ ∀ to, r = Ok to → delivered input pdf to w w'.
Proof.
  unfold dispatch. destruct (String.eqb scheme "file").
  - destruct (file_path_from_uri (sd_destination_uri input)) as [path|e|] eqn:Ep; cbn;
      [|by split; [reflexivity|]..].
    destruct (file_path_from_uri_ok _ _ Ep) as [Euri Hpath].
    assert (∀ w0, same_world w w0 →
      let '(w', r) := run E (_ ← io_write (add_file path) pdf ("writing " +:+ path +:+ ": ");
                             Ret ("file://" +:+ path)) w0 in
      same_db w w' ∧ w_bus w' = w_bus w ∧ ∀ to, r = Ok to → delivered input pdf to w w') as Hw.
    { intros w0 [Ed Eb Ef Es _ Hle]. rw run_bind run_io_write. destruct (env_io_ok E (w_step w0)); cbn.
      - split; [split; cbn; [done|lia]|]. split; [done|]. intros to [= <-].
        eapply delivered_file; try done. cbn. by rw Ef.
      - unfold io_left. destruct (env_io_left E (w_step w0));
          (split; [split; cbn; [done|lia]|]; by split). }
    destruct (path_parent path) as [parent|]; [|apply Hw; reflexivity].
    destruct (String.eqb parent ""); [apply Hw; reflexivity|].
    rw run_bind run_io_call. destruct (env_io_ok E (w_step w)); [apply Hw, same_world_tick|].
    split; [apply same_db_tick|]. by split.
  - destruct (String.eqb scheme "stdout"); [|cbn; by split; [reflexivity|]].
    destruct (sd_sink input) eqn:Esk; cbn; [|by split; [reflexivity|]].
    destruct (env_io_ok E (w_step w)); cbn.
    + split; [split; cbn; [done|lia]|]. split; [done|]. intros to [= <-]. by eapply delivered_stdout.
    + unfold io_left. destruct (env_io_left E (w_step w)); (split; [split; cbn; [done|lia]|]; by split).
Qed.

Lemma run_finalize_send E ctx p actor channel to key w :
  let '(w', r) := run E (finalize_send ctx p actor channel to key) w in
  match r with
  | Ok out =>
      ∃ hid, out = MkSendInvoiceOutput (send_mutate (ps_invoice p) (ps_to_state p) (ps_now p))
                     (ps_lines p) (ps_html p) (ps_pdf p) to false ∧
      save_send (so_invoice out) (transition_row hid (inv_id (so_invoice out)) (ps_from_state p)
        (ps_to_state p) "send" actor channel None None (ps_now p) {[ "destination" := to ]})
        key to (ps_now p) (w_db w) = Ok (w_db w') ∧
      w_files w' = w_files w ∧ w_sink w' = w_sink w
  | _ => same_world w w'
  end.
Proof.
  unfold finalize_send. cbv zeta. rw run_bind run_fresh run_bind run_db_exec.
  destruct (env_db_ok E (w_step (tick w))); [|by split; cbn; auto].
  destruct (save_send _ _ _ _ _ _) as [d|e|] eqn:Es; [|by split; cbn; auto..].
  rw run_bind. unfold publish_sent_events.
  match goal with |- context [run E ?q ?w1] =>
    match q with (publish_triplet _ _ _ _ _ _ _ _ ≫= _) =>
      destruct (run_publish_events E ctx (inv_id (ps_invoice p)) (ps_from_state p) (ps_to_state p) Send
        (audit_string actor) (history_channel channel) (ps_now p) "inv.billing.invoice.sent"
        (sent_payload (send_mutate (ps_invoice p) (ps_to_state p) (ps_now p)) to actor
           (history_channel channel)) w1) as [E1 [Hdb Hf Hsk _]];
      destruct (run E q w1) as [w2 r] eqn:Er
    end end.
  cbn in Er. rewrite -> Er in *. cbn in E1, Hdb, Hf, Hsk. subst r.
  eexists. split; [done|]. rw Hdb. by split.
Qed.

(** A replay: the stored delivery of this key, and nothing else. *)
Definition replays (iid : InvoiceId) (key : option string) (d : Db) (out : SendInvoiceOutput) : Prop :=
  ∃ k rec, key = Some k ∧ send_idempotency d !! (id_to_string iid, k) = Some rec ∧
    so_delivered_to out = si_delivered_to rec ∧ so_idempotency_replay out = true ∧
    invoices d !! id_to_string iid = Some (so_invoice out).

Lemma run_replay E ctx iid key w :
  let '(w', r) := run E (replay_if_keyed ctx iid key) w in
  same_world w w' ∧
  match r with
  | Ok (Some out) => replays iid key (w_db w) out
  | Ok None => ∀ k, key = Some k → send_idempotency_find iid k (w_db w) = None
  | _ => True
  end.
Proof.
  pose proof (silent_run E _ w (silent_replay_if_keyed ctx iid key)) as Hs.
  set (Q := λ (w' : World) (r : res CoreError (option SendInvoiceOutput)), match r with
    | Ok (Some out) => replays iid key (w_db w) out
    | Ok None => ∀ k, key = Some k → send_idempotency_find iid k (w_db w) = None
    | _ => True end).
  assert (wpc anywhere E (replay_if_keyed ctx iid key) Q w) as Hq.
  { assert (∀ w0, rejects Q w0) as HQ by (intros w0 w' [] ??; done). pose proof (HQ w).
    destruct key as [k|]; [|by split].
    cbn [replay_if_keyed]. unfold try_replay. wp_query Hk.
    destruct (send_idempotency_find iid k (w_db w)) as [rec|] eqn:Er.
    - wp_query Hg. wp_found i Hi. wp_query Hl. wp_query Hc. wp_found c Hcf. wp_skip.
      match goal with |- wpc _ _ (let '(_, _) := ?p in _) _ _ => destruct p as [html pdf] end.
      split; [done|]. exists k, rec. same_dbs. by repeat split.
    - split; [done|]. by intros ? [= <-]. }
  apply wpc_end in Hq. destruct (run E _ w). by split.
Qed.

Lemma run_prepare E ctx iid actor channel w :
  let '(w', r) := run E (prepare_send ctx iid actor channel) w in
  same_world w w' ∧ ∀ p, r = Ok p →
    invoice_get iid (w_db w) = Some (ps_invoice p) ∧
    (inv_state (ps_invoice p) = Issued ∨ inv_state (ps_invoice p) = Sent) ∧
    ps_from_state p = inv_state (ps_invoice p) ∧ ps_to_state p = Sent ∧
    ps_lines p = line_list_for_invoice iid (w_db w) ∧
    rendered_from (ps_invoice p) (ps_lines p) (ps_html p) (ps_pdf p) (w_db w).
Proof.
  pose proof (silent_run E _ w (silent_prepare_send ctx iid actor channel)) as Hs.
  pose proof (wpc_end _ _ _ _ (wpc_prepare_send anywhere E ctx iid actor channel w
    stable_anywhere Logic.I)) as [_ H].
  destruct (run E _ w). by split.
Qed.

(** The outcome of [send_invoice]. *)
Definition send_post (input : SendInvoiceInput) (w w' : World) (r : res CoreError SendInvoiceOutput) : Prop :=
  match r with
  | Ok out =>
      if so_idempotency_replay out
      then same_world w w' ∧ replays (sd_invoice_id input) (sd_idempotency_key input) (w_db w) out
      else ∃ i0 now hid, invoice_get (sd_invoice_id input) (w_db w) = Some i0 ∧
        (inv_state i0 = Issued ∨ inv_state i0 = Sent) ∧
        so_invoice out = send_mutate i0 Sent now ∧
        (so_lines out = line_list_for_invoice (sd_invoice_id input) (w_db w) ∧
         rendered_from i0 (so_lines out) (so_html out) (so_pdf out) (w_db w)) ∧
        delivered input (so_pdf out) (so_delivered_to out) w w' ∧
        save_send (so_invoice out) (sent_row hid i0 (sd_actor input) (sd_channel input)
          (so_delivered_to out) now) (sd_idempotency_key input) (so_delivered_to out) now
          (w_db w) = Ok (w_db w')
  | _ => w_db w' = w_db w ∧ w_bus w' = w_bus w
  end.

Lemma run_send_invoice E ctx input w :
  let '(w', r) := run E (send_invoice ctx input) w in
  send_post input w w' r.
Proof.
  unfold send_post.
  unfold send_invoice. rw run_bind. destruct (send_validate input); cbn [lift map_err run]; [|by split..].
  cbv zeta. rw run_bind. destruct (scheme_gate _); cbn [lift run]; [|by split..].
  rw run_bind. pose proof (run_replay E ctx (sd_invoice_id input) (sd_idempotency_key input) w) as H1.
  destruct (run E (replay_if_keyed _ _ _) w) as [w1 [[out|]|e|]]; destruct H1 as [Hs1 H1].
  { cbn. destruct H1 as (k & rec & H1). destruct H1 as (? & ? & ? & Hr & ?). rw Hr.
    split; [done|]. exists k, rec. by repeat split. }
  2-3: split; apply Hs1.
  rw run_bind. pose proof (run_prepare E ctx (sd_invoice_id input) (sd_actor input) (sd_channel input) w1) as H2.
  destruct (run E (prepare_send _ _ _ _) w1) as [w2 [p|e|]]; destruct H2 as [Hs2 H2].
  2-3: split; [rw (sw_db _ _ Hs2)|rw (sw_bus _ _ Hs2)]; apply Hs1.
  destruct (H2 p eq_refl) as (Hg & Hst & Hfr & Hto & Hl & Hren).
  assert (same_world w w2) as Hs by (by etrans).
  rw run_bind. pose proof (run_dispatch E input (scheme_of (sd_destination_uri input)) (ps_pdf p) w2) as H3.
  destruct (run E (dispatch _ _ _) w2) as [w3 [to|e|]]; destruct H3 as (Hs3 & Hb3 & H3).
  2-3: split; [rw (sd_db _ _ Hs3); apply Hs|rw Hb3; apply Hs].
  pose proof (run_finalize_send E ctx p (sd_actor input) (sd_channel input) to
    (sd_idempotency_key input) w3) as H4.
  destruct (run E (finalize_send _ _ _ _ _ _) w3) as [w4 [out|e|]].
  2-3: split; [rw (sw_db _ _ H4) (sd_db _ _ Hs3); apply Hs|rw (sw_bus _ _ H4) Hb3; apply Hs].
  destruct H4 as (hid & -> & Hsave & Hf4 & Hk4). cbn in *.
  exists (ps_invoice p), (ps_now p), hid.
  split; [by rw -(sw_db _ _ Hs1)|]. split; [done|]. split; [by rw Hto|].
  split; [by rw -(sw_db _ _ Hs1)|]. split.
  - destruct (H3 to eq_refl) as [path E1 E1' E2 Ef Ek|E1 E2 Ek Ef].
    + eapply delivered_file; [exact E1|exact E1'|exact E2|rw Hf4 Ef; by rw (sw_files _ _ Hs)|].
      rw Hk4 Ek. apply Hs.
    + eapply delivered_stdout; [exact E1|exact E2|rw Hk4 Ek; by rw (sw_sink _ _ Hs)|].
      rw Hf4 Ef. apply Hs.
  - rw Hto Hfr in Hsave. unfold sent_row. rw -(sw_db _ _ Hs) -(sd_db _ _ Hs3). by rw Hto.
Qed.

(** What a delivery promises, in terms of the tables and the destination. *)
Record sends (input : SendInvoiceInput) (w w' : World) (out : SendInvoiceOutput) (i0 : Invoice)
    (now : DateTime) : Prop := {
  snd_stored : invoices (w_db w) !! id_to_string (sd_invoice_id input) = Some i0 ∧
    (inv_state i0 = Issued ∨ inv_state i0 = Sent);
  snd_rendered : lines_of (sd_invoice_id input) (w_db w) (so_lines out) ∧
    rendered_from i0 (so_lines out) (so_html out) (so_pdf out) (w_db w);
  snd_delivered : delivered input (so_pdf out) (so_delivered_to out) w w';
  snd_marked : so_invoice out =
    {| inv_id := inv_id i0; inv_number := inv_number i0; inv_customer_id := inv_customer_id i0;
       inv_seller_jurisdiction := inv_seller_jurisdiction i0; inv_currency := inv_currency i0;
       inv_state := Sent; inv_issued_at := inv_issued_at i0; inv_due_at := inv_due_at i0;
       inv_sent_at := Some now; inv_viewed_at := inv_viewed_at i0; inv_paid_at := inv_paid_at i0;
       inv_voided_at := inv_voided_at i0; inv_subtotal := inv_subtotal i0;
       inv_tax_total := inv_tax_total i0; inv_total := inv_total i0;
       inv_amount_paid := inv_amount_paid i0; inv_schedule_id := inv_schedule_id i0;
       inv_template_path := inv_template_path i0; inv_pdf_blob_ref := inv_pdf_blob_ref i0;
       inv_idempotency_key := inv_idempotency_key i0; inv_nexus_review := inv_nexus_review i0;
       inv_metadata := inv_metadata i0; inv_created_at := inv_created_at i0;
       inv_updated_at := now |};
  snd_wrote : ∃ hid,
    wrote (so_invoice out)
      {| h_id := hid; h_invoice_id := inv_id i0; h_from_state := Some (inv_state i0);
         h_to_state := Sent; h_event := "send"; h_actor := Some (audit_string (sd_actor input));
         h_channel := history_channel (sd_channel input); h_bus_event_id := None;
         h_reason := None; h_occurred_at := now; h_published_at := None;
         h_metadata := {[ "destination" := so_delivered_to out ]} |} (w_db w) (w_db w') ∧
    match sd_idempotency_key input with
    | None => send_idempotency (w_db w') = send_idempotency (w_db w)
    | Some key =>
        send_idempotency (w_db w) !! (id_to_string (inv_id i0), key) = None ∧
        send_idempotency (w_db w') =
          <[(id_to_string (inv_id i0), key) :=
              MkSendIdempotency (inv_id i0) key hid (so_delivered_to out) now]>
            (send_idempotency (w_db w))
    end;
  snd_lines : invoice_lines (w_db w') = invoice_lines (w_db w);
}.

(** C12: [send_invoice] either fails, with the database as it was and nothing
    announced on the bus; or replays a recorded delivery, writing nothing at
    all; or delivers the bytes rendered from the stored invoice to the file or
    the sink, marks the issued (or already sent) invoice [Sent], appends one
    [send] row carrying the destination, records the key, and changes nothing
    else of the database. *)
Theorem send_invoice_spec E ctx input w :
  let '(w', r) := run E (send_invoice ctx input) w in
  match r with
  | Ok out =>
      if so_idempotency_replay out
      then same_world w w' ∧ replays (sd_invoice_id input) (sd_idempotency_key input) (w_db w) out
      else ∃ i0 now, sends input w w' out i0 now
  | _ => w_db w' = w_db w ∧ w_bus w' = w_bus w
  end.
Proof.
  pose proof (run_send_invoice E ctx input w) as H. unfold send_post in H.
  destruct (run E (send_invoice ctx input) w) as [w' [out|e|]]; [|exact H..].
  destruct (so_idempotency_replay out); [exact H|].
  destruct H as (i0 & now & hid & Hg & Hs & Ei & [El Hr] & Hd & [_ Hsave]%save_send_written).
  exists i0, now. assert (inv_id (so_invoice out) = inv_id i0) as Eid by (by rw Ei).
  pose proof (written_wrote (so_invoice out) (sent_row hid i0 (sd_actor input) (sd_channel input)
    (so_delivered_to out) now) (w_db w)) as Hw.
  assert (invoice_lines (w_db w') = invoice_lines (w_db w)) as Elines.
  { destruct (sd_idempotency_key input); [|by rw Hsave].
    apply send_idempotency_insert_written in Hsave as [_ ->]. done. }
  split; [done|split; [rw El; apply line_list_lines_of|done]|done|exact Ei| |done].
  exists hid. rewrite -> Eid in Hsave. destruct (sd_idempotency_key input) as [key|].
  - apply send_idempotency_insert_written in Hsave as [Hnone ->]. split; [|by split].
    by apply wrote_set_sends.
  - rw Hsave. by split.
Qed.

(** A recorded key answers from the record. *)
Lemma recorded_key_replays E ctx input key rec w :
  sd_idempotency_key input = Some key →
  send_idempotency_find (sd_invoice_id input) key (w_db w) = Some rec →
  let '(w', r) := run E (send_invoice ctx input) w in
  same_world w w' ∧
  ∀ out, r = Ok out → so_idempotency_replay out = true ∧ so_delivered_to out = si_delivered_to rec.
Proof.
  intros Hk Hrec.
  unfold send_invoice. rw run_bind.
  destruct (send_validate input); cbn [lift map_err run]; [|by split; [reflexivity|]..].
  cbv zeta. rw run_bind. destruct (scheme_gate _); cbn [lift run]; [|by split; [reflexivity|]..].
  rw run_bind. pose proof (run_replay E ctx (sd_invoice_id input) (sd_idempotency_key input) w) as H1.
  destruct (run E (replay_if_keyed _ _ _) w) as [w1 [[out|]|e|]]; destruct H1 as [Hs1 H1]; [..|by split|by split].
  - cbn. split; [done|]. intros ? [= <-]. destruct H1 as (k & rec' & Hk' & Hr' & Hd & Hr & _).
    split; [done|]. unfold send_idempotency_find in Hrec. congruence.
  - specialize (H1 key Hk). congruence.
Qed.

(** C13: one key delivers an invoice once: after a send under a key succeeds,
    any later send of that invoice under that key, whatever its destination,
    touches neither the database, the bus, a file nor the sink; if it succeeds,
    it reports the first delivery. *)
Theorem send_once_per_key E ctx input key w w1 out E' ctx' input' :
  world_ok w →
  run E (send_invoice ctx input) w = (w1, Ok out) → sd_idempotency_key input = Some key →
  sd_invoice_id input' = sd_invoice_id input → sd_idempotency_key input' = Some key →
  let '(w2, r) := run E' (send_invoice ctx' input') w1 in
  same_world w1 w2 ∧
  ∀ out', r = Ok out' →
    so_idempotency_replay out' = true ∧ so_delivered_to out' = so_delivered_to out.
Proof.
  intros Hw Hrun Hk Hid Hk'. pose proof (run_send_invoice E ctx input w) as H. unfold send_post in H. rw Hrun in H.
  assert (∃ rec, send_idempotency_find (sd_invoice_id input) key (w_db w1) = Some rec ∧
    si_delivered_to rec = so_delivered_to out) as (rec & Hf & <-).
  { destruct (so_idempotency_replay out).
    - destruct H as [Hs (k & rec & Ek & Hf & -> & _)]. exists rec. rw (sw_db _ _ Hs).
      split; [unfold send_idempotency_find; congruence|done].
    - destruct H as (i0 & now & hid & Hg & _ & Ei & _ & _ & Hsave).
      apply save_send_written in Hsave as [_ Hsave]. rw Hk in Hsave.
      apply send_idempotency_insert_written in Hsave as [_ Ed]. rw Ed. eexists.
      pose proof (ok_invoice_key _ (wo_db _ Hw) _ _ Hg) as Ek. rw Ei.
      unfold send_idempotency_find. rw Ek. split; [apply lookup_insert_eq|done]. }
  apply recorded_key_replays with (key := key); [done|by rw Hid].
Qed.

(** [send_invoice] reaches the store only for [file] and [stdout]
    destinations: a blank destination, [bus], [webhook] and [link] destinations
    and unknown schemes are refused before any interaction. *)
Lemma send_scheme_gate E ctx input w :
  let scheme := scheme_of (sd_destination_uri input) in
  is_blank (sd_destination_uri input) = true ∨ (scheme ≠ "file" ∧ scheme ≠ "stdout") →
  ∃ e, run E (send_invoice ctx input) w = (w, Err e) ∧
    (is_blank (sd_destination_uri input) = false →
     scheme ∈ ["bus"; "webhook"; "link"] ↔ ∃ msg, e = NotImplemented msg).
Proof.
  cbv zeta. intros H. unfold send_invoice, send_validate.
  destruct (is_blank (sd_destination_uri input)) eqn:Eb.
  { eexists. split; [reflexivity|done]. }
  destruct H as [?|[H1 H2]]; [done|]. cbn. unfold scheme_gate.
  apply String.eqb_neq in H1 as ->. apply String.eqb_neq in H2 as ->. cbn.
  assert ((String.eqb (scheme_of (sd_destination_uri input)) "bus" ||
           String.eqb (scheme_of (sd_destination_uri input)) "webhook" ||
           String.eqb (scheme_of (sd_destination_uri input)) "link") = true
          ↔ scheme_of (sd_destination_uri input) ∈ ["bus"; "webhook"; "link"]) as Hc.
  { rw !orb_true_iff !String.eqb_eq. set_solver. }
  destruct (_ || _ || _) eqn:E1; cbn; eexists; (split; [reflexivity|]); intros _; rewrite <- Hc.
  - split; [by eexists|done].
  - split; [done|]. by intros [msg ?].
Qed.

(** A viewed, partially paid, paid, voided or draft invoice is never sent:
    the command answers with the state machine's refusal and writes nothing. *)
Lemma send_refused_states E ctx input w i0 :
  (∀ n, env_db_ok E n = true) → send_validate input = Ok () →
  scheme_gate (scheme_of (sd_destination_uri input)) = Ok () → sd_idempotency_key input = None →
  invoice_get (sd_invoice_id input) (w_db w) = Some i0 →
  inv_state i0 ≠ Issued → inv_state i0 ≠ Sent →
  let '(w', r) := run E (send_invoice ctx input) w in
  same_world w w' ∧ r = Err (FsmTransition (Illegal (inv_state i0) "send")).
Proof.
  intros HE Hv Hg Hk Hi H1 H2. unfold send_invoice. rw Hv Hg Hk. cbn. rw HE Hi. cbn. rw HE. cbn.
  destruct (inv_state i0); cbn; try done; (split; [split; cbn; auto|done]).
Qed.
End send_theorems.

(** ** Witnesses *)

#[local] Existing Instance Concrete.platform.
#[local] Existing Instance Concrete.platform_laws.
#[local] Existing Instance concrete_tera.

Definition fx_send (uri : string) (key : option string) : SendInvoiceInput :=
  MkSendInvoiceInput fx_invoice_id uri key (ACli "ana") ChCli true.

Lemma send_invoice_spec_witness :
  ∃ w' out i0 now, run fx_env (send_invoice fx_ctx (fx_send "file:///out/a.pdf" (Some "k"))) (fx_world Issued) =
    (w', Ok out) ∧
    sends (fx_send "file:///out/a.pdf" (Some "k")) (fx_world Issued) w' out i0 now ∧
    w_files w' !! "/out/a.pdf" = Some (so_pdf out).
Proof.
  pose proof (send_invoice_spec fx_env fx_ctx (fx_send "file:///out/a.pdf" (Some "k")) (fx_world Issued)) as H.
  assert (is_ok (run fx_env (send_invoice fx_ctx (fx_send "file:///out/a.pdf" (Some "k"))) (fx_world Issued)).2 = true)
    as Hok by reflexivity.
  destruct (run_ok _ _ _ Hok) as (w' & out & Hrun). rewrite -> Hrun in H.
  assert (so_idempotency_replay out = false) as Hr.
  { apply (f_equal (λ r, match r.2 with Ok o => so_idempotency_replay o | _ => false end)) in Hrun.
    cbn [snd] in Hrun. symmetry. exact Hrun. }
  rewrite -> Hr in H. destruct H as (i0 & now & H). exists w', out, i0, now. split; [exact Hrun|].
  split; [exact H|].
  assert (so_delivered_to out = "file:///out/a.pdf") as Eto.
  { apply (f_equal (λ r, match r.2 with Ok o => so_delivered_to o | _ => "" end)) in Hrun.
    cbn [snd] in Hrun. symmetry. exact Hrun. }
  destruct (snd_delivered _ _ _ _ _ _ H) as [path Euri _ _ -> _|_ Eto' _ _]; [|congruence].
  change ("file://" +:+ "/out/a.pdf" = "file://" +:+ path) in Euri. apply str_app_inj_l in Euri as <-.
  apply lookup_insert_eq.
Defined.

Lemma send_once_per_key_witness :
  let r1 := run fx_env (send_invoice fx_ctx (fx_send "file:///out/a.pdf" (Some "k"))) (fx_world Issued) in
  let r2 := run fx_env (send_invoice fx_ctx (fx_send "stdout" (Some "k"))) r1.1 in
  is_ok r1.2 = true ∧ w_sink r2.1 = w_sink r1.1 ∧ w_files r2.1 = w_files r1.1.
Proof.
  intros r1 r2. assert (is_ok r1.2 = true) as Hok by reflexivity. split; [exact Hok|].
  destruct (run_ok _ _ _ Hok) as (w1 & out & Hrun).
  pose proof (send_once_per_key fx_env fx_ctx (fx_send "file:///out/a.pdf" (Some "k")) "k"
    (fx_world Issued) w1 out fx_env fx_ctx (fx_send "stdout" (Some "k")) (fx_world_ok Issued)
    Hrun eq_refl eq_refl eq_refl) as H.
  unfold r2, r1. rewrite -> Hrun. cbn [fst].
  destruct (run fx_env (send_invoice fx_ctx (fx_send "stdout" (Some "k"))) w1) as [w2 r].
  destruct H as [[] _]. by split.
Defined.

Lemma send_scheme_gate_witness :
  ∃ e, run fx_env (send_invoice fx_ctx (fx_send "webhook://example.com/x" None)) (fx_world Issued) =
    (fx_world Issued, Err e).
Proof.
  destruct (send_scheme_gate fx_env fx_ctx (fx_send "webhook://example.com/x" None) (fx_world Issued))
    as (e & H & _); [right; by split|]. by exists e.
Defined.

Lemma send_refused_states_witness :
  (run fx_env (send_invoice fx_ctx (fx_send "stdout" None)) (fx_world Viewed)).2 =
  Err (FsmTransition (Illegal Viewed "send")).
Proof.
  pose proof (send_refused_states fx_env fx_ctx (fx_send "stdout" None) (fx_world Viewed)
    (fx_invoice Viewed) (λ _, eq_refl) eq_refl eq_refl eq_refl (fx_get Viewed)) as H.
  destruct (run fx_env (send_invoice fx_ctx (fx_send "stdout" None)) (fx_world Viewed)) as [w' r].
  by apply H.
Defined.

(** The texts of the destination helpers on the documented forms. *)
Example scheme_of_forms :
  map scheme_of ["file:///tmp/x.html"; "stdout"; "WEBHOOK://h/p"; "stdout://x"; "plain"] =
  ["file"; "stdout"; "webhook"; "stdout"; "plain"].
Proof. reflexivity. Qed.
Example path_parent_forms :
  map path_parent ["/a/b/c.pdf"; "/c.pdf"; "c.pdf"; "./c.pdf"; "a//b/"; "/"] =
  [Some "/a/b"; Some "/"; Some ""; Some "."; Some "a"; None].
Proof. reflexivity. Qed.
