(* ===== verification/Credit.v ===== *)
(** * Credit notes ([commands/src/credit.rs])

    [create_credit_note] drafts a credit note against an invoice and
    [issue_credit_note] numbers it; both write the note and one history row in
    one transaction. *)

From S2P Require Import Prelude Rounding External Concrete Money Ids Domain InvoiceFsm.
From S2P Require Import CreditNoteFsm Events Tax Store Render Command Transition Invariant.
From S2P Require Import Evolution World Numbering Fixtures.
From Stdlib Require Import Lqa.

Section credit.
Context `{P : Platform}.

Record CreateCreditNoteInput := MkCreateCreditNoteInput {
  cci_invoice_id : InvoiceId;
  cci_amount : Decimal;
  cci_reason : option string;
  cci_refund_ref : option string;
  cci_idempotency_key : option string;
  cci_actor : Actor;
  cci_channel : Channel;
}.

Definition create_credit_note_validate (input : CreateCreditNoteInput) : res CoreError () :=
  if dec_leb (cci_amount input) dec_zero
  then Err (Validation ("credit-note amount must be > 0, got " +:+ dec_to_string (cci_amount input)))
  else Ok ().

Definition cn_draft_build (input : CreateCreditNoteInput) (invoice : Invoice) (cid : CreditNoteId)
    (now : DateTime) : CreditNote :=
  {| cn_id := cid;
     cn_number := None;
     cn_invoice_id := cci_invoice_id input;
     cn_state := CnDraft;
     cn_amount := Currency.round (inv_currency invoice) (cci_amount input);
     cn_currency := inv_currency invoice;
     cn_reason := cci_reason input;
     cn_refund_ref := cci_refund_ref input;
     cn_issued_at := None;
     cn_metadata := ∅;
     cn_created_at := now |}.

Definition cn_draft_history (input : CreateCreditNoteInput) (hid : HistoryId) (cid : CreditNoteId)
    (now : DateTime) : CreditNoteStateHistory :=
  {| cnh_id := hid;
     cnh_credit_note_id := cid;
     cnh_from_state := None;
     cnh_to_state := CnDraft;
     cnh_event := "draft";
     cnh_actor := Some (audit_string (cci_actor input));
     cnh_channel := history_channel (cci_channel input);
     cnh_bus_event_id := cci_refund_ref input;
     cnh_occurred_at := now;
     cnh_published_at := None;
     cnh_metadata := ∅ |}.

Definition cn_drafted_payload (cn : CreditNote) (actor : Actor) (channel : HistoryChannel) : json :=
  JObj [("credit_note_id", JStr (id_to_string (cn_id cn)));
        ("invoice_id", JStr (id_to_string (cn_invoice_id cn)));
        ("amount", JStr (dec_to_string (cn_amount cn)));
        ("currency", JStr (Currency.as_str (cn_currency cn)));
        ("refund_ref", jopt (cn_refund_ref cn));
        ("actor", JStr (audit_string actor));
        ("channel", JStr (history_channel_str channel))].

Definition create_credit_note (ctx : CoreCtx) (input : CreateCreditNoteInput) : prog CreditNote :=
  _ ← lift id (create_credit_note_validate input);
  found ← db_query (λ d, Ok (invoice_get (cci_invoice_id input) d));
  invoice ← or_not_found ("invoice " +:+ id_to_string (cci_invoice_id input)) found;
  now ← clock_now;
  cid ← fresh ECreditNote;
  let cn := cn_draft_build input invoice cid now in
  hid ← fresh EHistory;
  let history := cn_draft_history input hid cid now in
  _ ← db_exec (save_cn_transition cn history);
  _ ← try_publish ctx "inv.billing.creditnote.drafted"
        (cn_drafted_payload cn (cci_actor input) (cnh_channel history)) now;
  Ret cn.

Record IssueCreditNoteInput := MkIssueCreditNoteInput {
  ici_credit_note_id : CreditNoteId;
  ici_idempotency_key : option string;
  ici_actor : Actor;
  ici_channel : Channel;
}.

Definition issue_credit_note_validate (input : IssueCreditNoteInput) : res CoreError () := Ok ().

Definition count_credit_notes_issued_in_year (year : Z) (d : Db) : Z :=
  count_u32 (Z.of_nat (length (List.filter (λ n, issued_in_year year (cn_issued_at n))
                                 (rows (credit_notes d))))).

Definition cn_issue_mutate (cn : CreditNote) (to : CreditNoteState) (number : string)
    (now : DateTime) : CreditNote :=
  set_cn_issued_at (Some now) (set_cn_number (Some number) (set_cn_state to cn)).

Definition cn_issue_history (input : IssueCreditNoteInput) (hid : HistoryId) (cid : CreditNoteId)
    (from to : CreditNoteState) (now : DateTime) : CreditNoteStateHistory :=
  {| cnh_id := hid;
     cnh_credit_note_id := cid;
     cnh_from_state := Some from;
     cnh_to_state := to;
     cnh_event := CreditNoteFsm.tag CreditNoteFsm.CnIssue;
     cnh_actor := Some (audit_string (ici_actor input));
     cnh_channel := history_channel (ici_channel input);
     cnh_bus_event_id := None;
     cnh_occurred_at := now;
     cnh_published_at := None;
     cnh_metadata := ∅ |}.

Definition cn_issued_payload (cn : CreditNote) (actor : Actor) (channel : HistoryChannel) : json :=
  JObj [("credit_note_id", JStr (id_to_string (cn_id cn)));
        ("number", jopt (cn_number cn));
        ("invoice_id", JStr (id_to_string (cn_invoice_id cn)));
        ("amount", JStr (dec_to_string (cn_amount cn)));
        ("currency", JStr (Currency.as_str (cn_currency cn)));
        ("actor", JStr (audit_string actor));
        ("channel", JStr (history_channel_str channel))].

Definition publish_creditnote_issued_events (ctx : CoreCtx) (cn : CreditNote)
    (from to : CreditNoteState) (event : CreditNoteFsm.CreditNoteEvent) (actor : Actor)
    (channel : HistoryChannel) (now : DateTime) : prog () :=
  let a := Some (audit_string actor) in
  _ ← try_publish ctx CnTopics.TOPIC_PROPOSED
        (CreditNoteProposed_json (MkCreditNoteProposed (cn_id cn) from to event a channel now)) now;
  _ ← try_publish ctx CnTopics.TOPIC_TRANSITIONED
        (CreditNoteTransitioned_json (MkCreditNoteTransitioned (cn_id cn) from to event a channel now)) now;
  _ ← try_publish ctx CnTopics.TOPIC_ENTERED
        (CreditNoteEntered_json (MkCreditNoteEntered (cn_id cn) to channel a now)) now;
  try_publish ctx "inv.billing.creditnote.issued" (cn_issued_payload cn actor channel) now.

Definition issue_credit_note (ctx : CoreCtx) (input : IssueCreditNoteInput) : prog CreditNote :=
  _ ← lift id (issue_credit_note_validate input);
  found ← db_query (λ d, Ok (cn_get (ici_credit_note_id input) d));
  cn ← or_not_found ("credit note " +:+ id_to_string (ici_credit_note_id input)) found;
  let from_state := cn_state cn in
  let event := CreditNoteFsm.CnIssue in
  to_state ← lift (λ e, Validation ("credit-note FSM rejected: " +:+
                                    CreditNoteFsm.TransitionError_to_string e))
               (CreditNoteFsm.next_state from_state event);
  now ← clock_now;
  let year := dt_year now in
  count ← db_query (λ d, Ok (count_credit_notes_issued_in_year year d));
  n ← lift Validation (next_seq count);
  let cn := cn_issue_mutate cn to_state (format_number "CN" year n) now in
  hid ← fresh EHistory;
  let history := cn_issue_history input hid (cn_id cn) from_state to_state now in
  _ ← db_exec (save_cn_transition cn history);
  _ ← publish_creditnote_issued_events ctx cn from_state to_state event (ici_actor input)
        (cnh_channel history) now;
  Ret cn.

Lemma quiet_publish_creditnote_issued_events ctx cn from to event actor channel now :
  quiet (publish_creditnote_issued_events ctx cn from to event actor channel now).
Proof. unfold publish_creditnote_issued_events. solve_quiet. Qed.
End credit.

#[export] Hint Resolve quiet_publish_creditnote_issued_events : inv.

(** ** What the two commands do *)

Section credit_theorems.
Context {P : Platform} {L : PlatformLaws P}.

Lemma world_ok_cn w n h d :
  world_ok w → cn_row_fits (credit_notes (w_db w) !! id_to_string (cn_id n)) n h →
  credit_note_consistent n → drawn (S (w_step w)) (cn_id n) → drawn (S (w_step w)) (cnh_id h) →
  save_cn_transition n h (w_db w) = Ok d → world_ok (set_w_db d (tick w)).
Proof.
  intros Hw Hrow Hc Hn Hh H. apply save_cn_transition_ok in H as [Hd ->]; [|by apply Hw|done..].
  apply world_ok_exec; [done..|]. apply ids_below_cn_written; [|done..]. by apply ids_below_tick.
Qed.

Lemma since_cn d0 w n h d :
  ok_since d0 w → cn_row_fits (credit_notes (w_db w) !! id_to_string (cn_id n)) n h →
  credit_note_consistent n → drawn (S (w_step w)) (cn_id n) → drawn (S (w_step w)) (cnh_id h) →
  (∀ n0, credit_notes (w_db w) !! id_to_string (cn_id n) = Some n0 → credit_note_evolves n0 n) →
  save_cn_transition n h (w_db w) = Ok d → ok_since d0 (set_w_db d (tick w)).
Proof.
  intros Hw Hrow Hc Hn Hh He H. apply since_step; [done|by eapply world_ok_cn; [apply Hw|..]|].
  apply save_cn_transition_ok in H as [_ ->]; [|apply Hw|done..]. by apply evolves_cn_written.
Qed.

Lemma create_credit_note_since d0 ctx input E w :
  ok_since d0 w → safe (ok_since d0) E (create_credit_note ctx input) w.
Proof.
  intros Hw. unfold create_credit_note, safe. wp_skip. wp_query Hq. wp_found i Hf. wp_clock m.
  wp_fresh. wp_fresh. wp_exec Hd.
  - assert (credit_notes (w_db wx3) !! id_to_string (id_new ECreditNote (w_step wx1)) = None) as Hnew.
    { assert (w_db wx3 = w_db w) as -> by (by same_dbs).
      apply (fresh_credit_note_key (w_step w)); [by apply Hw..|].
      repeat match goal with H : same_db _ _ |- _ => apply sd_step in H end. lia. }
    eapply since_cn; [done| | | | | |exact Hd]; try (apply drawn_new; cbn; lia).
    + cbn. rewrite -> Hnew. by split; try constructor.
    + by split.
    + cbn. by rewrite -> Hnew.
  - apply safe_quiet; [wp_side|solve_quiet|done].
Qed.
Lemma create_credit_note_safe ctx input E w : world_ok w → safe world_ok E (create_credit_note ctx input) w.
Proof. apply since_safe. intros d0. apply create_credit_note_since. Qed.

Lemma cn_next_state s s' :
  CreditNoteFsm.next_state s CreditNoteFsm.CnIssue = Ok s' ↔ s = CnDraft ∧ s' = CnIssued.
Proof. destruct s; cbn; naive_solver. Qed.

Lemma cn_get_id cid d n : db_ok d → cn_get cid d = Some n → cn_get (cn_id n) d = Some n.
Proof. intros Hd H. unfold cn_get in *. by rw -(ok_cn_key d Hd _ _ H). Qed.

Lemma issue_credit_note_since d0 ctx input E w :
  ok_since d0 w → safe (ok_since d0) E (issue_credit_note ctx input) w.
Proof.
  intros Hw. unfold issue_credit_note, safe. wp_skip. wp_query Hq. wp_found n Hf.
  wp_lift s Hs. apply cn_next_state in Hs as [Hs ->]. wp_clock m. wp_query Hc. wp_lift k Hk.
  wp_fresh. wp_exec Hd.
  - assert (cn_get (cn_id n) (w_db wx3) = Some n) as Hg.
    { assert (w_db wx3 = w_db wx) as -> by (by same_dbs).
      eapply cn_get_id; [|done]; by eapply wo_db, os_ok. }
    unfold cn_get in Hg. eapply since_cn; [done| | | | | |exact Hd].
    + cbn. rw Hg. split; cbn; rw ?Hs; (done || constructor).
    + by split.
    + cbn. eapply ids_credit_note; [|exact Hg]. by eapply ids_below_tick, os_ok.
    + apply drawn_new. cbn. lia.
    + cbn. rw Hg. intros ? [= <-]. split; cbn; [by left|done|congruence].
  - apply safe_quiet; [wp_side|solve_quiet|done].
Qed.
Lemma issue_credit_note_safe ctx input E w : world_ok w → safe world_ok E (issue_credit_note ctx input) w.
Proof. apply since_safe. intros d0. apply issue_credit_note_since. Qed.

Lemma create_credit_note_atomic ctx input : atomic (create_credit_note ctx input).
Proof. unfold create_credit_note. solve_atomic. Qed.
Lemma issue_credit_note_atomic ctx input : atomic (issue_credit_note ctx input).
Proof. unfold issue_credit_note. solve_atomic. Qed.

Lemma save_cn_transition_written n h d d' :
  save_cn_transition n h d = Ok d' → d' = cn_written n h d.
Proof.
  unfold save_cn_transition. intros H. inv_res. apply cn_save_in_tx_ok in H as (-> & _).
  by apply cn_history_save_in_tx_ok in H0 as (-> & _).
Qed.

(** The outcome of [create_credit_note]. *)
Definition create_cn_post (E : Env) (input : CreateCreditNoteInput) (w w' : World) (r : res CoreError CreditNote) : Prop :=
  match r with
  | Ok n =>
      ∃ i m hid, invoice_get (cci_invoice_id input) (w_db w) = Some i ∧
      (0 < val (cci_amount input))%Q ∧
      n = cn_draft_build input i (cn_id n) (env_now E m) ∧
      (val (cn_amount n) == round_dp (val (cci_amount input)) (Currency.scale (cn_currency n)))%Q ∧
      w_db w' = cn_written n (cn_draft_history input hid (cn_id n) (env_now E m)) (w_db w)
  | _ => w_db w' = w_db w
  end.

Lemma run_create_credit_note E ctx input w :
  let '(w', r) := run E (create_credit_note ctx input) w in
  create_cn_post E input w w' r.
Proof.
  unfold create_cn_post.
  apply run_split, wpc_end. set (Q := λ w' r, _).
  assert (rejects Q w) as HQ by (intros w' [] [E0 _] ?; done).
  unfold create_credit_note. wp_lift u Hv. wp_query Hq. wp_found i Hf. wp_clock m.
  wp_fresh. wp_fresh. wp_exec Hd; [done|].
  apply wpc_bind_total; [done|intros; by apply wpc_try_publish|done|].
  intros wf [E' _] _. split; [done|]. unfold Q.
  apply save_cn_transition_written in Hd. cbn in E'. rewrite -> Hd in E'.
  exists i, m. eexists. split; [done|]. split.
  { unfold create_credit_note_validate in Hv. destruct (dec_leb _ _) eqn:Ep; [done|].
    by rewrite -> dec_leb_val_false, val_zero in Ep. }
  split; [done|]. split; [apply round_val|]. same_dbs. exact E'.
Qed.

(** [create_credit_note] fails and leaves the database as it was, or adds
    one draft credit note in the invoice's currency, for the requested positive
    amount rounded half to even at that currency's scale, with its history row;
    the invoice itself is not touched. *)
Lemma create_credit_note_spec E ctx input w :
  let '(w', r) := run E (create_credit_note ctx input) w in
  match r with
  | Ok n =>
      ∃ i m hid, invoice_get (cci_invoice_id input) (w_db w) = Some i ∧
      (0 < val (cci_amount input))%Q ∧
      n = cn_draft_build input i (cn_id n) (env_now E m) ∧
      (val (cn_amount n) == round_dp (val (cci_amount input)) (Currency.scale (cn_currency n)))%Q ∧
      w_db w' = cn_written n (cn_draft_history input hid (cn_id n) (env_now E m)) (w_db w)
  | _ => w_db w' = w_db w
  end.
Proof. exact (run_create_credit_note E ctx input w). Qed.

(** [issue_credit_note] fails and leaves the database as it was, or turns
    one draft credit note into an issued one: the next number of the current
    year and the date are set, nothing else of it changes, and one [issue] row
    is appended. *)
Lemma issue_credit_note_spec E ctx input w :
  let '(w', r) := run E (issue_credit_note ctx input) w in
  match r with
  | Ok n =>
      ∃ n0 m k hid, cn_get (ici_credit_note_id input) (w_db w) = Some n0 ∧ cn_state n0 = CnDraft ∧
      next_seq (E:=string) (count_credit_notes_issued_in_year (dt_year (env_now E m)) (w_db w)) = Ok k ∧
      n = set_cn_issued_at (Some (env_now E m))
            (set_cn_number (Some (format_number "CN" (dt_year (env_now E m)) k))
              (set_cn_state CnIssued n0)) ∧
      w_db w' = cn_written n (cn_issue_history input hid (cn_id n0) CnDraft CnIssued (env_now E m)) (w_db w)
  | _ => w_db w' = w_db w
  end.
Proof.
  apply run_split, wpc_end. set (Q := λ w' r, _).
  assert (rejects Q w) as HQ by (intros w' [] [E0 _] ?; done).
  unfold issue_credit_note. wp_skip. wp_query Hq. wp_found n0 Hf.
  wp_lift s Hs. apply cn_next_state in Hs as [Hs ->]. wp_clock m. wp_query Hc. wp_lift k Hk.
  wp_fresh. wp_exec Hd; [done|].
  apply wpc_bind_total; [done| |done|].
  { intros Q' w0 Hw0 HQ'. unfold publish_creditnote_issued_events. cbv zeta.
    do 3 (apply wpc_bind_total; [done|intros; by apply wpc_try_publish|done|]; intros ? ? _).
    apply wpc_try_publish; [done..|]. intros. apply HQ'. by repeat (etrans; [eassumption|]). }
  intros wf [E' _] _. split; [done|]. unfold Q.
  apply save_cn_transition_written in Hd. cbn in E'. rewrite -> Hd in E'.
  exists n0, m, k. eexists. same_dbs. split; [done|]. split; [done|]. split; [done|].
  split; [done|]. rewrite <- Hs at 1. exact E'.
Qed.

(** A positive amount below half a cent passes the positivity check and
    becomes a credit note of zero. *)
Lemma credit_note_of_zero E ctx input w w' n :
  run E (create_credit_note ctx input) w = (w', Ok n) →
  Currency.scale (cn_currency n) = 2%nat → (val (cci_amount input) <= 1 # 200)%Q →
  (0 < val (cci_amount input))%Q ∧ (val (cn_amount n) == 0)%Q.
Proof.
  intros Hrun Hs Hle. pose proof (run_create_credit_note E ctx input w) as H. unfold create_cn_post in H. rw Hrun in H.
  destruct H as (i & m & hid & _ & Hpos & _ & Hv & _). split; [done|]. rw Hv Hs.
  assert (round_dp (1 # 200) 2 == 0)%Q as H0 by reflexivity.
  apply Qle_antisym; [rw -H0; by apply round_dp_mono|].
  apply round_dp_nonneg. lra.
Qed.
End credit_theorems.

(** ** Witnesses *)

#[local] Existing Instance Concrete.platform.
#[local] Existing Instance Concrete.platform_laws.

Definition fx_credit (amount : Decimal) : CreateCreditNoteInput :=
  MkCreateCreditNoteInput fx_invoice_id amount (Some "refund") None None (ACli "ana") ChCli.

Lemma create_credit_note_spec_witness :
  w_db (run fx_env (create_credit_note fx_ctx (fx_credit (fx_dec 0))) (fx_world Paid)).1 = fx_db Paid.
Proof.
  pose proof (create_credit_note_spec fx_env fx_ctx (fx_credit (fx_dec 0)) (fx_world Paid)) as H.
  assert (is_ok (run fx_env (create_credit_note fx_ctx (fx_credit (fx_dec 0))) (fx_world Paid)).2 = false)
    as Hr by reflexivity.
  destruct (run _ _ _) as [w' [out|e|]]; [done|exact H..].
Defined.

Definition fx_issue_cn : IssueCreditNoteInput :=
  MkIssueCreditNoteInput (id_new ECreditNote 3) None (ACli "ana") ChCli.

Lemma issue_credit_note_spec_witness :
  w_db (run fx_env (issue_credit_note fx_ctx fx_issue_cn) (fx_world Paid)).1 = fx_db Paid.
Proof.
  pose proof (issue_credit_note_spec fx_env fx_ctx fx_issue_cn (fx_world Paid)) as H.
  assert (is_ok (run fx_env (issue_credit_note fx_ctx fx_issue_cn) (fx_world Paid)).2 = false)
    as Hr by reflexivity.
  destruct (run _ _ _) as [w' [out|e|]]; [done|exact H..].
Defined.

(** A credit of 0.005 dollars. *)
Lemma credit_note_of_zero_witness :
  ∃ w' n, run fx_env (create_credit_note fx_ctx (fx_credit (Concrete.Dec 5 3))) (fx_world Paid) =
    (w', Ok n) ∧ (val (cn_amount n) == 0)%Q.
Proof.
  assert (is_ok (run fx_env (create_credit_note fx_ctx (fx_credit (Concrete.Dec 5 3))) (fx_world Paid)).2
    = true) as Hok by reflexivity.
  destruct (run_ok _ _ _ Hok) as (w' & n & Hrun). exists w', n. split; [exact Hrun|].
  apply (credit_note_of_zero _ _ _ _ _ _ Hrun); [|discriminate].
  apply (f_equal (λ r, match r.2 with Ok n => Currency.scale (cn_currency n) | _ => 2%nat end)) in Hrun.
  cbn [snd] in Hrun. rewrite <- Hrun. reflexivity.
Defined.
