(* ===== verification/Consumer.v ===== *)
(** * The bus consumer ([bus/src/consumer.rs], [inbox.rs], [topic_map.rs])

    An event that comes in from the bus is registered in the inbox by its id,
    routed by its topic to a command whose input is read from the payload, and
    marked processed.  [receive] is that sequence, which the receiver of a
    transport runs for every delivery. *)

From S2P Require Import Prelude External Concrete Money Ids Domain InvoiceFsm CreditNoteFsm Events.
From S2P Require Import Tax Store Codec ConcreteJson Render Command Effects Transition Invariant Evolution World.
From S2P Require Import Fixtures Draft Pay Credit.

(** ** Topics *)

(** [TopicMap]: exact-match entries. *)
Definition TopicMap : Type := gmap string string.
Definition from_pairs (pairs : list (string * string)) : TopicMap :=
  foldl (λ m kv, <[kv.1 := kv.2]> m) ∅ pairs.
Definition remap_topic (map : TopicMap) (topic : string) : string :=
  match map !! topic with Some canonical => canonical | None => topic end.

Section consumer.
Context `{P : Platform} `{S : Serde}.

(** ** Payloads *)

Record ChargeLine := MkChargeLine {
  cl_description : string;
  cl_quantity : Decimal;
  cl_unit_price : Decimal;
  cl_tax_category : option TaxCategory;
}.
Record ChargeCreatedPayload := MkChargeCreated {
  cc_customer_id : string;
  cc_currency : Currency;
  cc_seller_jurisdiction : option Jurisdiction;
  cc_lines : list ChargeLine;
  cc_due_date : option DateTime;
  cc_idempotency_key : option string;
}.
Record PaymentReceivedPayload := MkPaymentReceived {
  pr_invoice_ref : option string;
  pr_amount : Decimal;
  pr_received_at : DateTime;
  pr_idempotency_key : option string;
}.
Record PaymentRefundedPayload := MkPaymentRefunded {
  rf_invoice_ref : string;
  rf_amount : Decimal;
  rf_reason : option string;
  rf_refund_id : option string;
}.

Definition ChargeLine_from_json (v : json) : SR ChargeLine :=
  ms ← struct_fields ["description"; "quantity"; "unit_price"; "tax_category"] v;
  description ← str_field "description" ms;
  quantity ← required Decimal_from_json "quantity" ms;
  unit_price ← required Decimal_from_json "unit_price" ms;
  tax_category ← optional TaxCategory_from_json "tax_category" ms;
  Ok (MkChargeLine description quantity unit_price tax_category).
Definition ChargeCreated_from_json (v : json) : SR ChargeCreatedPayload :=
  ms ← struct_fields
    ["customer_id"; "currency"; "seller_jurisdiction"; "lines"; "due_date"; "idempotency_key"] v;
  customer_id ← str_field "customer_id" ms;
  currency ← required Currency_from_json "currency" ms;
  seller_jurisdiction ← optional Jurisdiction_from_json "seller_jurisdiction" ms;
  lines ← required (λ v, l ← json_array v; res_mapM ChargeLine_from_json l) "lines" ms;
  due_date ← optional DateTime_from_json "due_date" ms;
  idempotency_key ← opt_field "idempotency_key" ms;
  Ok (MkChargeCreated customer_id currency seller_jurisdiction lines due_date idempotency_key).
Definition PaymentReceived_from_json (v : json) : SR PaymentReceivedPayload :=
  ms ← struct_fields ["invoice_ref"; "amount"; "received_at"; "idempotency_key"] v;
  invoice_ref ← opt_field "invoice_ref" ms;
  amount ← required Decimal_from_json "amount" ms;
  received_at ← required DateTime_from_json "received_at" ms;
  idempotency_key ← opt_field "idempotency_key" ms;
  Ok (MkPaymentReceived invoice_ref amount received_at idempotency_key).
Definition PaymentRefunded_from_json (v : json) : SR PaymentRefundedPayload :=
  ms ← struct_fields ["invoice_ref"; "amount"; "reason"; "refund_id"] v;
  invoice_ref ← str_field "invoice_ref" ms;
  amount ← required Decimal_from_json "amount" ms;
  reason ← opt_field "reason" ms;
  refund_id ← opt_field "refund_id" ms;
  Ok (MkPaymentRefunded invoice_ref amount reason refund_id).

(** The serde error of [DecodePayload] is not kept. *)
Inductive DispatchError :=
  | UnknownTopic (topic : string)
  | DecodePayload (topic : string)
  | InvalidPayload (topic message : string)
  | CommandFailed (command : string) (source : CoreError).

Inductive DispatchOutput :=
  | Drafted (o : DraftInvoiceOutput)
  | PaidOut (o : MarkPaidOutput)
  | Refunded (o : CreditNote).

Definition output_invoice_id (o : DispatchOutput) : option InvoiceId :=
  match o with
  | Drafted o => Some (inv_id (do_invoice o))
  | PaidOut o => Some (inv_id (mpo_invoice o))
  | Refunded cn => Some (cn_invoice_id cn)
  end.

(** ** Handlers *)

Definition decode {A} (from_json : json → SR A) (topic payload_json : string) : res DispatchError A :=
  map_err (λ _, DecodePayload topic) (v ← ok_or Json (json_from_str payload_json); from_json v).

Definition parse_customer_id (topic s : string) : res DispatchError CustomerId :=
  map_err (λ e, InvalidPayload topic
    ("invalid customer_id `" +:+ s +:+ "`: " +:+ IdError_to_string e)) (id_parse ECustomer s).

Definition parse_invoice_id_from_ref (topic s : string) : res DispatchError InvoiceId :=
  let typeid := default s (strip_prefix "inv://invoice/" s) in
  map_err (λ e, InvalidPayload topic
    ("invalid invoice_ref `" +:+ s +:+ "`: " +:+ IdError_to_string e)) (id_parse EInvoice typeid).

Definition fin : Actor := ABus "fin".

Definition charge_line_input (l : ChargeLine) : DraftLineInput :=
  MkDraftLineInput (cl_description l) (cl_quantity l) (cl_unit_price l)
    (default Standard (cl_tax_category l)).
Definition charge_input (topic event_id : string) (p : ChargeCreatedPayload)
    : res DispatchError DraftInvoiceInput :=
  let lines := charge_line_input <$> cc_lines p in
  customer_id ← parse_customer_id topic (cc_customer_id p);
  Ok {| di_customer_id := customer_id;
        di_seller_jurisdiction := default QuebecCa (cc_seller_jurisdiction p);
        di_currency := cc_currency p;
        di_lines := lines;
        di_idempotency_key := Some (default event_id (cc_idempotency_key p));
        di_actor := fin;
        di_channel := ChBus;
        di_due_at := cc_due_date p;
        di_template_path := None;
        di_schedule_id := None |}.
Definition payment_input (topic event_id : string) (p : PaymentReceivedPayload)
    : res DispatchError MarkPaidInput :=
  invoice_id ← ok_or (InvalidPayload topic
    "payment.received without invoice_ref is not routable at v1") (pr_invoice_ref p);
  invoice_id ← parse_invoice_id_from_ref topic invoice_id;
  Ok {| mp_invoice_id := invoice_id;
        mp_amount := pr_amount p;
        mp_received_at := Some (pr_received_at p);
        mp_idempotency_key := Some (default event_id (pr_idempotency_key p));
        mp_bus_event_id := Some event_id;
        mp_actor := fin;
        mp_channel := ChBus |}.
Definition refund_input (topic event_id : string) (p : PaymentRefundedPayload)
    : res DispatchError CreateCreditNoteInput :=
  invoice_id ← parse_invoice_id_from_ref topic (rf_invoice_ref p);
  Ok {| cci_invoice_id := invoice_id;
        cci_amount := rf_amount p;
        cci_reason := rf_reason p;
        cci_refund_ref := Some (default event_id (rf_refund_id p));
        cci_idempotency_key := Some event_id;
        cci_actor := fin;
        cci_channel := ChBus |}.

Definition handle_charge_created (ctx : CoreCtx) (topic event_id payload_json : string)
    : prog (res DispatchError DraftInvoiceOutput) :=
  input ←? Ret (p ← decode ChargeCreated_from_json topic payload_json; charge_input topic event_id p);
  try_conv (CommandFailed "draft_invoice") (catch (draft_invoice ctx input)).
Definition handle_payment_received (ctx : CoreCtx) (topic event_id payload_json : string)
    : prog (res DispatchError MarkPaidOutput) :=
  input ←? Ret (p ← decode PaymentReceived_from_json topic payload_json; payment_input topic event_id p);
  try_conv (CommandFailed "mark_paid") (catch (mark_paid ctx input)).
Definition handle_payment_refunded (ctx : CoreCtx) (topic event_id payload_json : string)
    : prog (res DispatchError CreditNote) :=
  input ←? Ret (p ← decode PaymentRefunded_from_json topic payload_json; refund_input topic event_id p);
  try_conv (CommandFailed "create_credit_note") (catch (create_credit_note ctx input)).

Definition dispatch (remap : TopicMap) (ctx : CoreCtx) (topic event_id payload_json : string)
    : prog (res DispatchError DispatchOutput) :=
  let canonical := remap_topic remap topic in
  if String.eqb canonical "fin.billing.charge.created" then
    o ←? handle_charge_created ctx canonical event_id payload_json; Ret (Ok (Drafted o))
  else if String.eqb canonical "fin.billing.payment.received" then
    o ←? handle_payment_received ctx canonical event_id payload_json; Ret (Ok (PaidOut o))
  else if String.eqb canonical "fin.billing.payment.refunded" then
    o ←? handle_payment_refunded ctx canonical event_id payload_json; Ret (Ok (Refunded o))
  else Ret (Err (UnknownTopic canonical)).

(** ** The inbox *)

(** [BusInboxRepo::try_insert]: two statements. *)
Definition try_insert (rec : BusInboxRecord) : prog (SR bool) :=
  existing ←? db_try (λ d, Ok (inbox_exists (bi_event_id rec) d));
  if existing : bool then Ret (Ok false)
  else _ ←? db_try_exec (inbox_insert rec); Ret (Ok true).

Definition mark_processed (event_id : string) : prog (SR ()) :=
  now ← clock_now; db_try_exec (λ d, Ok (inbox_mark_processed now event_id d)).

Inductive IngestError := IngestStore (e : StoreError).

Definition dispatch_inbound_event (event_id topic source payload : string)
    : prog (res IngestError bool) :=
  now ← clock_now;
  try_conv IngestStore (try_insert (MkBusInbox event_id topic source now payload None None)).

(** ** One delivery *)

Record Delivery := MkDelivery {
  dv_event_id : string;
  dv_topic : string;
  dv_source : string;
  dv_payload : string;
}.

Inductive ReceiveError :=
  | RIngest (e : IngestError)
  | RDispatch (e : DispatchError)
  | RMark (e : StoreError).

(** Register, skip a replay, dispatch, mark processed. *)
Definition receive (remap : TopicMap) (ctx : CoreCtx) (v : Delivery)
    : prog (res ReceiveError (option DispatchOutput)) :=
  new ←? try_conv RIngest
    (dispatch_inbound_event (dv_event_id v) (dv_topic v) (dv_source v) (dv_payload v));
  if new : bool then
    o ←? try_conv RDispatch (dispatch remap ctx (dv_topic v) (dv_event_id v) (dv_payload v));
    _ ←? try_conv RMark (mark_processed (dv_event_id v));
    Ret (Ok (Some o))
  else Ret (Ok None).
End consumer.

(** ** What a delivery keeps *)

Section consumer_theorems.
Context {P : Platform} {L : PlatformLaws P} {S : Serde}.
Implicit Types (E : Env) (w : World) (v : Delivery).

(** A handler decodes, then runs one command. *)
Lemma safe_handler {A B} (I : World → Prop) E (m : res DispatchError A) (p : A → prog B) c w :
  I w → (∀ a, safe I E (p a) w) →
  safe I E (input ←? Ret m; try_conv (CommandFailed c) (catch (p input))) w.
Proof.
  intros Hw Hp. destruct m as [a|e|]; cbn; [|done..].
  apply safe_try_conv, safe_catch, Hp.
Qed.

Lemma dispatch_since d0 remap ctx topic event_id payload E w :
  ok_since d0 w → safe (ok_since d0) E (dispatch remap ctx topic event_id payload) w.
Proof.
  intros Hw. unfold dispatch. cbv zeta. repeat case_match; [..|done];
    (apply safe_try_bind; [|done]); apply safe_handler; try done; intros input.
  - by apply draft_invoice_since.
  - by apply mark_paid_since.
  - by apply create_credit_note_since.
Qed.

(** Writing the inbox only. *)
Lemma since_inbox d0 w b :
  ok_since d0 w → dom (bus_inbox (w_db w)) ⊆ dom b →
  ok_since d0 (set_w_db (set_bus_inbox b (w_db w)) (tick w)).
Proof.
  intros Hw Hb. apply since_same; try done. apply world_ok_same; try done; [apply Hw|].
  destruct (wo_db _ (os_ok _ _ Hw)). by split.
Qed.
Lemma inbox_insert_ok r d d' :
  inbox_insert r d = Ok d' →
  bus_inbox d !! bi_event_id r = None ∧ d' = set_bus_inbox (<[bi_event_id r := r]> (bus_inbox d)) d.
Proof. unfold inbox_insert. destruct (_ !! _) eqn:E; [done|]. by intros [= <-]. Qed.

Lemma mark_processed_since d0 event_id E w :
  ok_since d0 w → safe (ok_since d0) E (mark_processed event_id) w.
Proof.
  intros Hw. apply safe_bind; [apply safe_quiet; auto with inv|]. intros w1 now Hw1.
  apply safe_db_try_exec; [auto with inv|done|]. intros d [= <-].
  apply since_inbox; [done|]. by rw dom_alter_L.
Qed.

(** What follows the registration. *)
Definition process (remap : TopicMap) (ctx : CoreCtx) v : prog (res ReceiveError (option DispatchOutput)) :=
  o ←? try_conv RDispatch (dispatch remap ctx (dv_topic v) (dv_event_id v) (dv_payload v));
  _ ←? try_conv RMark (mark_processed (dv_event_id v));
  Ret (Ok (Some o)).
Lemma process_since d0 remap ctx v E w :
  ok_since d0 w → safe (ok_since d0) E (process remap ctx v) w.
Proof.
  intros Hw. apply safe_try_bind; [by apply safe_try_conv, dispatch_since|]. intros w1 o Hw1.
  apply safe_try_bind; [by apply safe_try_conv, mark_processed_since|done].
Qed.

Definition registered v now d : Db :=
  set_bus_inbox (<[dv_event_id v := MkBusInbox (dv_event_id v) (dv_topic v) (dv_source v) now
                 (dv_payload v) None None]> (bus_inbox d)) d.
Lemma registered_since d0 v now w w' :
  ok_since d0 w → same_world w w' → ok_since d0 (set_w_db (registered v now (w_db w)) (tick w')).
Proof.
  intros Hw Hs. rw -(sw_db _ _ Hs).
  apply since_inbox; [eapply ok_since_stable; [|done]; split; apply Hs|].
  rw dom_insert_L. set_solver.
Qed.

(** What the two statements of the inbox do, and what is left to run. *)
Lemma wpc_receive (I : World → Prop) E remap ctx v w (Q : World → res CoreError _ → Prop) :
  (∀ w', same_world w w' → I w' ∧ (∀ r, (∀ o, r ≠ Ok (Ok (Some o))) → Q w' r)) →
  (∀ w' now, same_world w w' → bus_inbox (w_db w) !! dv_event_id v = None →
     wpc I E (process remap ctx v) Q (set_w_db (registered v now (w_db w)) (tick w'))) →
  wpc I E (receive remap ctx v) Q w.
Proof.
  intros Hsame Hrest. assert (∀ w1, same_world w w1 → same_world w (tick w1)) as Htick
    by (intros; etrans; [done|apply same_world_tick]).
  pose proof (Hsame w ltac:(reflexivity)) as [Hw _].
  cbn. split; [done|]. pose proof (Htick w ltac:(reflexivity)) as H1.
  pose proof (Hsame _ H1) as [Hw1 _]. split; [done|].
  pose proof (Htick _ H1) as H2. pose proof (Hsame _ H2) as [Hw2 HQ2].
  destruct (env_db_ok E _); cbn; [|split; [done|]; by apply HQ2].
  unfold inbox_exists. cbn. destruct (bus_inbox (w_db w) !! dv_event_id v) as [r|] eqn:Eb; cbn.
  { split; [done|]. by apply HQ2. }
  split; [done|]. pose proof (Htick _ H2) as H3. pose proof (Hsame _ H3) as [Hw3 HQ3].
  destruct (env_db_ok E _); cbn; [|split; [done|]; by apply HQ3].
  unfold inbox_insert. cbn. rw Eb. cbn. by apply (Hrest (tick (tick w))).
Qed.

Lemma receive_since d0 remap ctx v E w :
  ok_since d0 w → safe (ok_since d0) E (receive remap ctx v) w.
Proof.
  intros Hw. apply wpc_receive.
  - intros w' Hs. split; [|done]. eapply ok_since_stable; [|done]. split; apply Hs.
  - intros w' now Hs _. by apply process_since, registered_since.
Qed.

(** A known event id: nothing happens. *)
Lemma receive_replay remap ctx v E w :
  dv_event_id v ∈ dom (bus_inbox (w_db w)) →
  wpc (same_world w) E (receive remap ctx v) (λ w' _, same_world w w') w.
Proof.
  intros [r Hr]%elem_of_dom. apply wpc_receive; [by intros|]. intros w' now _ Hn. congruence.
Qed.
(** A delivery registers the event before anything else. *)
Lemma receive_registers remap ctx v E w :
  world_ok w →
  safe (λ w', same_world w w' ∨ dv_event_id v ∈ dom (bus_inbox (w_db w'))) E (receive remap ctx v) w.
Proof.
  intros Hw. apply wpc_receive; [intros w' Hs; by split; intros; [left|]|].
  intros w' now Hs _. set (w1 := set_w_db _ _).
  assert (ok_since (w_db w1) w1) as Hw1.
  { eapply ok_since_refl, os_ok, registered_since; [by apply ok_since_refl|done]. }
  eapply wpc_weaken; [|by apply (process_since (w_db w1))].
  intros w2 [_ He]. right. apply (ev_inbox _ _ He). cbn. rw dom_insert_L. set_solver.
Qed.
End consumer_theorems.

(** ** What a delivery does *)

Section consumer_runs.
Context {P : Platform} {L : PlatformLaws P} {S : Serde}.
Implicit Types (E : Env) (w : World).

(** A payload is read, or refused before any command runs. *)
Definition refuses_early {A} (m : res DispatchError A) : Prop :=
  match m with
  | Ok _ | Err (DecodePayload _) | Err (InvalidPayload _ _) => True
  | _ => False
  end.

(** The run of a handler from the run of its command. *)
Lemma run_handler {A B} E (m : res DispatchError A) (p : A → prog B) c (wrap : B → DispatchOutput) w
    (post : A → World → res CoreError B → Prop) :
  refuses_early m →
  (∀ a, let '(w', r) := run E (p a) w in post a w' r) →
  let '(w', r) := run E (o ←? (input ←? Ret m; try_conv (CommandFailed c) (catch (p input)));
                         Ret (Ok (wrap o))) w in
  match r with
  | Ok (Ok o) => ∃ a b, m = Ok a ∧ o = wrap b ∧ post a w' (Ok b)
  | Ok (Err (CommandFailed _ e)) => ∃ a, m = Ok a ∧ post a w' (Err e)
  | Ok (Err (UnknownTopic _)) => False
  | Ok (Err _) => w' = w
  | Panic => ∃ a, m = Ok a ∧ post a w' Panic
  | _ => False
  end.
Proof.
  intros Hm Hp. rw !run_try_bind. cbn. destruct m as [a|e|]; [|by destruct e|done].
  rw run_try_conv run_catch. cbn. specialize (Hp a). destruct (run E (p a) w) as [w' [b|e|]]; cbn; eauto.
Qed.

(** Decoding never panics. *)
Lemma calm_charge_line v : calm (ChargeLine_from_json v).
Proof. unfold ChargeLine_from_json. solve_calm. Qed.
#[local] Hint Resolve calm_charge_line : calm.
Lemma calm_charge v : calm (ChargeCreated_from_json v).
Proof. unfold ChargeCreated_from_json. solve_calm. Qed.
Lemma calm_payment v : calm (PaymentReceived_from_json v).
Proof. unfold PaymentReceived_from_json. solve_calm. Qed.
Lemma calm_refund v : calm (PaymentRefunded_from_json v).
Proof. unfold PaymentRefunded_from_json. solve_calm. Qed.

Lemma refuses_decode {A B} (from_json : json → SR A) topic payload (f : A → res DispatchError B) :
  (∀ v, calm (from_json v)) → (∀ p, refuses_early (f p)) →
  refuses_early (p ← decode from_json topic payload; f p).
Proof.
  intros Hc Hf. unfold decode. destruct (json_from_str payload) as [v|]; [|done].
  cbn. specialize (Hc v). destruct (from_json v) as [p|e|]; cbn; [apply Hf|done..].
Qed.
Lemma refuses_parse {A e B} (msg : A → string) topic (m : res A (EntityId e)) (f : EntityId e → res DispatchError B) :
  calm m → (∀ i, refuses_early (f i)) →
  refuses_early (i ← map_err (λ x, InvalidPayload topic (msg x)) m; f i).
Proof. intros Hm Hf. destruct m; [apply Hf|done..]. Qed.
Lemma refuses_charge topic id p : refuses_early (charge_input topic id p).
Proof. apply refuses_parse; [apply calm_id_parse|done]. Qed.
Lemma refuses_payment topic id p : refuses_early (payment_input topic id p).
Proof.
  unfold payment_input. destruct (pr_invoice_ref p); [|done].
  apply refuses_parse; [apply calm_id_parse|done].
Qed.
Lemma refuses_refund topic id p : refuses_early (refund_input topic id p).
Proof. apply refuses_parse; [apply calm_id_parse|done]. Qed.

Ltac read_handler H :=
  unfold handle_charge_created, handle_payment_received, handle_payment_refunded;
  destruct (run _ _ _) as [w' [[o|[]|]|e|]]; cbn in H |- *; try done;
  [destruct H as (input & b & (p & ? & ?)%res_bind_ok & -> & ?); split; [done|]; by exists p, input
  |by destruct H as (? & ? & ?)..].

(** What the dispatch of an event does: a topic, after the remap, that is
    not one of the three contract topics, a payload that does not decode and an
    id that does not parse leave the world untouched; a command that fails or
    panics leaves the database as it was; an answer is the answer of the one
    command the topic stands for, on the input read from the payload, with what
    that command writes. *)
Lemma dispatch_spec E remap ctx topic event_id payload w :
  let canonical := remap_topic remap topic in
  let '(w', r) := run E (dispatch remap ctx topic event_id payload) w in
  match r with
  | Ok (Ok (Drafted out)) =>
      canonical = "fin.billing.charge.created" ∧ ∃ p input,
      decode ChargeCreated_from_json canonical payload = Ok p ∧
      charge_input canonical event_id p = Ok input ∧ draft_post input w w' (Ok out)
  | Ok (Ok (PaidOut out)) =>
      canonical = "fin.billing.payment.received" ∧ ∃ p input,
      decode PaymentReceived_from_json canonical payload = Ok p ∧
      payment_input canonical event_id p = Ok input ∧ pay_post input w w' (Ok out)
  | Ok (Ok (Refunded cn)) =>
      canonical = "fin.billing.payment.refunded" ∧ ∃ p input,
      decode PaymentRefunded_from_json canonical payload = Ok p ∧
      refund_input canonical event_id p = Ok input ∧ create_cn_post E input w w' (Ok cn)
  | Ok (Err (UnknownTopic t)) =>
      w' = w ∧ t = canonical ∧
      canonical ∉ ["fin.billing.charge.created"; "fin.billing.payment.received";
                   "fin.billing.payment.refunded"]
  | Ok (Err (DecodePayload _)) | Ok (Err (InvalidPayload _ _)) => w' = w
  | Ok (Err (CommandFailed _ _)) | Panic => w_db w' = w_db w
  | _ => False
  end.
Proof.
  intros canonical. unfold dispatch. fold canonical. cbv zeta.
  destruct (String.eqb_spec canonical "fin.billing.charge.created") as [Ec|N1];
  [|destruct (String.eqb_spec canonical "fin.billing.payment.received") as [Ec|N2];
  [|destruct (String.eqb_spec canonical "fin.billing.payment.refunded") as [Ec|N3]]].
  - pose proof (run_handler E _ (draft_invoice ctx) "draft_invoice" Drafted w _
      (refuses_decode _ canonical payload _ calm_charge (refuses_charge canonical event_id))
      (λ input, run_draft_invoice E ctx input w)) as H. read_handler H.
  - pose proof (run_handler E _ (mark_paid ctx) "mark_paid" PaidOut w _
      (refuses_decode _ canonical payload _ calm_payment (refuses_payment canonical event_id))
      (λ input, run_mark_paid E ctx input w)) as H. read_handler H.
  - pose proof (run_handler E _ (create_credit_note ctx) "create_credit_note" Refunded w _
      (refuses_decode _ canonical payload _ calm_refund (refuses_refund canonical event_id))
      (λ input, run_create_credit_note E ctx input w)) as H. read_handler H.
  - cbn. split_and!; [done..|]. rw !not_elem_of_cons. split_and!; try done. apply not_elem_of_nil.
Qed.
End consumer_runs.

(** ** A payment, from the bus to the books *)

Section payment.
Context {P : Platform} {L : PlatformLaws P} {S : Serde}.
Implicit Types (E : Env) (w : World) (v : Delivery).

(** Both forms of an invoice reference are accepted. *)
Lemma parse_invoice_ref topic (i : InvoiceId) ref :
  id_wf i → ref = id_to_string i ∨ ref = "inv://invoice/" +:+ id_to_string i →
  parse_invoice_id_from_ref topic ref = Ok i.
Proof.
  intros Hi Href. unfold parse_invoice_id_from_ref.
  assert (strip_prefix "inv://invoice/" (id_to_string i) = None) as Hbare.
  { destruct (ti_to_string_shape (as_typeid i)) as [s Es]; [by rw Hi|].
    unfold id_to_string. by rw Es Hi. }
  assert (id_parse EInvoice (id_to_string i) = Ok i) as Hp
    by (rw id_parse_print Hi String.eqb_refl; by destruct i).
  destruct Href as [->| ->]; cbv zeta.
  - rw Hbare. cbn [default]. by rw Hp.
  - rw strip_prefix_app. cbn [default]. by rw Hp.
Qed.

(** With a database that answers, a new event is registered and processed. *)
Lemma run_receive_new E remap ctx v w :
  (∀ n, env_db_ok E n = true) → bus_inbox (w_db w) !! dv_event_id v = None →
  ∃ w1 now, same_world w w1 ∧
    run E (receive remap ctx v) w =
    run E (process remap ctx v) (set_w_db (registered v now (w_db w)) (tick w1)).
Proof.
  intros HE Hnew. exists (tick (tick w)), (env_now E (w_step w)). split.
  { etrans; apply same_world_tick. }
  cbn. rw HE. cbn. unfold inbox_exists. cbn. rw Hnew. cbn. rw HE. cbn.
  unfold inbox_insert. cbn. by rw Hnew.
Qed.

Lemma run_mark_processed E event_id w :
  (∀ n, env_db_ok E n = true) →
  run E (mark_processed event_id) w =
    (set_w_db (inbox_mark_processed (env_now E (w_step w)) event_id (w_db w)) (tick (tick w)), Ok (Ok ())).
Proof. intros HE. cbn. by rw HE. Qed.

End payment.

(** ** Witnesses *)

#[local] Existing Instance Concrete.platform.
#[local] Existing Instance Concrete.platform_laws.
#[local] Existing Instance ConcreteJson.serde.
#[local] Existing Instance ConcreteJson.serde_laws.

(** A payment of [amount] for the invoice of the fixtures. *)
Definition fx_payment_json (amount : string) : json :=
  JObj [("invoice_ref", JStr ("inv://invoice/" +:+ id_to_string fx_invoice_id));
        ("amount", JStr amount);
        ("received_at", JStr (dt_to_rfc3339 fx_later))].
Definition fx_delivery (amount : string) : Delivery :=
  MkDelivery "evt-1" "fin.billing.payment.received" "fin" (json_to_string (fx_payment_json amount)).


(** A topic the contract does not have. *)
Lemma dispatch_spec_witness :
  let '(w', r) := run fx_env (dispatch ∅ fx_ctx "fin.billing.refund.created" "evt-2" "{}") (fx_world Sent) in
  r = Ok (Err (UnknownTopic "fin.billing.refund.created")) ∧ w' = fx_world Sent.
Proof.
  pose proof (dispatch_spec fx_env ∅ fx_ctx "fin.billing.refund.created" "evt-2" "{}" (fx_world Sent)) as H.
  cbn in H. destruct H as [H _]. split; [reflexivity|exact H].
Defined.
