(* ===== verification/View.v ===== *)
(** * The public view route ([api/src/handlers/view.rs], [error.rs])

    [GET /v/{token}] verifies the signed link, renders the invoice and, if the
    invoice is [Sent], makes it [Viewed] and appends the history row. *)

From S2P Require Import Prelude External SignedLink Concrete Money Ids Domain InvoiceFsm CreditNoteFsm.
From S2P Require Import Events Tax Store Render Command Effects Transition Invariant Evolution World Fixtures Outbox.

(** ** [error.rs] *)

Section errors.
Context `{P : Platform}.

Inductive ApiError :=
  | Core (e : CoreError)
  | BadRequest (msg : string)
  | Unauthorized
  | ApiNotFound (msg : string)
  | InvalidLink
  | WebhookDispatch (msg : string)
  | Internal (msg : string).

Definition core_status (err : CoreError) : Z :=
  match err with
  | Validation _ => 400
  | Idempotency _ => 409
  | FsmTransition _ => 409
  | NotFound _ => 404
  | NotImplemented _ => 501
  | Repo _ | Tax _ | Render _ | Pdf _ => 500
  end.
Definition core_slug (err : CoreError) : string :=
  match err with
  | Validation _ => "validation"
  | Idempotency _ => "idempotency-conflict"
  | FsmTransition _ => "fsm-transition"
  | Repo _ => "repo"
  | Tax _ => "tax"
  | Render _ => "render"
  | Pdf _ => "pdf"
  | NotFound _ => "not-found"
  | NotImplemented _ => "not-implemented"
  end.
Definition core_title (err : CoreError) : string :=
  match err with
  | Validation _ => "Validation error"
  | Idempotency _ => "Idempotency conflict"
  | FsmTransition _ => "FSM transition rejected"
  | Repo _ => "Repository error"
  | Tax _ => "Tax engine error"
  | Render _ => "Render error"
  | Pdf _ => "PDF render error"
  | NotFound _ => "Not found"
  | NotImplemented _ => "Not implemented"
  end.
Definition status (e : ApiError) : Z :=
  match e with
  | Core err => core_status err
  | BadRequest _ => 400
  | Unauthorized => 401
  | ApiNotFound _ | InvalidLink => 404
  | WebhookDispatch _ => 502
  | Internal _ => 500
  end.
Definition slug (e : ApiError) : string :=
  match e with
  | Core err => core_slug err
  | BadRequest _ => "bad-request"
  | Unauthorized => "unauthorized"
  | ApiNotFound _ => "not-found"
  | InvalidLink => "invalid-link"
  | WebhookDispatch _ => "webhook-dispatch-failed"
  | Internal _ => "internal"
  end.
Definition title (e : ApiError) : string :=
  match e with
  | Core err => core_title err
  | BadRequest _ => "Bad request"
  | Unauthorized => "Unauthorized"
  | ApiNotFound _ => "Not found"
  | InvalidLink => "Invalid or expired link"
  | WebhookDispatch _ => "Webhook dispatch failed"
  | Internal _ => "Internal server error"
  end.
End errors.

(** ** [view.rs] *)

Section view.
Context `{P : Platform} `{C : Crypto} {T : Tera}.

(** A store statement of a handler: [.map_err(CoreError::from)?]. *)
Definition store_try {A} (f : Db → SR A) : prog (res ApiError A) :=
  try_conv (λ e, Core (Repo e)) (db_try f).
Definition or_error {A} (e : ApiError) (o : option A) : prog (res ApiError A) := Ret (ok_or e o).

(** [InvoiceViewed] *)
Definition viewed_payload (id : InvoiceId) : json :=
  JObj [("invoice_id", JStr (id_to_string id)); ("actor", JStr "link.viewer"); ("channel", JStr "api")].

Definition view_mutate (invoice : Invoice) (now : DateTime) : Invoice :=
  set_inv_updated_at now (set_inv_viewed_at (Some now) (set_inv_state Viewed invoice)).
Definition view_history (hid : HistoryId) (invoice : Invoice) (from_state : InvoiceState)
    (now : DateTime) : InvoiceStateHistory :=
  {| h_id := hid;
     h_invoice_id := inv_id invoice;
     h_from_state := Some from_state;
     h_to_state := Viewed;
     h_event := "view";
     h_actor := Some "link.viewer";
     h_channel := HApi;
     h_bus_event_id := None;
     h_reason := None;
     h_occurred_at := now;
     h_published_at := None;
     h_metadata := ∅ |}.

(** The first view: the transition, its row and the event. *)
Definition advance_viewed (ctx : CoreCtx) (invoice : Invoice) : prog (res ApiError ()) :=
  now ← clock_now;
  let from_state := inv_state invoice in
  let invoice := view_mutate invoice now in
  hid ← fresh EHistory;
  let history := view_history hid invoice from_state now in
  _ ←? try_conv (λ e, Core (Repo e)) (db_try_exec (save_transition invoice history));
  _ ← try_publish ctx TOPIC_INVOICE_VIEWED (viewed_payload (inv_id invoice)) now;
  Ret (Ok ()).

(** The part that reads: from the token to the page. *)
Definition load_view (link_signing_key : string) (now_unix : Z) (token : string)
    : prog (res ApiError (Invoice * string)) :=
  verified ←? Ret (map_err (λ _, InvalidLink) (verify_at token link_signing_key now_unix));
  invoice_id ←? Ret (map_err (λ _, InvalidLink) (id_parse EInvoice (vt_invoice_id verified)));
  found ←? store_try (λ d, Ok (invoice_get invoice_id d));
  invoice ←? or_error InvalidLink found;
  lines ←? store_try (λ d, Ok (line_list_for_invoice invoice_id d));
  found ←? store_try (λ d, Ok (customer_get (inv_customer_id invoice) d));
  customer ←? or_error InvalidLink found;
  html ←? try_conv Core (catch (render_page (inv_template_path invoice)
                                  (MkRenderContext invoice customer lines)));
  Ret (Ok (invoice, html)).

(** [link_signing_key] is the configured key, [now_unix] the clock reading of
    [verify]; the answer is the page of the [200] response. *)
Definition view_invoice (ctx : CoreCtx) (link_signing_key : string) (now_unix : Z) (token : string)
    : prog (res ApiError string) :=
  found ←? load_view link_signing_key now_unix token;
  let '(invoice, html) := found : Invoice * string in
  _ ←? (if bool_decide (inv_state invoice = Sent) then advance_viewed ctx invoice else Ret (Ok ()));
  Ret (Ok html).
End view.


#[global] Arguments view_mutate {P} _ _ : simpl never.
#[global] Arguments view_history {P} _ _ _ _ : simpl never.

(** ** What viewing does *)

Section view_theorems.
Context {P : Platform} {L : PlatformLaws P} {C : Crypto} {CL : CryptoLaws C} {T : Tera}.
Implicit Types (E : Env) (w : World).

Lemma view_transition_fits hid i0 now :
  inv_state i0 = Sent →
  transition_fits i0 (view_mutate i0 now) (view_history hid i0 (inv_state i0) now).
Proof.
  intros Hs. split; try done.
  - rw Hs. apply (legal_step _ View); [done|constructor].
  - intros Hc. pose proof (ic_unpaid i0 Hc ltac:(rewrite -> Hs; tauto)) as Hzero.
    pose proof (ic_sent_at i0 Hc (or_introl Hs)). destruct Hc. unfold view_mutate.
    split; cbn; try done; try (by intros [|]); intuition congruence.
Qed.

(** What loading finds. *)
Definition loaded key now_unix token d (i : Invoice) (html : string) : Prop :=
  ∃ v id c read, verify_at token key now_unix = Ok v ∧ id_parse EInvoice (vt_invoice_id v) = Ok id ∧
    invoice_get id d = Some i ∧ customer_get (inv_customer_id i) d = Some c ∧
    render_html read (inv_template_path i) (MkRenderContext i c (line_list_for_invoice id d)) = Ok html.

Lemma wpc_load_view (I : World → Prop) E key now_unix token w
    (Q : World → res CoreError (res ApiError (Invoice * string)) → Prop) :
  (∀ w', same_world w w' → I w' ∧ (∀ r, (∀ a, r ≠ Ok (Ok a)) → (∀ e, r ≠ Err e) → Q w' r) ∧
     ∀ i html, loaded key now_unix token (w_db w) i html → Q w' (Ok (Ok (i, html)))) →
  wpc I E (load_view key now_unix token) Q w.
Proof.
  intros H. unfold load_view.
  assert (∀ w', same_world w w' → same_world w (tick w')) as Ht
    by (intros; etrans; [done|apply same_world_tick]).
  pose proof (H w ltac:(reflexivity)) as (Hw & HQ & _).
  destruct (verify_at token key now_unix) as [v|e|] eqn:Ev; cbn; [|by split; [|apply HQ]..].
  destruct (id_parse EInvoice (vt_invoice_id v)) as [id|e|] eqn:Ei; cbn; [|by split; [|apply HQ]..].
  pose proof (Ht w ltac:(reflexivity)) as S1. destruct (H _ S1) as (Hw1 & HQ1 & _). split; [done|].
  destruct (env_db_ok E _); cbn; [|by split; [|apply HQ1]].
  destruct (invoice_get id (w_db w)) as [i|] eqn:Eg; cbn; [|by split; [|apply HQ1]]. split; [done|].
  pose proof (Ht _ S1) as S2. destruct (H _ S2) as (Hw2 & HQ2 & _).
  destruct (env_db_ok E _); cbn; [|by split; [|apply HQ2]]. split; [done|].
  pose proof (Ht _ S2) as S3. destruct (H _ S3) as (Hw3 & HQ3 & _).
  destruct (env_db_ok E _); cbn; [|by split; [|apply HQ3]].
  destruct (customer_get (inv_customer_id i) (w_db w)) as [c|] eqn:Ec; cbn; [|by split; [|apply HQ3]].
  split; [done|]. pose proof (Ht _ S3) as S4. destruct (H _ S4) as (Hw4 & HQ4 & HQok).
  destruct (render_html _ _ _) as [html|e|] eqn:Er; cbn; split; try done; try by apply HQ4.
  apply HQok. exists v, id, c. eexists.
  split; [done|]. split; [done|]. split; [done|]. split; [done|]. exact Er.
Qed.

Lemma loaded_get key t token d i html :
  db_ok d → loaded key t token d i html → invoice_get (inv_id i) d = Some i.
Proof. intros Hd (v & id & c & read & _ & _ & Hg & _). by eapply invoice_get_id. Qed.

Lemma same_world_db w w' : same_world w w' → same_db w w'.
Proof. intros []. by split. Qed.

Lemma view_invoice_since d0 ctx key now_unix token E w :
  ok_since d0 w → safe (ok_since d0) E (view_invoice ctx key now_unix token) w.
Proof.
  intros Hw. unfold view_invoice. apply wpc_try_bind, wpc_load_view. intros w' Hs.
  assert (ok_since d0 w') as Hw' by (eapply ok_since_stable, Hw; by apply same_world_db).
  split; [done|]. split; [intros [[]|e|] H1 H2; cbn; try done; first [by edestruct H1|by edestruct H2]|].
  intros i html Hl. cbn [wpc_try_cont]. apply safe_try_bind; [|done].
  case_bool_decide as Hst; [|done]. unfold advance_viewed.
  assert (ok_since d0 (tick (tick w'))) as Hw2.
  { eapply ok_since_stable, Hw'. etrans; apply same_db_tick. }
  split; [done|]. split; [eapply ok_since_stable, Hw'; apply same_db_tick|].
  apply safe_try_bind; [|intros; apply safe_quiet; auto with inv; solve_quiet].
  apply safe_try_conv, safe_db_try_exec; [auto with inv|done|]. intros d Hd.
  eapply since_transition; [done| |by apply view_transition_fits| |exact Hd].
  - cbn. rw (sw_db _ _ Hs). eapply loaded_get, Hl. apply (wo_db _ (os_ok _ _ Hw)).
  - apply drawn_new. cbn. lia.
Qed.

Lemma quiet_load_view key now_unix token : quiet (load_view key now_unix token).
Proof.
  unfold load_view, store_try, or_error, try_bind, try_conv.
  repeat first [apply quiet_bind; [|intros] | apply quiet_db_try | apply quiet_catch, quiet_render_page
               | match goal with |- quiet (match ?x with _ => _ end) => destruct x end
               | constructor | intros ].
Qed.
Lemma view_invoice_atomic ctx key now_unix token : atomic (view_invoice ctx key now_unix token).
Proof.
  unfold view_invoice, try_bind. apply atomic_bind_quiet; [apply quiet_load_view|].
  intros [[i html]|e|]; [|solve_atomic..]. case_bool_decide; [|solve_atomic].
  apply atomic_bind_write; [|solve_quiet]. unfold advance_viewed.
  apply atomic_bind_quiet; [solve_quiet|]. intros now.
  apply atomic_bind_quiet; [solve_quiet|]. intros hid. unfold try_bind, try_conv.
  apply atomic_bind_write; [|intros []; solve_quiet].
  apply atomic_bind_write; [apply atomic_write; constructor|intros; constructor].
Qed.

(** [i] is [i0], viewed at [now]. *)
Record viewed_on (i0 i : Invoice) (now : DateTime) : Prop := {
  vo_from : inv_state i0 = Sent;
  vo_state : inv_state i = Viewed;
  vo_viewed_at : inv_viewed_at i = Some now;
  vo_updated_at : inv_updated_at i = now;
  vo_rest : i0 = set_inv_updated_at (inv_updated_at i0) (set_inv_viewed_at (inv_viewed_at i0)
    (set_inv_state (inv_state i0) i));
}.
Lemma view_mutate_viewed i0 now : inv_state i0 = Sent → viewed_on i0 (view_mutate i0 now) now.
Proof. intros Hs. split; try done. by destruct i0. Qed.

Definition view_post key now_unix token w w' (r : res CoreError (res ApiError string)) : Prop :=
  match r with
  | Ok (Ok html) =>
      ∃ i, loaded key now_unix token (w_db w) i html ∧
      if bool_decide (inv_state i = Sent)
      then ∃ i' now hid, viewed_on i i' now ∧
        w_db w' = written i' (view_history hid i Sent now) (w_db w)
      else same_world w w'
  | Ok (Err _) | Panic => same_world w w'
  | _ => False
  end.

#[local] Arguments view_post _ _ _ _ _ _ : simpl never.
Lemma run_view_invoice E ctx key now_unix token w :
  let '(w', r) := run E (view_invoice ctx key now_unix token) w in
  view_post key now_unix token w w' r.
Proof.
  apply run_split, wpc_end, wpc_try_bind, wpc_load_view. intros w' Hs. split; [done|].
  split; [intros [[]|e|] H1 H2; cbn; try done; first [by edestruct H1|by edestruct H2]|].
  intros i html Hl. cbn [wpc_try_cont]. apply wpc_try_bind.
  case_bool_decide as Hst.
  - cbn. split; [done|]. split; [done|]. split; [done|].
    assert (same_world w (tick (tick (tick w')))) as Hs3
      by (etrans; [exact Hs|]; etrans; [apply same_world_tick|]; etrans; apply same_world_tick).
    destruct (env_db_ok E _); cbn; [|by split].
    destruct (save_transition _ _ (w_db w')) as [d|e|] eqn:Hd; cbn; [|by split..].
    apply save_transition_written in Hd. rw (sw_db _ _ Hs) in Hd. subst d.
    assert (∀ wf, w_db wf = written (view_mutate i (env_now E (w_step w')))
      (view_history (id_new EHistory (w_step (tick w'))) (view_mutate i (env_now E (w_step w')))
        (inv_state i) (env_now E (w_step w'))) (w_db w) →
      view_post key now_unix token w wf (Ok (Ok html))) as Hend.
    { intros wf Ef. exists i. split; [done|]. rw (bool_decide_true _ Hst). do 3 eexists.
      split; [by apply view_mutate_viewed|]. rw Ef. by rw -Hst. }
    unfold try_publish. destruct (publisher ctx); cbn; [|split; [done|]; split; [done|]; by apply Hend].
    split; [done|]. destruct (env_publish_ok E _); cbn; (split; [done|]; split; [done|]; by apply Hend).
  - split; [done|]. cbn. split; [done|]. exists i. split; [done|]. by rw (bool_decide_false _ Hst).
Qed.

(** The public view route: a request whose token does not verify, whose id
    does not parse or whose invoice or customer is missing, and one that fails
    on the way, changes nothing at all; a page is answered only for the stored
    invoice the token was signed for, with its stored customer and lines; and
    then, if that invoice was [Sent], it becomes [Viewed] at the time of the
    view, nothing else of it changes and one [view] row is appended, and
    otherwise nothing changes, so later views are idempotent. *)
Lemma view_invoice_spec E ctx key now_unix token w :
  let '(w', r) := run E (view_invoice ctx key now_unix token) w in
  match r with
  | Ok (Ok html) =>
      ∃ v id i c read, verify_at token key now_unix = Ok v ∧
      id_parse EInvoice (vt_invoice_id v) = Ok id ∧
      invoice_get id (w_db w) = Some i ∧ customer_get (inv_customer_id i) (w_db w) = Some c ∧
      render_html read (inv_template_path i)
        (MkRenderContext i c (line_list_for_invoice id (w_db w))) = Ok html ∧
      if bool_decide (inv_state i = Sent)
      then ∃ i' now hid, viewed_on i i' now ∧
        w_db w' = written i' (view_history hid i Sent now) (w_db w)
      else same_world w w'
  | Ok (Err _) | Panic => same_world w w'
  | _ => False
  end.
Proof.
  pose proof (run_view_invoice E ctx key now_unix token w) as H. unfold view_post, loaded in H.
  destruct (run _ _ _) as [w' [[html| |]| |]]; try done.
  destruct H as (i & (v & id & c & read & H) & Hw). exists v, id, i, c, read. tauto.
Qed.
End view_theorems.

(** ** A link, from the signature to the page *)

Section link.
Context {P : Platform} {L : PlatformLaws P} {C : Crypto} {CL : CryptoLaws C} {T : Tera}.
Implicit Types (E : Env) (w : World).

Lemma verify_link (i : InvoiceId) ttl key now t :
  id_wf i → 0 ≤ now → 0 ≤ ttl → now + ttl < 2 ^ 64 → t < now + ttl →
  verify_at (sign_at (id_to_string i) ttl key now) key t =
    Ok (MkVerifiedToken (id_to_string i) (now + ttl)).
Proof.
  intros Hi H0 H1 H2 Ht. destruct (typeid_text_plain (id_to_string i)) as [Ha Hf].
  { apply ti_to_string_text. by rw Hi. }
  rw verify_sign; try done; [by apply utf8_ascii|]. by destruct (Z.leb_spec (now + ttl) t); [lia|].
Qed.

(** A link that was sent can be opened: before it expires, with a database
    that answers, the URL signed for a stored invoice under the server's key
    serves that invoice's page, after which the invoice is [Viewed] if it was
    [Sent] and in its old state otherwise. *)
Lemma link_opens E ctx key ttl now t w i c html :
  world_ok w → (∀ n, env_db_ok E n = true) →
  id_wf (inv_id i) → invoice_get (inv_id i) (w_db w) = Some i →
  customer_get (inv_customer_id i) (w_db w) = Some c →
  (∀ read, render_html read (inv_template_path i)
     (MkRenderContext i c (line_list_for_invoice (inv_id i) (w_db w))) = Ok html) →
  0 ≤ now → 0 ≤ ttl → now + ttl < 2 ^ 64 → t < now + ttl →
  let '(w', r) := run E (view_invoice ctx key t (sign_at (id_to_string (inv_id i)) ttl key now)) w in
  r = Ok (Ok html) ∧ ∃ i', invoice_get (inv_id i) (w_db w') = Some i' ∧
    inv_state i' = if bool_decide (inv_state i = Sent) then Viewed else inv_state i.
Proof.
  intros Hw HE Hi Hg Hc Hr H0 H1 H2 Ht.
  assert (id_parse EInvoice (id_to_string (inv_id i)) = Ok (inv_id i)) as Hp
    by (rw id_parse_print Hi String.eqb_refl; by destruct (inv_id i)).
  unfold view_invoice, load_view. rw (verify_link _ _ _ _ _ Hi H0 H1 H2 Ht). cbn. rw Hp.
  cbn. rw HE Hg. cbn. rw HE. cbn. rw HE Hc. cbn. rw Hr. cbn.
  case_bool_decide as Hst; cbn; [|by eauto].
  rw HE. rewrite -> (save_transition_succeeds _ i) with (n := w_step w); try done; try apply Hw.
  2: { eexists. split; [|reflexivity]. cbn. lia. }
  assert (∀ at_ d, ∃ i', invoice_get (inv_id i) (written (view_mutate i at_) d (w_db w)) = Some i' ∧
    inv_state i' = Viewed) as Hend.
  { intros at_ d. eexists. split; [apply lookup_insert_eq|].
    unfold invoice_upserted. by destruct (_ !! _). }
  unfold try_publish. cbn. destruct (publisher ctx); cbn; [destruct (env_publish_ok E _); cbn|].
  all: (split; [done|]; apply Hend).
Qed.
End link.

(** ** Witness *)

#[local] Existing Instance Concrete.platform.
#[local] Existing Instance Concrete.platform_laws.
#[local] Existing Instance ConcreteCrypto.crypto.
#[local] Existing Instance ConcreteCrypto.crypto_laws.
#[local] Existing Instance concrete_tera.

Definition fx_page : string :=
  match render_html (λ _, None) None
    (MkRenderContext (fx_invoice Sent) fx_customer (line_list_for_invoice fx_invoice_id (fx_db Sent))) with
  | Ok html => html
  | _ => ""
  end.

Lemma link_opens_witness :
  let '(w', r) := run fx_env (view_invoice fx_ctx "some-key" 1500
    (sign_at (id_to_string fx_invoice_id) 600 "some-key" 1000)) (fx_world Sent) in
  r = Ok (Ok fx_page) ∧ ∃ i', invoice_get fx_invoice_id (w_db w') = Some i' ∧ inv_state i' = Viewed.
Proof.
  apply (link_opens fx_env fx_ctx "some-key" 600 1000 1500 (fx_world Sent) (fx_invoice Sent)
    fx_customer fx_page).
  - apply fx_world_ok.
  - done.
  - reflexivity.
  - apply fx_get.
  - apply lookup_singleton_eq.
  - intros read. vm_compute. reflexivity.
  - lia.
  - lia.
  - lia.
  - lia.
Defined.
