(* ===== verification/Overdue.v ===== *)
(** * The overdue ticker ([commands/src/overdue.rs]) *)

From S2P Require Import Prelude Rounding External Concrete Money Ids Domain InvoiceFsm Events Tax.
From S2P Require Import Store Render Command Transition Invariant World Fixtures.

Section overdue.
Context `{P : Platform}.

Definition is_overdue (inv : Invoice) (now : DateTime) : bool :=
  match inv_state inv with
  | Issued | Sent | Viewed | PartiallyPaid =>
      match inv_due_at inv with Some d => dt_ltb d now | None => false end
  | _ => false
  end.

(** One query per open state, in this order. *)
Definition open_states : list InvoiceState := [Issued; Sent; Viewed; PartiallyPaid].

Definition collect_unpaid_unvoided : prog (list Invoice) :=
  prog_foldM (λ all state,
    rows ← db_query (invoice_list (MkInvoiceFilter None (Some state) None None));
    Ret (all ++ rows)) [] open_states.

Definition overdue_payload (inv : Invoice) : json :=
  JObj [("invoice_id", JStr (id_to_string (inv_id inv)));
        ("customer_id", JStr (id_to_string (inv_customer_id inv)));
        ("number", jopt (inv_number inv));
        ("due_at", jopt (dt_to_rfc3339 <$> inv_due_at inv));
        ("total", JStr (dec_to_string (inv_total inv)));
        ("amount_paid", JStr (dec_to_string (inv_amount_paid inv)));
        ("currency", JStr (Currency.as_str (inv_currency inv)));
        ("state", JStr (InvoiceState_str (inv_state inv)))].

Definition TOPIC_OVERDUE : string := "inv.billing.invoice.overdue".

Definition mark_overdue_ticker (ctx : CoreCtx) : prog (list Invoice) :=
  now ← clock_now;
  candidates ← collect_unpaid_unvoided;
  prog_foldM (λ overdue inv,
    if is_overdue inv now then
      _ ← try_publish ctx TOPIC_OVERDUE (overdue_payload inv) now;
      Ret (overdue ++ [inv])
    else Ret overdue) [] candidates.

Lemma quiet_mark_overdue_ticker ctx : quiet (mark_overdue_ticker ctx).
Proof. unfold mark_overdue_ticker, collect_unpaid_unvoided. solve_quiet. Qed.
End overdue.

(** ** What the ticker reports *)

Section overdue_theorems.
Context {P : Platform} {L : PlatformLaws P}.

Lemma invoice_list_state s d :
  ∃ l, invoice_list (MkInvoiceFilter None (Some s) None None) d = Ok l ∧
    ∀ i, i ∈ l ↔ (∃ k, invoices d !! k = Some i) ∧ inv_state i = s.
Proof.
  unfold invoice_list. cbn [limit_offset if_limit if_offset]. eexists. split; [done|]. intros i.
  rewrite -> sql_order_text_perm. rewrite -> list_elem_of_In, filter_In. cbn.
  rewrite -> bool_decide_eq_true, <- list_elem_of_In. unfold rows. rewrite -> list_elem_of_fmap.
  split.
  - intros [((k & j) & -> & H) ->]. split; [|done]. exists k. by apply elem_of_map_to_list.
  - intros [[k H] ->]. split; [|done]. exists (k, i). split; [done|]. by apply elem_of_map_to_list.
Qed.

(** Reading the candidates. *)
Lemma run_collect_from E states all w :
  (∀ n, env_db_ok E n = true) →
  ∃ l, (run E (prog_foldM (λ all state,
          rows ← db_query (invoice_list (MkInvoiceFilter None (Some state) None None));
          Ret (all ++ rows)) all states) w).2 = Ok (all ++ l) ∧
       same_world w (run E (prog_foldM (λ all state,
          rows ← db_query (invoice_list (MkInvoiceFilter None (Some state) None None));
          Ret (all ++ rows)) all states) w).1 ∧
       ∀ i, i ∈ l ↔ (∃ k, invoices (w_db w) !! k = Some i) ∧ inv_state i ∈ states.
Proof.
  intros HE. revert all w. induction states as [|s states IH]; intros all w.
  - exists []. cbn. rw app_nil_r. split; [done|]. split; [reflexivity|]. set_solver.
  - cbn [prog_foldM]. destruct (invoice_list_state s (w_db w)) as (rs & Er & Hrs).
    rewrite -> run_bind, run_bind, run_db_query, HE, Er. cbn [map_err run]. destruct (IH (all ++ rs) (tick w)) as (l & El & Hs & Hl).
    exists (rs ++ l). rw app_assoc. split; [exact El|]. split.
    + etrans; [apply same_world_tick|exact Hs].
    + intros i. rewrite -> elem_of_app, Hrs, Hl. cbn. set_solver.
Qed.

(** The loop: one message per overdue invoice, in order. *)
Lemma run_overdue_loop E ctx now l acc w :
  let f := (λ overdue inv,
    if is_overdue inv now then
      _ ← try_publish ctx TOPIC_OVERDUE (overdue_payload inv) now;
      Ret (overdue ++ [inv])
    else Ret overdue) in
  let sel := List.filter (λ i, is_overdue i now) l in
  (run E (prog_foldM f acc l) w).2 = Ok (acc ++ sel) ∧
  same_but_bus w (run E (prog_foldM f acc l) w).1 ∧
  (publisher ctx = true → (∀ n, env_publish_ok E n = true) →
   w_bus (run E (prog_foldM f acc l) w).1 =
     w_bus w ++ map (λ i, MkBusMessage TOPIC_OVERDUE (overdue_payload i) now) sel).
Proof.
  intros f. revert acc w. induction l as [|i l IH]; intros acc w; cbn [List.filter].
  - cbn. rw !app_nil_r. split; [done|]. split; [reflexivity|done].
  - cbn [prog_foldM]. rewrite -> run_bind.
    assert (f acc i = if is_overdue i now then
      _ ← try_publish ctx TOPIC_OVERDUE (overdue_payload i) now; Ret (acc ++ [i]) else Ret acc) as ->
      by done.
    destruct (is_overdue i now).
    + rewrite -> (run_bind E (try_publish _ _ _ _)).
      destruct (run_try_publish E ctx TOPIC_OVERDUE (overdue_payload i) now w) as [Er Hs].
      assert (publisher ctx = true → (∀ n, env_publish_ok E n = true) →
        w_bus (run E (try_publish ctx TOPIC_OVERDUE (overdue_payload i) now) w).1 =
        w_bus w ++ [MkBusMessage TOPIC_OVERDUE (overdue_payload i) now]) as Hb.
      { intros Hp Ho. unfold try_publish. rw Hp. cbn. by rw Ho. }
      destruct (run E (try_publish _ _ _ _) w) as [w1 r]. cbn in Er, Hs, Hb. subst r. cbn [run].
      destruct (IH (acc ++ [i]) w1) as (E1 & H1 & B1). rewrite <- app_assoc in E1.
      split; [exact E1|]. split; [by etrans|]. intros Hp Ho. rw B1 // Hb //.
      cbn. by rewrite <- app_assoc.
    + cbn [run]. apply IH.
Qed.

(** A tick reports exactly the issued, sent, viewed and partially paid
    invoices whose due date is past, changes nothing but the bus, and, when the
    publisher accepts, announces each of them once, in the order reported. *)
Lemma overdue_ticker_exact E ctx w :
  (∀ n, env_db_ok E n = true) →
  ∃ now m w' l, now = env_now E m ∧ run E (mark_overdue_ticker ctx) w = (w', Ok l) ∧
    same_but_bus w w' ∧
    (∀ i, i ∈ l ↔ (∃ k, invoices (w_db w) !! k = Some i) ∧ is_overdue i now = true) ∧
    (publisher ctx = true → (∀ n, env_publish_ok E n = true) →
     w_bus w' = w_bus w ++ map (λ i, MkBusMessage TOPIC_OVERDUE (overdue_payload i) now) l).
Proof.
  intros HE. unfold mark_overdue_ticker.
  destruct (run_collect_from E open_states [] (tick w) HE) as (l & El & Hs & Hl).
  exists (env_now E (w_step w)), (w_step w).
  destruct (run_overdue_loop E ctx (env_now E (w_step w)) l []
    (run E collect_unpaid_unvoided (tick w)).1) as (E1 & H1 & B1).
  exists (run E (mark_overdue_ticker ctx) w).1,
    (List.filter (λ i, is_overdue i (env_now E (w_step w))) l).
  assert (run E (mark_overdue_ticker ctx) w =
    run E (prog_foldM (λ overdue inv,
      if is_overdue inv (env_now E (w_step w)) then
        _ ← try_publish ctx TOPIC_OVERDUE (overdue_payload inv) (env_now E (w_step w));
        Ret (overdue ++ [inv])
      else Ret overdue) [] l) (run E collect_unpaid_unvoided (tick w)).1) as Er.
  { unfold mark_overdue_ticker. rewrite -> run_bind. cbn [run clock_now]. rewrite -> run_bind.
    unfold collect_unpaid_unvoided in *. destruct (run E (prog_foldM _ [] open_states) (tick w)) as [w1 r].
    cbn in El |- *. by rewrite -> El. }
  split; [done|]. unfold mark_overdue_ticker in *. rw Er. split.
  { cbn [app] in E1. rewrite <- E1. apply surjective_pairing. }
  assert (same_but_bus w (run E collect_unpaid_unvoided (tick w)).1) as Hc
    by (destruct Hs; split; cbn in *; done).
  split; [by etrans|]. split.
  - intros i. rewrite -> list_elem_of_In, filter_In, <- list_elem_of_In, Hl.
    split; [intros [[? _] ?]; done|]. intros [Hi Ho]. split; [|done]. split; [done|].
    unfold is_overdue in Ho. unfold open_states. destruct (inv_state i); try done; set_solver.
  - intros Hp Ho. rw B1 //. f_equal. apply Hs.
Qed.
End overdue_theorems.

(** ** Witness *)

#[local] Existing Instance Concrete.platform.
#[local] Existing Instance Concrete.platform_laws.

Lemma overdue_ticker_exact_witness :
  ∃ w' l, run (fx_env_at fx_later) (mark_overdue_ticker fx_ctx) (fx_world Sent) = (w', Ok l) ∧
    fx_invoice Sent ∈ l.
Proof.
  destruct (overdue_ticker_exact (fx_env_at fx_later) fx_ctx (fx_world Sent) (λ _, eq_refl))
    as (now & m & w' & l & -> & Hrun & _ & Hl & _).
  exists w', l. split; [exact Hrun|]. apply Hl. split; [|reflexivity].
  exists (id_to_string fx_invoice_id). exact (fx_get Sent).
Defined.
