(* ===== verification/Reminders.v ===== *)
(** * Reminders ([commands/src/reminder.rs]) *)

From S2P Require Import Prelude Rounding External Concrete Money Ids Domain InvoiceFsm Events Tax.
From S2P Require Import Store Render Command Transition Invariant Evolution World Numbering TextOrder.
From S2P Require Import Fixtures.

Section reminders.
Context `{P : Platform}.

Record ReminderScheduleInput := MkReminderScheduleInput {
  rsi_invoice_id : InvoiceId;
  rsi_scheduled_at : DateTime;
  rsi_channel_scheme : ReminderChannel;
  rsi_actor : Actor;
  rsi_channel : Channel;
}.

Definition reminder_schedule_validate (input : ReminderScheduleInput) (now : DateTime)
    : res CoreError () :=
  if negb (dt_ltb now (rsi_scheduled_at input))
  then Err (Validation ("scheduled_at must be in the future; got " +:+
         dt_display (rsi_scheduled_at input) +:+ " (now: " +:+ dt_display now +:+ ")"))
  else Ok ().

(** [format!("{:?}", channel).to_lowercase()] *)
Definition reminder_channel_lower (c : ReminderChannel) : string :=
  match c with
  | RcFile => "file" | RcStdout => "stdout" | RcBus => "bus" | RcWebhook => "webhook" | RcLink => "link"
  end.

Definition reminder_build (input : ReminderScheduleInput) (rid : ReminderId) : Reminder :=
  {| rem_id := rid;
     rem_invoice_id := rsi_invoice_id input;
     rem_scheduled_at := rsi_scheduled_at input;
     rem_sent_at := None;
     rem_channel := rsi_channel_scheme input;
     rem_state := RScheduled |}.

Definition reminder_schedule (ctx : CoreCtx) (input : ReminderScheduleInput) : prog Reminder :=
  now ← clock_now;
  _ ← lift id (reminder_schedule_validate input now);
  rid ← fresh EReminder;
  let reminder := reminder_build input rid in
  _ ← db_exec (reminder_save reminder);
  _ ← try_publish ctx "inv.billing.reminder.scheduled"
        (JObj [("reminder_id", JStr (id_to_string (rem_id reminder)));
               ("invoice_id", JStr (id_to_string (rem_invoice_id reminder)));
               ("scheduled_at", JStr (dt_to_rfc3339 (rem_scheduled_at reminder)));
               ("channel", JStr (reminder_channel_lower (rem_channel reminder)));
               ("actor", JStr (audit_string (rsi_actor input)));
               ("history_channel", JStr (history_channel_str (history_channel (rsi_channel input))))]) now;
  Ret reminder.

Record ReminderCancelInput := MkReminderCancelInput {
  rci_reminder_id : ReminderId;
  rci_actor : Actor;
  rci_channel : Channel;
}.

Definition reminder_cancel (ctx : CoreCtx) (input : ReminderCancelInput) : prog Reminder :=
  found ← db_query (λ d, Ok (reminder_get (rci_reminder_id input) d));
  reminder ← or_not_found ("reminder " +:+ id_to_string (rci_reminder_id input)) found;
  reminder ← (if bool_decide (rem_state reminder = RScheduled) then
                let reminder := set_rem_state RCancelled reminder in
                _ ← db_exec (reminder_save reminder);
                Ret reminder
              else Ret reminder);
  now ← clock_now;
  _ ← try_publish ctx "inv.billing.reminder.cancelled"
        (JObj [("reminder_id", JStr (id_to_string (rem_id reminder)));
               ("invoice_id", JStr (id_to_string (rem_invoice_id reminder)));
               ("actor", JStr (audit_string (rci_actor input)));
               ("channel", JStr (history_channel_str (history_channel (rci_channel input))))]) now;
  Ret reminder.

(** One turn of the ticker's loop. *)
Definition reminder_dispatch (ctx : CoreCtx) (now : DateTime) (sent : list Reminder) (reminder : Reminder)
    : prog (list Reminder) :=
  if negb (bool_decide (rem_state reminder = RScheduled)) then Ret sent
  else
    let reminder := set_rem_sent_at (Some now) (set_rem_state RSent reminder) in
    _ ← db_exec (reminder_save reminder);
    _ ← try_publish ctx "inv.billing.reminder.sent"
          (JObj [("reminder_id", JStr (id_to_string (rem_id reminder)));
                 ("invoice_id", JStr (id_to_string (rem_invoice_id reminder)));
                 ("channel", JStr (reminder_channel_lower (rem_channel reminder)));
                 ("sent_at", JStr (dt_to_rfc3339 now))]) now;
    Ret (sent ++ [reminder]).

Definition reminders_tick (ctx : CoreCtx) : prog (list Reminder) :=
  now ← clock_now;
  due ← db_query (λ d, Ok (reminder_due now d));
  prog_foldM (reminder_dispatch ctx now) [] due.
End reminders.

(** ** What the commands do *)

Section reminder_theorems.
Context {P : Platform} {L : PlatformLaws P}.

Lemma world_ok_reminder w r d :
  world_ok w → reminder_save r (w_db w) = Ok d → world_ok (set_w_db d (tick w)).
Proof.
  intros Hw H. apply world_ok_same; [done|by eapply reminder_save_ok; [|apply Hw]|..];
    unfold reminder_save in H; (destruct (invoice_get _ _); [|done]); by injection H as <-.
Qed.

Lemma since_reminder d0 w r d :
  ok_since d0 w → reminder_save r (w_db w) = Ok d → ok_since d0 (set_w_db d (tick w)).
Proof.
  intros Hw H. apply since_same; [done|by eapply world_ok_reminder; [apply Hw|]|..];
    unfold reminder_save in H; (destruct (invoice_get _ _); [|done]); by injection H as <-.
Qed.

Lemma reminder_schedule_since d0 ctx input E w :
  ok_since d0 w → safe (ok_since d0) E (reminder_schedule ctx input) w.
Proof.
  intros Hw. unfold reminder_schedule, safe. wp_skip. wp_skip. wp_fresh. wp_exec Hd.
  - by eapply since_reminder.
  - apply safe_quiet; [wp_side|solve_quiet|done].
Qed.
Lemma reminder_schedule_safe ctx input E w : world_ok w → safe world_ok E (reminder_schedule ctx input) w.
Proof. apply since_safe. intros d0. apply reminder_schedule_since. Qed.
Lemma reminder_cancel_since d0 ctx input E w :
  ok_since d0 w → safe (ok_since d0) E (reminder_cancel ctx input) w.
Proof.
  intros Hw. unfold reminder_cancel, safe. wp_query Hq. wp_found r Hf.
  apply safe_bind.
  - case_bool_decide; [|done]. unfold safe. wp_exec Hd; [by eapply since_reminder|done].
  - intros. apply safe_quiet; [wp_side|solve_quiet|done].
Qed.
Lemma reminder_cancel_safe ctx input E w : world_ok w → safe world_ok E (reminder_cancel ctx input) w.
Proof. apply since_safe. intros d0. apply reminder_cancel_since. Qed.
Lemma reminders_tick_since d0 ctx E w :
  ok_since d0 w → safe (ok_since d0) E (reminders_tick ctx) w.
Proof.
  intros Hw. unfold reminders_tick, safe. wp_clock m. wp_query Hq. apply safe_foldM; [done|].
  intros w' sent r Hw'. unfold reminder_dispatch. case_match; [done|]. unfold safe. wp_exec Hd.
  - by eapply since_reminder.
  - apply safe_quiet; [wp_side|solve_quiet|done].
Qed.
Lemma reminders_tick_safe ctx E w : world_ok w → safe world_ok E (reminders_tick ctx) w.
Proof. apply since_safe. intros d0. apply reminders_tick_since. Qed.

Lemma reminder_schedule_atomic ctx input : atomic (reminder_schedule ctx input).
Proof. unfold reminder_schedule. solve_atomic. Qed.

Lemma reminder_cancel_atomic ctx input : atomic (reminder_cancel ctx input).
Proof.
  unfold reminder_cancel. do 2 (apply atomic_bind_quiet; [solve_quiet|intros ?]).
  apply atomic_bind_write; [|solve_quiet]. case_bool_decide; solve_atomic.
Qed.

Lemma reminder_save_written r d d' :
  reminder_save r d = Ok d' → d' = set_reminders (<[id_to_string (rem_id r) := r]> (reminders d)) d.
Proof. unfold reminder_save. destruct (invoice_get _ _); [|done]. by intros [= <-]. Qed.

Lemma elem_reminder_due now d r :
  r ∈ reminder_due now d ↔ (∃ k, reminders d !! k = Some r) ∧ rem_state r = RScheduled ∧
    String.leb (dt_to_rfc3339 (rem_scheduled_at r)) (dt_to_rfc3339 now) = true.
Proof.
  unfold reminder_due. rewrite -> sql_order_text_perm, list_elem_of_filter. unfold rows.
  rewrite -> list_elem_of_fmap. split.
  - intros [[? ?] ((k & x) & -> & Hx)]. split; [|done]. exists k. by apply elem_of_map_to_list.
  - intros [[k H] [? ?]]. split; [done|]. exists (k, r). split; [done|]. by apply elem_of_map_to_list.
Qed.

(** The reminders after a set of them was sent. *)
Definition mark_sent (now : DateTime) (r : Reminder) : Reminder :=
  set_rem_sent_at (Some now) (set_rem_state RSent r).

Lemma run_dispatch_one E ctx now sent r w :
  (∀ n, env_db_ok E n = true) → db_ok (w_db w) → rem_state r = RScheduled →
  (∃ k, reminders (w_db w) !! k = Some r) →
  let '(w', res) := run E (reminder_dispatch ctx now sent r) w in
  res = Ok (sent ++ [mark_sent now r]) ∧
  w_db w' = set_reminders (<[id_to_string (rem_id r) := mark_sent now r]> (reminders (w_db w))) (w_db w).
Proof.
  intros HE Hd Hs [k Hk]. unfold reminder_dispatch. rewrite -> bool_decide_true by done. cbn [negb].
  cbv zeta. rewrite -> run_bind, run_db_exec, HE. unfold reminder_save.
  destruct (ok_reminder _ Hd _ _ Hk) as (Ek & i & Hi). unfold invoice_get. fold (mark_sent now r).
  change (rem_invoice_id (mark_sent now r)) with (rem_invoice_id r). rw Hi.
  match goal with |- context [run E (try_publish ?a ?b ?c ?e ≫= ?g) ?w1] =>
    rewrite -> (run_bind E (try_publish a b c e) g);
    destruct (run_try_publish E a b c e w1) as [E1 [Hdb _ _ _]];
    destruct (run E (try_publish a b c e) w1) as [w2 r2]
  end.
  cbn in E1, Hdb. subst r2. cbn [run]. split; [done|]. by rw Hdb.
Qed.

(** Sending a list of scheduled reminders under distinct keys. *)
Lemma run_dispatch_all E ctx now l sent w :
  (∀ n, env_db_ok E n = true) → db_ok (w_db w) →
  (∀ r, r ∈ l → rem_state r = RScheduled ∧ reminders (w_db w) !! id_to_string (rem_id r) = Some r) →
  NoDup ((id_to_string ∘ rem_id) <$> l) →
  let '(w', res) := run E (prog_foldM (reminder_dispatch ctx now) sent l) w in
  res = Ok (sent ++ (mark_sent now <$> l)) ∧
  (∀ k, reminders (w_db w') !! k =
     if bool_decide (k ∈ (id_to_string ∘ rem_id) <$> l) then mark_sent now <$> (reminders (w_db w) !! k)
     else reminders (w_db w) !! k) ∧
  ∃ t, w_db w' = set_reminders t (w_db w).
Proof.
  intros HE. revert sent w. induction l as [|r l IH]; intros sent w Hd Hl Hnd.
  - cbn [prog_foldM run]. cbn. rw app_nil_r. split; [done|]. split.
    + intros k. rewrite -> bool_decide_false; [done|]. apply not_elem_of_nil.
    + exists (reminders (w_db w)). by destruct (w_db w).
  - cbn [prog_foldM]. rewrite -> run_bind.
    destruct (Hl r ltac:(left)) as [Hs Hr].
    pose proof (run_dispatch_one E ctx now sent r w HE Hd Hs ltac:(eauto)) as H1.
    destruct (run E (reminder_dispatch ctx now sent r) w) as [w1 r1]. destruct H1 as [-> Hw1].
    rewrite -> fmap_cons in Hnd. apply NoDup_cons in Hnd as [Hnot Hnd].
    assert (db_ok (w_db w1)) as Hd1.
    { apply (reminder_save_ok (mark_sent now r) (w_db w)); [|done].
      destruct (ok_reminder _ Hd _ _ Hr) as (_ & i & Hi). unfold reminder_save, invoice_get.
      change (rem_invoice_id (mark_sent now r)) with (rem_invoice_id r). by rw Hi Hw1. }
    specialize (IH (sent ++ [mark_sent now r]) w1 Hd1).
    destruct (run E (prog_foldM _ _ l) w1) as [w2 r2].
    destruct IH as (-> & Hk & t & Ht).
    + intros r' Hr'. destruct (Hl r' ltac:(by right)) as [? Hg]. split; [done|]. rw Hw1. cbn.
      rewrite -> lookup_insert_ne; [done|]. intros Ek. apply Hnot. apply list_elem_of_fmap. by exists r'.
    + done.
    + rewrite <- app_assoc, fmap_cons. split; [done|]. split.
      * intros k. rw Hk Hw1. cbn [reminders set_reminders].
        destruct (decide (k = id_to_string (rem_id r))) as [->|Hne].
        -- rewrite -> bool_decide_false, lookup_insert_eq by done.
           rewrite -> bool_decide_true, Hr by (by left). done.
        -- rewrite -> lookup_insert_ne by done.
           rewrite -> (bool_decide_ext (k ∈ _ <$> r :: l) (k ∈ (id_to_string ∘ rem_id) <$> l)); [done|].
           rewrite -> fmap_cons, elem_of_cons. cbn. intuition.
      * exists t. rw Ht Hw1. done.
Qed.

(** A stored instant that has come, as texts compare; for four-digit years and
    outside leap seconds that is the order in time. *)
Definition time_has_come (t now : DateTime) : Prop :=
  String.leb (dt_to_rfc3339 t) (dt_to_rfc3339 now) = true.
Definition ordinary (t : DateTime) : Prop := 0 ≤ dt_year t ≤ 9999 ∧ dt_nanosecond t < 1000000000.
Lemma time_has_come_order t now :
  ordinary t → ordinary now → time_has_come t now ↔ dt_cmp t now ≠ Gt.
Proof.
  intros [Yt Nt] [Yn Nn]. unfold time_has_come, String.leb. rewrite -> compare_instants by done.
  by destruct (dt_cmp t now).
Qed.

(** C21: a tick against a database that answers sends every scheduled reminder
    whose time has come (for ordinary instants: is not after the reading of the
    clock), once and in the order of their times: it returns exactly those,
    marked sent at that reading; every other reminder and every other table is as
    before, and no scheduled reminder whose time has come is left for a second
    tick. *)
Theorem reminders_tick_exact E ctx w :
  (∀ n, env_db_ok E n = true) → world_ok w →
  ∃ m w' l, let now := env_now E m in
    let sent r := {| rem_id := rem_id r; rem_invoice_id := rem_invoice_id r;
                     rem_scheduled_at := rem_scheduled_at r; rem_sent_at := Some now;
                     rem_channel := rem_channel r; rem_state := RSent |} in
    run E (reminders_tick ctx) w = (w', Ok (sent <$> l)) ∧
    (∀ r, r ∈ l ↔ (∃ k, reminders (w_db w) !! k = Some r) ∧ rem_state r = RScheduled ∧
       time_has_come (rem_scheduled_at r) now) ∧
    (∀ t u, ordinary t → ordinary u → time_has_come t u ↔ dt_cmp t u ≠ Gt) ∧
    NoDup (rem_id <$> l) ∧
    Sorted (λ r r', time_has_come (rem_scheduled_at r) (rem_scheduled_at r')) l ∧
    (∀ k r, reminders (w_db w) !! k = Some r →
       (r ∈ l → reminders (w_db w') !! k = Some (sent r)) ∧
       (r ∉ l → reminders (w_db w') !! k = Some r)) ∧
    (∃ t, w_db w' = set_reminders t (w_db w) ∧ dom t = dom (reminders (w_db w))) ∧
    ∀ k r, reminders (w_db w') !! k = Some r → rem_state r = RScheduled →
      ¬ time_has_come (rem_scheduled_at r) now.
Proof.
  intros HE Hw. set (now := env_now E (w_step w)). set (l := reminder_due now (w_db w)).
  assert (∀ r, r ∈ l → rem_state r = RScheduled ∧
    reminders (w_db w) !! id_to_string (rem_id r) = Some r) as Hl.
  { intros r [[k Hk] [Hs _]]%elem_reminder_due. split; [done|].
    by destruct (ok_reminder _ (wo_db _ Hw) _ _ Hk) as [<- _]. }
  assert (NoDup ((id_to_string ∘ rem_id) <$> l)) as Hnd.
  { unfold l, reminder_due. rewrite -> sql_order_text_perm. apply NoDup_row_keys.
    intros k r Hk. by destruct (ok_reminder _ (wo_db _ Hw) _ _ Hk) as [-> _]. }
  pose proof (run_dispatch_all E ctx now l [] (tick (tick w)) HE (wo_db _ Hw) Hl Hnd) as H.
  assert (run E (reminders_tick ctx) w =
    run E (prog_foldM (reminder_dispatch ctx now) [] l) (tick (tick w))) as Er.
  { unfold reminders_tick. rewrite -> run_bind. cbn [run clock_now].
    rewrite -> run_bind, run_db_query, HE. done. }
  destruct (run E (prog_foldM _ _ l) _) as [w' r]. destruct H as (-> & Hk & t & Ht).
  assert (∀ k r, reminders (w_db w) !! k = Some r → k ∈ (id_to_string ∘ rem_id) <$> l ↔ r ∈ l) as Hin.
  { intros k r Hr. rewrite -> list_elem_of_fmap. destruct (ok_reminder _ (wo_db _ Hw) _ _ Hr) as [Ek _].
    split; [|by exists r]. intros (r' & Ek' & Hr'). destruct (Hl r' Hr') as [_ Hg].
    cbn in Ek'. rewrite <- Ek' in Hg. by simplify_eq. }
  change (w_db (tick (tick w))) with (w_db w) in Hk, Ht.
  exists (w_step w), w', l. cbv zeta. fold now. split; [exact Er|]. split; [intros r; apply elem_reminder_due|].
  split; [apply time_has_come_order|]. split.
  { rewrite -> list_fmap_compose in Hnd. by eapply NoDup_fmap_1. }
  split; [apply (sql_order_text_sorted (λ r, dt_to_rfc3339 (rem_scheduled_at r)))|]. split; [|split].
  - intros k r Hr. rw Hk Hr. split; intros Hrl; case_bool_decide as Hc; try done; exfalso.
    + by apply Hc, (Hin k r Hr).
    + by apply Hrl, (Hin k r Hr).
  - exists t. split; [done|]. apply set_eq. intros k. rewrite -> !elem_of_dom.
    assert (t = reminders (w_db w')) as -> by (by rw Ht). rw Hk. by case_bool_decide; [rewrite -> fmap_is_Some|].
  - intros k r Hr Hs Hle. rw Hk in Hr. case_bool_decide as Hc.
    + apply fmap_Some in Hr as (r0 & _ & ->). discriminate Hs.
    + apply Hc, (Hin k r Hr), elem_reminder_due. eauto.
Qed.
End reminder_theorems.

(** ** Witness *)

#[local] Existing Instance Concrete.platform.
#[local] Existing Instance Concrete.platform_laws.

(** A reminder scheduled for tomorrow and a tick the month after. *)
Definition fx_tomorrow : DateTime := Concrete.DT (Concrete.Date 2026 5 13 eq_refl) 12 0 0 0 eq_refl.
Definition fx_reminder : ReminderScheduleInput :=
  MkReminderScheduleInput fx_invoice_id fx_tomorrow RcFile (ACli "ana") ChCli.
Definition fx_reminded : World := (run fx_env (reminder_schedule fx_ctx fx_reminder) (fx_world Sent)).1.

Lemma fx_reminded_ok : world_ok fx_reminded.
Proof. apply (safe_run world_ok), reminder_schedule_safe, fx_world_ok. Qed.

Lemma reminders_tick_exact_witness :
  ∃ w' r, run (fx_env_at fx_later) (reminders_tick fx_ctx) fx_reminded = (w', Ok [r]) ∧
    rem_state r = RSent ∧ rem_sent_at r = Some fx_later ∧
    ∀ k r', reminders (w_db w') !! k = Some r' → rem_state r' = RScheduled →
      ¬ time_has_come (rem_scheduled_at r') fx_later.
Proof.
  destruct (reminders_tick_exact (fx_env_at fx_later) fx_ctx fx_reminded (λ _, eq_refl) fx_reminded_ok)
    as (m & w' & l & Hrun & _ & _ & _ & _ & _ & _ & Hdue).
  assert (match (run (fx_env_at fx_later) (reminders_tick fx_ctx) fx_reminded).2 with
          | Ok l => length l =? 1 | _ => false end%nat = true) as Hlen by reflexivity.
  rw Hrun in Hlen. cbn [snd] in Hlen. rewrite -> length_fmap in Hlen.
  destruct l as [|r [|r' l]]; [done| |done].
  eexists w', _. split; [exact Hrun|]. split; [done|]. split; [done|exact Hdue].
Defined.
