(* ===== verification/Schedules.v ===== *)
(** * Recurring schedules ([commands/src/schedule.rs])

    [schedule_create], the two state changes and [schedules_tick], which drafts
    (and issues) one invoice per due schedule and moves the schedule on. *)

From S2P Require Import Prelude Rounding External Concrete Money Ids Domain InvoiceFsm Cadence.
From S2P Require Import Events Tax Store Render Command Transition Invariant Evolution World.
From S2P Require Import Written Numbering TextOrder Fixtures Draft Issue.

Section schedules.
Context `{P : Platform}.

Record ScheduleLineInput := MkScheduleLineInput {
  sli_description : string;
  sli_quantity : Decimal;
  sli_unit_price : Decimal;
  sli_tax_category : TaxCategory;
}.

Record ScheduleCreateInput := MkScheduleCreateInput {
  sci_customer_id : CustomerId;
  sci_template_lines : list ScheduleLineInput;
  sci_currency : Currency;
  sci_cadence : Cadence;
  sci_start_date : NaiveDate;
  sci_end_date : option NaiveDate;
  sci_auto_issue : bool;
  sci_actor : Actor;
  sci_channel : Channel;
}.

Fixpoint schedule_validate_lines (i : Z) (lines : list ScheduleLineInput) : res CoreError () :=
  match lines with
  | [] => Ok ()
  | l :: lines =>
      if dec_leb (sli_quantity l) dec_zero
      then Err (Validation ("line " +:+ show_Z i +:+ ": quantity must be > 0"))
      else if dec_ltb (sli_unit_price l) dec_zero
      then Err (Validation ("line " +:+ show_Z i +:+ ": unit_price must be >= 0"))
      else schedule_validate_lines (i + 1) lines
  end.

(** [ScheduleCreateInput::validate] *)
Definition schedule_validate (input : ScheduleCreateInput) : res CoreError () :=
  match sci_template_lines input with
  | [] => Err (Validation "schedule must have at least one template line")
  | lines =>
      _ ← schedule_validate_lines 0 lines;
      match sci_end_date input with
      | Some end_ =>
          if nd_ltb end_ (sci_start_date input)
          then Err (Validation "end_date must be >= start_date") else Ok ()
      | None => Ok ()
      end
  end.

Definition schedule_line (l : ScheduleLineInput) : prog ScheduleLine :=
  lid ← fresh ELine;
  Ret (MkScheduleLine (sli_description l) (sli_quantity l) (sli_unit_price l)
         (sli_tax_category l) lid).

Definition schedule_build (input : ScheduleCreateInput) (lines : list ScheduleLine)
    (sid : ScheduleId) (now : DateTime) : Schedule :=
  {| sch_id := sid;
     sch_customer_id := sci_customer_id input;
     sch_template_lines := lines;
     sch_currency := sci_currency input;
     sch_cadence := sci_cadence input;
     sch_start_date := sci_start_date input;
     sch_end_date := sci_end_date input;
     sch_auto_issue := sci_auto_issue input;
     sch_next_run := sci_start_date input;
     sch_last_run := None;
     sch_state := SActive;
     sch_metadata := ∅;
     sch_created_at := now;
     sch_updated_at := now |}.

Definition schedule_create (ctx : CoreCtx) (input : ScheduleCreateInput) : prog Schedule :=
  _ ← lift id (schedule_validate input);
  now ← clock_now;
  lines ← prog_mapM schedule_line (sci_template_lines input);
  sid ← fresh ESchedule;
  let schedule := schedule_build input lines sid now in
  _ ← db_exec (schedule_save schedule);
  _ ← try_publish ctx "inv.billing.schedule.created"
        (JObj [("schedule_id", JStr (id_to_string (sch_id schedule)));
               ("customer_id", JStr (id_to_string (sch_customer_id schedule)));
               ("cadence", JStr (Cadence.to_string (sch_cadence schedule)));
               ("currency", JStr (Currency.as_str (sch_currency schedule)));
               ("auto_issue", JBool (sch_auto_issue schedule));
               ("start_date", JStr (nd_to_string (sch_start_date schedule)));
               ("actor", JStr (audit_string (sci_actor input)));
               ("channel", JStr (history_channel_str (history_channel (sci_channel input))))]) now;
  Ret schedule.

Record ScheduleStateChangeInput := MkScheduleStateChangeInput {
  ssi_schedule_id : ScheduleId;
  ssi_actor : Actor;
  ssi_channel : Channel;
}.

(** [format!("{:?}", state)], and the same in lower case. *)
Definition schedule_state_debug (s : ScheduleState) : string :=
  match s with SActive => "Active" | SPaused => "Paused" | SCancelled => "Cancelled" end.
Definition schedule_state_lower (s : ScheduleState) : string :=
  match s with SActive => "active" | SPaused => "paused" | SCancelled => "cancelled" end.

Definition transition_schedule (ctx : CoreCtx) (input : ScheduleStateChangeInput)
    (to_state : ScheduleState) (event_tag : string) : prog Schedule :=
  found ← db_query (λ d, Ok (schedule_get (ssi_schedule_id input) d));
  schedule ← or_not_found ("schedule " +:+ id_to_string (ssi_schedule_id input)) found;
  if bool_decide (sch_state schedule = SCancelled) && negb (bool_decide (to_state = SCancelled))
  then Throw (Validation ("schedule " +:+ id_to_string (ssi_schedule_id input) +:+
         " is cancelled (terminal); cannot transition to " +:+ schedule_state_debug to_state))
  else
    now ← clock_now;
    let schedule := set_sch_updated_at now (set_sch_state to_state schedule) in
    _ ← db_exec (schedule_save schedule);
    _ ← try_publish ctx ("inv.billing.schedule." +:+ event_tag)
          (JObj [("schedule_id", JStr (id_to_string (sch_id schedule)));
                 ("state", JStr (schedule_state_lower (sch_state schedule)));
                 ("actor", JStr (audit_string (ssi_actor input)));
                 ("channel", JStr (history_channel_str (history_channel (ssi_channel input))))]) now;
    Ret schedule.

Definition schedule_pause (ctx : CoreCtx) (input : ScheduleStateChangeInput) : prog Schedule :=
  transition_schedule ctx input SPaused "paused".
Definition schedule_cancel (ctx : CoreCtx) (input : ScheduleStateChangeInput) : prog Schedule :=
  transition_schedule ctx input SCancelled "cancelled".

(** ** The ticker *)

Record SchedulesTickOutput := MkSchedulesTickOutput {
  sto_ran_schedule_ids : list ScheduleId;
  sto_drafts : list DraftInvoiceOutput;
}.

Definition scheduler : Actor := ABus "inv.scheduler".

(** The idempotency key of one run. *)
Definition schedule_key (s : Schedule) : string :=
  "schedule:" +:+ id_to_string (sch_id s) +:+ ":run:" +:+ nd_to_string (sch_next_run s).

Definition schedule_draft_input (s : Schedule) : DraftInvoiceInput :=
  {| di_customer_id := sch_customer_id s;
     di_seller_jurisdiction := QuebecCa;
     di_currency := sch_currency s;
     di_lines := map (λ l, MkDraftLineInput (sl_description l) (sl_quantity l) (sl_unit_price l)
                             (sl_tax_category l)) (sch_template_lines s);
     di_idempotency_key := Some (schedule_key s);
     di_actor := scheduler;
     di_channel := ChBus;
     di_due_at := None;
     di_template_path := None;
     di_schedule_id := Some (sch_id s) |}.

Definition schedule_issue_input (drafted : DraftInvoiceOutput) : IssueInvoiceInput :=
  MkIssueInvoiceInput (inv_id (do_invoice drafted)) None scheduler ChBus.

(** The end date is reached when the next run falls after it. *)
Definition past_end (s : Schedule) (next : NaiveDate) : bool :=
  match sch_end_date s with Some end_ => nd_ltb end_ next | None => false end.

(** The schedule after a run. *)
Definition schedule_ran (s : Schedule) (next : NaiveDate) (now : DateTime) : Schedule :=
  let s' := set_sch_updated_at now
              (set_sch_next_run next (set_sch_last_run (Some (sch_next_run s)) s)) in
  if past_end s next then set_sch_state SCancelled s' else s'.

Context {T : Tera}.

(** One turn of the ticker's loop. *)
Definition run_schedule (ctx : CoreCtx) (now : DateTime) (acc : SchedulesTickOutput) (schedule : Schedule)
    : prog SchedulesTickOutput :=
  if negb (bool_decide (sch_state schedule = SActive)) then Ret acc
  else
    drafted ← draft_invoice ctx (schedule_draft_input schedule);
    _ ← (if sch_auto_issue schedule then
           _ ← issue_invoice ctx (schedule_issue_input drafted); Ret ()
         else Ret ());
    next ← lift (λ _, Validation "")
             (Cadence.advance (sch_cadence schedule) (sch_next_run schedule));
    let schedule' := schedule_ran schedule next now in
    _ ← (if past_end schedule next then
           try_publish ctx "inv.billing.schedule.cancelled"
             (JObj [("schedule_id", JStr (id_to_string (sch_id schedule')));
                    ("state", JStr "cancelled");
                    ("reason", JStr "end_date_reached")]) now
         else Ret ());
    _ ← db_exec (schedule_save schedule');
    Ret (MkSchedulesTickOutput (sto_ran_schedule_ids acc ++ [sch_id schedule'])
           (sto_drafts acc ++ [drafted])).

Definition schedules_tick (ctx : CoreCtx) : prog SchedulesTickOutput :=
  now ← clock_now;
  let today := dt_date_naive now in
  due ← db_query (λ d, Ok (schedule_due today d));
  prog_foldM (run_schedule ctx now) (MkSchedulesTickOutput [] []) due.
End schedules.

(** ** Safety *)

Section schedule_theorems.
Context {P : Platform} {L : PlatformLaws P} {T : Tera}.

Lemma world_ok_schedule w s d :
  world_ok w → schedule_save s (w_db w) = Ok d → world_ok (set_w_db d (tick w)).
Proof.
  intros Hw H. apply world_ok_same; [done|by eapply schedule_save_ok; [|apply Hw]|..];
    unfold schedule_save in H; (destruct (customer_get _ _); [|done]); by injection H as <-.
Qed.

Lemma since_schedule d0 w s d :
  ok_since d0 w → schedule_save s (w_db w) = Ok d → ok_since d0 (set_w_db d (tick w)).
Proof.
  intros Hw H. apply since_same; [done|by eapply world_ok_schedule; [apply Hw|]|..];
    unfold schedule_save in H; (destruct (customer_get _ _); [|done]); by injection H as <-.
Qed.

Lemma schedule_create_since d0 ctx input E w :
  ok_since d0 w → safe (ok_since d0) E (schedule_create ctx input) w.
Proof.
  intros Hw. unfold schedule_create, safe. wp_skip. wp_skip.
  apply wpc_bind_quiet; [wp_side|apply quiet_mapM; unfold schedule_line; solve_quiet|wp_side..|].
  intros wy lines ? ? ?. wp_fresh. wp_exec Hd.
  - by eapply since_schedule.
  - apply safe_quiet; [wp_side|solve_quiet|done].
Qed.
Lemma schedule_create_safe ctx input E w : world_ok w → safe world_ok E (schedule_create ctx input) w.
Proof. apply since_safe. intros d0. apply schedule_create_since. Qed.
Lemma transition_schedule_since d0 ctx input to event_tag E w :
  ok_since d0 w → safe (ok_since d0) E (transition_schedule ctx input to event_tag) w.
Proof.
  intros Hw. unfold transition_schedule, safe. wp_query Hq. wp_found s Hf.
  case_match; [done|]. wp_skip. wp_exec Hd.
  - by eapply since_schedule.
  - apply safe_quiet; [wp_side|solve_quiet|done].
Qed.
Lemma transition_schedule_safe ctx input to event_tag E w : world_ok w → safe world_ok E (transition_schedule ctx input to event_tag) w.
Proof. apply since_safe. intros d0. apply transition_schedule_since. Qed.
Lemma run_schedule_since d0 ctx now acc s E w :
  ok_since d0 w → safe (ok_since d0) E (run_schedule ctx now acc s) w.
Proof.
  intros Hw. unfold run_schedule. case_match; [done|].
  apply safe_bind; [by apply draft_invoice_since|]. intros w1 out Hw1.
  apply safe_bind; [case_match; [|done]; apply safe_bind; [by apply issue_invoice_since|done]|].
  intros w2 [] Hw2. unfold safe. wp_skip. apply wpc_bind_quiet; [wp_side|case_match; solve_quiet|wp_side..|].
  intros w3 [] ? ? ?. wp_exec Hd; [by eapply since_schedule|done].
Qed.
Lemma run_schedule_safe ctx now acc s E w : world_ok w → safe world_ok E (run_schedule ctx now acc s) w.
Proof. apply since_safe. intros d0. apply run_schedule_since. Qed.
Lemma run_all_since d0 ctx now acc l E w :
  ok_since d0 w → safe (ok_since d0) E (prog_foldM (run_schedule ctx now) acc l) w.
Proof. intros Hw. apply safe_foldM; [done|]. intros. by apply run_schedule_since. Qed.
Lemma schedules_tick_since d0 ctx E w :
  ok_since d0 w → safe (ok_since d0) E (schedules_tick ctx) w.
Proof.
  intros Hw. unfold schedules_tick, safe. wp_clock m. wp_query Hq. by apply run_all_since.
Qed.
Lemma schedules_tick_safe ctx E w : world_ok w → safe world_ok E (schedules_tick ctx) w.
Proof. apply since_safe. intros d0. apply schedules_tick_since. Qed.

Lemma schedule_create_atomic ctx input : atomic (schedule_create ctx input).
Proof.
  unfold schedule_create. apply atomic_bind_quiet; [solve_quiet|intros _].
  apply atomic_bind_quiet; [solve_quiet|intros now].
  apply atomic_bind_quiet; [apply quiet_mapM; unfold schedule_line; solve_quiet|intros lines].
  solve_atomic.
Qed.
Lemma transition_schedule_atomic ctx input to event_tag :
  atomic (transition_schedule ctx input to event_tag).
Proof. unfold transition_schedule. solve_atomic. Qed.

(** ** One turn of the ticker *)

(** An invoice with this id and this idempotency key is stored. *)
Definition kept_invoice (id : InvoiceId) (key : string) d : Prop :=
  ∃ k i, invoices d !! k = Some i ∧ inv_id i = id ∧ inv_idempotency_key i = Some key.
Lemma kept_invoice_evolves id key d d' : evolves d d' → kept_invoice id key d → kept_invoice id key d'.
Proof.
  intros He (k & i & Hi & Eid & Ek). destruct (ev_invoice _ _ He _ _ Hi) as (i' & Hi' & [_ Hid _]).
  destruct Hid as (Eid' & _ & _ & _ & _ & Ek' & _). exists k, i'. split; [done|]. by rw Eid' Ek'.
Qed.

(** Drafting and issuing leave the schedules alone. *)
Lemma draft_invoice_schedules E ctx input w :
  schedules (w_db (run E (draft_invoice ctx input) w).1) = schedules (w_db w) ∧
  ∀ out, (run E (draft_invoice ctx input) w).2 = Ok out →
    inv_idempotency_key (do_invoice out) = di_idempotency_key input ∧
    ∀ key, di_idempotency_key input = Some key →
      kept_invoice (inv_id (do_invoice out)) key (w_db (run E (draft_invoice ctx input) w).1).
Proof.
  pose proof (run_draft_invoice E ctx input w) as H.
  destruct (run E (draft_invoice ctx input) w) as [w' [out|e|]]; cbn [fst snd];
    [|by rw H..]. destruct H as [_ H]. destruct (do_idempotency_replay out).
  - destruct H as (-> & key & Ek & Hf & _). split; [done|]. intros ? [= <-].
    apply find_by_key_some in Hf as [Hk [k Hf]]. rw Ek. split; [done|]. intros ? [= <-]. by exists k, (do_invoice out).
  - destruct H as [[[_ (sub & now & _ & Ei) (t & hid & -> & _) _] _] _]. split; [done|].
    intros ? [= <-]. assert (inv_idempotency_key (do_invoice out) = di_idempotency_key input) as Hk by (by rw Ei).
    split; [done|]. intros key Ek. do 2 eexists. split; [cbn; apply lookup_insert_eq|].
    destruct (invoice_upserted_eq (invoices (w_db w) !! id_to_string (inv_id (do_invoice out)))
      (do_invoice out)) as (-> & _ & -> & _). by rw Hk.
Qed.
Lemma issue_invoice_schedules E ctx input w :
  schedules (w_db (run E (issue_invoice ctx input) w).1) = schedules (w_db w).
Proof.
  pose proof (run_issue_invoice E ctx input w) as H.
  destruct (run E (issue_invoice ctx input) w) as [w' [out|e|]]; cbn [fst]; [|by rw H..].
  by destruct H as (i0 & c & m & tots & tot & [_ _ _ _ _ _ (t & hid & -> & _)]).
Qed.

(** A successful turn on an active schedule. *)
Record ran (now : DateTime) (acc : SchedulesTickOutput) (s : Schedule) (d d' : Db)
    (acc' : SchedulesTickOutput) (next : NaiveDate) (out : DraftInvoiceOutput) : Prop := {
  ran_next : Cadence.advance (sch_cadence s) (sch_next_run s) = Ok next;
  ran_key : inv_idempotency_key (do_invoice out) = Some (schedule_key s);
  ran_acc : acc' = MkSchedulesTickOutput (sto_ran_schedule_ids acc ++ [sch_id s]) (sto_drafts acc ++ [out]);
  ran_row : let k := id_to_string (sch_id s) in
    schedules d' = <[k := schedule_upserted (schedules d !! k) (schedule_ran s next now)]> (schedules d);
  ran_kept : kept_invoice (inv_id (do_invoice out)) (schedule_key s) d';
}.

Lemma run_run_schedule E ctx now acc s w w' acc' :
  world_ok w → sch_state s = SActive → run E (run_schedule ctx now acc s) w = (w', Ok acc') →
  ∃ next out, ran now acc s (w_db w) (w_db w') acc' next out.
Proof.
  intros Hw Hs. unfold run_schedule. rewrite -> bool_decide_true by done. cbn [negb].
  rewrite -> run_bind. destruct (draft_invoice_schedules E ctx (schedule_draft_input s) w) as [Es1 Hk].
  pose proof (safe_run _ _ _ _ (draft_invoice_safe ctx (schedule_draft_input s) E w Hw)) as Hw1.
  destruct (run E (draft_invoice _ _) w) as [w1 [out|e|]]; cbn [fst snd] in *; [|done..].
  destruct (Hk out eq_refl) as [Hk' Hkept]. specialize (Hkept _ eq_refl). clear Hk. rewrite -> run_bind.
  assert (∀ w2 u, run E (if sch_auto_issue s then
      _ ← issue_invoice ctx (schedule_issue_input out); Ret () else Ret ()) w1 = (w2, Ok u) →
    schedules (w_db w2) = schedules (w_db w1) ∧ evolves (w_db w1) (w_db w2)) as Hi.
  { destruct (sch_auto_issue s); cbn [run]; [|by intros ?? [= <- _]]. intros w2 u. rewrite -> run_bind.
    pose proof (issue_invoice_schedules E ctx (schedule_issue_input out) w1) as Es2.
    pose proof (safe_run _ _ _ _ (issue_invoice_since (w_db w1) ctx (schedule_issue_input out) E w1
      (ok_since_refl _ Hw1))) as [_ He].
    destruct (run E (issue_invoice _ _) w1) as [w3 [o|e|]]; cbn [run fst] in *; [|done..].
    by intros [= <- _]. }
  destruct (run E (if sch_auto_issue s then _ else _) w1) as [w2 [u|e|]]; [|done..].
  destruct (Hi w2 u eq_refl) as [Hi' He]. clear Hi. rewrite -> run_bind.
  destruct (Cadence.advance _ _) as [next|e|] eqn:Ea; cbn [lift run]; [|done..].
  cbv zeta. rewrite -> run_bind.
  assert (∀ w3 u, run E (if past_end s next then try_publish ctx "inv.billing.schedule.cancelled"
      (JObj [("schedule_id", JStr (id_to_string (sch_id (schedule_ran s next now))));
             ("state", JStr "cancelled"); ("reason", JStr "end_date_reached")]) now
      else Ret ()) w2 = (w3, Ok u) → w_db w3 = w_db w2) as Hp.
  { destruct (past_end s next); cbn [run]; [|by intros ?? [= <- _]]. intros w3 u' Hrun.
    match type of Hrun with run E (try_publish ?a ?b ?c ?d) _ = _ =>
      destruct (run_try_publish E a b c d w2) as [_ [Hdb _ _ _]] end.
    by rewrite -> Hrun in Hdb. }
  destruct (run E (if past_end s next then _ else _) w2) as [w3 [u'|e|]]; [|done..].
  specialize (Hp w3 u' eq_refl). rewrite -> run_bind, run_db_exec. rewrite -> Hp.
  destruct (env_db_ok E (w_step w3)); [|done]. unfold schedule_save.
  destruct (customer_get _ _); [|done]. cbn [run]. intros [= <- <-]. exists next, out.
  assert (sch_id (schedule_ran s next now) = sch_id s) as Eid by (unfold schedule_ran; by destruct (past_end _ _)).
  split; [done|by rw Hk'|by rw Eid|cbn; by rw Eid Hi' Es1|].
  eapply (kept_invoice_evolves _ _ (w_db w2)); [by apply evolves_same|]. by eapply kept_invoice_evolves.
Qed.

Lemma schedule_ran_upserted s next now :
  schedule_upserted (Some s) (schedule_ran s next now) = schedule_ran s next now.
Proof. unfold schedule_ran. destruct s, (past_end _ _); reflexivity. Qed.
Lemma schedule_ran_id s next now : sch_id (schedule_ran s next now) = sch_id s.
Proof. unfold schedule_ran. by destruct (past_end _ _). Qed.

Lemma foldM_elem_fails {A B} E (f : B → A → prog B) b l x w :
  x ∈ l → (∀ b w, is_ok (run E (f b x) w).2 = false) → is_ok (run E (prog_foldM f b l) w).2 = false.
Proof.
  intros Hx Hf. revert b w. induction l as [|y l IH]; intros b w; [by apply not_elem_of_nil in Hx|].
  cbn [prog_foldM]. rewrite -> run_bind. apply elem_of_cons in Hx as [<-|Hx].
  - specialize (Hf b w). by destruct (run E (f b x) w) as [w' []].
  - destruct (run E (f b y) w) as [w' []]; [by apply IH|done..].
Qed.

(** Running a list of schedules under distinct keys. *)
Lemma run_schedules E ctx now l acc w w' out :
  world_ok w → NoDup ((id_to_string ∘ sch_id) <$> l) →
  (∀ s, s ∈ l → sch_state s = SActive ∧ schedules (w_db w) !! id_to_string (sch_id s) = Some s) →
  run E (prog_foldM (run_schedule ctx now) acc l) w = (w', Ok out) →
  sto_ran_schedule_ids out = sto_ran_schedule_ids acc ++ (sch_id <$> l) ∧
  (∃ outs, sto_drafts out = sto_drafts acc ++ outs ∧
     Forall2 (λ s o, inv_idempotency_key (do_invoice o) = Some (schedule_key s) ∧
       kept_invoice (inv_id (do_invoice o)) (schedule_key s) (w_db w')) l outs) ∧
  (∀ k, k ∉ (id_to_string ∘ sch_id) <$> l → schedules (w_db w') !! k = schedules (w_db w) !! k) ∧
  (∀ s, s ∈ l → ∃ next, Cadence.advance (sch_cadence s) (sch_next_run s) = Ok next ∧
     schedules (w_db w') !! id_to_string (sch_id s) = Some (schedule_ran s next now)).
Proof.
  revert acc w. induction l as [|s l IH]; intros acc w Hw Hnd Hl Hrun.
  - cbn in Hrun. injection Hrun as <- <-. cbn [fmap list_fmap]. rewrite -> app_nil_r.
    split; [done|]. split; [exists []; by rewrite -> app_nil_r|]. split; [done|].
    intros s Hs. by apply not_elem_of_nil in Hs.
  - cbn [prog_foldM] in Hrun. rewrite -> run_bind in Hrun.
    destruct (Hl s ltac:(left)) as [Hs Hrow].
    pose proof (safe_run _ _ _ _ (run_schedule_safe ctx now acc s E w Hw)) as Hw1.
    destruct (run E (run_schedule ctx now acc s) w) as [w1 [acc1|e|]] eqn:E1; [|done..]. cbn [fst] in Hw1.
    destruct (run_run_schedule _ _ _ _ _ _ _ _ Hw Hs E1) as (next & o & [Ha Hk -> Ht Hkept]).
    assert (kept_invoice (inv_id (do_invoice o)) (schedule_key s) (w_db w')) as Hkept'.
    { eapply kept_invoice_evolves; [|exact Hkept].
      match type of Hrun with run _ (prog_foldM _ ?acc1 _) _ = _ =>
        pose proof (safe_run _ _ _ _ (run_all_since (w_db w1) ctx now acc1 l E w1 (ok_since_refl _ Hw1))) as [_ He]
      end. by rewrite -> Hrun in He. }
    cbv zeta in Ht. rewrite -> Hrow, schedule_ran_upserted in Ht.
    rewrite -> fmap_cons in Hnd. apply NoDup_cons in Hnd as [Hnot Hnd].
    assert (∀ s', s' ∈ l → sch_state s' = SActive ∧
      schedules (w_db w1) !! id_to_string (sch_id s') = Some s') as Hl1.
    { intros s' Hs'. destruct (Hl s' ltac:(by right)) as [? Hr]. split; [done|]. rw Ht.
      rewrite -> lookup_insert_ne; [done|]. intros Ek. apply Hnot, list_elem_of_fmap. by exists s'. }
    destruct (IH _ w1 Hw1 Hnd Hl1 Hrun) as (Hids & (outs & Eo & Ho) & Hout & Hin).
    cbn [sto_ran_schedule_ids sto_drafts] in Hids, Eo. rewrite <- app_assoc in Hids, Eo.
    split; [by rewrite -> fmap_cons|]. split; [exists (o :: outs); split; [done|by constructor]|].
    split.
    + intros k Hkn. rewrite -> fmap_cons, not_elem_of_cons in Hkn. destruct Hkn as [Hk1 Hk2].
      rewrite -> Hout, Ht by done. by rewrite -> lookup_insert_ne.
    + intros s' [->|Hs']%elem_of_cons; [|by apply Hin]. exists next. split; [done|].
      rewrite -> Hout, Ht by done. apply lookup_insert_eq.
Qed.

Lemma elem_schedule_due today d s :
  s ∈ schedule_due today d ↔ (∃ k, schedules d !! k = Some s) ∧ sch_state s = SActive ∧
    String.leb (nd_to_string (sch_next_run s)) (nd_to_string today) = true.
Proof.
  unfold schedule_due. rewrite -> sql_order_text_perm, list_elem_of_filter, elem_of_rows. tauto.
Qed.
Lemma schedule_due_keys today d :
  db_ok d → NoDup ((id_to_string ∘ sch_id) <$> schedule_due today d).
Proof.
  intros Hd. unfold schedule_due. rewrite -> sql_order_text_perm. apply NoDup_row_keys.
  intros k s Hk. by destruct (ok_schedule _ Hd _ _ Hk) as [-> _].
Qed.

Lemma run_schedules_tick E ctx w w' out :
  run E (schedules_tick ctx) w = (w', Ok out) →
  run E (prog_foldM (run_schedule ctx (env_now E (w_step w))) (MkSchedulesTickOutput [] [])
    (schedule_due (dt_date_naive (env_now E (w_step w))) (w_db w))) (tick (tick w)) = (w', Ok out).
Proof.
  unfold schedules_tick. rewrite -> run_bind. cbn [run clock_now]. rewrite -> run_bind, run_db_query.
  by destruct (env_db_ok E _).
Qed.

(** A stored date that has come, as texts compare; for four-digit years that is
    the calendar. *)
Definition has_come (date today : NaiveDate) : Prop :=
  String.leb (nd_to_string date) (nd_to_string today) = true.
Lemma has_come_dates a b :
  0 ≤ nd_year a ≤ 9999 → 0 ≤ nd_year b ≤ 9999 → has_come a b ↔ nd_cmp a b ≠ Gt.
Proof.
  intros Ha Hb. unfold has_come, String.leb. rewrite -> compare_dates by done. by destruct (nd_cmp a b).
Qed.

(** The schedule after a run: moved on, and cancelled when the next run falls
    after its end date. *)
Definition moved_on (s : Schedule) (next : NaiveDate) (now : DateTime) : Schedule :=
  {| sch_id := sch_id s; sch_customer_id := sch_customer_id s;
     sch_template_lines := sch_template_lines s; sch_currency := sch_currency s;
     sch_cadence := sch_cadence s; sch_start_date := sch_start_date s;
     sch_end_date := sch_end_date s; sch_auto_issue := sch_auto_issue s;
     sch_next_run := next; sch_last_run := Some (sch_next_run s);
     sch_state := match sch_end_date s with
                  | Some end_ => if bool_decide (nd_cmp end_ next = Lt) then SCancelled else SActive
                  | None => SActive
                  end;
     sch_metadata := sch_metadata s; sch_created_at := sch_created_at s; sch_updated_at := now |}.
Lemma schedule_ran_moved s next now : sch_state s = SActive → schedule_ran s next now = moved_on s next now.
Proof.
  intros Hs. unfold schedule_ran, moved_on, past_end, nd_ltb. destruct s. cbn in *. subst.
  destruct sch_end_date as [e|]; [|done]. by destruct (nd_cmp e next).
Qed.

Lemma schedule_due_sorted today d :
  Sorted (λ s s', has_come (sch_next_run s) (sch_next_run s')) (schedule_due today d).
Proof. apply (sql_order_text_sorted (λ s, nd_to_string (sch_next_run s))). Qed.

(** C16: a successful tick runs every due schedule once: it reports exactly the
    active schedules whose next run has come (for four-digit years: is not after
    today), in order, with for each an invoice, stored under that run's own
    idempotency key; each is moved to the first date of its cadence after the
    run (for a parsed cadence and years up to 262141), remembers the run, and is
    cancelled when that date falls after its end date; every other schedule is
    as before. *)
Theorem schedules_tick_moves_on E ctx w w' out :
  world_ok w → run E (schedules_tick ctx) w = (w', Ok out) →
  ∃ m due, let now := env_now E m in let today := dt_date_naive now in
    (∀ s, s ∈ due ↔ (∃ k, schedules (w_db w) !! k = Some s) ∧ sch_state s = SActive ∧
       has_come (sch_next_run s) today) ∧
    (∀ a b, 0 ≤ nd_year a ≤ 9999 → 0 ≤ nd_year b ≤ 9999 → has_come a b ↔ nd_cmp a b ≠ Gt) ∧
    NoDup (sch_id <$> due) ∧ Sorted (λ s s', has_come (sch_next_run s) (sch_next_run s')) due ∧
    sto_ran_schedule_ids out = sch_id <$> due ∧
    Forall2 (λ s o, let key := "schedule:" +:+ id_to_string (sch_id s) +:+ ":run:" +:+
                                nd_to_string (sch_next_run s) in
       inv_idempotency_key (do_invoice o) = Some key ∧
       kept_invoice (inv_id (do_invoice o)) key (w_db w')) due (sto_drafts out) ∧
    (∀ k s, schedules (w_db w) !! k = Some s → s ∉ due → schedules (w_db w') !! k = Some s) ∧
    ∀ k s, schedules (w_db w) !! k = Some s → s ∈ due → ∃ next,
      schedules (w_db w') !! k = Some (moved_on s next now) ∧
      (Cadence.wf (sch_cadence s) = true → nd_year (sch_next_run s) ≤ 262141 →
       next_occurrence (sch_cadence s) (sch_next_run s) next).
Proof.
  intros Hw Hrun%run_schedules_tick. set (now := env_now E (w_step w)) in *.
  exists (w_step w), (schedule_due (dt_date_naive now) (w_db w)). cbv zeta. fold now.
  set (due := schedule_due _ _) in *.
  pose proof (schedule_due_keys (dt_date_naive now) _ (wo_db _ Hw)) as Hnd. fold due in Hnd.
  apply run_schedules in Hrun as (Hids & (outs & Eo & Ho) & Hout & Hin); [|by apply (world_ok_stable w); [split; cbn; [done|lia]|]|done|].
  - cbn in Hids, Eo. split; [intros s; apply elem_schedule_due|]. split; [apply has_come_dates|].
    split. { rewrite -> list_fmap_compose in Hnd. by eapply NoDup_fmap_1. }
    split; [apply schedule_due_sorted|]. split; [done|]. split; [by rw Eo|]. split.
    + intros k s Hk Hs. rewrite -> Hout; [done|]. intros (s' & Ek & Hs')%list_elem_of_fmap.
      apply Hs. pose proof (ok_schedule _ (wo_db _ Hw) _ _ Hk) as [Hks _].
      pose proof Hs' as [[k' Hk'] _]%elem_schedule_due.
      pose proof (ok_schedule _ (wo_db _ Hw) _ _ Hk') as [Hks' _]. cbn in Ek.
      assert (k = k') as <- by congruence. by simplify_eq.
    + intros k s Hk Hs. destruct (Hin s Hs) as (next & Ha & Hrow).
      pose proof (ok_schedule _ (wo_db _ Hw) _ _ Hk) as [-> _]. apply elem_schedule_due in Hs as (_ & Hst & _).
      exists next. rewrite <- schedule_ran_moved by done. split; [exact Hrow|].
      intros Hwf Hy. destruct (advance_first _ _ Hwf Hy) as (d & Ed & ?). congruence.
  - intros s Hs. apply elem_schedule_due in Hs as ([k Hk] & ? & _). split; [done|].
    by destruct (ok_schedule _ (wo_db _ Hw) _ _ Hk) as [<- _].
Qed.

(** ** Creating, pausing and cancelling *)

Lemma run_schedule_lines E ls w :
  ∃ w' xs, run E (prog_mapM schedule_line ls) w = (w', Ok xs) ∧ w_db w' = w_db w ∧
    Forall2 (λ l x, sl_description x = sli_description l ∧ sl_quantity x = sli_quantity l ∧
      sl_unit_price x = sli_unit_price l ∧ sl_tax_category x = sli_tax_category l) ls xs.
Proof.
  revert w. induction ls as [|l ls IH]; intros w; [by exists w, []|].
  destruct (IH (tick w)) as (w' & xs & Hrun & Hdb & Hxs).
  exists w'. eexists (_ :: xs). split; [|split; [exact Hdb|constructor; [|exact Hxs]]].
  - cbn [prog_mapM]. rewrite -> run_bind.
    change (run E (schedule_line l) w) with (tick w, Ok (E:=CoreError) (MkScheduleLine (sli_description l)
      (sli_quantity l) (sli_unit_price l) (sli_tax_category l) (id_new ELine (w_step w)))).
    cbv beta iota. rewrite -> run_bind, Hrun. reflexivity.
  - repeat split.
Qed.

(** The stored row of a new schedule. *)
Definition created (input : ScheduleCreateInput) (s : Schedule) : Prop :=
  sch_customer_id s = sci_customer_id input ∧ sch_currency s = sci_currency input ∧
  sch_cadence s = sci_cadence input ∧ sch_end_date s = sci_end_date input ∧
  sch_auto_issue s = sci_auto_issue input ∧ sch_next_run s = sci_start_date input ∧
  sch_last_run s = None ∧ sch_state s = SActive ∧
  Forall2 (λ l x, sl_description x = sli_description l ∧ sl_quantity x = sli_quantity l ∧
      sl_unit_price x = sli_unit_price l ∧ sl_tax_category x = sli_tax_category l)
    (sci_template_lines input) (sch_template_lines s).

Lemma run_schedule_create E ctx input c w :
  (∀ n, env_db_ok E n = true) → schedule_validate input = Ok () →
  customer_get (sci_customer_id input) (w_db w) = Some c →
  ∃ w1 s, run E (schedule_create ctx input) w = (w1, Ok s) ∧ created input s ∧
    schedules (w_db w1) = <[id_to_string (sch_id s) :=
      schedule_upserted (schedules (w_db w) !! id_to_string (sch_id s)) s]> (schedules (w_db w)).
Proof.
  intros HE Hv Hc. unfold schedule_create. rewrite -> Hv. cbn [lift run mbind prog_mbind prog_bind clock_now].
  rewrite -> run_bind.
  destruct (run_schedule_lines E (sci_template_lines input) (tick w)) as (w2 & xs & -> & Hdb & Hxs).
  rewrite -> run_bind, run_fresh. cbv zeta. set (s := schedule_build _ _ _ _).
  rewrite -> run_bind, run_db_exec, HE. unfold schedule_save.
  change (w_db (tick w2)) with (w_db w2). rewrite -> Hdb. cbn [tick w_db].
  change (sch_customer_id s) with (sci_customer_id input). rewrite -> Hc.
  rewrite -> run_bind. destruct (run_try_publish E ctx "inv.billing.schedule.created"
    (JObj [("schedule_id", JStr (id_to_string (sch_id s)));
           ("customer_id", JStr (id_to_string (sch_customer_id s)));
           ("cadence", JStr (Cadence.to_string (sch_cadence s)));
           ("currency", JStr (Currency.as_str (sch_currency s)));
           ("auto_issue", JBool (sch_auto_issue s));
           ("start_date", JStr (nd_to_string (sch_start_date s)));
           ("actor", JStr (audit_string (sci_actor input)));
           ("channel", JStr (history_channel_str (history_channel (sci_channel input))))])
    (env_now E (w_step w))
    (set_w_db (set_schedules (<[id_to_string (sch_id s) :=
       schedule_upserted (schedules (w_db w) !! id_to_string (sch_id s)) s]> (schedules (w_db w))) (w_db w))
       (tick (tick w2)))) as [E1 [E2 _ _ _]].
  destruct (run E (try_publish _ _ _ _) _) as [w3 r]. cbn [snd fst] in E1, E2. subst r. cbn [run].
  exists w3, s. split; [done|]. split; [by repeat split|]. by rewrite -> E2.
Qed.

(** What drafting refuses is refused on every tick. *)
Lemma run_schedule_invalid E ctx now acc s w :
  sch_state s = SActive → draft_validate (schedule_draft_input s) ≠ Ok () →
  is_ok (run E (run_schedule ctx now acc s) w).2 = false.
Proof.
  intros Hs Hv. unfold run_schedule. rewrite -> bool_decide_true by done. cbn [negb].
  rewrite -> run_bind. unfold draft_invoice. rewrite -> run_bind.
  by destruct (draft_validate _) as [[]|e|].
Qed.

Lemma schedules_tick_elem_fails E ctx w s :
  (∃ k, schedules (w_db w) !! k = Some s) → sch_state s = SActive →
  (∀ m, String.leb (nd_to_string (sch_next_run s)) (nd_to_string (dt_date_naive (env_now E m))) = true) →
  (∀ now acc w, is_ok (run E (run_schedule ctx now acc s) w).2 = false) →
  is_ok (run E (schedules_tick ctx) w).2 = false.
Proof.
  intros Hk Hs Hdue Hf. destruct (run E (schedules_tick ctx) w) as [w' [out|e|]] eqn:Hrun; [|done..].
  apply run_schedules_tick, (f_equal snd) in Hrun. cbn [snd] in Hrun.
  rewrite <- Hrun. cbn. apply (f_equal is_ok) in Hrun. exfalso.
  rewrite -> (foldM_elem_fails _ _ _ _ s) in Hrun; [done| |by intros; apply Hf].
  apply elem_schedule_due. auto.
Qed.

(** An [auto_issue] run interrupted between the issue and the schedule's
    update never completes: while the invoice of that run is stored and no
    longer a draft, every tick that starts with the schedule fails without
    writing anything. *)
Lemma auto_issue_run_is_stuck E ctx w s due i k :
  schedule_due (dt_date_naive (env_now E (w_step w))) (w_db w) = s :: due →
  sch_auto_issue s = true → invoices (w_db w) !! k = Some i →
  inv_idempotency_key i = Some (schedule_key s) → inv_state i ≠ Draft → world_ok w →
  let '(w', r) := run E (schedules_tick ctx) w in is_ok r = false ∧ w_db w' = w_db w.
Proof.
  intros Hdue Hauto Hi Hkey Hst Hw.
  assert (sch_state s = SActive) as Hs.
  { assert (s ∈ schedule_due (dt_date_naive (env_now E (w_step w))) (w_db w)) as Hin by (rw Hdue; left).
    by apply elem_schedule_due in Hin as (_ & ? & _). }
  unfold schedules_tick. rewrite -> run_bind. cbn [run clock_now]. rewrite -> run_bind, run_db_query.
  destruct (env_db_ok E _); [|done]. change (w_db (tick w)) with (w_db w). rewrite -> Hdue.
  cbn [map_err prog_foldM]. set (w0 := tick (tick w)). change (w_db w) with (w_db w0).
  rewrite -> run_bind. unfold run_schedule. rewrite -> bool_decide_true by done. cbn [negb].
  rewrite -> run_bind. pose proof (run_draft_invoice E ctx (schedule_draft_input s) w0) as H.
  destruct (run E (draft_invoice ctx (schedule_draft_input s)) w0) as [w1 [out|e|]]; [|by split..].
  destruct H as [_ H]. destruct (do_idempotency_replay out).
  2: { destruct H as [_ H]. exfalso. by eapply find_by_key_none; [apply (H _ eq_refl)|exact Hi|]. }
  destruct H as (Edb & key & [= <-] & Hf & _). rewrite -> Hauto, !run_bind.
  apply find_by_key_some in Hf as [Hk' [k' Hi']].
  assert (k' = k) as -> by (by eapply (ok_idempotency _ (wo_db _ Hw))).
  assert (do_invoice out = i) as Eo by (change (w_db w0) with (w_db w) in Hi'; congruence).
  pose proof (run_issue_invoice E ctx (schedule_issue_input out) w1) as H.
  destruct (run E (issue_invoice ctx (schedule_issue_input out)) w1) as [w2 [o|e|]].
  - exfalso. destruct H as (i0 & c & m & tots & tot & [[Hg Hd] _ _ _ _ _ _]). cbn in Hg.
    unfold invoice_get in Hg. rewrite -> Edb, Eo in Hg. change (w_db w0) with (w_db w) in Hg.
    rewrite <- (ok_invoice_key _ (wo_db _ Hw) _ _ Hi) in Hg. congruence.
  - split; [done|]. by rw H Edb.
  - split; [done|]. by rw H Edb.
Qed.

(** Pausing and cancelling: against a database that answers, cancelling a
    known schedule always goes through and pausing it does exactly when it is
    not cancelled; only the state and the update time change, and a refusal
    changes nothing. *)
Lemma schedule_pause_cancel E ctx input w s :
  (∀ n, env_db_ok E n = true) → world_ok w →
  schedule_get (ssi_schedule_id input) (w_db w) = Some s →
  let stored s' w' := w_db w' = set_schedules (<[id_to_string (sch_id s) := s']> (schedules (w_db w))) (w_db w) in
  (∃ m w', let s' := set_sch_updated_at (env_now E m) (set_sch_state SCancelled s) in
     run E (schedule_cancel ctx input) w = (w', Ok s') ∧ stored s' w') ∧
  (sch_state s ≠ SCancelled → ∃ m w',
     let s' := set_sch_updated_at (env_now E m) (set_sch_state SPaused s) in
     run E (schedule_pause ctx input) w = (w', Ok s') ∧ stored s' w') ∧
  (sch_state s = SCancelled → ∃ msg,
     run E (schedule_pause ctx input) w = (tick w, Err (Validation msg))).
Proof.
  intros HE Hw Hg stored.
  assert (id_to_string (ssi_schedule_id input) = id_to_string (sch_id s)) as Ek
    by (by apply (ok_schedule _ (wo_db _ Hw)) in Hg as [? _]).
  assert (∃ c, customer_get (sch_customer_id s) (w_db w) = Some c) as [c Hc]
    by (by apply (ok_schedule _ (wo_db _ Hw)) in Hg as [_ ?]).
  assert (∀ to event_tag, bool_decide (sch_state s = SCancelled) && negb (bool_decide (to = SCancelled)) = false →
    ∃ m w', let s' := set_sch_updated_at (env_now E m) (set_sch_state to s) in
      run E (transition_schedule ctx input to event_tag) w = (w', Ok s') ∧ stored s' w') as Hgo.
  { intros to event_tag Hb. unfold transition_schedule. rewrite -> run_bind, run_db_query, HE, Hg.
    cbn [map_err or_not_found]. rewrite -> run_bind. cbn [run]. rewrite -> Hb, run_bind. cbn [run clock_now].
    exists (w_step (tick w)). set (s' := set_sch_updated_at _ _).
    rewrite -> run_bind, run_db_exec, HE. unfold schedule_save.
    change (sch_customer_id s') with (sch_customer_id s). change (w_db (tick (tick w))) with (w_db w).
    rewrite -> Hc. change (sch_id s') with (sch_id s). unfold schedule_get in Hg. rewrite -> Ek in Hg. rewrite -> Hg.
    assert (schedule_upserted (Some s) s' = s') as -> by (unfold s'; by destruct s). rewrite -> run_bind.
    match goal with |- context [run E (try_publish ?a ?b ?c ?d) ?w1] =>
      destruct (run_try_publish E a b c d w1) as [E1 [E2 _ _ _]];
      destruct (run E (try_publish a b c d) w1) as [w2 r] end.
    cbn [fst snd] in E1, E2. subst r. exists w2. split; [done|]. unfold stored. by rewrite -> E2. }
  split; [|split].
  - apply Hgo. by rewrite -> (bool_decide_true (SCancelled = SCancelled)), andb_false_r.
  - intros Hn. apply Hgo. by rewrite -> bool_decide_false.
  - intros Hc'. unfold schedule_pause, transition_schedule. rewrite -> run_bind, run_db_query, HE, Hg.
    cbn [map_err or_not_found]. rewrite -> run_bind. cbn [run]. rewrite -> Hc'. by eexists.
Qed.
End schedule_theorems.

(** ** Witnesses *)

#[local] Existing Instance Concrete.platform.
#[local] Existing Instance Concrete.platform_laws.
#[local] Existing Instance concrete_tera.

(** A monthly schedule from 2026-05-12 on, ending that summer. *)
Definition fx_plan (description : string) (auto_issue : bool) : ScheduleCreateInput :=
  {| sci_customer_id := fx_customer_id;
     sci_template_lines := [MkScheduleLineInput description (fx_dec 100) (fx_dec 9900) Standard];
     sci_currency := Currency.USD;
     sci_cadence := Monthly 1;
     sci_start_date := fx_date;
     sci_end_date := Some (Concrete.Date 2026 5 31 eq_refl);
     sci_auto_issue := auto_issue;
     sci_actor := ACli "ana";
     sci_channel := ChCli |}.
Definition fx_planned (description : string) (auto_issue : bool) : World :=
  (run fx_env (schedule_create fx_ctx (fx_plan description auto_issue)) (fx_world Sent)).1.
Lemma fx_planned_ok description auto_issue : world_ok (fx_planned description auto_issue).
Proof. apply (safe_run world_ok), schedule_create_safe, fx_world_ok. Qed.
Definition fx_schedule_id : ScheduleId := id_new ESchedule 12.

Lemma schedules_tick_moves_on_witness :
  ∃ w' out s next, run (fx_env_at fx_later) (schedules_tick fx_ctx) (fx_planned "Support" true) = (w', Ok out) ∧
    sto_ran_schedule_ids out = [sch_id s] ∧
    schedules (w_db w') !! id_to_string (sch_id s) = Some (moved_on s next fx_later).
Proof.
  assert (is_ok (run (fx_env_at fx_later) (schedules_tick fx_ctx) (fx_planned "Support" true)).2 = true)
    as Hok by reflexivity.
  destruct (run_ok _ _ _ Hok) as (w' & out & Hrun).
  destruct (schedules_tick_moves_on _ _ _ _ _ (fx_planned_ok "Support" true) Hrun)
    as (m & due & Hdue & _ & _ & _ & Hids & _ & _ & Hmoved).
  assert (length (sto_ran_schedule_ids out) = 1%nat) as Hlen.
  { apply (f_equal (λ r, match r.2 with Ok o => length (sto_ran_schedule_ids o) | _ => 0%nat end)) in Hrun.
    cbn [snd] in Hrun. symmetry. exact Hrun. }
  rewrite -> Hids, length_fmap in Hlen. destruct due as [|s [|]]; [done| |done].
  destruct (proj1 (Hdue s) ltac:(left)) as [[k Hk] _].
  destruct (Hmoved k s Hk ltac:(left)) as (next & Hrow & _).
  exists w', out, s, next. split; [exact Hrun|]. split; [exact Hids|].
  by destruct (ok_schedule _ (wo_db _ (fx_planned_ok "Support" true)) _ _ Hk) as [<- _].
Defined.

(** The process dies just after the invoice was issued. *)
Definition fx_interrupted : World :=
  crash_run (fx_env_at fx_later) 17 (schedules_tick fx_ctx) (fx_planned "Support" true).
Lemma fx_interrupted_ok : world_ok fx_interrupted.
Proof. apply (safe_crash_run world_ok), schedules_tick_safe, fx_planned_ok. Qed.

(** The situation, decided. *)
Definition stuck_head (today : NaiveDate) (d : Db) : bool :=
  match schedule_due today d with
  | s :: _ => sch_auto_issue s &&
      existsb (λ i, bool_decide (inv_idempotency_key i = Some (schedule_key s)) &&
                    negb (bool_decide (inv_state i = Draft))) (rows (invoices d))
  | [] => false
  end.
Lemma stuck_head_elim today d : stuck_head today d = true → ∃ s due k i,
  schedule_due today d = s :: due ∧ sch_auto_issue s = true ∧ invoices d !! k = Some i ∧
  inv_idempotency_key i = Some (schedule_key s) ∧ inv_state i ≠ Draft.
Proof.
  unfold stuck_head. destruct (schedule_due today d) as [|s due]; [done|].
  intros [Ha Hb]%andb_true_iff. apply existsb_exists in Hb as (i & Hin & Hb).
  apply andb_true_iff in Hb as [Hk%bool_decide_eq_true Hs%negb_true_iff%bool_decide_eq_false].
  apply list_elem_of_In, elem_of_rows in Hin as [k Hi]. by exists s, due, k, i.
Qed.

Lemma auto_issue_run_is_stuck_witness :
  w_db (run (fx_env_at fx_later) (schedules_tick fx_ctx) fx_interrupted).1 = w_db fx_interrupted.
Proof.
  assert (stuck_head (dt_date_naive fx_later) (w_db fx_interrupted) = true) as Hb by reflexivity.
  destruct (stuck_head_elim _ _ Hb) as (s & due & k & i & Hdue & Ha & Hi & Hk & Hs).
  pose proof (auto_issue_run_is_stuck (fx_env_at fx_later) fx_ctx fx_interrupted s due i k
    Hdue Ha Hi Hk Hs fx_interrupted_ok) as H.
  destruct (run _ _ _) as [w' r]. apply H.
Defined.

Lemma schedule_pause_cancel_witness :
  ∃ s w', run fx_env (schedule_cancel fx_ctx (MkScheduleStateChangeInput fx_schedule_id (ACli "ana") ChCli))
            (fx_planned "Support" true) = (w', Ok s) ∧ sch_state s = SCancelled.
Proof.
  destruct (schedule_get fx_schedule_id (w_db (fx_planned "Support" true))) as [s|] eqn:Hg;
    [|discriminate Hg].
  destruct (schedule_pause_cancel fx_env fx_ctx (MkScheduleStateChangeInput fx_schedule_id (ACli "ana") ChCli)
    (fx_planned "Support" true) s (λ _, eq_refl) (fx_planned_ok "Support" true) Hg) as [(m & w' & Hrun & _) _].
  eexists _, w'. split; [exact Hrun|]. reflexivity.
Defined.
