(* ===== verification/Transactions.v ===== *)
(** * Commands as sequences of transactions

    Every command commits only a few kinds of transactions, whatever it decides.
    [moves_by R p]: each interaction of [p], in any world, takes the world to one
    that [R] relates it to.  A relation that admits the transactions of
    [Transactions], and for the schedules those of [SavesSchedules], is kept by
    every command; [Interleave] and [Poison] each use this for a relation of
    their own. *)

From S2P Require Import Prelude External Concrete Money Ids Domain InvoiceFsm CreditNoteFsm Events Tax.
From S2P Require Import Store Codec ConcreteJson Render Command Effects Transition Invariant Evolution World.
From S2P Require Import Draft Pay Void Issue Send Credit Overdue Reminders Schedules Outbox Consumer SignedLink View.

Section moves.
Context `{P : Platform}.
Implicit Types (E : Env) (w : World) (R : relation World).

(** Committing [f] is a step of [R]. *)
Definition commits R (f : Db → SR Db) : Prop :=
  ∀ w d, f (w_db w) = Ok d → R w (set_w_db d (tick w)).
Definition holds_by R {X} (f : Env → World → World * X) : Prop := ∀ E w, R w (f E w).1.
Inductive moves_by R {A} : prog A → Prop :=
  | moves_ret a : moves_by R (Ret a)
  | moves_throw e : moves_by R (Throw e)
  | moves_crash : moves_by R Crash
  | moves_act X (f : Env → World → World * X) k :
      holds_by R f → (∀ x, moves_by R (k x)) → moves_by R (Act f k).

(** The transactions of the commands; those of the schedules are apart. *)
Class Transactions R := {
  tx_quiet w w' : same_db w w' → R w w';
  tx_customer c : commits R (customer_save c);
  tx_transition i h : commits R (save_transition i h);
  tx_all i ls h : commits R (save_all i ls h);
  tx_credit_note n h : commits R (save_cn_transition n h);
  tx_send i h key dest now : commits R (save_send i h key dest now);
  tx_reminder r : commits R (reminder_save r);
  tx_inbox r : commits R (inbox_insert r);
  tx_processed now id : commits R (λ d, Ok (inbox_mark_processed now id d));
  tx_published now id : commits R (λ d, Ok (history_mark_published now id d));
  tx_cn_published now id : commits R (λ d, Ok (cn_history_mark_published now id d));
}.
Class SavesSchedules R := saves_schedule s : commits R (schedule_save s).

Lemma moves_inv R {A} (p : prog A) :
  moves_by R p → match p with Act f k => holds_by R f ∧ ∀ x, moves_by R (k x) | _ => True end.
Proof. by destruct 1. Qed.

Context {R} `{TX : !Transactions R}.
Notation moves := (moves_by R).

Lemma moves_quiet {A} (p : prog A) : quiet p → moves p.
Proof.
  induction 1 as [| | |X f k Hf _ IH]; constructor; [|exact IH]. intros E w. by apply tx_quiet.
Qed.
Lemma moves_lift {Er A} (conv : Er → CoreError) (m : res Er A) : moves (lift conv m).
Proof. destruct m; constructor. Qed.
Lemma moves_db_exec f : commits R f → moves (db_exec f).
Proof.
  intros Hf. constructor; [|intros; apply moves_lift]. intros E w.
  destruct (env_db_ok E _); [|by apply tx_quiet, same_db_tick].
  destruct (f (w_db w)) eqn:Ed; [by apply Hf|by apply tx_quiet, same_db_tick..].
Qed.
Lemma moves_db_try_exec f : commits R f → moves (db_try_exec f).
Proof.
  intros Hf. constructor; [|constructor]. intros E w.
  destruct (env_db_ok E _); [|by apply tx_quiet, same_db_tick].
  destruct (f (w_db w)) eqn:Ed; [by apply Hf|by apply tx_quiet, same_db_tick..].
Qed.
Lemma moves_bind {A B} (p : prog A) (f : A → prog B) : moves p → (∀ a, moves (f a)) → moves (p ≫= f).
Proof. intros Hp Hf. induction Hp; cbn; try constructor; auto. Qed.
Lemma moves_catch {A} (p : prog A) : moves p → moves (catch p).
Proof. by induction 1; cbn; constructor. Qed.
Lemma moves_try_bind {Er A B} (p : prog (res Er A)) (f : A → prog (res Er B)) :
  moves p → (∀ a, moves (f a)) → moves (try_bind p f).
Proof. intros Hp Hf. apply moves_bind; [done|]. intros []; [done|constructor..]. Qed.
Lemma moves_try_conv {Er Er' A} (conv : Er → Er') (p : prog (res Er A)) : moves p → moves (try_conv conv p).
Proof. intros Hp. apply moves_bind; [done|constructor]. Qed.
Lemma moves_mapM {A B} (f : A → prog B) l : (∀ a, moves (f a)) → moves (prog_mapM f l).
Proof.
  intros H. induction l; cbn [prog_mapM]; [constructor|].
  apply moves_bind; [done|]. intros. apply moves_bind; [done|constructor].
Qed.
Lemma moves_foldM {A B} (f : B → A → prog B) b l : (∀ b a, moves (f b a)) → moves (prog_foldM f b l).
Proof.
  intros H. revert b. induction l; intros b; cbn [prog_foldM]; [constructor|]. apply moves_bind; [done|auto].
Qed.
Lemma moves_try_foldM {Er A B} (f : B → A → prog (res Er B)) b l :
  (∀ b a, moves (f b a)) → moves (try_foldM f b l).
Proof.
  intros H. revert b. induction l; intros b; cbn [try_foldM]; [constructor|]. apply moves_try_bind; [done|auto].
Qed.
End moves.


Create HintDb moves.
#[export] Hint Constructors moves_by : moves.
#[export] Hint Resolve moves_lift : moves.
#[export] Hint Extern 1 (moves_by _ (db_exec _)) => simple apply moves_db_exec : moves.
#[export] Hint Extern 1 (moves_by _ (db_try_exec _)) => simple apply moves_db_try_exec : moves.
#[export] Hint Extern 1 (commits _ _) => first
  [simple apply tx_customer|simple apply tx_transition|simple apply tx_all|simple apply tx_credit_note
  |simple apply tx_send|simple apply tx_reminder|simple apply tx_inbox|simple apply tx_processed
  |simple apply tx_published|simple apply tx_cn_published|simple apply saves_schedule] : moves.
(** Walks the binds and branches of a program down to its interactions. *)
Ltac walk_moves :=
  repeat (intros; cbn beta zeta; first
  [ solve [auto with moves]
  | solve [apply moves_quiet; auto with inv]
  | match goal with
    | |- moves_by _ (_ ≫= _) => apply moves_bind
    | |- moves_by _ (try_bind _ _) => apply moves_try_bind
    | |- moves_by _ (try_conv _ _) => apply moves_try_conv
    | |- moves_by _ (prog_foldM _ _ _) => apply moves_foldM
    | |- moves_by _ (try_foldM _ _ _) => apply moves_try_foldM
    | |- moves_by _ (prog_mapM _ _) => apply moves_mapM
    | |- moves_by _ (catch _) => apply moves_catch
    | |- moves_by _ (io_call _) => apply moves_quiet, quiet_io_call
    | |- moves_by _ (io_write _ _ _) => apply moves_quiet, quiet_io_write; intros; split; cbn; [done|lia]
    | |- moves_by _ (match ?x with _ => _ end) => destruct x
    end ]).

Section commands.
Context {P : Platform} {T : Tera} {S : Serde} {C : Crypto}.
Context {R : relation World} `{TX : !Transactions R} `{SS : !SavesSchedules R}.
Notation moves := (moves_by R).

Lemma moves_draft_invoice ctx input : moves (draft_invoice ctx input).
Proof. unfold draft_invoice, draft_replay, draft_new, draft_line. walk_moves. Qed.
Lemma moves_issue_invoice ctx input : moves (issue_invoice ctx input).
Proof. unfold issue_invoice, store_pdf. walk_moves. Qed.
Hint Resolve moves_draft_invoice moves_issue_invoice : moves.
Hint Resolve quiet_mark_overdue_ticker quiet_render_page : inv.
Lemma moves_mark_paid ctx input : moves (mark_paid ctx input).
Proof. unfold mark_paid. walk_moves. Qed.
Lemma moves_void_invoice ctx input : moves (void_invoice ctx input).
Proof. unfold void_invoice. walk_moves. Qed.
Lemma moves_send_invoice ctx input : moves (send_invoice ctx input).
Proof.
  unfold send_invoice, replay_if_keyed, try_replay, prepare_send, finalize_send, Send.dispatch, store_pdf.
  walk_moves.
Qed.
Lemma moves_send_invoice_render ctx input : moves (send_invoice_render ctx input).
Proof.
  unfold send_invoice_render, replay_if_keyed, try_replay, prepare_send, finalize_send, store_pdf. walk_moves.
Qed.
Lemma moves_create_credit_note ctx input : moves (create_credit_note ctx input).
Proof. unfold create_credit_note. walk_moves. Qed.
Lemma moves_issue_credit_note ctx input : moves (issue_credit_note ctx input).
Proof. unfold issue_credit_note. walk_moves. Qed.
Lemma moves_reminder_schedule ctx input : moves (reminder_schedule ctx input).
Proof. unfold reminder_schedule. walk_moves. Qed.
Lemma moves_reminder_cancel ctx input : moves (reminder_cancel ctx input).
Proof. unfold reminder_cancel. walk_moves. Qed.
Lemma moves_reminders_tick ctx : moves (reminders_tick ctx).
Proof. unfold reminders_tick, reminder_dispatch. walk_moves. Qed.
Lemma moves_schedule_create ctx input : moves (schedule_create ctx input).
Proof. unfold schedule_create, schedule_line. walk_moves. Qed.
Lemma moves_transition_schedule ctx input to topic : moves (transition_schedule ctx input to topic).
Proof. unfold transition_schedule. walk_moves. Qed.
Lemma moves_schedules_tick ctx : moves (schedules_tick ctx).
Proof. unfold schedules_tick, run_schedule. walk_moves. Qed.
Lemma moves_relay_table t limit stats :
  (∀ now r, commits R (λ d, Ok (ot_mark t now r d))) → moves (relay_table t limit stats).
Proof. intros Hm. unfold relay_table, relay_row, publish_one. walk_moves. Qed.
Lemma moves_run_outbox_relay limit : moves (run_outbox_relay limit).
Proof.
  unfold run_outbox_relay. apply moves_try_bind; intros; apply moves_relay_table; intros;
    [apply tx_published|apply tx_cn_published].
Qed.
Hint Resolve moves_mark_paid moves_create_credit_note : moves.
Lemma moves_receive remap ctx v : moves (receive remap ctx v).
Proof.
  unfold receive, dispatch_inbound_event, try_insert, Consumer.dispatch, handle_charge_created,
    handle_payment_received, handle_payment_refunded, mark_processed.
  walk_moves.
Qed.
Lemma moves_view_invoice ctx key now token : moves (view_invoice ctx key now token).
Proof. unfold view_invoice, load_view, advance_viewed, store_try, or_error. walk_moves. Qed.
Hint Resolve moves_void_invoice moves_send_invoice moves_send_invoice_render moves_issue_credit_note
  moves_reminder_schedule moves_reminder_cancel moves_reminders_tick moves_schedule_create
  moves_transition_schedule moves_schedules_tick moves_run_outbox_relay moves_receive moves_view_invoice : moves.
Lemma moves_overdue ctx : moves (mark_overdue_ticker ctx).
Proof. apply moves_quiet, quiet_mark_overdue_ticker. Qed.
Lemma moves_pause ctx input : moves (schedule_pause ctx input).
Proof. apply moves_transition_schedule. Qed.
Lemma moves_cancel ctx input : moves (schedule_cancel ctx input).
Proof. apply moves_transition_schedule. Qed.
End commands.
(** For a client with a relation of its own. *)
#[export] Hint Extern 1 (moves_by _ _) => first
  [simple apply moves_draft_invoice|simple apply moves_issue_invoice|simple apply moves_mark_paid
  |simple apply moves_void_invoice|simple apply moves_send_invoice|simple apply moves_send_invoice_render
  |simple apply moves_create_credit_note|simple apply moves_issue_credit_note|simple apply moves_overdue
  |simple apply moves_reminder_schedule|simple apply moves_reminder_cancel|simple apply moves_reminders_tick
  |simple apply moves_schedule_create|simple apply moves_transition_schedule|simple apply moves_pause
  |simple apply moves_cancel|simple apply moves_schedules_tick|simple apply moves_run_outbox_relay
  |simple apply moves_receive|simple apply moves_view_invoice] : moves.
