(* ===== verification/Payloads.v ===== *)
(** * The payloads of the domain events ([bus/src/events.rs])

    One struct per domain topic with its derived [Serialize] and [Deserialize],
    the topics, and [schema], which reads a payload as the struct of its topic.
    The commands build the same payloads inline as JSON: what they publish, and
    what the relay rebuilds from a row, is compared with the structs here. *)

From S2P Require Import Prelude External Concrete Money Ids Domain InvoiceFsm CreditNoteFsm Events Cadence.
From S2P Require Import Tax Store Codec ConcreteJson Wire Rows Render Command Effects Transition Invariant.
From S2P Require Import Evolution World Numbering Fixtures Outbox Draft Pay Void Issue Send Credit Overdue View.

(** ** Topics *)

Definition TOPIC_INVOICE_OVERDUE : string := "inv.billing.invoice.overdue".
Definition TOPIC_REMINDER_SCHEDULED : string := "inv.billing.reminder.scheduled".
Definition TOPIC_REMINDER_SENT : string := "inv.billing.reminder.sent".
Definition TOPIC_REMINDER_CANCELLED : string := "inv.billing.reminder.cancelled".
Definition TOPIC_SCHEDULE_CREATED : string := "inv.billing.schedule.created".
Definition TOPIC_SCHEDULE_PAUSED : string := "inv.billing.schedule.paused".
Definition TOPIC_SCHEDULE_CANCELLED : string := "inv.billing.schedule.cancelled".

Section payloads.
Context `{P : Platform} `{S : Serde}.

(** ** Structs *)

Record InvoiceDrafted := MkInvoiceDrafted { idr_invoice_id : string; idr_customer_id : string;
  idr_currency : string; idr_subtotal : string; idr_total : string; idr_actor : string; idr_channel : string }.
Record InvoiceIssued := MkInvoiceIssued { iis_invoice_id : string; iis_number : option string;
  iis_customer_id : string; iis_currency : string; iis_subtotal : string; iis_tax_total : string;
  iis_total : string; iis_nexus_review : bool; iis_actor : string; iis_channel : string }.
Record InvoiceSent := MkInvoiceSent { ise_invoice_id : string; ise_actor : string; ise_channel : string }.
Record InvoiceViewed := MkInvoiceViewed { ivw_invoice_id : string; ivw_actor : string; ivw_channel : string }.
Record InvoicePaid := MkInvoicePaid { ipd_invoice_id : string; ipd_amount_paid : string;
  ipd_cumulative_paid : string; ipd_total : string; ipd_actor : string; ipd_channel : string }.
Record InvoicePartiallyPaid := MkInvoicePartiallyPaid { ipp_invoice_id : string; ipp_amount_paid : string;
  ipp_cumulative_paid : string; ipp_total : string; ipp_actor : string; ipp_channel : string }.
Record InvoiceOverdue := MkInvoiceOverdue { iov_invoice_id : string; iov_due_at : DateTime;
  iov_actor : string }.
Record InvoiceVoided := MkInvoiceVoided { ivd_invoice_id : string; ivd_reason : option string;
  ivd_actor : string; ivd_channel : string }.
Record CreditNoteDrafted := MkCreditNoteDrafted { cdr_credit_note_id : string; cdr_invoice_id : string;
  cdr_amount : string; cdr_currency : string; cdr_refund_ref : option string; cdr_actor : string;
  cdr_channel : string }.
Record CreditNoteIssued := MkCreditNoteIssued { cis_credit_note_id : string; cis_number : option string;
  cis_invoice_id : string; cis_amount : string; cis_currency : string; cis_actor : string;
  cis_channel : string }.
Record ReminderScheduled := MkReminderScheduled { rsc_reminder_id : string; rsc_invoice_id : string;
  rsc_due_at : DateTime; rsc_channel : string; rsc_actor : string }.
Record ReminderSent := MkReminderSent { rse_reminder_id : string; rse_invoice_id : string;
  rse_channel : string; rse_sent_at : DateTime }.
Record ReminderCancelled := MkReminderCancelled { rca_reminder_id : string; rca_invoice_id : string;
  rca_reason : option string; rca_actor : string }.
Record ScheduleCreated := MkScheduleCreated { scr_schedule_id : string; scr_customer_id : string;
  scr_cadence : string; scr_currency : string; scr_auto_issue : bool; scr_start_date : NaiveDate;
  scr_actor : string; scr_channel : string }.
Record SchedulePaused := MkSchedulePaused { spa_schedule_id : string; spa_state : string;
  spa_actor : string; spa_channel : string }.
Record ScheduleCancelled := MkScheduleCancelled { sca_schedule_id : string; sca_state : string;
  sca_reason : option string }.

(** ** Serialised *)

Definition InvoiceDrafted_json (p : InvoiceDrafted) : json :=
  JObj [("invoice_id", JStr (idr_invoice_id p)); ("customer_id", JStr (idr_customer_id p));
        ("currency", JStr (idr_currency p)); ("subtotal", JStr (idr_subtotal p));
        ("total", JStr (idr_total p)); ("actor", JStr (idr_actor p)); ("channel", JStr (idr_channel p))].
Definition InvoiceIssued_json (p : InvoiceIssued) : json :=
  JObj [("invoice_id", JStr (iis_invoice_id p)); ("number", jopt (iis_number p));
        ("customer_id", JStr (iis_customer_id p)); ("currency", JStr (iis_currency p));
        ("subtotal", JStr (iis_subtotal p)); ("tax_total", JStr (iis_tax_total p));
        ("total", JStr (iis_total p)); ("nexus_review", JBool (iis_nexus_review p));
        ("actor", JStr (iis_actor p)); ("channel", JStr (iis_channel p))].
Definition InvoiceSent_json (p : InvoiceSent) : json :=
  JObj [("invoice_id", JStr (ise_invoice_id p)); ("actor", JStr (ise_actor p)); ("channel", JStr (ise_channel p))].
Definition InvoiceViewed_json (p : InvoiceViewed) : json :=
  JObj [("invoice_id", JStr (ivw_invoice_id p)); ("actor", JStr (ivw_actor p)); ("channel", JStr (ivw_channel p))].
Definition InvoicePaid_json (p : InvoicePaid) : json :=
  JObj [("invoice_id", JStr (ipd_invoice_id p)); ("amount_paid", JStr (ipd_amount_paid p));
        ("cumulative_paid", JStr (ipd_cumulative_paid p)); ("total", JStr (ipd_total p));
        ("actor", JStr (ipd_actor p)); ("channel", JStr (ipd_channel p))].
Definition InvoicePartiallyPaid_json (p : InvoicePartiallyPaid) : json :=
  JObj [("invoice_id", JStr (ipp_invoice_id p)); ("amount_paid", JStr (ipp_amount_paid p));
        ("cumulative_paid", JStr (ipp_cumulative_paid p)); ("total", JStr (ipp_total p));
        ("actor", JStr (ipp_actor p)); ("channel", JStr (ipp_channel p))].
Definition InvoiceOverdue_json (p : InvoiceOverdue) : json :=
  JObj [("invoice_id", JStr (iov_invoice_id p)); ("due_at", jtime (iov_due_at p)); ("actor", JStr (iov_actor p))].
Definition InvoiceVoided_json (p : InvoiceVoided) : json :=
  JObj ([("invoice_id", JStr (ivd_invoice_id p))] ++
        jskip "reason" (ivd_reason p) ++
        [("actor", JStr (ivd_actor p)); ("channel", JStr (ivd_channel p))]).
Definition CreditNoteDrafted_json (p : CreditNoteDrafted) : json :=
  JObj ([("credit_note_id", JStr (cdr_credit_note_id p)); ("invoice_id", JStr (cdr_invoice_id p));
        ("amount", JStr (cdr_amount p)); ("currency", JStr (cdr_currency p))] ++
        jskip "refund_ref" (cdr_refund_ref p) ++
        [("actor", JStr (cdr_actor p)); ("channel", JStr (cdr_channel p))]).
Definition CreditNoteIssued_json (p : CreditNoteIssued) : json :=
  JObj [("credit_note_id", JStr (cis_credit_note_id p)); ("number", jopt (cis_number p));
        ("invoice_id", JStr (cis_invoice_id p)); ("amount", JStr (cis_amount p));
        ("currency", JStr (cis_currency p)); ("actor", JStr (cis_actor p));
        ("channel", JStr (cis_channel p))].
Definition ReminderScheduled_json (p : ReminderScheduled) : json :=
  JObj [("reminder_id", JStr (rsc_reminder_id p)); ("invoice_id", JStr (rsc_invoice_id p));
        ("due_at", jtime (rsc_due_at p)); ("channel", JStr (rsc_channel p)); ("actor", JStr (rsc_actor p))].
Definition ReminderSent_json (p : ReminderSent) : json :=
  JObj [("reminder_id", JStr (rse_reminder_id p)); ("invoice_id", JStr (rse_invoice_id p));
        ("channel", JStr (rse_channel p)); ("sent_at", jtime (rse_sent_at p))].
Definition ReminderCancelled_json (p : ReminderCancelled) : json :=
  JObj ([("reminder_id", JStr (rca_reminder_id p)); ("invoice_id", JStr (rca_invoice_id p))] ++
        jskip "reason" (rca_reason p) ++
        [("actor", JStr (rca_actor p))]).
Definition ScheduleCreated_json (p : ScheduleCreated) : json :=
  JObj [("schedule_id", JStr (scr_schedule_id p)); ("customer_id", JStr (scr_customer_id p));
        ("cadence", JStr (scr_cadence p)); ("currency", JStr (scr_currency p));
        ("auto_issue", JBool (scr_auto_issue p)); ("start_date", jdate (scr_start_date p));
        ("actor", JStr (scr_actor p)); ("channel", JStr (scr_channel p))].
Definition SchedulePaused_json (p : SchedulePaused) : json :=
  JObj [("schedule_id", JStr (spa_schedule_id p)); ("state", JStr (spa_state p)); ("actor", JStr (spa_actor p));
        ("channel", JStr (spa_channel p))].
Definition ScheduleCancelled_json (p : ScheduleCancelled) : json :=
  JObj ([("schedule_id", JStr (sca_schedule_id p)); ("state", JStr (sca_state p))] ++
        jskip "reason" (sca_reason p)).

(** ** Deserialised *)

Definition InvoiceDrafted_from_json (v : json) : SR InvoiceDrafted :=
  ms ← struct_fields ["invoice_id"; "customer_id"; "currency"; "subtotal"; "total"; "actor"; "channel"] v;
  invoice_id ← str_field "invoice_id" ms;
  customer_id ← str_field "customer_id" ms;
  currency ← str_field "currency" ms;
  subtotal ← str_field "subtotal" ms;
  total ← str_field "total" ms;
  actor ← str_field "actor" ms;
  channel ← str_field "channel" ms;
  Ok (MkInvoiceDrafted invoice_id customer_id currency subtotal total actor channel).
Definition InvoiceIssued_from_json (v : json) : SR InvoiceIssued :=
  ms ← struct_fields ["invoice_id"; "number"; "customer_id"; "currency"; "subtotal"; "tax_total"; "total";
      "nexus_review"; "actor"; "channel"] v;
  invoice_id ← str_field "invoice_id" ms;
  number ← opt_field "number" ms;
  customer_id ← str_field "customer_id" ms;
  currency ← str_field "currency" ms;
  subtotal ← str_field "subtotal" ms;
  tax_total ← str_field "tax_total" ms;
  total ← str_field "total" ms;
  nexus_review ← required bool_de "nexus_review" ms;
  actor ← str_field "actor" ms;
  channel ← str_field "channel" ms;
  Ok (MkInvoiceIssued invoice_id number customer_id currency subtotal tax_total total nexus_review actor channel).
Definition InvoiceSent_from_json (v : json) : SR InvoiceSent :=
  ms ← struct_fields ["invoice_id"; "actor"; "channel"] v;
  invoice_id ← str_field "invoice_id" ms;
  actor ← str_field "actor" ms;
  channel ← str_field "channel" ms;
  Ok (MkInvoiceSent invoice_id actor channel).
Definition InvoiceViewed_from_json (v : json) : SR InvoiceViewed :=
  ms ← struct_fields ["invoice_id"; "actor"; "channel"] v;
  invoice_id ← str_field "invoice_id" ms;
  actor ← str_field "actor" ms;
  channel ← str_field "channel" ms;
  Ok (MkInvoiceViewed invoice_id actor channel).
Definition InvoicePaid_from_json (v : json) : SR InvoicePaid :=
  ms ← struct_fields ["invoice_id"; "amount_paid"; "cumulative_paid"; "total"; "actor"; "channel"] v;
  invoice_id ← str_field "invoice_id" ms;
  amount_paid ← str_field "amount_paid" ms;
  cumulative_paid ← str_field "cumulative_paid" ms;
  total ← str_field "total" ms;
  actor ← str_field "actor" ms;
  channel ← str_field "channel" ms;
  Ok (MkInvoicePaid invoice_id amount_paid cumulative_paid total actor channel).
Definition InvoicePartiallyPaid_from_json (v : json) : SR InvoicePartiallyPaid :=
  ms ← struct_fields ["invoice_id"; "amount_paid"; "cumulative_paid"; "total"; "actor"; "channel"] v;
  invoice_id ← str_field "invoice_id" ms;
  amount_paid ← str_field "amount_paid" ms;
  cumulative_paid ← str_field "cumulative_paid" ms;
  total ← str_field "total" ms;
  actor ← str_field "actor" ms;
  channel ← str_field "channel" ms;
  Ok (MkInvoicePartiallyPaid invoice_id amount_paid cumulative_paid total actor channel).
Definition InvoiceOverdue_from_json (v : json) : SR InvoiceOverdue :=
  ms ← struct_fields ["invoice_id"; "due_at"; "actor"] v;
  invoice_id ← str_field "invoice_id" ms;
  due_at ← required DateTime_from_json "due_at" ms;
  actor ← str_field "actor" ms;
  Ok (MkInvoiceOverdue invoice_id due_at actor).
Definition InvoiceVoided_from_json (v : json) : SR InvoiceVoided :=
  ms ← struct_fields ["invoice_id"; "reason"; "actor"; "channel"] v;
  invoice_id ← str_field "invoice_id" ms;
  reason ← opt_field "reason" ms;
  actor ← str_field "actor" ms;
  channel ← str_field "channel" ms;
  Ok (MkInvoiceVoided invoice_id reason actor channel).
Definition CreditNoteDrafted_from_json (v : json) : SR CreditNoteDrafted :=
  ms ← struct_fields ["credit_note_id"; "invoice_id"; "amount"; "currency"; "refund_ref"; "actor"; "channel"] v;
  credit_note_id ← str_field "credit_note_id" ms;
  invoice_id ← str_field "invoice_id" ms;
  amount ← str_field "amount" ms;
  currency ← str_field "currency" ms;
  refund_ref ← opt_field "refund_ref" ms;
  actor ← str_field "actor" ms;
  channel ← str_field "channel" ms;
  Ok (MkCreditNoteDrafted credit_note_id invoice_id amount currency refund_ref actor channel).
Definition CreditNoteIssued_from_json (v : json) : SR CreditNoteIssued :=
  ms ← struct_fields ["credit_note_id"; "number"; "invoice_id"; "amount"; "currency"; "actor"; "channel"] v;
  credit_note_id ← str_field "credit_note_id" ms;
  number ← opt_field "number" ms;
  invoice_id ← str_field "invoice_id" ms;
  amount ← str_field "amount" ms;
  currency ← str_field "currency" ms;
  actor ← str_field "actor" ms;
  channel ← str_field "channel" ms;
  Ok (MkCreditNoteIssued credit_note_id number invoice_id amount currency actor channel).
Definition ReminderScheduled_from_json (v : json) : SR ReminderScheduled :=
  ms ← struct_fields ["reminder_id"; "invoice_id"; "due_at"; "channel"; "actor"] v;
  reminder_id ← str_field "reminder_id" ms;
  invoice_id ← str_field "invoice_id" ms;
  due_at ← required DateTime_from_json "due_at" ms;
  channel ← str_field "channel" ms;
  actor ← str_field "actor" ms;
  Ok (MkReminderScheduled reminder_id invoice_id due_at channel actor).
Definition ReminderSent_from_json (v : json) : SR ReminderSent :=
  ms ← struct_fields ["reminder_id"; "invoice_id"; "channel"; "sent_at"] v;
  reminder_id ← str_field "reminder_id" ms;
  invoice_id ← str_field "invoice_id" ms;
  channel ← str_field "channel" ms;
  sent_at ← required DateTime_from_json "sent_at" ms;
  Ok (MkReminderSent reminder_id invoice_id channel sent_at).
Definition ReminderCancelled_from_json (v : json) : SR ReminderCancelled :=
  ms ← struct_fields ["reminder_id"; "invoice_id"; "reason"; "actor"] v;
  reminder_id ← str_field "reminder_id" ms;
  invoice_id ← str_field "invoice_id" ms;
  reason ← opt_field "reason" ms;
  actor ← str_field "actor" ms;
  Ok (MkReminderCancelled reminder_id invoice_id reason actor).
Definition ScheduleCreated_from_json (v : json) : SR ScheduleCreated :=
  ms ← struct_fields ["schedule_id"; "customer_id"; "cadence"; "currency"; "auto_issue"; "start_date";
      "actor"; "channel"] v;
  schedule_id ← str_field "schedule_id" ms;
  customer_id ← str_field "customer_id" ms;
  cadence ← str_field "cadence" ms;
  currency ← str_field "currency" ms;
  auto_issue ← required bool_de "auto_issue" ms;
  start_date ← required NaiveDate_from_json "start_date" ms;
  actor ← str_field "actor" ms;
  channel ← str_field "channel" ms;
  Ok (MkScheduleCreated schedule_id customer_id cadence currency auto_issue start_date actor channel).
Definition SchedulePaused_from_json (v : json) : SR SchedulePaused :=
  ms ← struct_fields ["schedule_id"; "state"; "actor"; "channel"] v;
  schedule_id ← str_field "schedule_id" ms;
  state ← str_field "state" ms;
  actor ← str_field "actor" ms;
  channel ← str_field "channel" ms;
  Ok (MkSchedulePaused schedule_id state actor channel).
Definition ScheduleCancelled_from_json (v : json) : SR ScheduleCancelled :=
  ms ← struct_fields ["schedule_id"; "state"; "reason"] v;
  schedule_id ← str_field "schedule_id" ms;
  state ← str_field "state" ms;
  reason ← opt_field "reason" ms;
  Ok (MkScheduleCancelled schedule_id state reason).

(** ** The struct of a topic *)

Definition schemas : list (string * (json → bool)) :=
  [(TOPIC_INVOICE_DRAFTED, λ v, is_ok (InvoiceDrafted_from_json v));
   (TOPIC_INVOICE_ISSUED, λ v, is_ok (InvoiceIssued_from_json v));
   (TOPIC_INVOICE_SENT, λ v, is_ok (InvoiceSent_from_json v));
   (TOPIC_INVOICE_VIEWED, λ v, is_ok (InvoiceViewed_from_json v));
   (TOPIC_INVOICE_PAID, λ v, is_ok (InvoicePaid_from_json v));
   (TOPIC_INVOICE_PARTIALLY_PAID, λ v, is_ok (InvoicePartiallyPaid_from_json v));
   (TOPIC_INVOICE_OVERDUE, λ v, is_ok (InvoiceOverdue_from_json v));
   (TOPIC_INVOICE_VOIDED, λ v, is_ok (InvoiceVoided_from_json v));
   (TOPIC_CREDITNOTE_DRAFTED, λ v, is_ok (CreditNoteDrafted_from_json v));
   (TOPIC_CREDITNOTE_ISSUED, λ v, is_ok (CreditNoteIssued_from_json v));
   (TOPIC_REMINDER_SCHEDULED, λ v, is_ok (ReminderScheduled_from_json v));
   (TOPIC_REMINDER_SENT, λ v, is_ok (ReminderSent_from_json v));
   (TOPIC_REMINDER_CANCELLED, λ v, is_ok (ReminderCancelled_from_json v));
   (TOPIC_SCHEDULE_CREATED, λ v, is_ok (ScheduleCreated_from_json v));
   (TOPIC_SCHEDULE_PAUSED, λ v, is_ok (SchedulePaused_from_json v));
   (TOPIC_SCHEDULE_CANCELLED, λ v, is_ok (ScheduleCancelled_from_json v))].
Definition schema (topic : string) : option (json → bool) :=
  snd <$> List.find (λ s, String.eqb s.1 topic) schemas.
Definition reads_as (topic : string) (v : json) : bool :=
  match schema topic with Some read => read v | None => false end.
End payloads.

(** ** Round trips *)

Section round_trips.
Context {P : Platform} {L : PlatformLaws P} {S : Serde} {SL : SerdeLaws S}.

Ltac payload_round_trip :=
  intros []; intros; cbn in *;
  repeat match goal with o : option string |- _ => destruct o end;
  try (unfold DateTime_from_json, jtime; rewrite -> datetime_de_serialize by tauto); try (rewrite -> nd_string_roundtrip by done);
  reflexivity.

(** Every payload struct survives its own JSON: what a producer serialises, a
    consumer of the same struct reads back field by field, dates and instants of
    the years 0 to 9999 included. *)
Lemma payloads_round_trip :
  (∀ p, InvoiceDrafted_from_json (InvoiceDrafted_json p) = Ok p) ∧
  (∀ p, InvoiceIssued_from_json (InvoiceIssued_json p) = Ok p) ∧
  (∀ p, InvoiceSent_from_json (InvoiceSent_json p) = Ok p) ∧
  (∀ p, InvoiceViewed_from_json (InvoiceViewed_json p) = Ok p) ∧
  (∀ p, InvoicePaid_from_json (InvoicePaid_json p) = Ok p) ∧
  (∀ p, InvoicePartiallyPaid_from_json (InvoicePartiallyPaid_json p) = Ok p) ∧
  (∀ p, time_ok (iov_due_at p) → InvoiceOverdue_from_json (InvoiceOverdue_json p) = Ok p) ∧
  (∀ p, InvoiceVoided_from_json (InvoiceVoided_json p) = Ok p) ∧
  (∀ p, CreditNoteDrafted_from_json (CreditNoteDrafted_json p) = Ok p) ∧
  (∀ p, CreditNoteIssued_from_json (CreditNoteIssued_json p) = Ok p) ∧
  (∀ p, time_ok (rsc_due_at p) → ReminderScheduled_from_json (ReminderScheduled_json p) = Ok p) ∧
  (∀ p, time_ok (rse_sent_at p) → ReminderSent_from_json (ReminderSent_json p) = Ok p) ∧
  (∀ p, ReminderCancelled_from_json (ReminderCancelled_json p) = Ok p) ∧
  (∀ p, date_ok (scr_start_date p) → ScheduleCreated_from_json (ScheduleCreated_json p) = Ok p) ∧
  (∀ p, SchedulePaused_from_json (SchedulePaused_json p) = Ok p) ∧
  (∀ p, ScheduleCancelled_from_json (ScheduleCancelled_json p) = Ok p).
Proof. split_and!; unfold time_ok, date_ok; payload_round_trip. Qed.
End round_trips.

(** ** The relay *)

Section relay.
Context {P : Platform} {S : Serde}.

(** What the relay publishes under the domain topics is not what the structs of
    those topics read: an invoice row is read as the struct of its topic exactly
    when the topic is sent, viewed or voided and the row has an actor, and a
    credit-note row never is. *)
Lemma relay_payloads_mismatch row cn_row topic cn_topic :
  invoice_domain_topic (h_event row) (h_to_state row) = Some topic →
  credit_note_domain_topic (cnh_event cn_row) (cnh_to_state cn_row) = Some cn_topic →
  reads_as topic (invoice_domain_payload row) =
    bool_decide (topic ∈ [TOPIC_INVOICE_SENT; TOPIC_INVOICE_VIEWED; TOPIC_INVOICE_VOIDED]) &&
    bool_decide (is_Some (h_actor row)) ∧
  reads_as cn_topic (credit_note_domain_payload cn_row) = false.
Proof.
  intros Ht Hct. split.
  - unfold invoice_domain_topic in Ht.
    destruct (h_to_state row); destruct (String.eqb _ _) in Ht; try discriminate Ht;
      injection Ht as <-; unfold invoice_domain_payload;
      destruct (h_actor row), (h_reason row); reflexivity.
  - unfold credit_note_domain_topic in Hct.
    destruct (cnh_to_state cn_row); destruct (String.eqb _ _) in Hct; try discriminate Hct;
      injection Hct as <-;
      unfold credit_note_domain_payload; destruct (cnh_actor cn_row); reflexivity.
Qed.
End relay.

(** ** Witness *)

#[local] Existing Instance Concrete.platform.
#[local] Existing Instance Concrete.platform_laws.
#[local] Existing Instance ConcreteJson.serde.
#[local] Existing Instance ConcreteJson.serde_laws.

Definition fx_cn_row : CreditNoteStateHistory :=
  MkCnHistory (id_new EHistory 901) (id_new ECreditNote 5) (Some CnDraft) CnIssued "issue" (Some "ana") HCli
    None fx_time None ∅.

(** A paid invoice's event is read as no payment, a sent one's as a delivery. *)
Lemma relay_payloads_mismatch_witness :
  reads_as TOPIC_INVOICE_PAID (invoice_domain_payload (fx_row 900 (Some Sent) Paid "pay")) = false ∧
  reads_as TOPIC_INVOICE_SENT (invoice_domain_payload (fx_row 901 (Some Issued) Sent "send")) = true.
Proof.
  split.
  - apply (relay_payloads_mismatch (fx_row 900 (Some Sent) Paid "pay") fx_cn_row TOPIC_INVOICE_PAID
      TOPIC_CREDITNOTE_ISSUED); reflexivity.
  - apply (relay_payloads_mismatch (fx_row 901 (Some Issued) Sent "send") fx_cn_row TOPIC_INVOICE_SENT
      TOPIC_CREDITNOTE_ISSUED); reflexivity.
Defined.

Lemma payloads_round_trip_witness :
  ReminderSent_from_json (ReminderSent_json (MkReminderSent "rem_1" "inv_1" "webhook" fx_time)) =
  Ok (MkReminderSent "rem_1" "inv_1" "webhook" fx_time).
Proof.
  destruct payloads_round_trip as (_ & _ & _ & _ & _ & _ & _ & _ & _ & _ & _ & H & _).
  apply H. split; [split|]; vm_compute; congruence.
Defined.
