(* ===== verification/System.v ===== *)
(** * The whole command layer, with the bus

    [Command] lists the commands of [crates/commands] (with the customer upsert
    the callers make directly), a pass of the outbox relay, the delivery of a bus
    event and the opening of a signed link; [perform] runs one.  [reaches] is what any sequence of them can do
    to the world, each against an environment of its own, each run to its end or
    killed at any interaction. *)

From S2P Require Import Prelude Rounding External Concrete Money Ids Domain InvoiceFsm.
From S2P Require Import CreditNoteFsm Events Tax Store Codec ConcreteJson Render Command Effects Transition Invariant.
From S2P Require Import Evolution World Numbering Fixtures Draft Pay Void Issue Send Credit Overdue.
From S2P Require Import Reminders Schedules Outbox Consumer SignedLink View.

Section system.
Context `{P : Platform} {T : Tera} {S : Serde} {C : Crypto}.

Inductive Command :=
  | SaveCustomer (c : Customer)
  | DraftInvoice (input : DraftInvoiceInput)
  | IssueInvoice (input : IssueInvoiceInput)
  | SendInvoice (input : SendInvoiceInput)
  | SendInvoiceRender (input : SendInvoiceRenderInput)
  | MarkPaid (input : MarkPaidInput)
  | VoidInvoice (input : VoidInvoiceInput)
  | CreateCreditNote (input : CreateCreditNoteInput)
  | IssueCreditNote (input : IssueCreditNoteInput)
  | MarkOverdue
  | ReminderSchedule (input : ReminderScheduleInput)
  | ReminderCancel (input : ReminderCancelInput)
  | RemindersTick
  | ScheduleCreate (input : ScheduleCreateInput)
  | SchedulePause (input : ScheduleStateChangeInput)
  | ScheduleCancel (input : ScheduleStateChangeInput)
  | SchedulesTick
  | RelayOutbox (limit : Z)
  | Receive (remap : TopicMap) (v : Delivery)
  | ViewLink (link_signing_key : string) (now_unix : Z) (token : string).

Definition forget {A} (p : prog A) : prog () := _ ← p; Ret ().

Definition perform (ctx : CoreCtx) (c : Command) : prog () :=
  match c with
  | SaveCustomer c => db_exec (customer_save c)
  | DraftInvoice input => forget (draft_invoice ctx input)
  | IssueInvoice input => forget (issue_invoice ctx input)
  | SendInvoice input => forget (send_invoice ctx input)
  | SendInvoiceRender input => forget (send_invoice_render ctx input)
  | MarkPaid input => forget (mark_paid ctx input)
  | VoidInvoice input => forget (void_invoice ctx input)
  | CreateCreditNote input => forget (create_credit_note ctx input)
  | IssueCreditNote input => forget (issue_credit_note ctx input)
  | MarkOverdue => forget (mark_overdue_ticker ctx)
  | ReminderSchedule input => forget (reminder_schedule ctx input)
  | ReminderCancel input => forget (reminder_cancel ctx input)
  | RemindersTick => forget (reminders_tick ctx)
  | ScheduleCreate input => forget (schedule_create ctx input)
  | SchedulePause input => forget (schedule_pause ctx input)
  | ScheduleCancel input => forget (schedule_cancel ctx input)
  | SchedulesTick => forget (schedules_tick ctx)
  | RelayOutbox limit => forget (run_outbox_relay limit)
  | Receive remap v => forget (receive remap ctx v)
  | ViewLink key now_unix token => forget (view_invoice ctx key now_unix token)
  end.

(** What commits more than one transaction. *)
Definition is_tick (c : Command) : bool :=
  match c with RemindersTick | SchedulesTick | RelayOutbox _ | Receive _ _ => true | _ => false end.

(** One command, complete or killed after [n] interactions. *)
Inductive happens : World → World → Prop :=
  | happens_run E ctx c w : happens w (run E (perform ctx c) w).1
  | happens_crash E ctx c n w : happens w (crash_run E n (perform ctx c) w).

Definition reaches : World → World → Prop := rtc happens.

(** A fresh installation. *)
Definition empty_db : Db := MkDb ∅ ∅ ∅ ∅ ∅ ∅ [] [] ∅ ∅.
Definition empty_world : World := MkWorld empty_db 0 [] ∅ [] ∅.
End system.

Section system_theorems.
Context {P : Platform} {L : PlatformLaws P} {T : Tera} {S : Serde} {C : Crypto}.

Lemma world_ok_customer w c d :
  world_ok w → customer_save c (w_db w) = Ok d → world_ok (set_w_db d (tick w)).
Proof.
  intros Hw H. apply world_ok_same; [done|by eapply customer_save_ok; [|apply Hw]|..];
    unfold customer_save in H; by injection H as <-.
Qed.
Lemma since_customer d0 c E w : ok_since d0 w → safe (ok_since d0) E (db_exec (customer_save c)) w.
Proof.
  intros Hw. apply wpc_db_exec; [apply ok_since_stable|done..|]. intros d Hd. split; [|done].
  apply since_same; [done|by eapply world_ok_customer; [apply Hw|]|..];
    unfold customer_save in Hd; by injection Hd as <-.
Qed.

Lemma forget_since {A} d0 E (p : prog A) w :
  safe (ok_since d0) E p w → safe (ok_since d0) E (forget p) w.
Proof. intros Hp. unfold forget. by apply safe_bind. Qed.

Lemma perform_since d0 E ctx c w : ok_since d0 w → safe (ok_since d0) E (perform ctx c) w.
Proof.
  intros Hw. destruct c; cbn [perform]; [by apply since_customer|apply forget_since..].
  - by apply draft_invoice_since.
  - by apply issue_invoice_since.
  - by apply send_invoice_since.
  - by apply send_invoice_render_since.
  - by apply mark_paid_since.
  - by apply void_invoice_since.
  - by apply create_credit_note_since.
  - by apply issue_credit_note_since.
  - apply safe_quiet; [apply ok_since_stable|apply quiet_mark_overdue_ticker|done].
  - by apply reminder_schedule_since.
  - by apply reminder_cancel_since.
  - by apply reminders_tick_since.
  - by apply schedule_create_since.
  - by apply transition_schedule_since.
  - by apply transition_schedule_since.
  - by apply schedules_tick_since.
  - by apply run_outbox_relay_since.
  - by apply receive_since.
  - by apply view_invoice_since.
Qed.

Lemma reaches_since w w' : reaches w w' → world_ok w → ok_since (w_db w) w'.
Proof.
  intros H Hw. apply ok_since_refl in Hw. revert Hw. generalize (w_db w) as d0.
  induction H as [w|w w1 w' Hs _ IH]; intros d0 Hw; [done|]. apply IH.
  destruct Hs; [apply (safe_run (ok_since d0))|apply (safe_crash_run (ok_since d0))]; by apply perform_since.
Qed.

Lemma empty_world_ok : world_ok empty_world.
Proof.
  split; [split|split]; cbn; try done; try (intros *; by rewrite lookup_empty); try constructor.
Qed.

Lemma perform_atomic ctx c : is_tick c = false → atomic (perform ctx c).
Proof.
  assert (∀ A (p : prog A), atomic p → atomic (forget p)) as Hf
    by (intros A p Hp; apply atomic_bind_write; [done|constructor]).
  intros Hc. destruct c; cbn [perform]; try discriminate Hc; [apply atomic_db_exec|apply Hf..].
  - apply draft_invoice_atomic.
  - apply issue_invoice_atomic.
  - apply send_invoice_atomic.
  - apply send_invoice_render_atomic.
  - apply mark_paid_atomic.
  - apply void_invoice_atomic.
  - apply create_credit_note_atomic.
  - apply issue_credit_note_atomic.
  - apply atomic_quiet, quiet_mark_overdue_ticker.
  - apply reminder_schedule_atomic.
  - apply reminder_cancel_atomic.
  - apply schedule_create_atomic.
  - apply transition_schedule_atomic.
  - apply transition_schedule_atomic.
  - apply view_invoice_atomic.
Qed.

(** C1: whatever sequence of commands, relay passes, bus deliveries and link views ran on a
    fresh installation, each to its end or killed anywhere: numbers and idempotency keys are unique, the fields
    of an invoice agree with its state, its history is an unbroken path of legal
    transitions from creation to that state, every invoice has a customer, every
    line, credit note, reminder and recorded send has an invoice. *)
Theorem reachable_data_is_consistent w :
  reaches empty_world w →
  unique_by inv_number (invoices (w_db w)) ∧ unique_by inv_idempotency_key (invoices (w_db w)) ∧
  unique_by cn_number (credit_notes (w_db w)) ∧
  (∀ k i, invoices (w_db w) !! k = Some i →
     k = id_to_string (inv_id i) ∧ invoice_consistent i ∧
     audit None (rows_of k (invoice_state_history (w_db w))) (Some (inv_state i)) ∧
     ∃ c, customer_get (inv_customer_id i) (w_db w) = Some c) ∧
  (∀ k n, credit_notes (w_db w) !! k = Some n →
     credit_note_consistent n ∧
     cn_audit None (cn_rows_of k (credit_note_state_history (w_db w))) (Some (cn_state n)) ∧
     ∃ i, invoices (w_db w) !! id_to_string (cn_invoice_id n) = Some i) ∧
  (∀ k l, invoice_lines (w_db w) !! k = Some l →
     ∃ i, invoices (w_db w) !! id_to_string (line_invoice_id l) = Some i) ∧
  (∀ k r, reminders (w_db w) !! k = Some r →
     ∃ i, invoices (w_db w) !! id_to_string (rem_invoice_id r) = Some i) ∧
  (∀ k r, send_idempotency (w_db w) !! k = Some r →
     ∃ i, invoices (w_db w) !! id_to_string (si_invoice_id r) = Some i).
Proof.
  intros H. destruct (reaches_since _ _ H empty_world_ok) as [[Hd _] _].
  split; [apply Hd|]. split; [apply Hd|]. split; [apply Hd|].
  split.
  { intros k i Hi. split; [by eapply ok_invoice_key|]. split; [by eapply ok_consistent|].
    split; [by eapply ok_audit|by eapply ok_invoice_customer]. }
  split.
  { intros k n Hn. split; [by eapply ok_cn_consistent|].
    split; [by eapply ok_cn_audit|by eapply ok_cn_invoice]. }
  split; [intros k l Hl; by apply (ok_line _ Hd) in Hl as [_ ?]|].
  split; [intros k r Hr; by apply (ok_reminder _ Hd) in Hr as [_ ?]|].
  intros k r Hr. by apply (ok_send _ Hd) in Hr as [_ ?].
Qed.

(** C2: nothing that was issued is rewritten: from a consistent world, any
    sequence of commands, complete or killed, keeps every invoice, moves it only
    along the lifecycle, and keeps the number, date, amounts and lines of the
    issued ones; history rows are only ever appended and, later, marked
    published; credit notes keep their amount, recorded sends and received events
    stay. *)
Theorem issued_invoices_are_frozen w w' :
  world_ok w → reaches w w' → evolves (w_db w) (w_db w').
Proof. intros Hw H. by destruct (reaches_since _ _ H Hw). Qed.

(** C3: every command but the tickers and the bus adapters is one transaction: killed after any
    number of interactions it leaves the database it found or the database its
    complete run leaves. *)
Theorem commands_are_atomic E ctx c n w :
  is_tick c = false →
  w_db (crash_run E n (perform ctx c) w) = w_db w ∨
  w_db (crash_run E n (perform ctx c) w) = w_db (run E (perform ctx c) w).1.
Proof. intros Hc. by apply atomic_crash_run, perform_atomic. Qed.

(** One after the other: either a delivery, complete or killed anywhere, changed
    nothing, or no later delivery of an event with that id changes anything,
    whatever happened in between.  [Deliveries] has them at the same time. *)
Lemma redelivery_changes_nothing E n remap ctx v w :
  world_ok w →
  let w1 := crash_run E n (receive remap ctx v) w in
  same_world w w1 ∨
  ∀ w2 E' n' remap' ctx' v', reaches w1 w2 → dv_event_id v' = dv_event_id v →
    same_world w2 (crash_run E' n' (receive remap' ctx' v') w2) ∧
    same_world w2 (run E' (receive remap' ctx' v') w2).1.
Proof.
  intros Hw w1.
  assert (world_ok w1) as Hw1.
  { eapply os_ok, (safe_crash_run (ok_since (w_db w))), receive_since. by apply ok_since_refl. }
  destruct (safe_crash_run _ E n _ w (receive_registers remap ctx v E w Hw)) as [?|Hin]; [by left|right].
  intros w2 E' n' remap' ctx' v' Hr Hid. destruct (reaches_since _ _ Hr Hw1) as [_ He].
  assert (dv_event_id v' ∈ dom (bus_inbox (w_db w2))) as Hin2 by (rw Hid; by apply (ev_inbox _ _ He)).
  pose proof (receive_replay remap' ctx' v' E' w2 Hin2) as Hq. split.
  - exact (wpc_crash _ _ _ _ _ n' Hq).
  - by apply wpc_run in Hq as [? _].
Qed.
End system_theorems.

(** ** Witnesses *)

#[local] Existing Instance Concrete.platform.
#[local] Existing Instance Concrete.platform_laws.
#[local] Existing Instance concrete_tera.
#[local] Existing Instance ConcreteJson.serde.
#[local] Existing Instance ConcreteCrypto.crypto.

(** A day's work: draft, issue (killed once half way), pay. *)
Definition fx_start : World :=
  (run fx_env (perform fx_ctx (SaveCustomer fx_customer)) empty_world).1.
Definition fx_drafted : World :=
  (run fx_env (perform fx_ctx (DraftInvoice (fx_draft (Some "key-1")))) fx_start).1.
Definition fx_killed : World :=
  crash_run fx_env 12 (perform fx_ctx (IssueInvoice (MkIssueInvoiceInput (id_new EInvoice 3) None (ACli "ana") ChCli)))
    fx_drafted.

Lemma fx_killed_reached : reaches empty_world fx_killed.
Proof.
  eapply rtc_l; [apply happens_run|]. fold fx_start.
  eapply rtc_l; [apply happens_run|]. fold fx_drafted.
  eapply rtc_l; [apply happens_crash|]. apply rtc_refl.
Qed.

Lemma reachable_data_is_consistent_witness :
  (length (rows (invoices (w_db fx_killed))) =? 1)%nat = true ∧ unique_by inv_number (invoices (w_db fx_killed)).
Proof.
  split; [reflexivity|].
  apply (reachable_data_is_consistent fx_killed fx_killed_reached).
Defined.

Lemma issued_invoices_are_frozen_witness :
  ∃ i, invoices (w_db (run fx_env (perform fx_ctx (VoidInvoice
      (MkVoidInvoiceInput fx_invoice_id None None (ACli "ana") ChCli))) (fx_world Sent)).1)
    !! id_to_string fx_invoice_id = Some i ∧ inv_number i = inv_number (fx_invoice Sent).
Proof.
  destruct (ev_invoice _ _ (issued_invoices_are_frozen (fx_world Sent)
    (run fx_env (perform fx_ctx (VoidInvoice
      (MkVoidInvoiceInput fx_invoice_id None None (ACli "ana") ChCli))) (fx_world Sent)).1 (fx_world_ok Sent)
    (rtc_once _ _ (happens_run fx_env fx_ctx _ _))) _ _ (fx_get Sent)) as (i & Hi & [_ _ Hiss]).
  exists i. split; [exact Hi|]. apply Hiss. discriminate.
Defined.

Lemma commands_are_atomic_witness :
  w_db fx_killed = w_db fx_drafted ∨
  w_db fx_killed = w_db (run fx_env (perform fx_ctx (IssueInvoice
    (MkIssueInvoiceInput (id_new EInvoice 3) None (ACli "ana") ChCli))) fx_drafted).1.
Proof. apply commands_are_atomic. reflexivity. Defined.

(** The first delivery settles the invoice, the second changes nothing. *)
Lemma redelivery_example :
  let v := fx_delivery "100.00" in
  let w1 := crash_run fx_env 40 (receive ∅ fx_ctx v) (fx_world Sent) in
  (length (w_bus w1) =? 4)%nat = true ∧
  (same_world (fx_world Sent) w1 ∨
   ∀ w2 E' n' remap' ctx' v', reaches w1 w2 → dv_event_id v' = dv_event_id v →
     same_world w2 (crash_run E' n' (receive remap' ctx' v') w2) ∧
     same_world w2 (run E' (receive remap' ctx' v') w2).1).
Proof.
  intros v w1. split; [vm_compute; reflexivity|].
  apply (redelivery_changes_nothing fx_env 40 ∅ fx_ctx v (fx_world Sent)). apply fx_world_ok.
Defined.
