(* ===== verification/Poison.v ===== *)
(** * A schedule that stops the ticker ([commands/src/schedule.rs])

    [schedule_create] checks less than [draft_invoice] does.  A schedule it lets
    through can make every later tick fail, whatever else the program does
    meanwhile, until the schedule is paused or cancelled by hand. *)

From S2P Require Import Prelude External Concrete Money Ids Domain InvoiceFsm Cadence Events Tax Store Codec.
From S2P Require Import ConcreteJson Render Command Effects Transition Invariant Evolution World Fixtures.
From S2P Require Import Draft Issue Schedules SignedLink View Transactions System.

Section poison.
Context {P : Platform} {L : PlatformLaws P} {T : Tera} {S : Serde} {C : Crypto}.
Implicit Types (E : Env) (w : World) (s : Schedule).

(** ** Everything but the schedules *)

(** The schedules are as before and the ids drawn stay drawn. *)
Definition same_schedules w w' : Prop :=
  schedules (w_db w') = schedules (w_db w) ∧ (w_step w ≤ w_step w')%nat.
Definition other_table (f : Db → SR Db) : Prop := ∀ d d', f d = Ok d' → schedules d' = schedules d.
Lemma commits_same_schedules f : other_table f → commits same_schedules f.
Proof. intros Hf w d Hd. split; [by apply Hf in Hd|cbn; lia]. Qed.
Lemma other_table_bind f g : other_table f → other_table g → other_table (λ d, d ← f d; g d).
Proof.
  intros Hf Hg d d' H. destruct (f d) as [d1|e|] eqn:E1; [|done..]. cbn in H. by rw (Hg _ _ H) (Hf _ _ E1).
Qed.
Lemma other_table_foldM {A} (f : Db → A → SR Db) l :
  (∀ a, other_table (λ d, f d a)) → other_table (λ d, res_foldM f d l).
Proof.
  intros Hf. induction l as [|a l IH]; [by intros d d' [= ->]|].
  by apply (other_table_bind (λ d, f d a) (λ d, res_foldM f d l)).
Qed.
(** A single statement. *)
Ltac statement := let d := fresh in let d' := fresh in let H := fresh in
  intros d d' H; cbn in H; repeat (case_match; try discriminate H); by injection H as <-.
Lemma other_invoice i : other_table (invoice_save_in_tx i).
Proof. unfold invoice_save_in_tx. statement. Qed.
Lemma other_history h : other_table (history_save_in_tx h).
Proof. unfold history_save_in_tx. statement. Qed.
Lemma other_lines i ls : other_table (replace_for_invoice_in_tx i ls).
Proof.
  intros d d' H. unfold replace_for_invoice_in_tx in H. apply other_table_foldM in H; [done|].
  intros l. unfold line_insert, line_save_in_tx. statement.
Qed.
#[export] Instance transactions_same_schedules : Transactions same_schedules.
Proof.
  split; intros; try apply commits_same_schedules.
  - destruct H as [E ?]. split; [by rw E|done].
  - unfold customer_save. statement.
  - apply other_table_bind; [apply other_invoice|apply other_history].
  - apply (other_table_bind _ (λ d, d ← replace_for_invoice_in_tx (inv_id i) ls d; history_save_in_tx h d));
      [apply other_invoice|apply other_table_bind; [apply other_lines|apply other_history]].
  - unfold save_cn_transition, cn_save_in_tx, cn_history_save_in_tx.
    apply other_table_bind; statement.
  - apply (other_table_bind _ (λ d, d ← history_save_in_tx h d; _)); [apply other_invoice|].
    apply (other_table_bind _ (λ d, _)); [apply other_history|]. unfold send_idempotency_insert_in_tx.
    destruct key; statement.
  - unfold reminder_save. statement.
  - unfold inbox_insert. statement.
  - statement.
  - statement.
  - statement.
Qed.

(** ** One row of the schedules *)

(** The schedule is stored as it is, under an id that was drawn. *)
Definition holds_row s w : Prop :=
  schedules (w_db w) !! id_to_string (sch_id s) = Some s ∧ drawn (w_step w) (sch_id s).
Lemma holds_row_stable s : stable (holds_row s).
Proof. intros w w' [E Hle] [Hs Hd]. split; [by rw E|by eapply drawn_mono]. Qed.
#[local] Hint Resolve holds_row_stable : inv.

Lemma holds_row_moves s {A} E (p : prog A) w :
  moves_by same_schedules p → holds_row s w → safe (holds_row s) E p w.
Proof.
  intros Hp. revert w. induction Hp as [a|e| |X f k Hf _ IH]; intros w Hw; cbn; (split; [done|]); try done.
  apply IH. destruct (Hf E w) as [Es Hle], Hw as [Hs Hd]. split; [by rw Es|by eapply drawn_mono].
Qed.
(** Saving another schedule. *)
Lemma holds_row_save s s' w d :
  holds_row s w → id_to_string (sch_id s') ≠ id_to_string (sch_id s) →
  schedule_save s' (w_db w) = Ok d → holds_row s (set_w_db d (tick w)).
Proof.
  intros [Hs Hd] Hne H. unfold schedule_save in H. destruct (customer_get _ _); [|done].
  injection H as <-. split; cbn; [by rewrite -> lookup_insert_ne|]. eapply drawn_mono; [|done]. lia.
Qed.

Lemma schedule_create_holds s ctx input E w :
  holds_row s w → safe (holds_row s) E (schedule_create ctx input) w.
Proof.
  intros Hw. unfold schedule_create, safe. wp_skip. wp_skip.
  apply wpc_bind_quiet; [wp_side|apply quiet_mapM; unfold schedule_line; solve_quiet|wp_side..|].
  intros wy lines ? Hy ?. wp_fresh. wp_exec Hd.
  - eapply holds_row_save; [done| |exact Hd]. intros E1%id_to_string_inj. destruct Hy as [_ Hy].
    apply (drawn_fresh ESchedule (w_step wy)). cbn in E1. by rw E1.
  - apply safe_quiet; [wp_side|solve_quiet|done].
Qed.
Lemma transition_schedule_holds s ctx input to tag E w :
  world_ok w → id_to_string (ssi_schedule_id input) ≠ id_to_string (sch_id s) →
  holds_row s w → safe (holds_row s) E (transition_schedule ctx input to tag) w.
Proof.
  intros Hok Hne Hw. unfold transition_schedule, safe. wp_query Hq. wp_found s' Hf.
  apply (ok_schedule _ (wo_db _ Hok)) in Hf as [Hk _].
  case_match; [done|]. wp_skip. wp_exec Hd.
  - eapply holds_row_save; [done| |exact Hd]. cbn. congruence.
  - apply safe_quiet; [wp_side|solve_quiet|done].
Qed.

(** A turn of the ticker on a schedule that drafting refuses fails; on any other
    it saves another row. *)
Lemma run_schedule_holds s ctx now acc s' E w :
  draft_validate (schedule_draft_input s) ≠ Ok () → sch_state s = SActive →
  s' = s ∨ id_to_string (sch_id s') ≠ id_to_string (sch_id s) →
  holds_row s w → safe (holds_row s) E (run_schedule ctx now acc s') w.
Proof.
  intros Hbad Hact Hs' Hw. unfold run_schedule. case_match; [done|]. destruct Hs' as [->|Hne].
  - unfold draft_invoice. destruct (draft_validate _) as [[]|e|]; [done|..]; by split.
  - apply safe_bind; [by apply holds_row_moves; [auto with moves|]|]. intros w1 out Hw1.
    apply safe_bind; [case_match; [|done]; apply safe_bind; [by apply holds_row_moves; [auto with moves|]|done]|].
    intros w2 [] Hw2. unfold safe. wp_skip. apply wpc_bind_quiet; [wp_side|case_match; solve_quiet|wp_side..|].
    intros w3 [] ? ? ?. wp_exec Hd; [|done]. eapply holds_row_save; [done| |exact Hd]. by rw schedule_ran_id.
Qed.
Lemma run_all_holds s ctx now acc l E w :
  draft_validate (schedule_draft_input s) ≠ Ok () → sch_state s = SActive →
  (∀ s', s' ∈ l → s' = s ∨ id_to_string (sch_id s') ≠ id_to_string (sch_id s)) →
  holds_row s w → safe (holds_row s) E (prog_foldM (run_schedule ctx now) acc l) w.
Proof.
  intros Hbad Hact. revert acc w. induction l as [|s' l IH]; intros acc w Hl Hw; [done|]. cbn [prog_foldM].
  apply safe_bind; [apply run_schedule_holds; [done..|apply Hl; by left|done]|].
  intros w1 acc1 Hw1. apply IH; [|done]. intros s2 H2. apply Hl. by right.
Qed.
Lemma schedules_tick_holds s ctx E w :
  draft_validate (schedule_draft_input s) ≠ Ok () → sch_state s = SActive → world_ok w →
  holds_row s w → safe (holds_row s) E (schedules_tick ctx) w.
Proof.
  intros Hbad Hact Hok Hw. unfold schedules_tick, safe. wp_clock m. wp_query Hq.
  assert (∀ s', s' ∈ schedule_due (dt_date_naive (env_now E m)) (w_db w) →
    s' = s ∨ id_to_string (sch_id s') ≠ id_to_string (sch_id s)) as Hkeys.
  { intros s' [[k Hk] _]%elem_schedule_due. apply (ok_schedule _ (wo_db _ Hok)) in Hk as Hk'. destruct Hk' as [-> _].
    destruct (decide (id_to_string (sch_id s') = id_to_string (sch_id s))) as [Ek|]; [left|by right].
    destruct Hw as [Hs _]. congruence. }
  apply run_all_holds; [done..| |done]. by rw (sd_db _ _ H).
Qed.

(** ** What else may happen *)

(** The commands that are meant to stop a schedule. *)
Definition stops (sid : ScheduleId) (c : Command) : bool :=
  match c with
  | SchedulePause input | ScheduleCancel input =>
      String.eqb (id_to_string (ssi_schedule_id input)) (id_to_string sid)
  | _ => false
  end.
(** Any other command, run to its end or killed, in any environment. *)
Inductive happens_but (sid : ScheduleId) : World → World → Prop :=
  | but_run E ctx c w : stops sid c = false → happens_but sid w (run E (perform ctx c) w).1
  | but_crash E ctx c n w : stops sid c = false → happens_but sid w (crash_run E n (perform ctx c) w).

Lemma perform_holds s ctx c E w :
  draft_validate (schedule_draft_input s) ≠ Ok () → sch_state s = SActive → stops (sch_id s) c = false →
  world_ok w → holds_row s w → safe (holds_row s) E (perform ctx c) w.
Proof.
  intros Hbad Hact Hstop Hok Hw.
  destruct c; cbn [perform stops] in *;
    try (by apply holds_row_moves; [try (apply moves_bind; [|constructor]); auto with moves|]);
    (apply safe_bind; [|by constructor]).
  - by apply schedule_create_holds.
  - apply transition_schedule_holds; [done| |done]. by apply String.eqb_neq.
  - apply transition_schedule_holds; [done| |done]. by apply String.eqb_neq.
  - by apply schedules_tick_holds.
Qed.
Lemma later_holds s w w' :
  draft_validate (schedule_draft_input s) ≠ Ok () → sch_state s = SActive →
  rtc (happens_but (sch_id s)) w w' → world_ok w → holds_row s w → world_ok w' ∧ holds_row s w'.
Proof.
  intros Hbad Hact. induction 1 as [w|w w1 w' Hs _ IH]; [done|]. intros Hok Hw.
  assert (world_ok w1 ∧ holds_row s w1) as [? ?]; [|by apply IH].
  pose proof (λ E ctx c, perform_since (w_db w) E ctx c w (ok_since_refl _ Hok)) as Hsince.
  destruct Hs as [E ctx c w Hc|E ctx c n w Hc]; (split;
    [eapply os_ok; first [apply (safe_run _ _ _ _ (Hsince E ctx c))|apply (safe_crash_run _ _ _ _ _ (Hsince E ctx c))]
    |first [apply (safe_run (holds_row s))|apply (safe_crash_run (holds_row s))]; by apply perform_holds]).
Qed.

(** ** The poison *)

(** A created schedule's id is drawn by its creation. *)
Lemma schedule_create_draws E ctx input w w' s :
  run E (schedule_create ctx input) w = (w', Ok s) → drawn (w_step w') (sch_id s).
Proof.
  intros Hrun. set (Q := λ (w' : World) (r : res CoreError Schedule),
    match r with Ok s => drawn (w_step w') (sch_id s) | _ => True end).
  assert (rejects Q w) as HQ by (by intros w2 [] ? ?).
  assert (wpc anywhere E (schedule_create ctx input) Q w) as H.
  { unfold schedule_create. wp_skip. wp_skip.
    apply wpc_bind_quiet; [wp_side|apply quiet_mapM; unfold schedule_line; solve_quiet|wp_side..|].
    intros wy lines ? ? ?. wp_fresh. wp_exec Hd; [done|]. cbv zeta.
    apply wpc_bind_quiet; [wp_side|solve_quiet|done|by intros w2 [] ? ?|]. intros w2 [] [_ Hle] ? ?.
    split; [done|]. cbn. apply drawn_new. cbn in Hle. lia. }
  apply wpc_run in H as [_ H]. by rw Hrun in H.
Qed.
(** Drafting refuses a blank description and a currency other than three. *)
Lemma poison_refused input s :
  Exists (λ l, is_blank (sli_description l) = true) (sci_template_lines input) ∨
    Currency.as_str (sci_currency input) ∉ ["USD"; "CAD"; "DZD"] →
  sch_currency s = sci_currency input →
  Forall2 (λ l x, sl_description x = sli_description l ∧ sl_quantity x = sli_quantity l ∧
      sl_unit_price x = sli_unit_price l ∧ sl_tax_category x = sli_tax_category l)
    (sci_template_lines input) (sch_template_lines s) →
  draft_validate (schedule_draft_input s) ≠ Ok ().
Proof.
  intros Hbad Ecur Hl. rewrite -> draft_validate_ok.
  intros (_ & Hall & Hcur). cbn [di_lines di_currency schedule_draft_input] in Hall, Hcur.
  rewrite -> Ecur in Hcur. destruct Hbad as [Hbad|?]; [|done].
  clear -Hbad Hall Hl. induction Hl as [|l x ls xs (Ed & _) _ IH].
  + by apply Exists_nil in Hbad.
  + cbn in Hall. apply Forall_cons in Hall as [[Hb _] Hall].
    apply Exists_cons in Hbad as [Hbad|Hbad]; [|by apply IH]. cbn in Hb. congruence.
Qed.

(** C20: [schedule_create] accepts a template that drafting refuses: with a
    blank description or a currency outside USD, CAD and DZD it stores an active
    schedule, and no tick that runs once its start date has come succeeds any
    more, whatever commands run in between, to their end or killed, in whatever
    environment, and ticks among them: the schedule stays active and due until it
    is paused or cancelled by its id. *)
Theorem poison_schedule_stops_ticks E ctx input c w :
  world_ok w → (∀ n, env_db_ok E n = true) → schedule_validate input = Ok () →
  customer_get (sci_customer_id input) (w_db w) = Some c →
  Exists (λ l, is_blank (sli_description l) = true) (sci_template_lines input) ∨
    Currency.as_str (sci_currency input) ∉ ["USD"; "CAD"; "DZD"] →
  ∃ w1 sid, (∃ s, run E (schedule_create ctx input) w = (w1, Ok s) ∧ sch_id s = sid) ∧
    ∀ w2, rtc (happens_but sid) w1 w2 →
      (∃ s, schedules (w_db w2) !! id_to_string sid = Some s ∧ sch_state s = SActive ∧
         sch_next_run s = sci_start_date input ∧ sch_last_run s = None) ∧
      ∀ E' ctx', (∀ m, has_come (sci_start_date input) (dt_date_naive (env_now E' m))) →
        is_ok (run E' (schedules_tick ctx') w2).2 = false.
Proof.
  intros Hok HE Hv Hc Hbad. destruct (run_schedule_create E ctx input c w HE Hv Hc)
    as (w1 & s & Hrun & (_ & Ecur & _ & _ & _ & Enext & Elast & Est & Hl) & Et).
  exists w1, (sch_id s). split; [by exists s|]. intros w2 Hlater.
  set (s1 := schedule_upserted (schedules (w_db w) !! id_to_string (sch_id s)) s) in *.
  assert (sch_id s1 = sch_id s ∧ sch_state s1 = SActive ∧ sch_next_run s1 = sci_start_date input ∧
    sch_last_run s1 = None ∧ sch_currency s1 = sci_currency input ∧ sch_template_lines s1 = sch_template_lines s)
    as (Eid1 & Est1 & Enext1 & Elast1 & Ecur1 & El1) by (unfold s1; by destruct (schedules (w_db w) !! _)).
  assert (draft_validate (schedule_draft_input s1) ≠ Ok ()) as Hrefused.
  { apply (poison_refused input); [done..|]. by rw El1. }
  pose proof (schedule_create_draws _ _ _ _ _ _ Hrun) as Hdrawn.
  pose proof (safe_run _ _ _ _ (schedule_create_safe ctx input E w Hok)) as Hok1. rewrite -> Hrun in Hok1.
  rewrite <- Eid1 in Hlater, Hdrawn, Et |- *.
  destruct (later_holds s1 w1 w2) as [Hok2 [Hrow _]]; try done.
  { split; [by rw Et lookup_insert_eq|done]. }
  split; [by exists s1|]. intros E' ctx' Hdue.
  apply (schedules_tick_elem_fails E' ctx' w2 s1); [by eexists|done|by rw Enext1|].
  intros. by apply run_schedule_invalid.
Qed.
End poison.

(** ** Witness *)

#[local] Existing Instance Concrete.platform.
#[local] Existing Instance Concrete.platform_laws.
#[local] Existing Instance ConcreteJson.serde.
#[local] Existing Instance ConcreteCrypto.crypto.
#[local] Existing Instance concrete_tera.

(** A schedule with a blank description: a tick fails, a schedule without fault
    is created, and every later tick fails as well. *)
Definition fx_poisoned : World := (run fx_env (schedule_create fx_ctx (fx_plan " " false)) (fx_world Sent)).1.
Definition fx_ticked : World := (run (fx_env_at fx_later) (perform fx_ctx SchedulesTick) fx_poisoned).1.
Definition fx_afterwards : World :=
  (run fx_env (perform fx_ctx (ScheduleCreate (fx_plan "Support" false))) fx_ticked).1.
Lemma poison_schedule_stops_ticks_witness :
  is_ok (run (fx_env_at fx_later) (schedules_tick fx_ctx) fx_afterwards).2 = false.
Proof.
  destruct (poison_schedule_stops_ticks fx_env fx_ctx (fx_plan " " false) fx_customer (fx_world Sent)
    (fx_world_ok Sent) (λ _, eq_refl) eq_refl) as (w1 & sid & (s & Hrun & Es) & H).
  - apply lookup_singleton_eq.
  - left. constructor. reflexivity.
  - apply (H fx_afterwards).
    + apply (f_equal fst) in Hrun. cbn [fst] in Hrun. rewrite <- Hrun.
      eapply rtc_l; [|apply rtc_once].
      * apply (but_run sid (fx_env_at fx_later) fx_ctx SchedulesTick). reflexivity.
      * apply (but_run sid fx_env fx_ctx (ScheduleCreate (fx_plan "Support" false))). reflexivity.
    + intros m. reflexivity.
Defined.
