(* ===== verification/Ops.v ===== *)
(** * The operations of the WebSocket adapter ([ws/src/ops.rs])

    A request names an operation and carries a JSON payload; [dispatch] decodes
    the payload into the input of a command, runs it as the session's actor and
    answers its output as JSON. *)

From S2P Require Import Prelude External Concrete Money Ids Domain InvoiceFsm CreditNoteFsm Events Cadence.
From S2P Require Import Tax Store Codec ConcreteJson Wire Render Command Effects Transition Invariant Evolution World.
From S2P Require Import Fixtures Draft Issue Pay Void Send Credit Overdue Reminders Schedules SignedLink System.

Section ops.
Context `{P : Platform} `{S : Serde} {T : Tera}.

(** The text of an error: given, the [Display] of a command's error, or a
    prefix in front of serde's text. *)
Inductive Message := Text (s : string) | CoreText (e : CoreError) | SerdeText (prefix : string).
Record OpError := MkOpError { oe_code : string; oe_message : Message }.

Definition validation (msg : Message) : OpError := MkOpError "validation" msg.
Definition from_core (e : CoreError) : OpError :=
  MkOpError
    match e with
    | Validation _ => "validation"
    | Idempotency _ => "idempotency"
    | NotFound _ => "not_found"
    | NotImplemented _ => "not_implemented"
    | FsmTransition _ => "fsm_transition"
    | Tax _ => "tax"
    | Render _ | Pdf _ => "render"
    | Repo _ => "repo"
    end (CoreText e).

(** ** Helpers *)

Definition decode {A} (from_value : json → SR A) (v : json) : res OpError A :=
  map_err (λ _, validation (SerdeText "payload decode: ")) (from_value v).
Definition parse_entity (e : Entity) (what s : string) : res OpError (EntityId e) :=
  map_err (λ err, validation (Text (what +:+ ": " +:+ IdError_to_string err))) (id_parse e s).
Definition parse_invoice_id (s : string) : res OpError InvoiceId := parse_entity EInvoice "invoice_id" s.
Definition parse_customer_id (s : string) : res OpError CustomerId := parse_entity ECustomer "customer_id" s.
Definition parse_credit_note_id (s : string) : res OpError CreditNoteId :=
  parse_entity ECreditNote "credit_note_id" s.
Definition parse_schedule_id (s : string) : res OpError ScheduleId := parse_entity ESchedule "schedule_id" s.
Definition parse_reminder_id (s : string) : res OpError ReminderId := parse_entity EReminder "reminder_id" s.

(** ** Payloads *)

(** [#[serde(default)]] on a type that is not an [Option]. *)
Definition defaulted {A} (f : json → SR A) (d : A) (k : string) (ms : list (string * json)) : SR A :=
  v ← field k ms; match v with None => Ok d | Some v => f v end.
Definition list_de {A} (f : json → SR A) (v : json) : SR (list A) := l ← json_array v; res_mapM f l.
Definition Cadence_from_json (v : json) : SR Cadence :=
  s ← json_str v; map_err (λ _, Json) (Cadence.from_str s).
Definition ReminderChannel_from_json (v : json) : SR ReminderChannel :=
  s ← variant_name v; map_err (λ _, Json) (reminder_channel_from_str s).

Record DraftLineWire := MkDraftLineWire {
  dlw_description : string;
  dlw_quantity : Decimal;
  dlw_unit_price : Decimal;
  dlw_tax_category : TaxCategory;
}.
Record DraftInvoiceWire := MkDraftInvoiceWire {
  diw_customer_id : string;
  diw_seller_jurisdiction : Jurisdiction;
  diw_currency : Currency;
  diw_lines : list DraftLineWire;
  diw_idempotency_key : option string;
  diw_due_at : option DateTime;
  diw_template_path : option string;
}.
Record InvoiceIdWire := MkInvoiceIdWire { iiw_invoice_id : string; iiw_idempotency_key : option string }.
Record SendInvoiceWire := MkSendInvoiceWire {
  siw_invoice_id : string; siw_destination_uri : string; siw_idempotency_key : option string }.
Record MarkPaidWire := MkMarkPaidWire {
  mpw_invoice_id : string;
  mpw_amount : Decimal;
  mpw_received_at : option DateTime;
  mpw_idempotency_key : option string;
  mpw_bus_event_id : option string;
}.
Record VoidInvoiceWire := MkVoidInvoiceWire {
  viw_invoice_id : string; viw_reason : option string; viw_idempotency_key : option string }.
Record CreateCreditNoteWire := MkCreateCreditNoteWire {
  ccw_invoice_id : string;
  ccw_amount : Decimal;
  ccw_reason : option string;
  ccw_refund_ref : option string;
  ccw_idempotency_key : option string;
}.
Record CreditNoteIdWire := MkCreditNoteIdWire {
  ciw_credit_note_id : string; ciw_idempotency_key : option string }.
Record ScheduleCreateWire := MkScheduleCreateWire {
  scw_customer_id : string;
  scw_template_lines : list DraftLineWire;
  scw_currency : Currency;
  scw_cadence : Cadence;
  scw_start_date : NaiveDate;
  scw_end_date : option NaiveDate;
  scw_auto_issue : bool;
}.
Record ReminderScheduleWire := MkReminderScheduleWire {
  rsw_invoice_id : string; rsw_scheduled_at : DateTime; rsw_channel_scheme : ReminderChannel }.

(** [DraftLineWire] and [ScheduleLineWire] have the same fields. *)
Definition DraftLineWire_de (v : json) : SR DraftLineWire :=
  ms ← struct_fields ["description"; "quantity"; "unit_price"; "tax_category"] v;
  description ← str_field "description" ms;
  quantity ← required Decimal_from_json "quantity" ms;
  unit_price ← required Decimal_from_json "unit_price" ms;
  tax_category ← defaulted TaxCategory_from_json Standard "tax_category" ms;
  Ok (MkDraftLineWire description quantity unit_price tax_category).
Definition DraftInvoiceWire_de (v : json) : SR DraftInvoiceWire :=
  ms ← struct_fields ["customer_id"; "seller_jurisdiction"; "currency"; "lines"; "idempotency_key";
                      "due_at"; "template_path"] v;
  customer_id ← str_field "customer_id" ms;
  seller_jurisdiction ← required Jurisdiction_from_json "seller_jurisdiction" ms;
  currency ← required Currency_from_json "currency" ms;
  lines ← required (list_de DraftLineWire_de) "lines" ms;
  idempotency_key ← opt_field "idempotency_key" ms;
  due_at ← optional DateTime_from_json "due_at" ms;
  template_path ← opt_field "template_path" ms;
  Ok (MkDraftInvoiceWire customer_id seller_jurisdiction currency lines idempotency_key due_at template_path).
Definition InvoiceIdWire_de (v : json) : SR InvoiceIdWire :=
  ms ← struct_fields ["invoice_id"; "idempotency_key"] v;
  invoice_id ← str_field "invoice_id" ms;
  idempotency_key ← opt_field "idempotency_key" ms;
  Ok (MkInvoiceIdWire invoice_id idempotency_key).
Definition SendInvoiceWire_de (v : json) : SR SendInvoiceWire :=
  ms ← struct_fields ["invoice_id"; "destination_uri"; "idempotency_key"] v;
  invoice_id ← str_field "invoice_id" ms;
  destination_uri ← str_field "destination_uri" ms;
  idempotency_key ← opt_field "idempotency_key" ms;
  Ok (MkSendInvoiceWire invoice_id destination_uri idempotency_key).
Definition MarkPaidWire_de (v : json) : SR MarkPaidWire :=
  ms ← struct_fields ["invoice_id"; "amount"; "received_at"; "idempotency_key"; "bus_event_id"] v;
  invoice_id ← str_field "invoice_id" ms;
  amount ← required Decimal_from_json "amount" ms;
  received_at ← optional DateTime_from_json "received_at" ms;
  idempotency_key ← opt_field "idempotency_key" ms;
  bus_event_id ← opt_field "bus_event_id" ms;
  Ok (MkMarkPaidWire invoice_id amount received_at idempotency_key bus_event_id).
Definition VoidInvoiceWire_de (v : json) : SR VoidInvoiceWire :=
  ms ← struct_fields ["invoice_id"; "reason"; "idempotency_key"] v;
  invoice_id ← str_field "invoice_id" ms;
  reason ← opt_field "reason" ms;
  idempotency_key ← opt_field "idempotency_key" ms;
  Ok (MkVoidInvoiceWire invoice_id reason idempotency_key).
Definition CreateCreditNoteWire_de (v : json) : SR CreateCreditNoteWire :=
  ms ← struct_fields ["invoice_id"; "amount"; "reason"; "refund_ref"; "idempotency_key"] v;
  invoice_id ← str_field "invoice_id" ms;
  amount ← required Decimal_from_json "amount" ms;
  reason ← opt_field "reason" ms;
  refund_ref ← opt_field "refund_ref" ms;
  idempotency_key ← opt_field "idempotency_key" ms;
  Ok (MkCreateCreditNoteWire invoice_id amount reason refund_ref idempotency_key).
Definition CreditNoteIdWire_de (v : json) : SR CreditNoteIdWire :=
  ms ← struct_fields ["credit_note_id"; "idempotency_key"] v;
  credit_note_id ← str_field "credit_note_id" ms;
  idempotency_key ← opt_field "idempotency_key" ms;
  Ok (MkCreditNoteIdWire credit_note_id idempotency_key).
Definition ScheduleCreateWire_de (v : json) : SR ScheduleCreateWire :=
  ms ← struct_fields ["customer_id"; "template_lines"; "currency"; "cadence"; "start_date"; "end_date";
                      "auto_issue"] v;
  customer_id ← str_field "customer_id" ms;
  template_lines ← required (list_de DraftLineWire_de) "template_lines" ms;
  currency ← required Currency_from_json "currency" ms;
  cadence ← required Cadence_from_json "cadence" ms;
  start_date ← required NaiveDate_from_json "start_date" ms;
  end_date ← optional NaiveDate_from_json "end_date" ms;
  auto_issue ← defaulted bool_de false "auto_issue" ms;
  Ok (MkScheduleCreateWire customer_id template_lines currency cadence start_date end_date auto_issue).
(** A payload whose one field is an id. *)
Definition ScheduleIdWire_de (v : json) : SR string :=
  ms ← struct_fields ["schedule_id"] v; str_field "schedule_id" ms.
Definition ReminderIdWire_de (v : json) : SR string :=
  ms ← struct_fields ["reminder_id"] v; str_field "reminder_id" ms.
Definition ReminderScheduleWire_de (v : json) : SR ReminderScheduleWire :=
  ms ← struct_fields ["invoice_id"; "scheduled_at"; "channel_scheme"] v;
  invoice_id ← str_field "invoice_id" ms;
  scheduled_at ← required DateTime_from_json "scheduled_at" ms;
  channel_scheme ← required ReminderChannel_from_json "channel_scheme" ms;
  Ok (MkReminderScheduleWire invoice_id scheduled_at channel_scheme).

(** ** Inputs *)

Section inputs.
Context (actor : Actor) (channel : Channel).

Definition draft_into_input (w : DraftInvoiceWire) : res OpError DraftInvoiceInput :=
  customer_id ← parse_customer_id (diw_customer_id w);
  Ok {| di_customer_id := customer_id;
        di_seller_jurisdiction := diw_seller_jurisdiction w;
        di_currency := diw_currency w;
        di_lines := (λ l, MkDraftLineInput (dlw_description l) (dlw_quantity l) (dlw_unit_price l)
                            (dlw_tax_category l)) <$> diw_lines w;
        di_idempotency_key := diw_idempotency_key w;
        di_actor := actor;
        di_channel := channel;
        di_due_at := diw_due_at w;
        di_template_path := diw_template_path w;
        di_schedule_id := None |}.
Definition issue_input (w : InvoiceIdWire) : res OpError IssueInvoiceInput :=
  invoice_id ← parse_invoice_id (iiw_invoice_id w);
  Ok (MkIssueInvoiceInput invoice_id (iiw_idempotency_key w) actor channel).
Definition send_input (w : SendInvoiceWire) : res OpError SendInvoiceInput :=
  invoice_id ← parse_invoice_id (siw_invoice_id w);
  Ok (MkSendInvoiceInput invoice_id (siw_destination_uri w) (siw_idempotency_key w) actor channel false).
Definition pay_input (w : MarkPaidWire) : res OpError MarkPaidInput :=
  invoice_id ← parse_invoice_id (mpw_invoice_id w);
  Ok (MkMarkPaidInput invoice_id (mpw_amount w) (mpw_received_at w) (mpw_idempotency_key w)
        (mpw_bus_event_id w) actor channel).
Definition void_input (w : VoidInvoiceWire) : res OpError VoidInvoiceInput :=
  invoice_id ← parse_invoice_id (viw_invoice_id w);
  Ok (MkVoidInvoiceInput invoice_id (viw_reason w) (viw_idempotency_key w) actor channel).
Definition credit_input (w : CreateCreditNoteWire) : res OpError CreateCreditNoteInput :=
  invoice_id ← parse_invoice_id (ccw_invoice_id w);
  Ok (MkCreateCreditNoteInput invoice_id (ccw_amount w) (ccw_reason w) (ccw_refund_ref w)
        (ccw_idempotency_key w) actor channel).
Definition issue_credit_input (w : CreditNoteIdWire) : res OpError IssueCreditNoteInput :=
  credit_note_id ← parse_credit_note_id (ciw_credit_note_id w);
  Ok (MkIssueCreditNoteInput credit_note_id (ciw_idempotency_key w) actor channel).
Definition schedule_into_input (w : ScheduleCreateWire) : res OpError ScheduleCreateInput :=
  customer_id ← parse_customer_id (scw_customer_id w);
  Ok {| sci_customer_id := customer_id;
        sci_template_lines := (λ l, MkScheduleLineInput (dlw_description l) (dlw_quantity l)
                                      (dlw_unit_price l) (dlw_tax_category l)) <$> scw_template_lines w;
        sci_currency := scw_currency w;
        sci_cadence := scw_cadence w;
        sci_start_date := scw_start_date w;
        sci_end_date := scw_end_date w;
        sci_auto_issue := scw_auto_issue w;
        sci_actor := actor;
        sci_channel := channel |}.
Definition schedule_change_input (s : string) : res OpError ScheduleStateChangeInput :=
  schedule_id ← parse_schedule_id s; Ok (MkScheduleStateChangeInput schedule_id actor channel).
Definition reminder_input (w : ReminderScheduleWire) : res OpError ReminderScheduleInput :=
  invoice_id ← parse_invoice_id (rsw_invoice_id w);
  Ok (MkReminderScheduleInput invoice_id (rsw_scheduled_at w) (rsw_channel_scheme w) actor channel).
Definition reminder_cancel_input (s : string) : res OpError ReminderCancelInput :=
  reminder_id ← parse_reminder_id s; Ok (MkReminderCancelInput reminder_id actor channel).
End inputs.

(** ** The dispatcher *)

(** One arm: decode, run the command, shape its output. *)
Definition arm {A W B} (from_value : json → SR W) (into : W → res OpError A) (payload : json)
    (command : A → prog B) (answer : B → json) : prog (res OpError json) :=
  input ←? Ret (wire ← decode from_value payload; into wire);
  out ←? try_conv from_core (catch (command input));
  Ret (Ok (answer out)).
Definition tick_arm {B} (command : prog B) (answer : B → json) : prog (res OpError json) :=
  out ←? try_conv from_core (catch command);
  Ret (Ok (answer out)).

Definition jinvoice (i : Invoice) : json := JObj [("invoice", Invoice_json i)].
Definition jcredit_note (n : CreditNote) : json := JObj [("credit_note", CreditNote_json n)].
Definition jschedule (s : Schedule) : json := JObj [("schedule", Schedule_json s)].
Definition jreminder (r : Reminder) : json := JObj [("reminder", Reminder_json r)].

Definition dispatch (ctx : CoreCtx) (op : string) (payload : json) (actor_name : string)
    : prog (res OpError json) :=
  let actor := AWs actor_name in
  let channel := ChWs in
  let named := String.eqb op in
  if named "invoice.draft" then
    arm DraftInvoiceWire_de (draft_into_input actor channel) payload (draft_invoice ctx)
      (λ out, JObj [("invoice", Invoice_json (do_invoice out));
                    ("lines", JArr (InvoiceLine_json <$> do_lines out));
                    ("idempotency_replay", JBool (do_idempotency_replay out))])
  else if named "invoice.issue" then
    arm InvoiceIdWire_de (issue_input actor channel) payload (issue_invoice ctx)
      (λ out, JObj [("invoice", Invoice_json (io_invoice out));
                    ("lines", JArr (InvoiceLine_json <$> io_lines out));
                    ("html", JStr (io_html out))])
  else if named "invoice.send" then
    arm SendInvoiceWire_de (send_input actor channel) payload (send_invoice ctx)
      (λ out, JObj [("invoice", Invoice_json (so_invoice out)); ("delivered_to", JStr (so_delivered_to out))])
  else if named "invoice.pay" then
    arm MarkPaidWire_de (pay_input actor channel) payload (mark_paid ctx)
      (λ out, JObj [("invoice", Invoice_json (mpo_invoice out)); ("fully_paid", JBool (mpo_fully_paid out))])
  else if named "invoice.void" then
    arm VoidInvoiceWire_de (void_input actor channel) payload (void_invoice ctx) jinvoice
  else if named "creditnote.draft" then
    arm CreateCreditNoteWire_de (credit_input actor channel) payload (create_credit_note ctx) jcredit_note
  else if named "creditnote.issue" then
    arm CreditNoteIdWire_de (issue_credit_input actor channel) payload (issue_credit_note ctx) jcredit_note
  else if named "schedule.create" then
    arm ScheduleCreateWire_de (schedule_into_input actor channel) payload (schedule_create ctx) jschedule
  else if named "schedule.pause" then
    arm ScheduleIdWire_de (schedule_change_input actor channel) payload (schedule_pause ctx) jschedule
  else if named "schedule.cancel" then
    arm ScheduleIdWire_de (schedule_change_input actor channel) payload (schedule_cancel ctx) jschedule
  else if named "reminder.schedule" then
    arm ReminderScheduleWire_de (reminder_input actor channel) payload (reminder_schedule ctx) jreminder
  else if named "reminder.cancel" then
    arm ReminderIdWire_de (reminder_cancel_input actor channel) payload (reminder_cancel ctx) jreminder
  else if named "tick.schedules" then
    tick_arm (schedules_tick ctx)
      (λ out, JObj [("ran_schedule_ids", JArr (jid <$> sto_ran_schedule_ids out));
                    ("drafted_invoice_ids", JArr ((λ d, jid (inv_id (do_invoice d))) <$> sto_drafts out))])
  else if named "tick.reminders" then
    tick_arm (reminders_tick ctx) (λ sent, JObj [("sent_reminders", JArr (Reminder_json <$> sent))])
  else if named "tick.overdue" then
    tick_arm (mark_overdue_ticker ctx) (λ l, JObj [("overdue_invoices", JArr (Invoice_json <$> l))])
  else if named "ping" then Ret (Ok (JObj [("pong", JBool true)]))
  else Ret (Err (MkOpError "unknown_op" (Text ("unknown op: `" +:+ op +:+ "`")))).
End ops.

(** Every operation of the dispatcher. *)
Definition OP_NAMES : list string :=
  ["invoice.draft"; "invoice.issue"; "invoice.send"; "invoice.pay"; "invoice.void";
   "creditnote.draft"; "creditnote.issue"; "schedule.create"; "schedule.pause"; "schedule.cancel";
   "reminder.schedule"; "reminder.cancel"; "tick.schedules"; "tick.reminders"; "tick.overdue"; "ping"].

(** ** Lemmas *)

Section lemmas.
Context {P : Platform} {S : Serde} {T : Tera}.
Implicit Types (E : Env) (w : World).

Lemma calm_bool_de v : calm (bool_de v).
Proof. by destruct v. Qed.
Lemma calm_list_de {A} (f : json → SR A) v : (∀ v, calm (f v)) → calm (list_de f v).
Proof. intros Hf. unfold list_de. solve_calm. Qed.
Lemma calm_date v : calm (NaiveDate_from_json v).
Proof. unfold NaiveDate_from_json. solve_calm. Qed.
Lemma calm_cadence_str s : calm (Cadence.from_str s).
Proof. unfold Cadence.from_str, Cadence.parse_dom. solve_calm. Qed.
Lemma calm_cadence v : calm (Cadence_from_json v).
Proof. pose proof calm_cadence_str. unfold Cadence_from_json. solve_calm. Qed.
Lemma calm_reminder_channel v : calm (ReminderChannel_from_json v).
Proof. unfold ReminderChannel_from_json, reminder_channel_from_str. solve_calm. Qed.
Lemma calm_line v : calm (DraftLineWire_de v).
Proof. unfold DraftLineWire_de, defaulted. solve_calm. Qed.
Hint Resolve calm_bool_de calm_date calm_cadence calm_reminder_channel calm_line calm_list_de : calm.

(** What a decoded payload refuses, it refuses as a validation error. *)
Definition validates {A} (m : res OpError A) : Prop :=
  match m with Ok _ => True | Err e => oe_code e = "validation" | Panic => False end.
Lemma validates_arm {A W} (from_value : json → SR W) (into : W → res OpError A) v :
  calm (from_value v) → (∀ a, validates (into a)) →
  validates (wire ← decode from_value v; into wire).
Proof. intros Hc Hi. unfold decode. destruct (from_value v); cbn; [apply Hi|done..]. Qed.
Lemma validates_parse {A} e what s (f : EntityId e → A) :
  validates (i ← parse_entity e what s; Ok (f i)).
Proof.
  unfold parse_entity. pose proof (calm_id_parse e s). by destruct (id_parse e s).
Qed.

(** What comes after the last interaction of a program changes nothing. *)
Definition ends {A} (p : prog A) : Prop := match p with Act _ _ => False | _ => True end.
Lemma crash_run_ends {A B} E n (p : prog A) (f : A → prog B) w :
  (∀ a, ends (f a)) → crash_run E n (p ≫= f) w = crash_run E n p w.
Proof.
  intros Hf. revert n w. induction p as [a|e| |X g k IH]; intros [|n] w; try done.
  - cbn. specialize (Hf a). by destruct (f a).
  - cbn. destruct (g E w). apply IH.
Qed.

(** [p] does what the command [c] does and answers accordingly. *)
Definition performs (p : prog (res OpError json)) (ctx : CoreCtx) {C : Crypto} (c : Command) : Prop :=
  ∀ E w, (run E p w).1 = (run E (perform ctx c) w).1 ∧
    (∀ n, crash_run E n p w = crash_run E n (perform ctx c) w) ∧
    match (run E (perform ctx c) w).2, (run E p w).2 with
    | Ok _, Ok (Ok _) | Panic, Panic => True
    | Err e, Ok (Err e') => e' = from_core e
    | _, _ => False
    end.

Lemma tick_performs {C : Crypto} {B} ctx c (command : prog B) answer :
  perform ctx c = forget command → performs (tick_arm command answer) ctx c.
Proof.
  intros Ec E w. rw Ec. unfold tick_arm, forget. rw run_try_bind run_try_conv run_catch run_bind.
  split; [|split].
  - by destruct (run E command w) as [w' [b|e|]].
  - intros n. unfold try_bind, try_conv. rw crash_run_ends; [by intros [| |]|].
    rw crash_run_ends; [done|]. rw crash_run_catch. by rw crash_run_ends.
  - by destruct (run E command w) as [w' [b|e|]].
Qed.

(** A request answered without any interaction. *)
Definition refused (p : prog (res OpError json)) : Prop :=
  ∃ e, p = Ret (Err e) ∧ oe_code e = "validation".

Lemma arm_performs {C : Crypto} {A W B} ctx (mk : A → Command) from_value (into : W → res OpError A)
    payload (command : A → prog B) answer :
  (∀ v, calm (from_value v)) → (∀ a, validates (into a)) →
  (∀ a, perform ctx (mk a) = forget (command a)) →
  (∃ a, performs (arm from_value into payload command answer) ctx (mk a)) ∨
  refused (arm from_value into payload command answer).
Proof.
  intros Hc Hi Hp. pose proof (validates_arm from_value into payload (Hc payload) Hi) as H.
  unfold arm. destruct (wire ← decode from_value payload; into wire) as [a|e|]; cbn; [|right|done].
  - left. exists a. by apply tick_performs.
  - by exists e.
Qed.
End lemmas.

(** ** Theorems *)

Section theorems.
Context {P : Platform} {S : Serde} {T : Tera} {C : Crypto}.

Hint Resolve calm_bool_de calm_date calm_cadence calm_reminder_channel calm_line calm_list_de : calm.
Ltac calm_wire := intros ?;
  unfold DraftInvoiceWire_de, InvoiceIdWire_de, SendInvoiceWire_de, MarkPaidWire_de, VoidInvoiceWire_de,
    CreateCreditNoteWire_de, CreditNoteIdWire_de, ScheduleCreateWire_de, ScheduleIdWire_de,
    ReminderScheduleWire_de, ReminderIdWire_de, defaulted; solve_calm.
Ltac validates_into := intros ?;
  unfold draft_into_input, issue_input, send_input, pay_input, void_input, credit_input,
    issue_credit_input, schedule_into_input, schedule_change_input, reminder_input,
    reminder_cancel_input; apply validates_parse.

(** One arm of the dispatcher is the command [mk]. *)
Ltac op_arm mk :=
  let a := fresh in let Ha := fresh in let e := fresh in let He := fresh in
  lazymatch goal with
  | ctx : CoreCtx |- context [arm ?from_value ?into ?payload ?command ?answer] =>
      destruct (arm_performs ctx mk from_value into payload command answer
        ltac:(calm_wire) ltac:(validates_into) ltac:(done)) as [[a Ha]|(e & -> & He)]
  end;
  [left; split; [by apply (bool_decide_unpack _)|exists (mk a); exact Ha]
  |right; eexists; split; [done|left; split; [by apply (bool_decide_unpack _)|exact He]]].
Ltac op_tick c :=
  left; split; [by apply (bool_decide_unpack _)|exists c; by apply tick_performs].

(** C24: a WebSocket request is one command or nothing: for every operation name
    and payload, either the dispatch acts on the world exactly as one command of
    the command layer does, at every point of its run, and answers a result when
    the command succeeds and the error tagged with its kind when it fails; or it
    touches nothing, and then it is a [ping], an undecodable payload or id
    answered as a validation error, or an operation that is not in the list of
    operations. *)
Theorem ops_are_commands ctx op payload actor_name :
  (op ∈ OP_NAMES ∧ ∃ c, ∀ E w,
     (run E (dispatch ctx op payload actor_name) w).1 = (run E (perform ctx c) w).1 ∧
     (∀ n, crash_run E n (dispatch ctx op payload actor_name) w = crash_run E n (perform ctx c) w) ∧
     match (run E (perform ctx c) w).2, (run E (dispatch ctx op payload actor_name) w).2 with
     | Ok _, Ok (Ok _) | Panic, Panic => True
     | Err e, Ok (Err e') => e' = from_core e
     | _, _ => False
     end) ∨
  (∃ r, dispatch ctx op payload actor_name = Ret r ∧
    match r with
    | Ok v => op = "ping" ∧ v = JObj [("pong", JBool true)]
    | Err e => (op ∈ OP_NAMES ∧ oe_code e = "validation") ∨ ((op ∉ OP_NAMES) ∧ oe_code e = "unknown_op")
    | Panic => False
    end).
Proof.
  unfold dispatch. cbv zeta.
  destruct (String.eqb_spec op "invoice.draft") as [->|N1]; [op_arm DraftInvoice|].
  destruct (String.eqb_spec op "invoice.issue") as [->|N2]; [op_arm IssueInvoice|].
  destruct (String.eqb_spec op "invoice.send") as [->|N3]; [op_arm SendInvoice|].
  destruct (String.eqb_spec op "invoice.pay") as [->|N4]; [op_arm MarkPaid|].
  destruct (String.eqb_spec op "invoice.void") as [->|N5]; [op_arm VoidInvoice|].
  destruct (String.eqb_spec op "creditnote.draft") as [->|N6]; [op_arm CreateCreditNote|].
  destruct (String.eqb_spec op "creditnote.issue") as [->|N7]; [op_arm IssueCreditNote|].
  destruct (String.eqb_spec op "schedule.create") as [->|N8]; [op_arm ScheduleCreate|].
  destruct (String.eqb_spec op "schedule.pause") as [->|N9]; [op_arm SchedulePause|].
  destruct (String.eqb_spec op "schedule.cancel") as [->|N10]; [op_arm ScheduleCancel|].
  destruct (String.eqb_spec op "reminder.schedule") as [->|N11]; [op_arm ReminderSchedule|].
  destruct (String.eqb_spec op "reminder.cancel") as [->|N12]; [op_arm ReminderCancel|].
  destruct (String.eqb_spec op "tick.schedules") as [->|N13]; [op_tick SchedulesTick|].
  destruct (String.eqb_spec op "tick.reminders") as [->|N14]; [op_tick RemindersTick|].
  destruct (String.eqb_spec op "tick.overdue") as [->|N15]; [op_tick MarkOverdue|].
  destruct (String.eqb_spec op "ping") as [->|N16]; right; eexists; (split; [done|]); [done|].
  right. split; [|done]. unfold OP_NAMES. rw !not_elem_of_cons. split_and!; try done. apply not_elem_of_nil.
Qed.
End theorems.

(** ** Witness *)

#[local] Existing Instance Concrete.platform.
#[local] Existing Instance ConcreteJson.serde.
#[local] Existing Instance ConcreteCrypto.crypto.
#[local] Existing Instance concrete_tera.

Definition fx_void_payload : json :=
  JObj [("invoice_id", JStr (id_to_string fx_invoice_id)); ("reason", JStr "duplicate")].

Lemma ops_are_commands_witness :
  ∃ c, ∀ E w, (run E (dispatch fx_ctx "invoice.void" fx_void_payload "ana") w).1 =
    (run E (perform fx_ctx c) w).1.
Proof.
  destruct (ops_are_commands fx_ctx "invoice.void" fx_void_payload "ana") as [(_ & c & H)|(r & Hr & _)].
  - exists c. intros E w. destruct (H E w) as [Hw _]. exact Hw.
  - exfalso. assert (match dispatch fx_ctx "invoice.void" fx_void_payload "ana" with
      Act _ _ => true | _ => false end = true) as Hact by (vm_compute; reflexivity).
    rewrite -> Hr in Hact. discriminate Hact.
Defined.
