(* ===== verification/Adapter.v ===== *)
(** * What the adapters share

    An adapter (the HTTP API, the MCP tools) turns a request into one command or
    into reads of the store and answers in an error type of its own.  [asks] says
    so of a program; its rules follow the way the handlers are written. *)

From S2P Require Import Prelude External Money Ids Domain InvoiceFsm Events Tax Store Codec Render Command.
From S2P Require Import Effects Transition Invariant Evolution World Outbox SignedLink System.

Section adapter.
Context {P : Platform} {S : Serde} {T : Tera} {C : Crypto}.
Implicit Types (E : Env) (w : World).

(** A command called with [?]: its error becomes the adapter's. *)
Definition command_as {Er A} (core : CoreError → Er) (p : prog A) : prog (res Er A) :=
  try_conv core (catch p).

Lemma run_command_as {Er A} (core : CoreError → Er) E (p : prog A) w :
  run E (command_as core p) w =
    ((run E p w).1, match (run E p w).2 with
                    | Ok a => Ok (Ok a) | Err e => Ok (Err (core e)) | Panic => Panic end).
Proof. unfold command_as. rw run_try_conv run_catch. by destruct (run E p w) as [w' [a|e|]]. Qed.

Lemma silent_try_bind {Er A B} (p : prog (res Er A)) (f : A → prog (res Er B)) :
  silent p → (∀ a, silent (f a)) → silent (try_bind p f).
Proof. intros Hp Hf. apply silent_bind; [done|]. intros [a|e|]; [apply Hf|constructor..]. Qed.
Lemma silent_try_conv {Er Er' A} (conv : Er → Er') (p : prog (res Er A)) :
  silent p → silent (try_conv conv p).
Proof. intros Hp. by apply silent_bind; [|constructor]. Qed.

(** [tells e e'] when the adapter may answer [e'] for the command's error [e];
    [late c e] when it may answer [e] after [c] succeeded. *)
Section asks.
Context {Er A : Type} (tells : CoreError → Er → Prop) (late : Command → Er → Prop).
Implicit Types (out : res CoreError (res Er A)).

(** The request left the store and the bus as they were. *)
Definition untouched (reads : bool) w w' out : Prop :=
  same_world w w' ∧ (reads = false → ∀ a, out ≠ Ok (Ok a)).
(** How the answer of a request reports its command. *)
Definition reported (c : Command) (done : res CoreError ()) out : Prop :=
  match done, out with
  | Ok _, Ok (Ok _) | Panic, Panic => True
  | Ok _, Ok (Err e) => late c e
  | Err e, Ok (Err e') => tells e e'
  | _, _ => False
  end.
Definition request_post ctx (reads : bool) E w w' out : Prop :=
  untouched reads w w' out ∨
  ∃ c w0, same_world w w0 ∧ same_world (run E (perform ctx c) w0).1 w' ∧
    reported c (run E (perform ctx c) w0).2 out.
Definition asks ctx (reads : bool) (p : prog (res Er A)) : Prop :=
  ∀ E w, request_post ctx reads E w (run E p w).1 (run E p w).2.

Lemma asks_silent ctx p : silent p → asks ctx true p.
Proof. intros Hp E w. left. split; [by apply silent_run|done]. Qed.
Lemma asks_refused ctx reads e : asks ctx reads (Ret (Err e)).
Proof. intros E w. left. by split. Qed.
Lemma asks_input {I} ctx reads (m : res Er I) f :
  (∀ a, asks ctx reads (f a)) → asks ctx reads (try_bind (Ret m) f).
Proof.
  intros Hf. destruct m as [a|e|]; [exact (Hf a)|apply asks_refused|].
  intros E w. left. by split.
Qed.
(** What follows the command: it shapes the answer, and may fail in a way of its own. *)
Definition ends_in (c : Command) (p : prog (res Er A)) : Prop :=
  silent p ∧ ∀ E w, (∃ a, (run E p w).2 = Ok (Ok a)) ∨ ∃ e, (run E p w).2 = Ok (Err e) ∧ late c e.
Definition answers (p : prog (res Er A)) : Prop :=
  silent p ∧ ∀ E w, ∃ a, (run E p w).2 = Ok (Ok a).
Lemma answers_ret a : answers (Ret (Ok a)).
Proof. split; [constructor|]. intros E w. by exists a. Qed.
Lemma asks_ends {B} ctx reads core c (p : prog B) (f : B → prog (res Er A)) :
  (∀ e, tells e (core e)) → perform ctx c = forget p → (∀ b, ends_in c (f b)) →
  asks ctx reads (out ←? command_as core p; f out).
Proof.
  intros Ht Ec Hf E w. right. exists c, w. split; [done|]. rw Ec. unfold forget.
  rw run_try_bind run_command_as run_bind.
  destruct (run E p w) as [w' [b|e|]]; cbn; [|by split; [|apply Ht]|done].
  destruct (Hf b) as [Hs Ha]. split; [by apply silent_run|].
  destruct (Ha E w') as [[a Hr]|(e & Hr & He)]; by rw Hr.
Qed.
Lemma asks_command {B} ctx reads core c (p : prog B) (f : B → prog (res Er A)) :
  (∀ e, tells e (core e)) → perform ctx c = forget p → (∀ b, answers (f b)) →
  asks ctx reads (out ←? command_as core p; f out).
Proof.
  intros Ht Ec Hf. apply (asks_ends _ _ _ c); [done|done|]. intros b. destruct (Hf b) as [Hs Ha].
  split; [done|]. intros E w. left. apply Ha.
Qed.
(** A step before the command that leaves the world as it was. *)
Lemma asks_before {B} ctx reads (p : prog B) f :
  silent p → (∀ E w, ∃ b, (run E p w).2 = Ok b) → (∀ b, asks ctx reads (f b)) →
  asks ctx reads (p ≫= f).
Proof.
  intros Hp Hok Hf E w. rw run_bind. pose proof (silent_run E p w Hp) as Hs.
  destruct (Hok E w) as [b Hb]. destruct (run E p w) as [w1 r]. cbn in Hs, Hb. subst r. cbn.
  destruct (Hf b E w1) as [[Hw Hr]|(c & w0 & H0 & H1 & Hr)].
  - left. split; [by etrans|done].
  - right. exists c, w0. split; [by etrans|]. by split.
Qed.
End asks.

(** The answer wrapped, the error converted. *)
Lemma asks_conv {Er Er' A B} tells tells' late late' (conv : Er → Er') (g : A → B) ctx reads p :
  (∀ e e', tells e e' → tells' e (conv e')) → (∀ c e, late c e → late' c (conv e)) →
  asks tells late ctx reads p → asks tells' late' ctx reads (a ←? try_conv conv p; Ret (Ok (g a))).
Proof.
  intros Ht Hl Hp E w. rw run_try_bind run_try_conv.
  destruct (Hp E w) as [[Hw Hr]|(c & w0 & H0 & H1 & Hr)]; revert Hr;
    destruct (run E p w) as [w' [[a|e|]|e|]]; cbn in *; intros Hr; try (left; by split);
    try (right; exists c, w0; split; [done|]; split; [done|]);
    try (destruct (run E (perform ctx c) w0).2; cbn in *; auto; done).
  left. split; [done|]. intros Er0. by destruct (Hr Er0 a).
Qed.
End adapter.

#[export] Hint Resolve silent_try_conv : inv.
(** A chain of reads. *)
Ltac silent_read := repeat first
  [ apply silent_try_bind; [|intros]
  | match goal with |- silent (match ?x with _ => _ end) => destruct x end
  | solve [constructor] | solve [auto with inv] ].

Tactic Notation "ask_command" open_constr(cmd) :=
  eapply asks_command with (c := cmd); [done|done|intros; apply answers_ret].
Ltac ask_input mk :=
  apply asks_input; let a := fresh in intros a; ask_command (mk a).

(** ** Crashes *)

Section crash.
Context {P : Platform} {L : PlatformLaws P} {T : Tera}.

Lemma since_input {Er A B} d0 E (m : res Er A) (f : A → prog (res Er B)) w :
  ok_since d0 w → (∀ a, safe (ok_since d0) E (f a) w) → safe (ok_since d0) E (try_bind (Ret m) f) w.
Proof. intros Hw Hf. destruct m; [apply Hf|done..]. Qed.
Lemma since_command {Er A B} (core : CoreError → Er) d0 E (p : prog A) (f : A → prog (res Er B)) w :
  safe (ok_since d0) E p w → (∀ a, silent (f a)) →
  safe (ok_since d0) E (out ←? command_as core p; f out) w.
Proof.
  intros Hp Hf. apply safe_try_bind; [by apply safe_try_conv, safe_catch|].
  intros. by apply safe_quiet; [apply ok_since_stable|apply silent_quiet, Hf|].
Qed.
Lemma since_silent {A} d0 E (p : prog A) w : ok_since d0 w → silent p → safe (ok_since d0) E p w.
Proof. intros Hw Hp. by apply safe_quiet; [apply ok_since_stable|apply silent_quiet|]. Qed.
Lemma since_save_customer {Er} (conv : StoreError → Er) d0 E c w :
  ok_since d0 w → safe (ok_since d0) E (try_conv conv (db_try_exec (customer_save c))) w.
Proof.
  intros Hw. apply safe_try_conv, safe_db_try_exec; [apply ok_since_stable|done|].
  intros d Hd. apply since_same; [done|by eapply world_ok_customer; [apply Hw|]|..];
    unfold customer_save in Hd; by injection Hd as <-.
Qed.
End crash.
