(* ===== verification/Api.v ===== *)
(** * The HTTP API ([api/src/handlers/], [auth.rs], [webhook.rs], [lib.rs])

    A handler parses the path and body of its route, runs one command or reads
    the store, and answers a status and a body; [serve] puts the bearer check in
    front of the [/v1] routes.  A request is here what the extractors decoded, a
    body as a record ([Http] has the way there); the HTTP client is a field of
    the state. *)

From S2P Require Import Prelude External Concrete Money Ids Domain InvoiceFsm CreditNoteFsm Events Cadence.
From S2P Require Import Tax Store Codec ConcreteJson Wire Render Command Effects Transition Invariant Evolution World.
From S2P Require Import Fixtures Draft Issue Pay Void Send Credit Overdue Reminders Schedules SignedLink Outbox View.
From S2P Require Import System Ops Adapter.

(** ** State ([state.rs]) *)

Record ApiConfig := MkApiConfig {
  bearer_tokens : list string;
  link_signing_key : string;
  link_ttl : Z;                       (* seconds *)
  public_base_url : string;
  webhook_signing_key : string;
}.
Definition ApiConfig_default : ApiConfig :=
  {| bearer_tokens := [];
     link_signing_key := "";
     link_ttl := 60 * 60 * 24 * 30;
     public_base_url := "http://localhost:7400";
     webhook_signing_key := "" |}.

(** What [reqwest] answers to a POST. *)
Inductive HttpReply := Unreachable (msg : string) | Replied (code : Z) (reason : string).

(** [str::trim] on the visible ASCII of a header value. *)
Definition is_ascii_space (c : ascii) : bool :=
  let n := N_of_ascii c in ((9 <=? n) && (n <=? 13) || (n =? 32))%N.
Fixpoint trim_start (s : string) : string :=
  match s with
  | String c s' => if is_ascii_space c then trim_start s' else s
  | EmptyString => EmptyString
  end.
Fixpoint trim_end (s : string) : string :=
  match s with
  | EmptyString => EmptyString
  | String c s' =>
      match trim_end s' with
      | EmptyString => if is_ascii_space c then EmptyString else String c EmptyString
      | t => String c t
      end
  end.
Definition trim (s : string) : string := trim_end (trim_start s).
(** [trim_end_matches('/')] *)
Fixpoint trim_end_slashes (s : string) : string :=
  match s with
  | EmptyString => EmptyString
  | String c s' =>
      match trim_end_slashes s' with
      | EmptyString => if Ascii.eqb c "/" then EmptyString else String c EmptyString
      | t => String c t
      end
  end.

Section api.
Context `{P : Platform} `{S : Serde} {T : Tera} {C : Crypto}.

(** [st_post step target content_type signature body] *)
Record ApiState := MkApiState {
  st_ctx : CoreCtx;
  st_config : ApiConfig;
  st_post : nat → string → string → string → string → HttpReply;
}.

(** ** Responses ([error.rs]) *)

Inductive Body := BJson (v : json) | BHtml (s : string) | BText (s : string).
Definition Answer : Type := res ApiError (Z * Body).

Definition detail (e : ApiError) : Message :=
  match e with
  | Core err => CoreText err
  | BadRequest s | ApiNotFound s | WebhookDispatch s | Internal s => Text s
  | Unauthorized => Text "Authorization header missing or unrecognised bearer token"
  | InvalidLink => Text "Token signature mismatch, expired, or malformed"
  end.
Record ProblemDetail := MkProblemDetail {
  pd_type : string; pd_title : string; pd_status : Z; pd_detail : Message }.
Definition problem (e : ApiError) : ProblemDetail :=
  MkProblemDetail ("https://errors.inv.hop.top/" +:+ slug e) (title e) (status e) (detail e).

(** [command(..).await?] *)
Definition command {A} (p : prog A) : prog (res ApiError A) := command_as Core p.
Definition ok (status : Z) (v : json) : prog Answer := Ret (Ok (status, BJson v)).

(** ** Authorisation ([auth.rs]) *)

(** [header] is the text of the [Authorization] header; the comparison is
    [constant_time_eq] through the [subtle] crate. *)
Definition require_bearer {A} (st : ApiState) (header : option string) (next : prog (res ApiError A))
    : prog (res ApiError A) :=
  match bearer_tokens (st_config st) with
  | [] => next
  | tokens =>
      match header with
      | None => Ret (Err Unauthorized)
      | Some header =>
          match (match strip_prefix "Bearer " header with
                 | Some t => Some t | None => strip_prefix "bearer " header end) with
          | None => Ret (Err Unauthorized)
          | Some token =>
              if existsb (λ t, String.eqb t (trim token)) tokens then next else Ret (Err Unauthorized)
          end
      end
  end.

(** ** Invoices ([handlers/invoices.rs]) *)

Record LineBody := MkLineBody {
  lb_description : string; lb_quantity : Decimal; lb_unit_price : Decimal; lb_tax_category : TaxCategory }.
Record DraftBody := MkDraftBody {
  db_customer_id : string;
  db_seller_jurisdiction : string;
  db_currency : string;
  db_lines : list LineBody;
  db_idempotency_key : option string;
  db_due_at : option DateTime;
  db_template_path : option string;
}.

(** [s.parse().map_err(|e| BadRequest(format!("invalid <what>: {e}")))] *)
Definition parse_path {e : Entity} (what s : string) : res ApiError (EntityId e) :=
  map_err (λ err, BadRequest ("invalid " +:+ what +:+ ": " +:+ IdError_to_string err)) (id_parse e s).
Definition api_parse_invoice_id (s : string) : res ApiError InvoiceId :=
  parse_path ("invoice id `" +:+ s +:+ "`") s.
Definition api_parse_customer_id (s : string) : res ApiError CustomerId :=
  parse_path ("customer id `" +:+ s +:+ "`") s.
Definition api_parse_currency (s : string) : res ApiError Currency :=
  map_err (λ e, BadRequest ("invalid currency `" +:+ s +:+ "`: " +:+ CurrencyError_to_string e)) (Currency.new s).
Definition api_parse_jurisdiction (s : string) : res ApiError Jurisdiction :=
  map_err (λ e, BadRequest ("invalid jurisdiction `" +:+ s +:+ "`: unsupported jurisdiction: `" +:+ e +:+
    "` (v1 supports CA-QC | US-DE | DZ-16)")) (Jurisdiction.from_str s).
Definition parse_state (s : string) : res ApiError InvoiceState :=
  if String.eqb s "draft" then Ok Draft
  else if String.eqb s "issued" then Ok Issued
  else if String.eqb s "sent" then Ok Sent
  else if String.eqb s "viewed" then Ok Viewed
  else if String.eqb s "partially_paid" then Ok PartiallyPaid
  else if String.eqb s "paid" then Ok Paid
  else if String.eqb s "voided" then Ok Voided
  else Err (BadRequest ("invalid invoice state `" +:+ s +:+ "`")).
Definition api_actor : Actor := AApi "http".

Definition InvoiceResponse_json (i : Invoice) (lines : list InvoiceLine) (replay : option bool) : json :=
  JObj ([("invoice", Invoice_json i); ("lines", JArr (InvoiceLine_json <$> lines))] ++
        jsome JBool "idempotency_replay" replay).

Definition draft_body_input (body : DraftBody) : res ApiError DraftInvoiceInput :=
  customer_id ← api_parse_customer_id (db_customer_id body);
  seller_jurisdiction ← api_parse_jurisdiction (db_seller_jurisdiction body);
  currency ← api_parse_currency (db_currency body);
  Ok {| di_customer_id := customer_id;
        di_seller_jurisdiction := seller_jurisdiction;
        di_currency := currency;
        di_lines := (λ l, MkDraftLineInput (lb_description l) (lb_quantity l) (lb_unit_price l)
                            (lb_tax_category l)) <$> db_lines body;
        di_idempotency_key := db_idempotency_key body;
        di_actor := api_actor;
        di_channel := ChApi;
        di_due_at := db_due_at body;
        di_template_path := db_template_path body;
        di_schedule_id := None |}.
Definition invoices_draft (st : ApiState) (body : DraftBody) : prog Answer :=
  input ←? Ret (draft_body_input body);
  out ←? command (draft_invoice (st_ctx st) input);
  ok (if do_idempotency_replay out then 200 else 201)
    (InvoiceResponse_json (do_invoice out) (do_lines out) (Some (do_idempotency_replay out))).

Record ListQuery := MkListQuery {
  lq_owner : option string; lq_state : option string; lq_limit : option Z; lq_offset : option Z }.
(** An absent or empty query parameter does not filter. *)
Definition query_filter {A} (parse : string → res ApiError A) (o : option string) : res ApiError (option A) :=
  match o with
  | None | Some EmptyString => Ok None
  | Some s => Some <$> parse s
  end.
Definition invoices_list (st : ApiState) (q : ListQuery) : prog Answer :=
  customer_id ←? Ret (query_filter api_parse_customer_id (lq_owner q));
  inv_state ←? Ret (query_filter parse_state (lq_state q));
  rows ←? store_try (invoice_list (MkInvoiceFilter customer_id inv_state (lq_limit q) (lq_offset q)));
  ok 200 (JArr (Invoice_json <$> rows)).

Definition invoices_get (st : ApiState) (id : string) : prog Answer :=
  id ←? Ret (api_parse_invoice_id id);
  found ←? store_try (λ d, Ok (invoice_get id d));
  invoice ←? or_error (ApiNotFound ("invoice " +:+ id_to_string id)) found;
  lines ←? store_try (λ d, Ok (line_list_for_invoice id d));
  ok 200 (JObj [("invoice", Invoice_json invoice); ("lines", JArr (InvoiceLine_json <$> lines))]).

(** An empty body is the default one; serde's text is not kept. *)
Definition parse_optional_body {A} (d : A) (from_json : json → SR A) (bytes : string) : res ApiError A :=
  if String.eqb bytes "" then Ok d
  else map_err (λ _, BadRequest "invalid JSON body: ") (v ← ok_or Json (json_from_str bytes); from_json v).
Definition IssueBody_de (v : json) : SR (option string) :=
  ms ← struct_fields ["idempotency_key"] v; opt_field "idempotency_key" ms.
Definition VoidBody_de (v : json) : SR (option string * option string) :=
  ms ← struct_fields ["reason"; "idempotency_key"] v;
  reason ← opt_field "reason" ms;
  idempotency_key ← opt_field "idempotency_key" ms;
  Ok (reason, idempotency_key).

Definition issue_body_input (id bytes : string) : res ApiError IssueInvoiceInput :=
  id ← api_parse_invoice_id id;
  key ← parse_optional_body None IssueBody_de bytes;
  Ok (MkIssueInvoiceInput id key api_actor ChApi).
Definition invoices_issue (st : ApiState) (id bytes : string) : prog Answer :=
  input ←? Ret (issue_body_input id bytes);
  out ←? command (issue_invoice (st_ctx st) input);
  ok 200 (InvoiceResponse_json (io_invoice out) (io_lines out) None).

(** [webhook::dispatch] *)
Definition webhook_dispatch (st : ApiState) (webhook_uri content_type body : string) : prog (res ApiError ()) :=
  target ←? Ret (map_err BadRequest (webhook_to_http webhook_uri));
  let sig := signature_header body (webhook_signing_key (st_config st)) in
  Act (λ E w, (tick w, st_post st (w_step w) target content_type sig body))
      (λ r, Ret match r with
                | Unreachable e => Err (WebhookDispatch ("POST " +:+ target +:+ ": " +:+ e))
                | Replied code reason =>
                    if (200 <=? code) && (code <? 300) then Ok ()
                    else Err (WebhookDispatch ("POST " +:+ target +:+ ": status " +:+
                                               show_Z code +:+ " " +:+ reason))
                end).

Record SendBody := MkSendBody { sb_destination_uri : string; sb_idempotency_key : option string }.
Definition starts_with (p s : string) : bool :=
  match strip_prefix p s with Some _ => true | None => false end.

Definition send_webhook (st : ApiState) (invoice_id : InvoiceId) (body : SendBody) : prog Answer :=
  let input := MkSendInvoiceRenderInput invoice_id (sb_destination_uri body) (sb_idempotency_key body)
                 api_actor ChApi in
  out ←? command (send_invoice_render (st_ctx st) input);
  _ ←? webhook_dispatch st (sb_destination_uri body) "application/pdf" (so_pdf out);
  ok 200 (JObj [("invoice", Invoice_json (so_invoice out));
                ("delivered_to", JStr (sb_destination_uri body))]).

(** The [link://] arm: a token for a stored invoice; [now] is the wall clock. *)
Definition send_link (st : ApiState) (now : Z) (invoice_id : InvoiceId) : prog Answer :=
  found ←? store_try (λ d, Ok (invoice_get invoice_id d));
  _ ←? or_error (ApiNotFound ("invoice " +:+ id_to_string invoice_id)) found;
  let ttl := link_ttl (st_config st) in
  let token := sign_at (id_to_string invoice_id) ttl (link_signing_key (st_config st)) now in
  let url := trim_end_slashes (public_base_url (st_config st)) +:+ "/v/" +:+ token in
  ok 200 (JObj [("url", JStr url); ("token", JStr token); ("expires_in_seconds", JInt ttl)]).

Definition invoices_send (st : ApiState) (now : Z) (id : string) (body : SendBody) : prog Answer :=
  invoice_id ←? Ret (api_parse_invoice_id id);
  let uri := sb_destination_uri body in
  if String.eqb uri "link://" || starts_with "link://" uri then send_link st now invoice_id
  else if starts_with "webhook://" uri || starts_with "webhook+http://" uri
  then send_webhook st invoice_id body
  else if String.eqb uri "stdout" then
    Ret (Err (BadRequest "send: `stdout` destination is not supported over HTTP — use webhook:// or file:// or link://"))
  else
    out ←? command (send_invoice (st_ctx st)
             (MkSendInvoiceInput invoice_id uri (sb_idempotency_key body) api_actor ChApi false));
    ok 200 (JObj [("invoice", Invoice_json (so_invoice out)); ("delivered_to", JStr (so_delivered_to out))]).

Record PayBody := MkPayBody {
  pb_amount : Decimal;
  pb_received_at : option DateTime;
  pb_bus_event_id : option string;
  pb_idempotency_key : option string;
}.
Definition pay_body_input (id : string) (body : PayBody) : res ApiError MarkPaidInput :=
  id ← api_parse_invoice_id id;
  Ok (MkMarkPaidInput id (pb_amount body) (pb_received_at body) (pb_idempotency_key body)
        (pb_bus_event_id body) api_actor ChApi).
Definition invoices_pay (st : ApiState) (id : string) (body : PayBody) : prog Answer :=
  input ←? Ret (pay_body_input id body);
  out ←? command (mark_paid (st_ctx st) input);
  ok 200 (JObj [("invoice", Invoice_json (mpo_invoice out)); ("fully_paid", JBool (mpo_fully_paid out))]).

Definition void_body_input (id bytes : string) : res ApiError VoidInvoiceInput :=
  id ← api_parse_invoice_id id;
  '(reason, key) ← parse_optional_body (None, None) VoidBody_de bytes;
  Ok (MkVoidInvoiceInput id reason key api_actor ChApi).
Definition invoices_void (st : ApiState) (id bytes : string) : prog Answer :=
  input ←? Ret (void_body_input id bytes);
  out ←? command (void_invoice (st_ctx st) input);
  ok 200 (jinvoice out).

Definition tick_schedules (st : ApiState) : prog Answer :=
  out ←? command (schedules_tick (st_ctx st));
  ok 200 (JObj [("ran_schedule_ids", JArr (jid <$> sto_ran_schedule_ids out));
                ("drafts_count", JInt (Z.of_nat (length (sto_drafts out))))]).
Definition tick_reminders (st : ApiState) : prog Answer :=
  out ←? command (reminders_tick (st_ctx st));
  ok 200 (JObj [("sent_reminders", JArr (Reminder_json <$> out))]).
Definition tick_overdue (st : ApiState) : prog Answer :=
  out ←? command (mark_overdue_ticker (st_ctx st));
  ok 200 (JObj [("overdue_invoices", JArr (Invoice_json <$> out))]).
Definition list_tax_rates (st : ApiState) : prog Answer :=
  ok 200 (JObj [("rates", JArr (TaxRate_json <$> tt_rates (tax_table (st_ctx st))))]).

(** ** Credit notes ([handlers/credit_notes.rs]) *)

Record DraftCreditBody := MkDraftCreditBody {
  dcb_amount : Decimal;
  dcb_reason : option string;
  dcb_refund_ref : option string;
  dcb_idempotency_key : option string;
}.
Definition credit_body_input (invoice_id : string) (body : DraftCreditBody) : res ApiError CreateCreditNoteInput :=
  invoice_id ← parse_path "invoice id" invoice_id;
  Ok (MkCreateCreditNoteInput invoice_id (dcb_amount body) (dcb_reason body)
        (dcb_refund_ref body) (dcb_idempotency_key body) api_actor ChApi).
Definition credit_notes_draft (st : ApiState) (invoice_id : string) (body : DraftCreditBody) : prog Answer :=
  input ←? Ret (credit_body_input invoice_id body);
  out ←? command (create_credit_note (st_ctx st) input);
  ok 201 (jcredit_note out).
Definition credit_issue_input (id : string) : res ApiError IssueCreditNoteInput :=
  id ← parse_path "credit-note id" id; Ok (MkIssueCreditNoteInput id None api_actor ChApi).
Definition credit_notes_issue (st : ApiState) (id : string) : prog Answer :=
  input ←? Ret (credit_issue_input id);
  out ←? command (issue_credit_note (st_ctx st) input);
  ok 200 (jcredit_note out).
Definition credit_notes_get (st : ApiState) (id : string) : prog Answer :=
  id ←? Ret (parse_path (e:=ECreditNote) "credit-note id" id);
  found ←? store_try (λ d, Ok (cn_get id d));
  cn ←? or_error (ApiNotFound ("credit note " +:+ id_to_string id)) found;
  ok 200 (jcredit_note cn).
Definition parse_credit_note_state (s : string) : res ApiError CreditNoteState :=
  if String.eqb s "draft" then Ok CnDraft
  else if String.eqb s "issued" then Ok CnIssued
  else Err (BadRequest ("invalid credit-note state `" +:+ s +:+ "` (want draft | issued)")).
Definition credit_notes_list (st : ApiState) (q : ListQuery) : prog Answer :=
  invoice_id ←? Ret (query_filter (parse_path "invoice id") (lq_owner q));
  cn_state ←? Ret (query_filter parse_credit_note_state (lq_state q));
  rows ←? store_try (cn_list (MkCreditNoteFilter invoice_id cn_state (lq_limit q) (lq_offset q)));
  ok 200 (JObj [("credit_notes", JArr (CreditNote_json <$> rows))]).

(** ** Reminders ([handlers/reminders.rs]) *)

Definition reminder_body_input (invoice_id : string) (scheduled_at : DateTime) (channel : ReminderChannel)
    : res ApiError ReminderScheduleInput :=
  invoice_id ← parse_path "invoice id" invoice_id;
  Ok (MkReminderScheduleInput invoice_id scheduled_at channel api_actor ChApi).
Definition reminders_schedule (st : ApiState) (invoice_id : string) (scheduled_at : DateTime)
    (channel : ReminderChannel) : prog Answer :=
  input ←? Ret (reminder_body_input invoice_id scheduled_at channel);
  out ←? command (reminder_schedule (st_ctx st) input);
  ok 201 (jreminder out).
Definition reminder_cancel_id_input (id : string) : res ApiError ReminderCancelInput :=
  id ← parse_path "reminder id" id; Ok (MkReminderCancelInput id api_actor ChApi).
Definition reminders_cancel (st : ApiState) (id : string) : prog Answer :=
  input ←? Ret (reminder_cancel_id_input id);
  out ←? command (reminder_cancel (st_ctx st) input);
  ok 200 (jreminder out).
Definition reminders_list (st : ApiState) (invoice_id : option string) : prog Answer :=
  rows ←? match invoice_id with
          | None | Some EmptyString => Ret (Ok [])
          | Some s =>
              invoice_id ←? Ret (parse_path (e:=EInvoice) "invoice id" s);
              store_try (λ d, Ok (reminder_list_for_invoice invoice_id d))
          end;
  ok 200 (JObj [("reminders", JArr (Reminder_json <$> rows))]).

(** ** Schedules ([handlers/schedules.rs]) *)

Record ScheduleBody := MkScheduleBody {
  scb_customer_id : string;
  scb_template_lines : list LineBody;
  scb_currency : string;
  scb_cadence : string;
  scb_start_date : NaiveDate;
  scb_end_date : option NaiveDate;
  scb_auto_issue : bool;
}.
Definition schedule_body_input (body : ScheduleBody) : res ApiError ScheduleCreateInput :=
  customer_id ← parse_path "customer id" (scb_customer_id body);
  currency ← map_err (λ e, BadRequest ("invalid currency: " +:+ CurrencyError_to_string e))
               (Currency.new (scb_currency body));
  cadence ← map_err (λ e, BadRequest ("invalid cadence: " +:+ CadenceError_to_string e))
              (Cadence.from_str (scb_cadence body));
  Ok {| sci_customer_id := customer_id;
        sci_template_lines := (λ l, MkScheduleLineInput (lb_description l) (lb_quantity l)
                                      (lb_unit_price l) (lb_tax_category l)) <$> scb_template_lines body;
        sci_currency := currency;
        sci_cadence := cadence;
        sci_start_date := scb_start_date body;
        sci_end_date := scb_end_date body;
        sci_auto_issue := scb_auto_issue body;
        sci_actor := api_actor;
        sci_channel := ChApi |}.
Definition schedules_create (st : ApiState) (body : ScheduleBody) : prog Answer :=
  input ←? Ret (schedule_body_input body);
  out ←? command (schedule_create (st_ctx st) input);
  ok 201 (jschedule out).
Definition schedule_id_input (id : string) : res ApiError ScheduleStateChangeInput :=
  id ← parse_path "schedule id" id; Ok (MkScheduleStateChangeInput id api_actor ChApi).
Definition schedules_pause (st : ApiState) (id : string) : prog Answer :=
  input ←? Ret (schedule_id_input id);
  out ←? command (schedule_pause (st_ctx st) input);
  ok 200 (jschedule out).
Definition schedules_cancel (st : ApiState) (id : string) : prog Answer :=
  input ←? Ret (schedule_id_input id);
  out ←? command (schedule_cancel (st_ctx st) input);
  ok 200 (jschedule out).
Definition schedules_get (st : ApiState) (id : string) : prog Answer :=
  id ←? Ret (parse_path (e:=ESchedule) "schedule id" id);
  found ←? store_try (λ d, Ok (schedule_get id d));
  s ←? or_error (ApiNotFound ("schedule " +:+ id_to_string id)) found;
  ok 200 (jschedule s).
Definition parse_schedule_state (s : string) : res ApiError ScheduleState :=
  if String.eqb s "active" then Ok SActive
  else if String.eqb s "paused" then Ok SPaused
  else if String.eqb s "cancelled" then Ok SCancelled
  else Err (BadRequest ("invalid schedule state `" +:+ s +:+ "` (want active | paused | cancelled)")).
Definition schedules_list (st : ApiState) (q : ListQuery) : prog Answer :=
  customer_id ←? Ret (query_filter (parse_path "customer id") (lq_owner q));
  sched_state ←? Ret (query_filter parse_schedule_state (lq_state q));
  rows ←? store_try (schedule_list (MkScheduleFilter customer_id sched_state (lq_limit q) (lq_offset q)));
  ok 200 (JObj [("schedules", JArr (Schedule_json <$> rows))]).

(** ** Customers ([handlers/customers.rs]) *)

Record CustomerBody := MkCustomerBody {
  cb_display_name : string;
  cb_email : option string;
  cb_address : Address;
  cb_metadata : Metadata;
}.
Definition customers_create (st : ApiState) (body : CustomerBody) : prog Answer :=
  if is_blank (addr_country (cb_address body))
  then Ret (Err (BadRequest "address.country is required"))
  else
    now ← clock_now;
    id ← fresh ECustomer;
    let customer := MkCustomer id (cb_display_name body) (cb_email body) (cb_address body)
                      (cb_metadata body) now now in
    _ ←? try_conv (λ e, Core (Repo e)) (db_try_exec (customer_save customer));
    ok 201 (Customer_json customer).
Definition customers_get (st : ApiState) (id : string) : prog Answer :=
  id ←? Ret (parse_path (e:=ECustomer) "customer id" id);
  found ←? store_try (λ d, Ok (customer_get id d));
  c ←? or_error (ApiNotFound ("customer " +:+ id_to_string id)) found;
  ok 200 (Customer_json c).
(** [clamp(1, 1000)] *)
Definition clamp (lo hi z : Z) : Z := if z <? lo then lo else if hi <? z then hi else z.
Definition customers_list (st : ApiState) (limit offset : option Z) : prog Answer :=
  let limit := clamp 1 1000 (default 100 limit) in
  let offset := Z.max (default 0 offset) 0 in
  rows ←? store_try (customer_list limit offset);
  ok 200 (JObj [("customers", JArr (Customer_json <$> rows))]).

(** ** The router ([lib.rs]) *)

(** A request, as axum hands it to the handler of its route. *)
Inductive Route :=
  | RHealthz
  | RView (token : string)
  | RInvoiceDraft (body : DraftBody)
  | RInvoiceList (q : ListQuery)
  | RInvoiceGet (id : string)
  | RInvoiceIssue (id bytes : string)
  | RInvoiceSend (id : string) (body : SendBody)
  | RInvoicePay (id : string) (body : PayBody)
  | RInvoiceVoid (id bytes : string)
  | RCreditDraft (invoice_id : string) (body : DraftCreditBody)
  | RCreditIssue (id : string)
  | RCreditGet (id : string)
  | RCreditList (q : ListQuery)
  | RScheduleCreate (body : ScheduleBody)
  | RScheduleList (q : ListQuery)
  | RScheduleGet (id : string)
  | RSchedulePause (id : string)
  | RScheduleCancel (id : string)
  | RReminderSchedule (invoice_id : string) (scheduled_at : DateTime) (channel : ReminderChannel)
  | RReminderCancel (id : string)
  | RReminderList (invoice_id : option string)
  | RCustomerCreate (body : CustomerBody)
  | RCustomerList (limit offset : option Z)
  | RCustomerGet (id : string)
  | RTickSchedules
  | RTickReminders
  | RTickOverdue
  | RTaxRates.

Definition is_public (r : Route) : bool :=
  match r with RHealthz | RView _ => true | _ => false end.

Definition handle (st : ApiState) (now_unix : Z) (r : Route) : prog Answer :=
  match r with
  | RHealthz => Ret (Ok (200, BText "ok"))
  | RView token =>
      html ←? view_invoice (st_ctx st) (link_signing_key (st_config st)) now_unix token;
      Ret (Ok (200, BHtml html))
  | RInvoiceDraft body => invoices_draft st body
  | RInvoiceList q => invoices_list st q
  | RInvoiceGet id => invoices_get st id
  | RInvoiceIssue id bytes => invoices_issue st id bytes
  | RInvoiceSend id body => invoices_send st now_unix id body
  | RInvoicePay id body => invoices_pay st id body
  | RInvoiceVoid id bytes => invoices_void st id bytes
  | RCreditDraft id body => credit_notes_draft st id body
  | RCreditIssue id => credit_notes_issue st id
  | RCreditGet id => credit_notes_get st id
  | RCreditList q => credit_notes_list st q
  | RScheduleCreate body => schedules_create st body
  | RScheduleList q => schedules_list st q
  | RScheduleGet id => schedules_get st id
  | RSchedulePause id => schedules_pause st id
  | RScheduleCancel id => schedules_cancel st id
  | RReminderSchedule id at_ ch => reminders_schedule st id at_ ch
  | RReminderCancel id => reminders_cancel st id
  | RReminderList id => reminders_list st id
  | RCustomerCreate body => customers_create st body
  | RCustomerList limit offset => customers_list st limit offset
  | RCustomerGet id => customers_get st id
  | RTickSchedules => tick_schedules st
  | RTickReminders => tick_reminders st
  | RTickOverdue => tick_overdue st
  | RTaxRates => list_tax_rates st
  end.
Definition serve (st : ApiState) (now_unix : Z) (header : option string) (r : Route) : prog Answer :=
  if is_public r then handle st now_unix r else require_bearer st header (handle st now_unix r).
End api.

(** ** What a request does *)

(** The routes that only answer what is stored. *)
Definition reads `{P : Platform} (r : Route) : bool :=
  match r with
  | RHealthz | RInvoiceList _ | RInvoiceGet _ | RCreditGet _ | RCreditList _ | RScheduleList _
  | RScheduleGet _ | RReminderList _ | RCustomerList _ _ | RCustomerGet _ | RTaxRates => true
  | RInvoiceSend _ body =>
      String.eqb (sb_destination_uri body) "link://" || starts_with "link://" (sb_destination_uri body)
  | _ => false
  end.

Section requests.
Context {P : Platform} {L : PlatformLaws P} {S : Serde} {T : Tera} {C : Crypto} {CL : CryptoLaws C}.
Implicit Types (E : Env) (w : World) (st : ApiState).

Lemma silent_store_try {A} (f : Db → SR A) : silent (store_try f).
Proof. apply silent_try_conv, silent_db_try. Qed.
Lemma silent_or_error {A} e (o : option A) : silent (or_error e o).
Proof. constructor. Qed.
Hint Resolve silent_store_try silent_or_error : inv.

(** After a command, only a webhook can fail, in its address or its delivery. *)
Definition webhook_failed (c : Command) (e : ApiError) : Prop :=
  ∃ input, c = SendInvoiceRender input ∧ (status e = 400 ∨ status e = 502).
Notation asks := (asks (λ e e', e' = Core e) webhook_failed).

Lemma silent_send_link st now id : silent (send_link st now id).
Proof. unfold send_link. silent_read. Qed.

Lemma run_webhook_dispatch E st uri ct body w :
  let '(w', r) := run E (webhook_dispatch st uri ct body) w in
  same_world w w' ∧ match r with
    | Ok (Ok _) => True | Ok (Err e) => status e = 400 ∨ status e = 502 | _ => False end.
Proof.
  unfold webhook_dispatch, webhook_to_http.
  destruct (strip_prefix "webhook+http://" uri); [|destruct (strip_prefix "webhook://" uri)]; cbn.
  1,2: split; [apply same_world_tick|]; destruct (st_post st _ _ _ _ _); cbn; [by right|];
    by destruct (_ && _); cbn; [|right].
  split; [done|by left].
Qed.

Lemma send_webhook_asks st id body : asks (st_ctx st) false (send_webhook st id body).
Proof.
  intros E w. right. unfold send_webhook. cbv zeta.
  set (input := MkSendInvoiceRenderInput _ _ _ _ _).
  exists (SendInvoiceRender input), w. split; [done|]. cbn [perform]. unfold forget.
  rw run_try_bind run_command_as run_bind.
  destruct (run E (send_invoice_render (st_ctx st) input) w) as [w' [out|e|]]; cbn [fst snd]; [|done..].
  rw run_try_bind. pose proof (run_webhook_dispatch E st (sb_destination_uri body) "application/pdf"
    (so_pdf out) w') as H.
  destruct (run E (webhook_dispatch _ _ _ _) w') as [w2 [[[]|e|]|e|]]; cbn; destruct H; try done.
  split; [done|]. by exists input.
Qed.

Lemma customers_create_asks st body : asks (st_ctx st) false (customers_create st body).
Proof.
  unfold customers_create. destruct (is_blank _); [apply asks_refused|]. intros E w. right.
  exists (SaveCustomer (MkCustomer (id_new ECustomer (w_step (tick w))) (cb_display_name body)
    (cb_email body) (cb_address body) (cb_metadata body) (env_now E (w_step w)) (env_now E (w_step w)))).
  exists (tick (tick w)).
  split; [etrans; apply same_world_tick|]. cbn [perform]. rw run_db_exec.
  cbn. destruct (env_db_ok E _); cbn; done.
Qed.

Lemma view_asks st now token :
  asks (st_ctx st) false
    (html ←? view_invoice (st_ctx st) (link_signing_key (st_config st)) now token;
     Ret (Ok (200, BHtml html))).
Proof.
  intros E w. rw run_try_bind.
  pose proof (run_view_invoice E (st_ctx st) (link_signing_key (st_config st)) now token w) as H.
  destruct (run E (view_invoice _ _ _ _) w) as [w' [[html|e|]|e|]] eqn:Er; try by destruct H.
  2,3: by left.
  right. exists (ViewLink (link_signing_key (st_config st)) now token), w. split; [done|].
  cbn [perform]. unfold forget. rw run_bind Er. done.
Qed.

Lemma handle_asks st now r : asks (st_ctx st) (reads r) (handle st now r).
Proof.
  destruct r; cbn [handle reads]; try (apply asks_silent; silent_read; done).
  - apply view_asks.
  - ask_input DraftInvoice.
  - ask_input IssueInvoice.
  - apply asks_input. intros iid. cbv zeta.
    set (uri := sb_destination_uri body).
    destruct (String.eqb uri "link://" || starts_with "link://" uri); [apply asks_silent, silent_send_link|].
    destruct (starts_with "webhook://" uri || starts_with "webhook+http://" uri); [apply send_webhook_asks|].
    destruct (String.eqb _ _); [apply asks_refused|].
    ask_command (SendInvoice _).
  - ask_input MarkPaid.
  - ask_input VoidInvoice.
  - ask_input CreateCreditNote.
  - ask_input IssueCreditNote.
  - ask_input ScheduleCreate.
  - ask_input SchedulePause.
  - ask_input ScheduleCancel.
  - ask_input ReminderSchedule.
  - ask_input ReminderCancel.
  - apply customers_create_asks.
  - ask_command SchedulesTick.
  - ask_command RemindersTick.
  - ask_command MarkOverdue.
Qed.

(** The bearer check lets a request through or refuses it. *)
Lemma bearer_cases {B} st header (p : prog (res ApiError B)) :
  require_bearer st header p = p ∨ require_bearer st header p = Ret (Err Unauthorized).
Proof.
  unfold require_bearer. destruct (bearer_tokens _); [by left|]. destruct header as [h|]; [|by right].
  destruct (match strip_prefix "Bearer " h with Some _ => _ | None => _ end); [|by right].
  destruct (existsb _ _); [by left|by right].
Qed.
Lemma serve_cases st now header r :
  serve st now header r = handle st now r ∨ serve st now header r = Ret (Err Unauthorized).
Proof. unfold serve. destruct (is_public r); [by left|apply bearer_cases]. Qed.
End requests.

#[export] Hint Resolve silent_store_try silent_or_error : inv.

(** ** Theorems *)

Section theorems.
Context {P : Platform} {L : PlatformLaws P} {S : Serde} {T : Tera} {C : Crypto} {CL : CryptoLaws C}.
Implicit Types (E : Env) (w : World) (st : ApiState).

Ltac since_command lem :=
  apply since_input; [done|intros]; apply since_command; [by apply lem|intros; constructor].

Lemma send_webhook_since d0 E st id body w :
  ok_since d0 w → safe (ok_since d0) E (send_webhook st id body) w.
Proof.
  intros Hw. unfold send_webhook. cbv zeta.
  apply since_command; [by apply send_invoice_render_since|]. intros out.
  apply silent_try_bind; [|constructor]. unfold webhook_dispatch, try_bind.
  apply silent_bind; [constructor|]. intros [target|e|]; [|constructor..].
  constructor; [intros; apply same_world_tick|constructor].
Qed.
Lemma customers_create_since d0 E st body w :
  ok_since d0 w → safe (ok_since d0) E (customers_create st body) w.
Proof.
  intros Hw. unfold customers_create. destruct (is_blank _); [done|].
  assert (ok_since d0 (tick w)) as H1 by (eapply ok_since_stable, Hw; apply same_db_tick).
  split; [done|]. split; [done|]. apply safe_try_bind; [|done].
  apply since_save_customer. eapply ok_since_stable, H1. apply same_db_tick.
Qed.

Lemma handle_since d0 E st now r w : ok_since d0 w → safe (ok_since d0) E (handle st now r) w.
Proof.
  intros Hw. destruct r; cbn [handle]; try (apply since_silent; [done|]; silent_read; done).
  - apply safe_try_bind; [by apply view_invoice_since|done].
  - since_command draft_invoice_since.
  - since_command issue_invoice_since.
  - apply since_input; [done|]. intros iid. cbv zeta.
    destruct (orb _ _); [by apply since_silent, silent_send_link|].
    destruct (orb _ _); [by apply send_webhook_since|].
    destruct (String.eqb _ _); [done|].
    apply since_command; [by apply send_invoice_since|constructor].
  - since_command mark_paid_since.
  - since_command void_invoice_since.
  - since_command create_credit_note_since.
  - since_command issue_credit_note_since.
  - since_command schedule_create_since.
  - since_command transition_schedule_since.
  - since_command transition_schedule_since.
  - since_command reminder_schedule_since.
  - since_command reminder_cancel_since.
  - by apply customers_create_since.
  - apply since_command; [by apply schedules_tick_since|constructor].
  - apply since_command; [by apply reminders_tick_since|constructor].
  - apply since_command; [|constructor].
    apply safe_quiet; [apply ok_since_stable|apply quiet_mark_overdue_ticker|done].
Qed.

(** The header is [Bearer] or [bearer], a space and a configured token, up to
    surrounding blanks. *)
Definition authorised st (header : option string) : Prop :=
  ∃ t, (header = Some ("Bearer " +:+ t) ∨ header = Some ("bearer " +:+ t)) ∧
    trim t ∈ bearer_tokens (st_config st).
(** Once bearer tokens are configured, a request is let through exactly with
    such a header, and refused before anything else is done. *)
Lemma bearer_decides {B} st header (p : prog (res ApiError B)) :
  bearer_tokens (st_config st) ≠ [] →
  (authorised st header ∧ require_bearer st header p = p) ∨
  (¬ authorised st header ∧ require_bearer st header p = Ret (Err Unauthorized)).
Proof.
  unfold authorised, require_bearer. intros Ht.
  destruct (bearer_tokens (st_config st)) as [|t0 ts] eqn:Es; [done|].
  destruct header as [h|]; [|right; split; [by intros (? & [|] & _)|done]].
  pose proof strip_prefix_inv as Hstrip.
  assert (∀ t, existsb (λ t', String.eqb t' (trim t)) (t0 :: ts) = true ↔ trim t ∈ t0 :: ts) as Hin.
  { intros t. rw existsb_exists. setoid_rewrite String.eqb_eq.
    split; [intros (x & Hx & <-)|intros H; exists (trim t)]; by rewrite ->?list_elem_of_In in *. }
  destruct (strip_prefix "Bearer " h) as [t|] eqn:E1; [|destruct (strip_prefix "bearer " h) as [t|] eqn:E2].
  - apply Hstrip in E1. subst h. destruct (existsb _ _) eqn:Ee; [left|right]; (split; [|done]).
    + exists t. split; [by left|by apply Hin].
    + intros (t' & [[= Et]|[=]] & Hm). change (t = t') in Et. subst t'. apply Hin in Hm. congruence.
  - apply Hstrip in E2. subst h. destruct (existsb _ _) eqn:Ee; [left|right]; (split; [|done]).
    + exists t. split; [by right|by apply Hin].
    + intros (t' & [[=]|[= Et]] & Hm). change (t = t') in Et. subst t'. apply Hin in Hm. congruence.
  - right. split; [|done]. intros (t & [[= ->]|[= ->]] & _); by rw strip_prefix_app in E1 E2.
Qed.

(** An HTTP request is one command or nothing: whatever the route, header and
    body, either the request leaves the store and the bus as they were, and then
    a route other than the reading ones was refused; or it does exactly what one
    command of the command layer does, answers a result when the command
    succeeds, the command's own error when it fails, and reports 400 or 502 after
    a successful command only for a webhook whose delivery failed.  And whatever
    happened, even if the server was killed on the way, the books stay consistent
    and what was issued stays frozen. *)
Lemma requests_are_commands st now header r E w :
  (let '(w', out) := run E (serve st now header r) w in
   (same_world w w' ∧ (reads r = false → ∀ a, out ≠ Ok (Ok a))) ∨
   ∃ c w0, same_world w w0 ∧ same_world (run E (perform (st_ctx st) c) w0).1 w' ∧
     match (run E (perform (st_ctx st) c) w0).2, out with
     | Ok _, Ok (Ok _) | Panic, Panic => True
     | Ok _, Ok (Err e) => ∃ input, c = SendInvoiceRender input ∧ (status e = 400 ∨ status e = 502)
     | Err e, Ok (Err e') => e' = Core e
     | _, _ => False
     end) ∧
  (world_ok w → ∀ n, world_ok (crash_run E n (serve st now header r) w) ∧
     evolves (w_db w) (w_db (crash_run E n (serve st now header r) w))).
Proof.
  destruct (serve_cases st now header r) as [->| ->].
  - split.
    + pose proof (handle_asks st now r E w) as H. unfold request_post, untouched, reported, webhook_failed in H.
      rewrite -> (surjective_pairing (run E (handle st now r) w)). exact H.
    + intros Hw n. apply ok_since_refl in Hw.
      by destruct (safe_crash_run _ E n _ w (handle_since _ E st now r w Hw)); split.
  - split; [by left|]. intros Hw n. by destruct n; destruct (ok_since_refl w Hw).
Qed.
End theorems.
