(* ===== verification/Mcp.v ===== *)
(** * The MCP server ([mcp/src/])

    A tool call decodes to a [Tool], runs one command or reads the store and
    answers a JSON value; a resource is a stored entity under its [inv://] URI. *)

From S2P Require Import Prelude External Concrete Money Ids Domain InvoiceFsm CreditNoteFsm Events Cadence.
From S2P Require Import Tax Store Codec ConcreteJson Wire Render Command Effects Transition Invariant Evolution World.
From S2P Require Import Fixtures Draft Issue Pay Void Send Credit Overdue Reminders Schedules SignedLink Outbox.
From S2P Require Import System Adapter.

Section mcp.
Context `{P : Platform} `{S : Serde} {T : Tera}.

(** ** Errors ([error.rs]) *)

Inductive McpError :=
  | McpCore (e : CoreError)
  | McpStore (e : StoreError)
  | McpDecode (msg : string)
  | McpInvalidUri (msg : string)
  | McpNotFound (msg : string).

(** rmcp's two error codes the adapter uses. *)
Inductive ErrorCode := InvalidParams | InternalError.
Definition to_rmcp (e : McpError) : ErrorCode :=
  match e with
  | McpDecode _ | McpInvalidUri _ => InvalidParams
  | McpNotFound _ => InvalidParams
  | McpCore (Validation _) | McpCore (Idempotency _) | McpCore (NotFound _)
  | McpCore (FsmTransition _) => InvalidParams
  | McpCore _ | McpStore _ => InternalError
  end.

(** [command(..).await?], a repository call and [ok_or_else]. *)
Definition mcp_command {A} (p : prog A) : prog (res McpError A) := command_as McpCore p.
Definition mcp_store {A} (f : Db → SR A) : prog (res McpError A) := try_conv McpStore (db_try f).
Definition found_or {A} (what : string) (o : option A) : prog (res McpError A) :=
  Ret (ok_or (McpNotFound what) o).
Definition mcp_ok (v : json) : prog (res McpError json) := Ret (Ok v).

(** ** What the tools share ([tools/common.rs]) *)

Definition mcp_actor : Actor := AMcp "mcp".
Definition mcp_channel : Channel := ChMcp.

(** [input.<what>.parse().map_err(|e| McpError::Decode(format!("<what>: {e}")))] *)
Definition parse_arg {e : Entity} (what s : string) : res McpError (EntityId e) :=
  map_err (λ err, McpDecode (what +:+ ": " +:+ IdError_to_string err)) (id_parse e s).
Definition parse_currency_arg (s : string) : res McpError Currency :=
  map_err (λ e, McpDecode ("currency: " +:+ CurrencyError_to_string e)) (Currency.new s).
Definition parse_cadence_arg (s : string) : res McpError Cadence :=
  map_err (λ e, McpDecode ("cadence: " +:+ CadenceError_to_string e)) (Cadence.from_str s).

(** ** Invoices ([tools/invoices.rs]) *)

Record McpLine := MkMcpLine {
  ml_description : string; ml_quantity : Decimal; ml_unit_price : Decimal; ml_tax_category : option TaxCategory }.
Record InvoiceDraftInput := MkInvoiceDraftInput {
  idi_customer_id : string;
  idi_seller_jurisdiction : Jurisdiction;
  idi_currency : string;
  idi_lines : list McpLine;
  idi_idempotency_key : option string;
  idi_due_at : option DateTime;
  idi_template_path : option string;
}.
Definition mcp_draft_input (input : InvoiceDraftInput) : res McpError DraftInvoiceInput :=
  customer_id ← parse_arg "customer_id" (idi_customer_id input);
  currency ← parse_currency_arg (idi_currency input);
  Ok {| di_customer_id := customer_id;
        di_seller_jurisdiction := idi_seller_jurisdiction input;
        di_currency := currency;
        di_lines := (λ l, MkDraftLineInput (ml_description l) (ml_quantity l) (ml_unit_price l)
                            (default Standard (ml_tax_category l))) <$> idi_lines input;
        di_idempotency_key := idi_idempotency_key input;
        di_actor := mcp_actor;
        di_channel := mcp_channel;
        di_due_at := idi_due_at input;
        di_template_path := idi_template_path input;
        di_schedule_id := None |}.
Definition tool_draft (ctx : CoreCtx) (input : InvoiceDraftInput) : prog (res McpError json) :=
  req ←? Ret (mcp_draft_input input);
  out ←? mcp_command (draft_invoice ctx req);
  mcp_ok (JObj [("invoice", Invoice_json (do_invoice out)); ("lines", JArr (InvoiceLine_json <$> do_lines out));
                ("idempotency_replay", JBool (do_idempotency_replay out))]).

Definition mcp_issue_input (invoice_id : string) (key : option string) : res McpError IssueInvoiceInput :=
  invoice_id ← parse_arg "invoice_id" invoice_id;
  Ok (MkIssueInvoiceInput invoice_id key mcp_actor mcp_channel).
Definition tool_issue (ctx : CoreCtx) (invoice_id : string) (key : option string) : prog (res McpError json) :=
  req ←? Ret (mcp_issue_input invoice_id key);
  out ←? mcp_command (issue_invoice ctx req);
  mcp_ok (JObj [("invoice", Invoice_json (io_invoice out)); ("lines", JArr (InvoiceLine_json <$> io_lines out));
                ("html", JStr (io_html out)); ("pdf_len", JInt (Z.of_nat (String.length (io_pdf out))))]).

(** The in-memory sink of one call is what the call adds to the sink's log. *)
Definition sink_new : prog nat := Act (λ _ w, (w, length (w_sink w))) Ret.
Definition sink_len (start : nat) : prog Z :=
  Act (λ _ w, (w, Z.of_nat (list_sum (String.length <$> drop start (w_sink w))))) Ret.
Definition tool_send (ctx : CoreCtx) (invoice_id destination_uri : string) (key : option string)
    : prog (res McpError json) :=
  invoice_id ←? Ret (parse_arg "invoice_id" invoice_id);
  sink ← sink_new;
  out ←? mcp_command (send_invoice ctx
           (MkSendInvoiceInput invoice_id destination_uri key mcp_actor mcp_channel true));
  bytes_written ← sink_len sink;
  mcp_ok (JObj [("invoice", Invoice_json (so_invoice out)); ("delivered_to", JStr (so_delivered_to out));
                ("bytes_written", JInt bytes_written)]).

Record InvoicePayInput := MkInvoicePayInput {
  ipi_invoice_id : string;
  ipi_amount : Decimal;
  ipi_received_at : option DateTime;
  ipi_idempotency_key : option string;
  ipi_bus_event_id : option string;
}.
Definition mcp_pay_input (input : InvoicePayInput) : res McpError MarkPaidInput :=
  invoice_id ← parse_arg "invoice_id" (ipi_invoice_id input);
  Ok (MkMarkPaidInput invoice_id (ipi_amount input) (ipi_received_at input)
        (ipi_idempotency_key input) (ipi_bus_event_id input) mcp_actor mcp_channel).
Definition tool_pay (ctx : CoreCtx) (input : InvoicePayInput) : prog (res McpError json) :=
  req ←? Ret (mcp_pay_input input);
  out ←? mcp_command (mark_paid ctx req);
  mcp_ok (JObj [("invoice", Invoice_json (mpo_invoice out)); ("fully_paid", JBool (mpo_fully_paid out))]).

Definition mcp_void_input (invoice_id : string) (reason key : option string) : res McpError VoidInvoiceInput :=
  invoice_id ← parse_arg "invoice_id" invoice_id;
  Ok (MkVoidInvoiceInput invoice_id reason key mcp_actor mcp_channel).
Definition tool_void (ctx : CoreCtx) (invoice_id : string) (reason key : option string)
    : prog (res McpError json) :=
  req ←? Ret (mcp_void_input invoice_id reason key);
  out ←? mcp_command (void_invoice ctx req);
  mcp_ok (Invoice_json out).

(** [InvoiceResourceBody]: the fields of the invoice and its lines. *)
Definition InvoiceResourceBody_json (i : Invoice) (lines : list InvoiceLine) : json :=
  match Invoice_json i with
  | JObj ms => JObj (ms ++ [("lines", JArr (InvoiceLine_json <$> lines))])
  | v => v
  end.
Definition tool_show (ctx : CoreCtx) (invoice_id : string) : prog (res McpError json) :=
  id ←? Ret (parse_arg "invoice_id" invoice_id);
  found ←? mcp_store (λ d, Ok (invoice_get id d));
  inv ←? found_or ("invoice " +:+ id_to_string id) found;
  lines ←? mcp_store (λ d, Ok (line_list_for_invoice id d));
  mcp_ok (InvoiceResourceBody_json inv lines).
Definition tool_list (ctx : CoreCtx) (customer_id : option string) (state : option InvoiceState)
    (limit offset : option Z) : prog (res McpError json) :=
  customer_id ←? Ret match customer_id with
                     | None => Ok None
                     | Some s => Some <$> parse_arg "customer_id" s
                     end;
  invs ←? mcp_store (invoice_list (MkInvoiceFilter customer_id state limit offset));
  mcp_ok (JArr (Invoice_json <$> invs)).

Record CustomerAddInput := MkCustomerAddInput {
  cai_customer_id : option string;
  cai_display_name : string;
  cai_email : option string;
  cai_address : Address;
}.
Definition tool_customer_add (ctx : CoreCtx) (input : CustomerAddInput) : prog (res McpError json) :=
  id ←? match cai_customer_id input with
        | Some s => Ret (parse_arg "customer_id" s)
        | None => id ← fresh ECustomer; Ret (Ok id)
        end;
  now ← clock_now;
  let customer := MkCustomer id (cai_display_name input) (cai_email input) (cai_address input) ∅ now now in
  _ ←? try_conv McpStore (db_try_exec (customer_save customer));
  mcp_ok (Customer_json customer).
Definition tool_customer_show (ctx : CoreCtx) (customer_id : string) : prog (res McpError json) :=
  id ←? Ret (parse_arg (e:=ECustomer) "customer_id" customer_id);
  found ←? mcp_store (λ d, Ok (customer_get id d));
  c ←? found_or ("customer " +:+ id_to_string id) found;
  mcp_ok (Customer_json c).
Definition default_customer_limit : Z := 50.
Definition tool_customer_list (ctx : CoreCtx) (limit offset : Z) : prog (res McpError json) :=
  list ←? mcp_store (customer_list limit offset);
  mcp_ok (JArr (Customer_json <$> list)).

Definition NexusThreshold_json (t : NexusThreshold) : json :=
  JObj ([("enabled", JBool (nt_enabled t))] ++ jsome jdec "revenue" (nt_revenue t) ++
        jsome JInt "txn_count" (nt_txn_count t)).
(** A [HashMap] as a value: its entries by key. *)
Definition nexus_states_json (c : NexusConfig) : json :=
  JObj (omap (λ kv, (λ t, (kv.1, NexusThreshold_json t)) <$> nx_states c !! kv.1)
             (btree_entries ((λ _, EmptyString) <$> nx_states c))).
Definition tool_tax_rates_show (ctx : CoreCtx) : prog (res McpError json) :=
  mcp_ok (JObj [("rates", JArr (TaxRate_json <$> tt_rates (tax_table ctx)));
                ("nexus_states", nexus_states_json (nexus ctx));
                ("rate_count", JInt (Z.of_nat (length (tt_rates (tax_table ctx)))))]).

(** ** Credit notes, schedules, reminders, tickers ([tools/]) *)

Record CreditNoteDraftInput := MkCreditNoteDraftInput {
  cdi_invoice_id : string;
  cdi_amount : Decimal;
  cdi_reason : option string;
  cdi_refund_ref : option string;
  cdi_idempotency_key : option string;
}.
Definition mcp_credit_input (input : CreditNoteDraftInput) : res McpError CreateCreditNoteInput :=
  invoice_id ← parse_arg "invoice_id" (cdi_invoice_id input);
  Ok (MkCreateCreditNoteInput invoice_id (cdi_amount input) (cdi_reason input)
        (cdi_refund_ref input) (cdi_idempotency_key input) mcp_actor mcp_channel).
Definition tool_credit_note_draft (ctx : CoreCtx) (input : CreditNoteDraftInput) : prog (res McpError json) :=
  req ←? Ret (mcp_credit_input input);
  out ←? mcp_command (create_credit_note ctx req);
  mcp_ok (CreditNote_json out).
Definition mcp_credit_issue_input (credit_note_id : string) (key : option string)
    : res McpError IssueCreditNoteInput :=
  credit_note_id ← parse_arg "credit_note_id" credit_note_id;
  Ok (MkIssueCreditNoteInput credit_note_id key mcp_actor mcp_channel).
Definition tool_credit_note_issue (ctx : CoreCtx) (credit_note_id : string) (key : option string)
    : prog (res McpError json) :=
  req ←? Ret (mcp_credit_issue_input credit_note_id key);
  out ←? mcp_command (issue_credit_note ctx req);
  mcp_ok (CreditNote_json out).

Record McpScheduleInput := MkMcpScheduleInput {
  msi_customer_id : string;
  msi_template_lines : list McpLine;
  msi_currency : string;
  msi_cadence : string;
  msi_start_date : NaiveDate;
  msi_end_date : option NaiveDate;
  msi_auto_issue : bool;
}.
Definition mcp_schedule_input (input : McpScheduleInput) : res McpError ScheduleCreateInput :=
  customer_id ← parse_arg "customer_id" (msi_customer_id input);
  currency ← parse_currency_arg (msi_currency input);
  cadence ← parse_cadence_arg (msi_cadence input);
  Ok {| sci_customer_id := customer_id;
        sci_template_lines := (λ l, MkScheduleLineInput (ml_description l) (ml_quantity l) (ml_unit_price l)
                                      (default Standard (ml_tax_category l))) <$> msi_template_lines input;
        sci_currency := currency;
        sci_cadence := cadence;
        sci_start_date := msi_start_date input;
        sci_end_date := msi_end_date input;
        sci_auto_issue := msi_auto_issue input;
        sci_actor := mcp_actor;
        sci_channel := mcp_channel |}.
Definition tool_schedule_create (ctx : CoreCtx) (input : McpScheduleInput) : prog (res McpError json) :=
  req ←? Ret (mcp_schedule_input input);
  out ←? mcp_command (schedule_create ctx req);
  mcp_ok (Schedule_json out).
Definition mcp_schedule_change (schedule_id : string) : res McpError ScheduleStateChangeInput :=
  id ← parse_arg "schedule_id" schedule_id; Ok (MkScheduleStateChangeInput id mcp_actor mcp_channel).
Definition tool_schedule_pause (ctx : CoreCtx) (schedule_id : string) : prog (res McpError json) :=
  req ←? Ret (mcp_schedule_change schedule_id);
  out ←? mcp_command (schedule_pause ctx req);
  mcp_ok (Schedule_json out).
Definition tool_schedule_cancel (ctx : CoreCtx) (schedule_id : string) : prog (res McpError json) :=
  req ←? Ret (mcp_schedule_change schedule_id);
  out ←? mcp_command (schedule_cancel ctx req);
  mcp_ok (Schedule_json out).

Definition mcp_reminder_input (invoice_id : string) (scheduled_at : DateTime) (channel_scheme : ReminderChannel)
    : res McpError ReminderScheduleInput :=
  invoice_id ← parse_arg "invoice_id" invoice_id;
  Ok (MkReminderScheduleInput invoice_id scheduled_at channel_scheme mcp_actor mcp_channel).
Definition tool_reminder_schedule (ctx : CoreCtx) (invoice_id : string) (scheduled_at : DateTime)
    (channel_scheme : ReminderChannel) : prog (res McpError json) :=
  req ←? Ret (mcp_reminder_input invoice_id scheduled_at channel_scheme);
  out ←? mcp_command (reminder_schedule ctx req);
  mcp_ok (Reminder_json out).
Definition mcp_reminder_cancel (reminder_id : string) : res McpError ReminderCancelInput :=
  reminder_id ← parse_arg "reminder_id" reminder_id;
  Ok (MkReminderCancelInput reminder_id mcp_actor mcp_channel).
Definition tool_reminder_cancel (ctx : CoreCtx) (reminder_id : string) : prog (res McpError json) :=
  req ←? Ret (mcp_reminder_cancel reminder_id);
  out ←? mcp_command (reminder_cancel ctx req);
  mcp_ok (Reminder_json out).

Definition tool_tick_schedules (ctx : CoreCtx) : prog (res McpError json) :=
  out ←? mcp_command (schedules_tick ctx);
  mcp_ok (JObj [("ran_schedule_ids", JArr (jid <$> sto_ran_schedule_ids out));
                ("drafts_count", JInt (Z.of_nat (length (sto_drafts out))))]).
Definition tool_tick_reminders (ctx : CoreCtx) : prog (res McpError json) :=
  out ←? mcp_command (reminders_tick ctx);
  mcp_ok (JObj [("sent_reminders", JArr (Reminder_json <$> out))]).
Definition tool_tick_overdue (ctx : CoreCtx) : prog (res McpError json) :=
  out ←? mcp_command (mark_overdue_ticker ctx);
  mcp_ok (JObj [("overdue_invoices", JArr (Invoice_json <$> out))]).

(** ** The tool router ([server.rs]) *)

(** A tool call, its arguments decoded by rmcp. *)
Inductive Tool :=
  | TInvoiceDraft (input : InvoiceDraftInput)
  | TInvoiceIssue (invoice_id : string) (key : option string)
  | TInvoiceSend (invoice_id destination_uri : string) (key : option string)
  | TInvoicePay (input : InvoicePayInput)
  | TInvoiceVoid (invoice_id : string) (reason key : option string)
  | TInvoiceShow (invoice_id : string)
  | TInvoiceList (customer_id : option string) (state : option InvoiceState) (limit offset : option Z)
  | TCustomerAdd (input : CustomerAddInput)
  | TCustomerShow (customer_id : string)
  | TCustomerList (limit offset : Z)
  | TTaxRatesShow
  | TCreditNoteDraft (input : CreditNoteDraftInput)
  | TCreditNoteIssue (credit_note_id : string) (key : option string)
  | TScheduleCreate (input : McpScheduleInput)
  | TSchedulePause (schedule_id : string)
  | TScheduleCancel (schedule_id : string)
  | TReminderSchedule (invoice_id : string) (scheduled_at : DateTime) (channel_scheme : ReminderChannel)
  | TReminderCancel (reminder_id : string)
  | TTickSchedules
  | TTickReminders
  | TTickOverdue.

Definition call_tool (ctx : CoreCtx) (t : Tool) : prog (res McpError json) :=
  match t with
  | TInvoiceDraft input => tool_draft ctx input
  | TInvoiceIssue id key => tool_issue ctx id key
  | TInvoiceSend id uri key => tool_send ctx id uri key
  | TInvoicePay input => tool_pay ctx input
  | TInvoiceVoid id reason key => tool_void ctx id reason key
  | TInvoiceShow id => tool_show ctx id
  | TInvoiceList customer_id state limit offset => tool_list ctx customer_id state limit offset
  | TCustomerAdd input => tool_customer_add ctx input
  | TCustomerShow id => tool_customer_show ctx id
  | TCustomerList limit offset => tool_customer_list ctx limit offset
  | TTaxRatesShow => tool_tax_rates_show ctx
  | TCreditNoteDraft input => tool_credit_note_draft ctx input
  | TCreditNoteIssue id key => tool_credit_note_issue ctx id key
  | TScheduleCreate input => tool_schedule_create ctx input
  | TSchedulePause id => tool_schedule_pause ctx id
  | TScheduleCancel id => tool_schedule_cancel ctx id
  | TReminderSchedule id at_ ch => tool_reminder_schedule ctx id at_ ch
  | TReminderCancel id => tool_reminder_cancel ctx id
  | TTickSchedules => tool_tick_schedules ctx
  | TTickReminders => tool_tick_reminders ctx
  | TTickOverdue => tool_tick_overdue ctx
  end.
(** An error on the wire: its code, and what it carries; a fault of the protocol
    is rmcp's own. *)
Inductive Fault := ByTool (e : McpError) | ByRmcp.
(** [wrap(..)]: the answer of the call. *)
Definition wrap (p : prog (res McpError json)) : prog (res (ErrorCode * Fault) json) :=
  try_conv (λ e, (to_rmcp e, ByTool e)) p.

(** ** Resources ([resources.rs]) *)

Definition URI_SCHEME : string := "inv".
Definition non_empty (s : string) : option string := if String.eqb s "" then None else Some s.
Definition parse_uri (uri : string) : res McpError (string * string) :=
  rest ← ok_or (McpInvalidUri ("expected `inv://<kind>/<id>`, got `" +:+ uri +:+ "`"))
           (match strip_prefix URI_SCHEME uri with Some s => strip_prefix "://" s | None => None end);
  let parts := match split_once "/" rest with Some (a, b) => (a, Some b) | None => (rest, None) end in
  kind ← ok_or (McpInvalidUri ("missing kind in `" +:+ uri +:+ "`")) (non_empty parts.1);
  id ← ok_or (McpInvalidUri ("missing id in `" +:+ uri +:+ "`"))
         (match parts.2 with Some s => non_empty s | None => None end);
  if str_free "/" id then Ok (kind, id)
  else Err (McpInvalidUri ("extra path components in `" +:+ uri +:+ "`")).

Definition parse_resource_id {e : Entity} (what s : string) : res McpError (EntityId e) :=
  map_err (λ err, McpInvalidUri ("bad " +:+ what +:+ " id: " +:+ IdError_to_string err)) (id_parse e s).
(** An entity by its id. *)
Definition read_entity {e : Entity} {A} (what : string) (get : EntityId e → Db → option A) (shape : A → json)
    (bad s : string) : prog (res McpError json) :=
  id ←? Ret (parse_resource_id bad s);
  found ←? mcp_store (λ d, Ok (get id d));
  a ←? found_or (what +:+ " " +:+ id_to_string id) found;
  mcp_ok (shape a).
Definition read_invoice (id_str : string) : prog (res McpError json) :=
  id ←? Ret (parse_resource_id "invoice" id_str);
  found ←? mcp_store (λ d, Ok (invoice_get id d));
  inv ←? found_or ("invoice " +:+ id_to_string id) found;
  lines ←? mcp_store (λ d, Ok (line_list_for_invoice id d));
  mcp_ok (InvoiceResourceBody_json inv lines).

(** The JSON document whose pretty text the resource holds. *)
Definition read_resource (uri : string) : prog (res McpError json) :=
  parsed ←? Ret (parse_uri uri);
  let '(kind, id_str) := parsed : string * string in
  if String.eqb kind "invoice" then read_invoice id_str
  else if String.eqb kind "creditnote" then
    read_entity "credit note" cn_get CreditNote_json "credit-note" id_str
  else if String.eqb kind "schedule" then
    read_entity "schedule" schedule_get Schedule_json "schedule" id_str
  else if String.eqb kind "reminder" then
    read_entity "reminder" reminder_get Reminder_json "reminder" id_str
  else if String.eqb kind "customer" then
    read_entity "customer" customer_get Customer_json "customer" id_str
  else Ret (Err (McpInvalidUri ("unknown inv resource kind `" +:+ kind +:+
              "` (expected invoice|creditnote|schedule|reminder|customer)"))).
End mcp.

(** ** What a call does *)

Section calls.
Context {P : Platform} {L : PlatformLaws P} {S : Serde} {T : Tera} {C : Crypto}.
Implicit Types (E : Env) (w : World) (ctx : CoreCtx).

Lemma silent_mcp_store {A} (f : Db → SR A) : silent (mcp_store f).
Proof. apply silent_try_conv, silent_db_try. Qed.
Lemma silent_found_or {A} what (o : option A) : silent (found_or what o).
Proof. constructor. Qed.
Lemma silent_sink_new : silent sink_new.
Proof. constructor; [reflexivity|constructor]. Qed.
Lemma silent_sink_len n : silent (sink_len n).
Proof. constructor; [reflexivity|constructor]. Qed.
Hint Resolve silent_mcp_store silent_found_or silent_sink_new silent_sink_len : inv.

(** The tools that only answer what is stored. *)
Definition tool_reads (t : Tool) : bool :=
  match t with
  | TInvoiceShow _ | TInvoiceList _ _ _ _ | TCustomerShow _ | TCustomerList _ _ | TTaxRatesShow => true
  | _ => false
  end.

(** A command's error is wrapped; a save's is the store's. *)
Definition mcp_tells (e : CoreError) (e' : McpError) : Prop :=
  e' = McpCore e ∨ ∃ s, e = Repo s ∧ e' = McpStore s.
Notation asks := (asks mcp_tells (λ _ _, False)).

Lemma mcp_tells_core e : mcp_tells e (McpCore e).
Proof. by left. Qed.
Ltac ask_tool mk :=
  apply asks_input; let a := fresh in intros a;
  eapply asks_command with (c := mk a); [apply mcp_tells_core|done|intros; apply answers_ret].
Ltac ask_tick cmd :=
  eapply asks_command with (c := cmd); [apply mcp_tells_core|done|intros; apply answers_ret].

Lemma send_asks ctx id uri key : asks ctx false (tool_send ctx id uri key).
Proof.
  unfold tool_send. apply asks_input. intros iid.
  apply asks_before; [apply silent_sink_new|by eauto|]. intros n.
  eapply asks_command with (c := SendInvoice _); [apply mcp_tells_core|done|]. intros out.
  split; [apply silent_bind; [apply silent_sink_len|constructor]|]. intros E w. by eexists.
Qed.

Lemma save_asks ctx (id : CustomerId) input :
  asks ctx false (now ← clock_now;
    let customer := MkCustomer id (cai_display_name input) (cai_email input) (cai_address input) ∅ now now in
    _ ←? try_conv McpStore (db_try_exec (customer_save customer));
    mcp_ok (Customer_json customer)).
Proof.
  intros E w. right.
  exists (SaveCustomer (MkCustomer id (cai_display_name input) (cai_email input) (cai_address input) ∅
    (env_now E (w_step w)) (env_now E (w_step w)))), (tick w).
  split; [apply same_world_tick|]. cbn [perform]. rw run_db_exec.
  cbn. destruct (env_db_ok E _); cbn; [done|]. split; [done|]. right. by eexists.
Qed.
Lemma customer_add_asks ctx input : asks ctx false (tool_customer_add ctx input).
Proof.
  unfold tool_customer_add. destruct (cai_customer_id input) as [s|].
  - apply asks_input. intros id. apply save_asks.
  - intros E w.
    destruct (save_asks ctx (id_new ECustomer (w_step w)) input E (tick w))
      as [[Hw Hr]|(c & w0 & H0 & H1 & Hr)].
    + left. split; [etrans; [apply same_world_tick|exact Hw]|exact Hr].
    + right. exists c, w0. split; [etrans; [apply same_world_tick|exact H0]|]. by split.
Qed.

Lemma call_asks ctx t : asks ctx (tool_reads t) (call_tool ctx t).
Proof.
  destruct t; cbn [call_tool tool_reads]; try (apply asks_silent; silent_read; done).
  - ask_tool DraftInvoice.
  - ask_tool IssueInvoice.
  - apply send_asks.
  - ask_tool MarkPaid.
  - ask_tool VoidInvoice.
  - apply customer_add_asks.
  - ask_tool CreateCreditNote.
  - ask_tool IssueCreditNote.
  - ask_tool ScheduleCreate.
  - ask_tool SchedulePause.
  - ask_tool ScheduleCancel.
  - ask_tool ReminderSchedule.
  - ask_tool ReminderCancel.
  - ask_tick SchedulesTick.
  - ask_tick RemindersTick.
  - ask_tick MarkOverdue.
Qed.
End calls.

(** ** Theorems *)

Section theorems.
Context {P : Platform} {L : PlatformLaws P} {S : Serde} {T : Tera} {C : Crypto}.
Implicit Types (E : Env) (w : World) (ctx : CoreCtx).

#[local] Hint Resolve silent_mcp_store silent_found_or silent_sink_new silent_sink_len : inv.
Ltac since_tool lem :=
  apply since_input; [done|intros]; apply since_command; [by apply lem|intros; constructor].

Lemma send_since d0 E ctx id uri key w :
  ok_since d0 w → safe (ok_since d0) E (tool_send ctx id uri key) w.
Proof.
  intros Hw. unfold tool_send. apply since_input; [done|]. intros iid.
  apply safe_bind; [by apply since_silent, silent_sink_new|]. intros w1 n Hw1.
  apply since_command; [by apply send_invoice_since|]. intros out.
  apply silent_bind; [apply silent_sink_len|constructor].
Qed.
Lemma customer_add_since d0 E ctx input w :
  ok_since d0 w → safe (ok_since d0) E (tool_customer_add ctx input) w.
Proof.
  intros Hw. unfold tool_customer_add. apply safe_try_bind.
  { destruct (cai_customer_id input); [by apply since_silent, silent_ret|].
    apply safe_quiet; [apply ok_since_stable|solve_quiet|done]. }
  intros w1 id Hw1. apply safe_bind; [by apply since_silent, silent_clock_now|]. intros w2 now Hw2.
  apply safe_try_bind; [by apply since_save_customer|done].
Qed.
Lemma call_since d0 E ctx t w : ok_since d0 w → safe (ok_since d0) E (call_tool ctx t) w.
Proof.
  intros Hw. destruct t; cbn [call_tool]; try (apply since_silent; [done|]; silent_read; done).
  - since_tool draft_invoice_since.
  - since_tool issue_invoice_since.
  - by apply send_since.
  - since_tool mark_paid_since.
  - since_tool void_invoice_since.
  - by apply customer_add_since.
  - since_tool create_credit_note_since.
  - since_tool issue_credit_note_since.
  - since_tool schedule_create_since.
  - since_tool transition_schedule_since.
  - since_tool transition_schedule_since.
  - since_tool reminder_schedule_since.
  - since_tool reminder_cancel_since.
  - apply since_command; [by apply schedules_tick_since|constructor].
  - apply since_command; [by apply reminders_tick_since|constructor].
  - apply since_command; [|constructor].
    apply safe_quiet; [apply ok_since_stable|apply quiet_mark_overdue_ticker|done].
Qed.

Lemma parse_uri_join kind id :
  kind ≠ "" → id ≠ "" → str_free "/" kind = true → str_free "/" id = true →
  parse_uri ("inv://" +:+ kind +:+ "/" +:+ id) = Ok (kind, id).
Proof.
  intros Hk Hi Fk Fi. unfold parse_uri.
  change ("inv://" +:+ kind +:+ "/" +:+ id) with (URI_SCHEME +:+ "://" +:+ (kind +:+ String "/" id)).
  rw !strip_prefix_app. cbn [ok_or res_bind mbind]. rw split_once_app; [done|]. cbn.
  unfold non_empty. destruct (String.eqb_spec kind ""); [done|]. destruct (String.eqb_spec id ""); [done|].
  cbn. by rw Fi.
Qed.

(** The URIs a resource is read by are exactly [inv://<kind>/<id>], both parts
    non-empty and free of slashes, and they are split where they were joined. *)
Lemma parse_uri_exact uri kind id :
  parse_uri uri = Ok (kind, id) ↔
  uri = "inv://" +:+ kind +:+ "/" +:+ id ∧ kind ≠ "" ∧ id ≠ "" ∧
  str_free "/" kind = true ∧ str_free "/" id = true.
Proof.
  unfold parse_uri. split.
  - destruct (strip_prefix URI_SCHEME uri) as [s|] eqn:E1; [|done].
    destruct (strip_prefix "://" s) as [rest|] eqn:E2; [|done].
    apply strip_prefix_inv in E1, E2. subst. cbn [ok_or res_bind mbind].
    destruct (split_once "/" rest) as [[k i]|] eqn:E3; cbn.
    2: { unfold non_empty. by destruct (String.eqb rest ""). }
    apply split_once_Some in E3 as [-> Hk]. unfold non_empty.
    destruct (String.eqb_spec k ""); [done|]. destruct (String.eqb_spec i ""); [done|]. cbn.
    destruct (str_free "/" i) eqn:Ei; [|done]. by intros [= <- <-].
  - intros (-> & Hk & Hi & Fk & Fi). by apply parse_uri_join.
Qed.

(** Reading the resource of an invoice and showing it with the tool give the
    same document and touch nothing; they differ only in how they refuse an id. *)
Lemma resource_is_show ctx (i : string) E w :
  i ≠ "" → str_free "/" i = true →
  let '(w1, read) := run E (read_resource ("inv://invoice/" +:+ i)) w in
  let '(w2, show) := run E (call_tool ctx (TInvoiceShow i)) w in
  w1 = w2 ∧ same_world w w1 ∧
  (read = show ∨ ∃ e, id_parse EInvoice i = Err e ∧
    read = Ok (Err (McpInvalidUri ("bad invoice id: " +:+ IdError_to_string e))) ∧
    show = Ok (Err (McpDecode ("invoice_id: " +:+ IdError_to_string e)))).
Proof.
  intros Hi Hf. unfold read_resource.
  assert (parse_uri ("inv://invoice/" +:+ i) = Ok ("invoice", i)) as ->.
  { by apply (parse_uri_join "invoice" i). }
  cbn [try_bind mbind prog_mbind prog_bind]. cbn [String.eqb Ascii.eqb Bool.eqb].
  unfold read_invoice. cbn [call_tool]. unfold tool_show, parse_resource_id, parse_arg.
  destruct (id_parse EInvoice i) as [id|e|] eqn:Ei; cbn [map_err].
  - match goal with |- context [run E ?p w] => assert (same_world w (run E p w).1) as Hs end.
    { apply silent_run. silent_read. }
    revert Hs. destruct (run _ _ w) as [w1 r]. intros Hs. split; [done|]. split; [done|by left].
  - cbn. split; [done|]. split; [done|]. right. by exists e.
  - cbn. split; [done|]. split; [done|by left].
Qed.
End theorems.

(** ** An upsert that names its customer *)

Section upsert.
Context {P : Platform} {L : PlatformLaws P} {S : Serde} {T : Tera}.
Implicit Types (E : Env) (w : World) (ctx : CoreCtx).

(** Adding a customer under an id that exists empties its metadata, and the value
    answered dates its creation at the call while the row keeps its date. *)
Lemma customer_add_existing E ctx s id old input w :
  cai_customer_id input = Some s → id_parse ECustomer s = Ok id →
  customer_get id (w_db w) = Some old → (∀ n, env_db_ok E n = true) →
  let '(w', out) := run E (call_tool ctx (TCustomerAdd input)) w in
  ∃ c, out = Ok (Ok (Customer_json c)) ∧ cust_created_at c = env_now E (w_step w) ∧
    customer_get id (w_db w') = Some (MkCustomer (cust_id c) (cust_display_name c) (cust_email c)
      (cust_address c) ∅ (cust_created_at old) (cust_updated_at c)).
Proof.
  intros Hs Hid Hold Hdb. cbn [call_tool]. unfold tool_customer_add, parse_arg. rw Hs Hid. cbn. rw Hdb. cbn.
  eexists. split; [done|]. split; [done|]. unfold customer_get. cbn. rw lookup_insert_eq.
  unfold customer_get in Hold. unfold customer_upserted. by rw Hold.
Qed.
End upsert.

(** ** Witnesses *)

#[local] Existing Instance Concrete.platform.
#[local] Existing Instance Concrete.platform_laws.
#[local] Existing Instance ConcreteJson.serde.
#[local] Existing Instance ConcreteCrypto.crypto.
#[local] Existing Instance concrete_tera.

Lemma resource_is_show_witness :
  let w := fx_world Sent in
  (run fx_env (read_resource ("inv://invoice/" +:+ id_to_string fx_invoice_id)) w).1 =
  (run fx_env (call_tool fx_ctx (TInvoiceShow (id_to_string fx_invoice_id))) w).1.
Proof.
  cbv zeta. pose proof (resource_is_show fx_ctx (id_to_string fx_invoice_id) fx_env (fx_world Sent)
    ltac:(discriminate) ltac:(reflexivity)) as H.
  destruct (run fx_env (read_resource _) _) as [w1 r1], (run fx_env (call_tool _ _) _) as [w2 r2].
  destruct H as [H _]. exact H.
Defined.
