(* ===== verification/McpCall.v ===== *)
(** * MCP requests ([mcp/src/server.rs], the inputs of [mcp/src/tools/])

    From a request of the protocol to its answer: the names of the tools, the
    [Deserialize] of their inputs, the resources and their templates.  [Mcp] has
    the tools behind the requests that are well formed.  The transport, the
    handshake and the JSON schemas are rmcp and schemars. *)

From S2P Require Import Prelude External Concrete Money Ids Domain InvoiceFsm CreditNoteFsm Events Cadence.
From S2P Require Import Tax Store Codec ConcreteJson Wire Rows Render Command Effects Transition Invariant Evolution World.
From S2P Require Import Fixtures Draft Issue Pay Void Send Credit Overdue Reminders Schedules SignedLink.
From S2P Require Import Outbox View Ops System Adapter Mcp.

Section requests.
Context {P : Platform} {S : Serde} {T : Tera}.

(** ** Inputs ([tools/*.rs]) *)

(** [i64] and [InvoiceState] of serde. *)
Definition i64_de (v : json) : SR Z :=
  match v with JInt z => if (- 2 ^ 63 <=? z) && (z <? 2 ^ 63) then Ok z else Err Json | _ => Err Json end.
Definition InvoiceState_from_json (v : json) : SR InvoiceState :=
  s ← variant_name v; map_err (λ _, Json) (state_from_str s).

(** [DraftLineWire] and [ScheduleLineWire] have the same fields. *)
Definition McpLine_de (v : json) : SR McpLine :=
  ms ← struct_fields ["description"; "quantity"; "unit_price"; "tax_category"] v;
  description ← str_field "description" ms;
  quantity ← required Decimal_from_json "quantity" ms;
  unit_price ← required Decimal_from_json "unit_price" ms;
  tax_category ← optional TaxCategory_from_json "tax_category" ms;
  Ok (MkMcpLine description quantity unit_price tax_category).
Definition InvoiceDraftInput_de (v : json) : SR InvoiceDraftInput :=
  ms ← struct_fields ["customer_id"; "seller_jurisdiction"; "currency"; "lines"; "idempotency_key";
                      "due_at"; "template_path"] v;
  customer_id ← str_field "customer_id" ms;
  seller_jurisdiction ← required Jurisdiction_from_json "seller_jurisdiction" ms;
  currency ← str_field "currency" ms;
  lines ← required (list_de McpLine_de) "lines" ms;
  idempotency_key ← opt_field "idempotency_key" ms;
  due_at ← optional DateTime_from_json "due_at" ms;
  template_path ← opt_field "template_path" ms;
  Ok (MkInvoiceDraftInput customer_id seller_jurisdiction currency lines idempotency_key due_at template_path).
Definition InvoiceIssueInput_de (v : json) : SR (string * option string) :=
  ms ← struct_fields ["invoice_id"; "idempotency_key"] v;
  invoice_id ← str_field "invoice_id" ms;
  idempotency_key ← opt_field "idempotency_key" ms;
  Ok (invoice_id, idempotency_key).
Definition InvoiceSendInput_de (v : json) : SR (string * string * option string) :=
  ms ← struct_fields ["invoice_id"; "destination_uri"; "idempotency_key"] v;
  invoice_id ← str_field "invoice_id" ms;
  destination_uri ← str_field "destination_uri" ms;
  idempotency_key ← opt_field "idempotency_key" ms;
  Ok (invoice_id, destination_uri, idempotency_key).
Definition InvoicePayInput_de (v : json) : SR InvoicePayInput :=
  ms ← struct_fields ["invoice_id"; "amount"; "received_at"; "idempotency_key"; "bus_event_id"] v;
  invoice_id ← str_field "invoice_id" ms;
  amount ← required Decimal_from_json "amount" ms;
  received_at ← optional DateTime_from_json "received_at" ms;
  idempotency_key ← opt_field "idempotency_key" ms;
  bus_event_id ← opt_field "bus_event_id" ms;
  Ok (MkInvoicePayInput invoice_id amount received_at idempotency_key bus_event_id).
Definition InvoiceVoidInput_de (v : json) : SR (string * option string * option string) :=
  ms ← struct_fields ["invoice_id"; "reason"; "idempotency_key"] v;
  invoice_id ← str_field "invoice_id" ms;
  reason ← opt_field "reason" ms;
  idempotency_key ← opt_field "idempotency_key" ms;
  Ok (invoice_id, reason, idempotency_key).
(** An input whose one field is an id. *)
Definition id_input_de (k : string) (v : json) : SR string := ms ← struct_fields [k] v; str_field k ms.
Definition InvoiceListInput_de (v : json)
    : SR (option string * option InvoiceState * option Z * option Z) :=
  ms ← struct_fields ["customer_id"; "state"; "limit"; "offset"] v;
  customer_id ← opt_field "customer_id" ms;
  state ← optional InvoiceState_from_json "state" ms;
  limit ← optional i64_de "limit" ms;
  offset ← optional i64_de "offset" ms;
  Ok (customer_id, state, limit, offset).
Definition CustomerAddInput_de (v : json) : SR CustomerAddInput :=
  ms ← struct_fields ["customer_id"; "display_name"; "email"; "address"] v;
  customer_id ← opt_field "customer_id" ms;
  display_name ← str_field "display_name" ms;
  email ← opt_field "email" ms;
  address ← required Address_from_json "address" ms;
  Ok (MkCustomerAddInput customer_id display_name email address).
Definition CustomerListInput_de (v : json) : SR (Z * Z) :=
  ms ← struct_fields ["limit"; "offset"] v;
  limit ← defaulted i64_de default_customer_limit "limit" ms;
  offset ← defaulted i64_de 0 "offset" ms;
  Ok (limit, offset).
Definition CreditNoteDraftInput_de (v : json) : SR CreditNoteDraftInput :=
  ms ← struct_fields ["invoice_id"; "amount"; "reason"; "refund_ref"; "idempotency_key"] v;
  invoice_id ← str_field "invoice_id" ms;
  amount ← required Decimal_from_json "amount" ms;
  reason ← opt_field "reason" ms;
  refund_ref ← opt_field "refund_ref" ms;
  idempotency_key ← opt_field "idempotency_key" ms;
  Ok (MkCreditNoteDraftInput invoice_id amount reason refund_ref idempotency_key).
Definition CreditNoteIssueInput_de (v : json) : SR (string * option string) :=
  ms ← struct_fields ["credit_note_id"; "idempotency_key"] v;
  credit_note_id ← str_field "credit_note_id" ms;
  idempotency_key ← opt_field "idempotency_key" ms;
  Ok (credit_note_id, idempotency_key).
Definition McpScheduleInput_de (v : json) : SR McpScheduleInput :=
  ms ← struct_fields ["customer_id"; "template_lines"; "currency"; "cadence"; "start_date"; "end_date";
                      "auto_issue"] v;
  customer_id ← str_field "customer_id" ms;
  template_lines ← required (list_de McpLine_de) "template_lines" ms;
  currency ← str_field "currency" ms;
  cadence ← str_field "cadence" ms;
  start_date ← required NaiveDate_from_json "start_date" ms;
  end_date ← optional NaiveDate_from_json "end_date" ms;
  auto_issue ← defaulted bool_de false "auto_issue" ms;
  Ok (MkMcpScheduleInput customer_id template_lines currency cadence start_date end_date auto_issue).
Definition McpReminder_de (v : json) : SR (string * DateTime * ReminderChannel) :=
  ms ← struct_fields ["invoice_id"; "scheduled_at"; "channel_scheme"] v;
  invoice_id ← str_field "invoice_id" ms;
  scheduled_at ← required DateTime_from_json "scheduled_at" ms;
  channel_scheme ← required ReminderChannel_from_json "channel_scheme" ms;
  Ok (invoice_id, scheduled_at, channel_scheme).

(** ** The tools by their names ([#[tool_router]]) *)

(** [Parameters(input)]: the arguments, decoded; a tool without parameters takes
    any. *)
Definition tool_table : list (string * (json → SR Tool)) :=
  [("inv_invoice_draft", λ v, TInvoiceDraft <$> InvoiceDraftInput_de v);
   ("inv_invoice_issue", λ v, '(id, key) ← InvoiceIssueInput_de v; Ok (TInvoiceIssue id key));
   ("inv_invoice_send", λ v, '(id, uri, key) ← InvoiceSendInput_de v; Ok (TInvoiceSend id uri key));
   ("inv_invoice_pay", λ v, TInvoicePay <$> InvoicePayInput_de v);
   ("inv_invoice_void", λ v, '(id, reason, key) ← InvoiceVoidInput_de v; Ok (TInvoiceVoid id reason key));
   ("inv_invoice_show", λ v, TInvoiceShow <$> id_input_de "invoice_id" v);
   ("inv_invoice_list", λ v, '(c, s, l, o) ← InvoiceListInput_de v; Ok (TInvoiceList c s l o));
   ("inv_customer_add", λ v, TCustomerAdd <$> CustomerAddInput_de v);
   ("inv_customer_show", λ v, TCustomerShow <$> id_input_de "customer_id" v);
   ("inv_customer_list", λ v, '(l, o) ← CustomerListInput_de v; Ok (TCustomerList l o));
   ("inv_tax_rates_show", λ _, Ok TTaxRatesShow);
   ("inv_creditnote_draft", λ v, TCreditNoteDraft <$> CreditNoteDraftInput_de v);
   ("inv_creditnote_issue", λ v, '(id, key) ← CreditNoteIssueInput_de v; Ok (TCreditNoteIssue id key));
   ("inv_schedule_create", λ v, TScheduleCreate <$> McpScheduleInput_de v);
   ("inv_schedule_pause", λ v, TSchedulePause <$> id_input_de "schedule_id" v);
   ("inv_schedule_cancel", λ v, TScheduleCancel <$> id_input_de "schedule_id" v);
   ("inv_reminder_schedule", λ v, '(id, t, ch) ← McpReminder_de v; Ok (TReminderSchedule id t ch));
   ("inv_reminder_cancel", λ v, TReminderCancel <$> id_input_de "reminder_id" v);
   ("inv_tick_schedules", λ _, Ok TTickSchedules);
   ("inv_tick_reminders", λ _, Ok TTickReminders);
   ("inv_tick_overdue", λ _, Ok TTickOverdue)].
Definition find_tool (name : string) : option (json → SR Tool) :=
  snd <$> List.find (λ t, String.eqb t.1 name) tool_table.
(** rmcp holds the arguments as a map, none as the empty one; what it refuses
    itself is an [invalid_params]. *)
Definition tool_of (name : string) (arguments : option (list (string * json))) : res (ErrorCode * Fault) Tool :=
  de ← ok_or (InvalidParams, ByRmcp) (find_tool name);
  map_err (λ _, (InvalidParams, ByRmcp)) (de (value_of (JObj (default [] arguments)))).

(** ** The server ([impl ServerHandler for InvMcpServer]) *)

Record Resource := MkResource { rs_uri : string; rs_name : string; rs_mime_type : string; rs_description : string }.
Definition MIME_JSON : string := "application/json".
Definition template_list : list Resource :=
  (λ '(uri, name), MkResource uri name MIME_JSON
     "JSON view of the entity. Replace <id> with the entity's MTI before reading.") <$>
  [("inv://invoice/<id>", "inv:invoice");
   ("inv://creditnote/<id>", "inv:creditnote");
   ("inv://schedule/<id>", "inv:schedule");
   ("inv://reminder/<id>", "inv:reminder");
   ("inv://customer/<id>", "inv:customer")].

Record ServerInfo := MkServerInfo {
  info_tools : bool; info_tool_list_changed : bool; info_resources : bool;
  info_name : string; info_title : string; info_instructions : string }.
Definition get_info : ServerInfo :=
  MkServerInfo true true true "hop-top-inv-mcp" "inv MCP server"
    "inv MCP server. Tools expose the hop-top-inv-commands invoice lifecycle; resources expose read-only views via inv://<kind>/<id>.".

Inductive McpRequest :=
  | GetInfo
  | ListTools
  | CallTool (name : string) (arguments : option (list (string * json)))
  | ListResources
  | ListResourceTemplates
  | ReadResource (uri : string).
Inductive McpReply :=
  | Info (i : ServerInfo)
  | Tools (names : list string)   (* in no particular order *)
  | Structured (v : json)
  | Resources (l : list Resource)
  | Templates (l : list Resource)
  | Contents (uri mime_type : string) (document : json).

Definition mcp_serve (ctx : CoreCtx) (rq : McpRequest) : prog (res (ErrorCode * Fault) McpReply) :=
  match rq with
  | GetInfo => Ret (Ok (Info get_info))
  | ListTools => Ret (Ok (Tools tool_table.*1))
  | CallTool name arguments =>
      t ←? Ret (tool_of name arguments);
      v ←? wrap (call_tool ctx t);
      Ret (Ok (Structured v))
  | ListResources => Ret (Ok (Resources []))
  | ListResourceTemplates => Ret (Ok (Templates template_list))
  | ReadResource uri =>
      v ←? wrap (read_resource uri);
      Ret (Ok (Contents uri MIME_JSON v))
  end.

(** The requests that only answer what is stored. *)
Definition READ_TOOLS : list string :=
  ["inv_invoice_show"; "inv_invoice_list"; "inv_customer_show"; "inv_customer_list"; "inv_tax_rates_show"].
Definition mcp_reads (rq : McpRequest) : bool :=
  match rq with CallTool name _ => existsb (String.eqb name) READ_TOOLS | _ => true end.
End requests.

(** ** What a request does *)

Section theorems.
Context {P : Platform} {L : PlatformLaws P} {S : Serde} {T : Tera} {C : Crypto}.
Implicit Types (E : Env) (w : World) (ctx : CoreCtx).
#[local] Hint Resolve silent_mcp_store silent_found_or : inv.

Lemma find_tool_known name :
  match find_tool name with Some _ => name ∈ tool_table.*1 | None => name ∉ tool_table.*1 end.
Proof.
  unfold find_tool. destruct (List.find _ _) as [[k de]|] eqn:Ef; cbn [fmap option_fmap option_map].
  - apply find_some in Ef as [Hin Ek%String.eqb_eq]. cbn in Ek. subst k.
    apply list_elem_of_In in Hin. by apply (list_elem_of_fmap_2' fst _ (name, de)).
  - intros [[k de] [-> Hin]]%list_elem_of_fmap. apply list_elem_of_In in Hin.
    pose proof (find_none _ _ Ef _ Hin) as Hn. cbn in Hn. by rewrite String.eqb_refl in Hn.
Qed.

(** A tool is a reading one by its name already. *)
Lemma tool_of_reads name args t :
  tool_of name args = Ok t → existsb (String.eqb name) READ_TOOLS = tool_reads t.
Proof.
  unfold tool_of, find_tool. intros H. inv_res.
  match goal with H : fmap _ _ = Some _ |- _ => apply fmap_Some in H as ([k de'] & Hf & ->) end.
  apply find_some in Hf as [Hin Ek%String.eqb_eq]. cbn in Ek. subst k. cbn in Hin.
  repeat (destruct Hin as [[= <- <-]|Hin]; [cbn in *; inv_res; done|]). done.
Qed.

Lemma silent_read_resource uri : silent (read_resource uri).
Proof. unfold read_resource, read_invoice, read_entity. silent_read. Qed.

(** A command's error reaches the client with the code of [to_rmcp]. *)
Definition told (e : CoreError) (e' : ErrorCode * Fault) : Prop :=
  ∃ m, mcp_tells e m ∧ e' = (to_rmcp m, ByTool m).

Lemma wrap_asks {A} ctx reads p (g : json → A) :
  asks mcp_tells (λ _ _, False) ctx reads p →
  asks told (λ _ _, False) ctx reads (v ←? wrap p; Ret (Ok (g v))).
Proof. apply asks_conv; [|done]. intros e e' He. by exists e'. Qed.
Lemma mcp_asks ctx rq : asks told (λ _ _, False) ctx (mcp_reads rq) (mcp_serve ctx rq).
Proof.
  destruct rq as [| |name args| | |uri]; try (apply asks_silent; constructor; fail).
  - cbn [mcp_serve mcp_reads]. destruct (tool_of name args) as [t|e|] eqn:Et; cbn [try_bind mbind prog_mbind prog_bind].
    + rewrite -> (tool_of_reads _ _ _ Et). apply wrap_asks, call_asks.
    + apply asks_refused.
    + intros E w. left. by split.
  - apply wrap_asks, asks_silent, silent_read_resource.
Qed.
Lemma mcp_since d0 E ctx rq w : ok_since d0 w → safe (ok_since d0) E (mcp_serve ctx rq) w.
Proof.
  intros Hw. destruct rq as [| |name args| | |uri]; try done; cbn [mcp_serve].
  - apply since_input; [done|]. intros t. apply safe_try_bind; [by apply safe_try_conv, call_since|done].
  - apply since_silent; [done|]. apply silent_try_bind; [apply silent_try_conv|constructor].
    apply silent_read_resource.
Qed.

(** C26: an MCP request is one command or nothing: whatever the request, a tool
    by any name with any arguments included, either it leaves the store and the
    bus as they were, and then a call of a tool other than the reading ones was
    refused; or it does exactly what one command of the command layer does,
    answers a value when the command succeeds, and when it fails the command's own
    error, under [invalid_params] for a validation, idempotency, not-found or
    state-machine error and under [internal_error] for any other (the comments of
    [error.rs] leave the former to validation alone).  And even if the server was
    killed on the way, the books stay consistent and what was issued stays
    frozen. *)
Theorem mcp_requests_are_commands ctx rq E w :
  (let '(w', out) := run E (mcp_serve ctx rq) w in
   (same_world w w' ∧ (mcp_reads rq = false → ∀ v, out ≠ Ok (Ok v))) ∨
   ∃ c w0, same_world w w0 ∧ same_world (run E (perform ctx c) w0).1 w' ∧
     match (run E (perform ctx c) w0).2, out with
     | Ok _, Ok (Ok _) | Panic, Panic => True
     | Err e, Ok (Err (code, ByTool m)) =>
         (m = McpCore e ∨ ∃ s, e = Repo s ∧ m = McpStore s) ∧
         code = match e with
                | Validation _ | Idempotency _ | NotFound _ | FsmTransition _ => InvalidParams
                | _ => InternalError
                end
     | _, _ => False
     end) ∧
  (world_ok w → ∀ n, world_ok (crash_run E n (mcp_serve ctx rq) w) ∧
     evolves (w_db w) (w_db (crash_run E n (mcp_serve ctx rq) w))).
Proof.
  split.
  - apply run_split. destruct (mcp_asks ctx rq E w) as [H|(c & w0 & H0 & H1 & Hr)]; [by left|right].
    exists c, w0. split; [done|]. split; [done|]. revert Hr. unfold reported.
    destruct (run E (perform ctx c) w0).2, (run E (mcp_serve ctx rq) w).2 as [[|[code f]|]| |]; try tauto.
    intros (m & Hm & [= -> ->]). split; [done|]. by destruct Hm as [->|(s & -> & ->)].
  - intros Hw n. apply ok_since_refl in Hw.
    by destruct (safe_crash_run _ E n _ w (mcp_since _ E ctx rq w Hw)); split.
Qed.

(** What is refused by name or by arguments is an [invalid_params], and nothing
    happened. *)
Lemma unknown_tool_refused ctx name args E w :
  name ∉ tool_table.*1 → run E (mcp_serve ctx (CallTool name args)) w = (w, Ok (Err (InvalidParams, ByRmcp))).
Proof.
  intros Hn. cbn [mcp_serve]. unfold tool_of. pose proof (find_tool_known name) as H.
  by destruct (find_tool name).
Qed.
End theorems.

(** ** Witness *)

#[local] Existing Instance Concrete.platform.
#[local] Existing Instance Concrete.platform_laws.
#[local] Existing Instance ConcreteJson.serde.
#[local] Existing Instance ConcreteCrypto.crypto.
#[local] Existing Instance concrete_tera.

Definition fx_void_request : McpRequest :=
  CallTool "inv_invoice_void"
    (Some [("invoice_id", JStr (id_to_string fx_invoice_id)); ("reason", JStr "duplicate")]).
Lemma mcp_requests_are_commands_witness :
  let w := fx_world Sent in
  (run fx_env (mcp_serve fx_ctx fx_void_request) w).1 ≠ w ∧
  world_ok (crash_run fx_env 5 (mcp_serve fx_ctx fx_void_request) w) ∧
  evolves (w_db w) (w_db (crash_run fx_env 5 (mcp_serve fx_ctx fx_void_request) w)).
Proof.
  cbv zeta. split.
  - intros H. apply (f_equal (λ w, length (w_bus w))) in H. vm_compute in H. discriminate.
  - apply (mcp_requests_are_commands fx_ctx fx_void_request fx_env (fx_world Sent)). apply fx_world_ok.
Defined.
