(* ===== verification/Cli.v ===== *)
(** * The command line ([cli/src/])

    [inv <noun> <verb> ..]: a subcommand maps the arguments clap accepted to the
    input of one command or to reads of the store, runs it as the shell's user and
    renders the answer.  clap and the renderer of kit are third-party: clap's
    answer is an [ArgMatches], which [accepts] relates to the declared arguments,
    and the renderer is the parameter [kit_dispatch]. *)

From S2P Require Import Prelude External Concrete Money Ids Domain InvoiceFsm CreditNoteFsm Events Cadence.
From S2P Require Import Tax Store Codec ConcreteJson Wire Render Command Effects Transition Invariant Evolution World.
From S2P Require Import Fixtures Draft Issue Pay Void Send Credit Overdue Reminders Schedules SignedLink Outbox.
From S2P Require Import System Adapter.

(** ** Arguments *)

(** The values of one argument: texts in order, one [i64], or a flag. *)
Inductive ArgValue := ATexts (l : list string) | AInt (z : Z) | AFlag (b : bool).
Inductive ArgMatches :=
  | Leaf (args : gmap string ArgValue)
  | Sub (args : gmap string ArgValue) (name : string) (sub : ArgMatches).
Definition am_args (m : ArgMatches) : gmap string ArgValue := match m with Leaf a | Sub a _ _ => a end.
Definition subcommand (m : ArgMatches) : option (string * ArgMatches) :=
  match m with Leaf _ => None | Sub _ name sub => Some (name, sub) end.

Definition get_many (m : ArgMatches) (k : string) : option (list string) :=
  match am_args m !! k with Some (ATexts l) => Some l | _ => None end.
Definition get_one (m : ArgMatches) (k : string) : option string := l ← get_many m k; head l.
Definition get_i64 (m : ArgMatches) (k : string) : option Z :=
  match am_args m !! k with Some (AInt z) => Some z | _ => None end.
Definition get_flag (m : ArgMatches) (k : string) : bool :=
  match am_args m !! k with Some (AFlag b) => b | _ => false end.

(** One [Arg] of a [Command]. *)
Inductive ArgKind := KText | KRepeated | KInt | KSetTrue.
Record Arg := MkArg { arg_id : string; arg_kind : ArgKind; arg_required : bool; arg_default : option string }.
Definition opt (id : string) : Arg := MkArg id KText false None.
Definition req (id : string) : Arg := MkArg id KText true None.

(** The [*_cmd] builders: the arguments of each verb. *)
Definition invoice_cmd (verb : string) : list Arg :=
  if String.eqb verb "draft" then
    [req "customer"; req "currency"; MkArg "seller-jurisdiction" KText false (Some "CA-QC");
     MkArg "line" KRepeated true None; opt "due"; opt "idempotency-key"; opt "template-path"]
  else if String.eqb verb "issue" then [req "id"]
  else if String.eqb verb "send" then [req "id"; req "to"]
  else if String.eqb verb "pay" then [req "id"; req "amount"; opt "idempotency-key"; opt "bus-event-id"]
  else if String.eqb verb "void" then [req "id"; opt "reason"]
  else if String.eqb verb "show" then [req "id"]
  else if String.eqb verb "list" then
    [opt "customer"; opt "state"; MkArg "limit" KInt false None; MkArg "offset" KInt false None]
  else [].
Definition creditnote_cmd (verb : string) : list Arg :=
  if String.eqb verb "draft" then [req "invoice"; req "amount"; opt "reason"; opt "idempotency-key"]
  else if String.eqb verb "issue" then [req "id"]
  else if String.eqb verb "show" then [req "id"]
  else if String.eqb verb "list" then [opt "invoice"; opt "state"; opt "limit"; opt "offset"]
  else [].
Definition schedule_cmd (verb : string) : list Arg :=
  if String.eqb verb "create" then
    [req "customer"; req "currency"; req "cadence"; req "start"; opt "end";
     MkArg "auto-issue" KSetTrue false None; MkArg "line" KRepeated true None]
  else if String.eqb verb "list" then [opt "customer"; opt "state"; opt "limit"; opt "offset"]
  else if String.eqb verb "pause" || String.eqb verb "cancel" || String.eqb verb "show" then [req "id"]
  else [].
Definition reminder_cmd (verb : string) : list Arg :=
  if String.eqb verb "schedule" then [req "invoice"; req "at"; req "channel"]
  else if String.eqb verb "cancel" then [req "id"]
  else if String.eqb verb "list" then [req "invoice"]
  else [].
Definition customer_cmd (verb : string) : list Arg :=
  if String.eqb verb "add" then
    [req "name"; opt "email"; req "country"; opt "region"; opt "city"; opt "postal"; opt "line1"; opt "line2"]
  else if String.eqb verb "show" then [req "id"]
  else if String.eqb verb "list" then [MkArg "limit" KInt false (Some "100"); MkArg "offset" KInt false (Some "0")]
  else [].

(** What clap has checked of an argument when it hands out the matches: a required
    one is there, one with a default too, and each holds what its action stores. *)
Definition arg_fits (a : Arg) (v : option ArgValue) : bool :=
  match arg_kind a, v with
  | KText, Some (ATexts l) => (length l =? 1)%nat
  | KRepeated, Some (ATexts l) => (1 <=? length l)%nat
  | KInt, Some (AInt z) => (- 2 ^ 63 <=? z) && (z <? 2 ^ 63)
  | KSetTrue, Some (AFlag _) => true
  | (KText | KRepeated | KInt), None => negb (arg_required a) && negb (bool_decide (is_Some (arg_default a)))
  | _, _ => false
  end.
Definition accepts (args : list Arg) (m : ArgMatches) : bool :=
  forallb (λ a, arg_fits a (am_args m !! arg_id a)) args.

(** ** Rendering ([render.rs]) *)

Record ColumnSpec := MkColumn { col_field : string; col_header : string; col_width : Z }.
Definition col (k : string) (w : Z) : ColumnSpec := MkColumn k k w.

(** [hop_top_kit::output::dispatch]: why it failed, or the text it wrote. *)
Class Kit := kit_dispatch : ArgMatches → json → option (list ColumnSpec) → string + string.

Section cli.
Context `{P : Platform} `{S : Serde} {T : Tera} {K : Kit}.

(** An [anyhow] error: a message of the CLI; a parse failure, whose reason is the
    parser's; a command's error under its context; a repository's; the renderer's. *)
Inductive CliError :=
  | Anyhow (msg : string)
  | Unparsed (prefix : string)
  | Failed (context : string) (e : CoreError)
  | StoreFailed (context : option string) (e : StoreError)
  | OutputDispatch (msg : string).
Notation CR := (res CliError).

Definition dispatch_inner (m : ArgMatches) (data : json) (columns : list ColumnSpec) : CR string :=
  match kit_dispatch m data (match columns with [] => None | _ => Some columns end) with
  | inl e => Err (OutputDispatch e)
  | inr text => Ok text
  end.
Definition render_value (m : ArgMatches) (value : json) (columns : list ColumnSpec) : CR string :=
  dispatch_inner m (JArr [value]) columns.
Definition render_list (m : ArgMatches) (rows : json) (columns : list ColumnSpec) : CR string :=
  dispatch_inner m rows columns.

(** ** Parsing ([commands/parse.rs]) *)

Definition bad (label raw : string) : CliError := Unparsed ("invalid " +:+ label +:+ " `" +:+ raw +:+ "`").
Definition parse_decimal (label raw : string) : CR Decimal := ok_or (bad label raw) (dec_from_str raw).
Definition parse_datetime (label raw : string) : CR DateTime :=
  ok_or (Unparsed ("invalid " +:+ label +:+ " `" +:+ raw +:+ "` (expected RFC 3339)")) (dt_from_rfc3339 raw).
Definition parse_date (label raw : string) : CR NaiveDate :=
  ok_or (Unparsed ("invalid " +:+ label +:+ " `" +:+ raw +:+ "` (expected YYYY-MM-DD)")) (nd_from_str raw).
Definition cli_parse_id {e : Entity} (what raw : string) : CR (EntityId e) :=
  map_err (λ err, Anyhow ("invalid " +:+ what +:+ " id `" +:+ raw +:+ "`: " +:+ IdError_to_string err))
    (id_parse e raw).
Definition cli_invoice_id (raw : string) : CR InvoiceId := cli_parse_id "invoice" raw.
Definition cli_customer_id (raw : string) : CR CustomerId := cli_parse_id "customer" raw.
Definition cli_credit_note_id (raw : string) : CR CreditNoteId := cli_parse_id "credit-note" raw.
Definition cli_schedule_id (raw : string) : CR ScheduleId := cli_parse_id "schedule" raw.
Definition cli_reminder_id (raw : string) : CR ReminderId := cli_parse_id "reminder" raw.

(** [str::parse::<i64>()] *)
Definition parse_i64 (s : string) : option Z :=
  match s with
  | String "-" body => n ← digits_val body; if Z.of_N n <=? 2 ^ 63 then Some (- Z.of_N n) else None
  | _ => parse_unsigned (2 ^ 63 - 1) s
  end.

Record LineSpec := MkLineSpec { ls_description : string; ls_quantity : Decimal; ls_unit_price : Decimal }.
(** [raw.rsplitn(3, ':')]: the last two colons cut the line. *)
Definition parse_line (raw : string) : CR LineSpec :=
  match (r ← rsplit_once ":" raw; let '(rest, price) := r : string * string in
         q ← rsplit_once ":" rest; let '(desc, qty) := q : string * string in
         Some (desc, qty, price)) with
  | None => Err (Anyhow ("invalid --line `" +:+ raw +:+ "` (expected `<desc>:<qty>:<price>`)"))
  | Some (desc, qty, price) =>
      unit_price ← parse_decimal "line unit_price" price;
      quantity ← parse_decimal "line quantity" qty;
      if is_blank desc then Err (Anyhow ("--line `" +:+ raw +:+ "`: description must not be empty"))
      else Ok (MkLineSpec desc quantity unit_price)
  end.

(** ** What the verbs share *)

Context (user : option string).
(** [$USER], or "cli". *)
Definition cli_actor : Actor := ACli (default "cli" user).

Definition required (m : ArgMatches) (k msg : string) : CR string := ok_or (Anyhow msg) (get_one m k).
Definition optional_arg {A} (m : ArgMatches) (k : string) (parse : string → CR A) : CR (option A) :=
  match get_one m k with None => Ok None | Some raw => Some <$> parse raw end.
Definition parse_i64_arg (k raw : string) : CR Z := ok_or (bad ("--" +:+ k) raw) (parse_i64 raw).

Definition cli_command {A} (context : string) (p : prog A) : prog (CR A) := command_as (Failed context) p.
Definition cli_store {A} (f : Db → SR A) : prog (CR A) := try_conv (StoreFailed None) (db_try f).
Definition cli_found {A} (msg : string) (o : option A) : prog (CR A) := Ret (ok_or (Anyhow msg) o).

Definition parse_currency_flag (raw : string) : CR Currency :=
  map_err (λ e, Anyhow ("invalid --currency `" +:+ raw +:+ "`: " +:+ CurrencyError_to_string e)) (Currency.new raw).
Definition parse_jurisdiction_flag (raw : string) : CR Jurisdiction :=
  map_err (λ e, Anyhow ("invalid --seller-jurisdiction `" +:+ raw +:+ "`: unsupported jurisdiction: `" +:+ e +:+
    "` (v1 supports CA-QC | US-DE | DZ-16)")) (Jurisdiction.from_str raw).
Definition parse_cadence_flag (raw : string) : CR Cadence :=
  map_err (λ e, Anyhow ("invalid --cadence `" +:+ raw +:+ "`: " +:+ CadenceError_to_string e)) (Cadence.from_str raw).

(** The [--line] values, at least one. *)
Definition line_specs (m : ArgMatches) : CR (list LineSpec) :=
  specs ← match get_many m "line" with Some l => res_mapM parse_line l | None => Ok [] end;
  match specs with [] => Err (Anyhow "at least one --line is required") | _ => Ok specs end.

(** ** [inv invoice] ([commands/invoice.rs]) *)

Definition invoice_columns : list ColumnSpec :=
  [col "id" 26; col "number" 14; col "state" 14; col "schedule" 10; col "total" 12; col "currency" 8].

Definition build_draft_input (m : ArgMatches) (actor : Actor) : CR DraftInvoiceInput :=
  customer_raw ← required m "customer" "--customer required";
  customer_id ← cli_customer_id customer_raw;
  currency_raw ← required m "currency" "--currency required";
  currency ← parse_currency_flag currency_raw;
  seller_jurisdiction ← parse_jurisdiction_flag (default "CA-QC" (get_one m "seller-jurisdiction"));
  specs ← line_specs m;
  due_at ← optional_arg m "due" (parse_datetime "--due");
  Ok {| di_customer_id := customer_id;
        di_seller_jurisdiction := seller_jurisdiction;
        di_currency := currency;
        di_lines := (λ l, MkDraftLineInput (ls_description l) (ls_quantity l) (ls_unit_price l) Standard) <$> specs;
        di_idempotency_key := get_one m "idempotency-key";
        di_actor := actor;
        di_channel := ChCli;
        di_due_at := due_at;
        di_template_path := get_one m "template-path";
        di_schedule_id := None |}.
Definition run_draft (ctx : CoreCtx) (m : ArgMatches) : prog (CR string) :=
  input ←? Ret (build_draft_input m cli_actor);
  output ←? cli_command "draft_invoice failed" (draft_invoice ctx input);
  Ret (render_value m
    (JObj [("invoice", Invoice_json (do_invoice output)); ("lines", JArr (InvoiceLine_json <$> do_lines output));
           ("idempotency_replay", JBool (do_idempotency_replay output))]) invoice_columns).

Definition id_arg {A} (m : ArgMatches) (what : string) (parse : string → CR A) : CR A :=
  raw ← required m "id" (what +:+ " id required"); parse raw.

Definition build_issue_input (m : ArgMatches) (actor : Actor) : CR IssueInvoiceInput :=
  invoice_id ← id_arg m "invoice" cli_invoice_id;
  Ok (MkIssueInvoiceInput invoice_id None actor ChCli).
Definition jlen (s : string) : json := JInt (Z.of_nat (String.length s)).
Definition run_issue (ctx : CoreCtx) (m : ArgMatches) : prog (CR string) :=
  input ←? Ret (build_issue_input m cli_actor);
  output ←? cli_command "issue_invoice failed" (issue_invoice ctx input);
  Ret (render_value m
    (JObj [("invoice", Invoice_json (io_invoice output)); ("lines", JArr (InvoiceLine_json <$> io_lines output));
           ("html_len", jlen (io_html output)); ("pdf_len", jlen (io_pdf output))]) invoice_columns).

Definition build_send_input (m : ArgMatches) : CR SendInvoiceInput :=
  invoice_id ← id_arg m "invoice" cli_invoice_id;
  to ← required m "to" "--to required";
  Ok (MkSendInvoiceInput invoice_id to None cli_actor ChCli true).
Definition run_send (ctx : CoreCtx) (m : ArgMatches) : prog (CR string) :=
  input ←? Ret (build_send_input m);
  output ←? cli_command "send_invoice failed" (send_invoice ctx input);
  Ret (render_value m
    (JObj [("invoice", Invoice_json (so_invoice output)); ("delivered_to", JStr (so_delivered_to output));
           ("html_len", jlen (so_html output)); ("pdf_len", jlen (so_pdf output))]) invoice_columns).

Definition build_pay_input (m : ArgMatches) (actor : Actor) : CR MarkPaidInput :=
  invoice_id ← id_arg m "invoice" cli_invoice_id;
  amount_raw ← required m "amount" "--amount required";
  amount ← parse_decimal "--amount" amount_raw;
  Ok (MkMarkPaidInput invoice_id amount None (get_one m "idempotency-key") (get_one m "bus-event-id") actor ChCli).
Definition run_pay (ctx : CoreCtx) (m : ArgMatches) : prog (CR string) :=
  input ←? Ret (build_pay_input m cli_actor);
  output ←? cli_command "mark_paid failed" (mark_paid ctx input);
  Ret (render_value m (JObj [("invoice", Invoice_json (mpo_invoice output));
                             ("fully_paid", JBool (mpo_fully_paid output))]) invoice_columns).

Definition build_void_input (m : ArgMatches) : CR VoidInvoiceInput :=
  invoice_id ← id_arg m "invoice" cli_invoice_id;
  Ok (MkVoidInvoiceInput invoice_id (get_one m "reason") None cli_actor ChCli).
Definition run_void (ctx : CoreCtx) (m : ArgMatches) : prog (CR string) :=
  input ←? Ret (build_void_input m);
  output ←? cli_command "void_invoice failed" (void_invoice ctx input);
  Ret (render_value m (JObj [("invoice", Invoice_json output)]) invoice_columns).

Definition run_show (ctx : CoreCtx) (m : ArgMatches) : prog (CR string) :=
  invoice_id ←? Ret (id_arg m "invoice" cli_invoice_id);
  found ←? cli_store (λ d, Ok (invoice_get invoice_id d));
  invoice ←? cli_found ("invoice " +:+ id_to_string invoice_id +:+ " not found") found;
  lines ←? cli_store (λ d, Ok (line_list_for_invoice invoice_id d));
  Ret (render_value m (JObj [("invoice", Invoice_json invoice); ("lines", JArr (InvoiceLine_json <$> lines))])
         invoice_columns).

Definition parse_invoice_state (raw : string) : CR InvoiceState :=
  if String.eqb raw "draft" then Ok Draft
  else if String.eqb raw "issued" then Ok Issued
  else if String.eqb raw "sent" then Ok Sent
  else if String.eqb raw "viewed" then Ok Viewed
  else if String.eqb raw "partially_paid" then Ok PartiallyPaid
  else if String.eqb raw "paid" then Ok Paid
  else if String.eqb raw "voided" then Ok Voided
  else Err (Anyhow ("unknown invoice state `" +:+ raw +:+ "`")).

(** The em dash. *)
Definition NULL_GLYPH : string := "—".
(** [str::chars]: a byte and the continuation bytes after it. *)
Fixpoint chars (s : string) : list string :=
  match s with
  | EmptyString => []
  | String c s =>
      match chars s with
      | String d t :: l => if byte_in 128 191 d then String c (String d t) :: l
                           else String c "" :: String d t :: l
      | l => String c "" :: l
      end
  end.
(** The last eight characters. *)
Definition schedule_id_suffix (id : string) : string :=
  let cs := chars id in
  let len := length cs in
  if (len <=? 8)%nat then id else foldr String.append "" (drop (len - 8) cs).
(** [Map::insert]: in place of the key's value, or at the end. *)
Fixpoint obj_insert (k : string) (v : json) (ms : list (string * json)) : list (string * json) :=
  match ms with
  | [] => [(k, v)]
  | (k', v') :: ms => if String.eqb k' k then (k, v) :: ms else (k', v') :: obj_insert k v ms
  end.
Definition obj_get (k : string) (v : json) : option json :=
  match v with JObj ms => snd <$> List.find (λ m, String.eqb m.1 k) ms | _ => None end.
Definition decorate_row (row : json) : json :=
  let suffix := match obj_get "schedule_id" row with
                | Some (JStr s) => schedule_id_suffix s
                | _ => NULL_GLYPH
                end in
  match row with JObj ms => JObj (obj_insert "schedule" (JStr suffix) ms) | v => v end.
Definition decorate_schedule_column (value : json) : json :=
  match value with JArr rows => JArr (decorate_row <$> rows) | v => v end.

Definition run_list (ctx : CoreCtx) (m : ArgMatches) : prog (CR string) :=
  filter ←? Ret (customer_id ← optional_arg m "customer" cli_customer_id;
                 state ← optional_arg m "state" parse_invoice_state;
                 Ok (MkInvoiceFilter customer_id state (get_i64 m "limit") (get_i64 m "offset")));
  rows ←? cli_store (invoice_list filter);
  Ret (render_list m (decorate_schedule_column (JArr (Invoice_json <$> rows))) invoice_columns).

Definition cli_invoice (ctx : CoreCtx) (m : ArgMatches) : prog (CR string) :=
  match subcommand m with
  | Some (verb, sub) =>
      if String.eqb verb "draft" then run_draft ctx sub
      else if String.eqb verb "issue" then run_issue ctx sub
      else if String.eqb verb "send" then run_send ctx sub
      else if String.eqb verb "pay" then run_pay ctx sub
      else if String.eqb verb "void" then run_void ctx sub
      else if String.eqb verb "show" then run_show ctx sub
      else if String.eqb verb "list" then run_list ctx sub
      else Ret (Err (Anyhow "invoice: missing subcommand"))
  | None => Ret (Err (Anyhow "invoice: missing subcommand"))
  end.

(** ** [inv creditnote] ([commands/creditnote.rs]) *)

Definition creditnote_columns : list ColumnSpec :=
  [col "id" 26; col "number" 14; col "state" 8; col "amount" 12; col "currency" 8].

Definition build_credit_note_input (m : ArgMatches) : CR CreateCreditNoteInput :=
  invoice_raw ← required m "invoice" "--invoice required";
  invoice_id ← cli_invoice_id invoice_raw;
  amount_raw ← required m "amount" "--amount required";
  amount ← parse_decimal "--amount" amount_raw;
  Ok (MkCreateCreditNoteInput invoice_id amount (get_one m "reason") None (get_one m "idempotency-key")
        cli_actor ChCli).
Definition creditnote_draft (ctx : CoreCtx) (m : ArgMatches) : prog (CR string) :=
  input ←? Ret (build_credit_note_input m);
  output ←? cli_command "create_credit_note failed" (create_credit_note ctx input);
  Ret (render_value m (JObj [("credit_note", CreditNote_json output)]) creditnote_columns).
Definition build_credit_note_issue (m : ArgMatches) : CR IssueCreditNoteInput :=
  credit_note_id ← id_arg m "credit-note" cli_credit_note_id;
  Ok (MkIssueCreditNoteInput credit_note_id None cli_actor ChCli).
Definition creditnote_issue (ctx : CoreCtx) (m : ArgMatches) : prog (CR string) :=
  input ←? Ret (build_credit_note_issue m);
  output ←? cli_command "issue_credit_note failed" (issue_credit_note ctx input);
  Ret (render_value m (JObj [("credit_note", CreditNote_json output)]) creditnote_columns).
Definition creditnote_show (ctx : CoreCtx) (m : ArgMatches) : prog (CR string) :=
  credit_note_id ←? Ret (id_arg m "credit-note" cli_credit_note_id);
  found ←? cli_store (λ d, Ok (cn_get credit_note_id d));
  cn ←? cli_found ("credit note " +:+ id_to_string credit_note_id +:+ " not found") found;
  Ret (render_value m (CreditNote_json cn) creditnote_columns).
Definition cli_credit_note_state (s : string) : CR CreditNoteState :=
  if String.eqb s "draft" then Ok CnDraft
  else if String.eqb s "issued" then Ok CnIssued
  else Err (Anyhow ("invalid --state `" +:+ s +:+ "` (want draft | issued)")).
Definition creditnote_list (ctx : CoreCtx) (m : ArgMatches) : prog (CR string) :=
  filter ←? Ret (invoice_id ← optional_arg m "invoice" cli_invoice_id;
                 state ← optional_arg m "state" cli_credit_note_state;
                 limit ← optional_arg m "limit" (parse_i64_arg "limit");
                 offset ← optional_arg m "offset" (parse_i64_arg "offset");
                 Ok (MkCreditNoteFilter invoice_id state limit offset));
  rows ←? cli_store (cn_list filter);
  Ret (render_list m (JArr (CreditNote_json <$> rows)) creditnote_columns).
Definition cli_creditnote (ctx : CoreCtx) (m : ArgMatches) : prog (CR string) :=
  match subcommand m with
  | Some (verb, sub) =>
      if String.eqb verb "draft" then creditnote_draft ctx sub
      else if String.eqb verb "issue" then creditnote_issue ctx sub
      else if String.eqb verb "show" then creditnote_show ctx sub
      else if String.eqb verb "list" then creditnote_list ctx sub
      else Ret (Err (Anyhow "creditnote: missing subcommand"))
  | None => Ret (Err (Anyhow "creditnote: missing subcommand"))
  end.

(** ** [inv schedule] ([commands/schedule.rs]) *)

Definition schedule_columns : list ColumnSpec :=
  [col "id" 26; col "state" 10; col "cadence" 14; col "currency" 8; col "next_run" 12].

Definition build_schedule_input (m : ArgMatches) : CR ScheduleCreateInput :=
  customer_raw ← required m "customer" "--customer required";
  customer_id ← cli_customer_id customer_raw;
  currency_raw ← required m "currency" "--currency required";
  currency ← parse_currency_flag currency_raw;
  cadence_raw ← required m "cadence" "--cadence required";
  cadence ← parse_cadence_flag cadence_raw;
  start_raw ← required m "start" "--start required";
  start_date ← parse_date "--start" start_raw;
  end_date ← optional_arg m "end" (parse_date "--end");
  specs ← line_specs m;
  Ok {| sci_customer_id := customer_id;
        sci_template_lines :=
          (λ l, MkScheduleLineInput (ls_description l) (ls_quantity l) (ls_unit_price l) Standard) <$> specs;
        sci_currency := currency;
        sci_cadence := cadence;
        sci_start_date := start_date;
        sci_end_date := end_date;
        sci_auto_issue := get_flag m "auto-issue";
        sci_actor := cli_actor;
        sci_channel := ChCli |}.
Definition render_schedule (m : ArgMatches) (schedule : Schedule) : CR string :=
  render_value m (JObj [("schedule", Schedule_json schedule)]) schedule_columns.
Definition cli_schedule_create (ctx : CoreCtx) (m : ArgMatches) : prog (CR string) :=
  input ←? Ret (build_schedule_input m);
  output ←? cli_command "schedule_create failed" (schedule_create ctx input);
  Ret (render_schedule m output).
Definition build_state_change_input (m : ArgMatches) : CR ScheduleStateChangeInput :=
  schedule_id ← id_arg m "schedule" cli_schedule_id;
  Ok (MkScheduleStateChangeInput schedule_id cli_actor ChCli).
Definition cli_schedule_pause (ctx : CoreCtx) (m : ArgMatches) : prog (CR string) :=
  input ←? Ret (build_state_change_input m);
  output ←? cli_command "schedule_pause failed" (schedule_pause ctx input);
  Ret (render_schedule m output).
Definition cli_schedule_cancel (ctx : CoreCtx) (m : ArgMatches) : prog (CR string) :=
  input ←? Ret (build_state_change_input m);
  output ←? cli_command "schedule_cancel failed" (schedule_cancel ctx input);
  Ret (render_schedule m output).
Definition cli_schedule_show (ctx : CoreCtx) (m : ArgMatches) : prog (CR string) :=
  schedule_id ←? Ret (id_arg m "schedule" cli_schedule_id);
  found ←? cli_store (λ d, Ok (schedule_get schedule_id d));
  schedule ←? cli_found ("schedule " +:+ id_to_string schedule_id +:+ " not found") found;
  Ret (render_value m (Schedule_json schedule) schedule_columns).
Definition cli_schedule_state (s : string) : CR ScheduleState :=
  if String.eqb s "active" then Ok SActive
  else if String.eqb s "paused" then Ok SPaused
  else if String.eqb s "cancelled" then Ok SCancelled
  else Err (Anyhow ("invalid --state `" +:+ s +:+ "` (want active | paused | cancelled)")).
Definition cli_schedule_list (ctx : CoreCtx) (m : ArgMatches) : prog (CR string) :=
  filter ←? Ret (customer_id ← optional_arg m "customer" cli_customer_id;
                 state ← optional_arg m "state" cli_schedule_state;
                 limit ← optional_arg m "limit" (parse_i64_arg "limit");
                 offset ← optional_arg m "offset" (parse_i64_arg "offset");
                 Ok (MkScheduleFilter customer_id state limit offset));
  rows ←? cli_store (schedule_list filter);
  Ret (render_list m (JArr (Schedule_json <$> rows)) schedule_columns).
Definition cli_schedule (ctx : CoreCtx) (m : ArgMatches) : prog (CR string) :=
  match subcommand m with
  | Some (verb, sub) =>
      if String.eqb verb "create" then cli_schedule_create ctx sub
      else if String.eqb verb "pause" then cli_schedule_pause ctx sub
      else if String.eqb verb "cancel" then cli_schedule_cancel ctx sub
      else if String.eqb verb "show" then cli_schedule_show ctx sub
      else if String.eqb verb "list" then cli_schedule_list ctx sub
      else Ret (Err (Anyhow "schedule: missing subcommand"))
  | None => Ret (Err (Anyhow "schedule: missing subcommand"))
  end.

(** ** [inv reminder] ([commands/reminder.rs]) *)

Definition reminder_columns : list ColumnSpec :=
  [col "id" 26; col "invoice_id" 26; col "scheduled_at" 24; col "channel" 10; col "state" 10].

Definition parse_channel (raw : string) : CR ReminderChannel :=
  if String.eqb raw "file" then Ok RcFile
  else if String.eqb raw "stdout" then Ok RcStdout
  else if String.eqb raw "bus" then Ok RcBus
  else if String.eqb raw "webhook" then Ok RcWebhook
  else if String.eqb raw "link" then Ok RcLink
  else Err (Anyhow ("unknown reminder channel `" +:+ raw +:+ "`")).
Definition build_reminder_input (m : ArgMatches) : CR ReminderScheduleInput :=
  invoice_raw ← required m "invoice" "--invoice required";
  invoice_id ← cli_invoice_id invoice_raw;
  at_raw ← required m "at" "--at required";
  scheduled_at ← parse_datetime "--at" at_raw;
  channel_raw ← required m "channel" "--channel required";
  channel_scheme ← parse_channel channel_raw;
  Ok (MkReminderScheduleInput invoice_id scheduled_at channel_scheme cli_actor ChCli).
Definition cli_reminder_schedule (ctx : CoreCtx) (m : ArgMatches) : prog (CR string) :=
  input ←? Ret (build_reminder_input m);
  output ←? cli_command "reminder_schedule failed" (reminder_schedule ctx input);
  Ret (render_value m (JObj [("reminder", Reminder_json output)]) reminder_columns).
Definition build_reminder_cancel (m : ArgMatches) : CR ReminderCancelInput :=
  reminder_id ← id_arg m "reminder" cli_reminder_id;
  Ok (MkReminderCancelInput reminder_id cli_actor ChCli).
Definition cli_reminder_cancel (ctx : CoreCtx) (m : ArgMatches) : prog (CR string) :=
  input ←? Ret (build_reminder_cancel m);
  output ←? cli_command "reminder_cancel failed" (reminder_cancel ctx input);
  Ret (render_value m (JObj [("reminder", Reminder_json output)]) reminder_columns).
Definition cli_reminder_list (ctx : CoreCtx) (m : ArgMatches) : prog (CR string) :=
  invoice_id ←? Ret (invoice_raw ← required m "invoice" "--invoice required"; cli_invoice_id invoice_raw);
  rows ←? cli_store (λ d, Ok (reminder_list_for_invoice invoice_id d));
  Ret (render_list m (JArr (Reminder_json <$> rows)) reminder_columns).
Definition cli_reminder (ctx : CoreCtx) (m : ArgMatches) : prog (CR string) :=
  match subcommand m with
  | Some (verb, sub) =>
      if String.eqb verb "schedule" then cli_reminder_schedule ctx sub
      else if String.eqb verb "cancel" then cli_reminder_cancel ctx sub
      else if String.eqb verb "list" then cli_reminder_list ctx sub
      else Ret (Err (Anyhow "reminder: missing subcommand"))
  | None => Ret (Err (Anyhow "reminder: missing subcommand"))
  end.

(** ** [inv customer] ([commands/customer.rs]) *)

Definition customer_columns : list ColumnSpec := [col "id" 26; col "display_name" 20; col "email" 24].

(** The name and address of [run_add]. *)
Definition build_customer (m : ArgMatches) : CR (string * Address) :=
  display_name ← required m "name" "--name required";
  country ← required m "country" "--country required";
  Ok (display_name, MkAddress country (get_one m "region") (get_one m "city") (get_one m "postal")
                      (get_one m "line1") (get_one m "line2")).
Definition customer_add (ctx : CoreCtx) (m : ArgMatches) : prog (CR string) :=
  named ←? Ret (build_customer m);
  let '(display_name, address) := named : string * Address in
  now ← clock_now;
  id ← fresh ECustomer;
  let customer := MkCustomer id display_name (get_one m "email") address ∅ now now in
  _ ←? try_conv (StoreFailed (Some "save customer")) (db_try_exec (customer_save customer));
  Ret (render_value m (Customer_json customer) customer_columns).
Definition customer_show (ctx : CoreCtx) (m : ArgMatches) : prog (CR string) :=
  customer_id ←? Ret (id_arg m "customer" cli_customer_id);
  found ←? cli_store (λ d, Ok (customer_get customer_id d));
  customer ←? cli_found ("customer " +:+ id_to_string customer_id +:+ " not found") found;
  Ret (render_value m (Customer_json customer) customer_columns).
Definition cli_customer_list (ctx : CoreCtx) (m : ArgMatches) : prog (CR string) :=
  rows ←? cli_store (Store.customer_list (default 100 (get_i64 m "limit")) (default 0 (get_i64 m "offset")));
  Ret (render_list m (JArr (Customer_json <$> rows)) customer_columns).
Definition cli_customer (ctx : CoreCtx) (m : ArgMatches) : prog (CR string) :=
  match subcommand m with
  | Some (verb, sub) =>
      if String.eqb verb "add" then customer_add ctx sub
      else if String.eqb verb "show" then customer_show ctx sub
      else if String.eqb verb "list" then cli_customer_list ctx sub
      else Ret (Err (Anyhow "customer: missing subcommand"))
  | None => Ret (Err (Anyhow "customer: missing subcommand"))
  end.

(** ** [inv tax], [inv tick] ([commands/tax.rs], [tick.rs]) *)

Definition tax_columns : list ColumnSpec :=
  [col "id" 16; col "jurisdiction" 10; col "name" 8; col "category" 10; col "rate" 8].
(** [format!("{:?}", category).to_lowercase()] *)
Definition tax_category_lower (c : TaxCategory) : string :=
  match c with
  | Standard => "standard" | Reduced => "reduced" | ZeroRated => "zerorated" | Exempt => "exempt"
  end.
Definition tax_row (r : TaxRate) : json :=
  JObj [("id", JStr (tr_id r)); ("jurisdiction", JStr (Jurisdiction.as_str (tr_jurisdiction r)));
        ("name", JStr (tr_name r)); ("category", JStr (tax_category_lower (tr_category r)));
        ("rate", JStr (dec_to_string (tr_rate r))); ("country", jopt (applies_country r));
        ("region", jopt (applies_region r)); ("effective_from", JStr (nd_to_string (tr_effective_from r)));
        ("effective_to", jopt (nd_to_string <$> tr_effective_to r))].
Definition tax_rates_show (ctx : CoreCtx) (m : ArgMatches) : prog (CR string) :=
  Ret (render_list m (JArr (tax_row <$> tt_rates (tax_table ctx))) tax_columns).
Definition cli_tax (ctx : CoreCtx) (m : ArgMatches) : prog (CR string) :=
  match subcommand m with
  | Some (noun, sub) =>
      if String.eqb noun "rates" then
        match subcommand sub with
        | Some (verb, show) => if String.eqb verb "show" then tax_rates_show ctx show
                               else Ret (Err (Anyhow "tax rates: missing subcommand"))
        | None => Ret (Err (Anyhow "tax rates: missing subcommand"))
        end
      else Ret (Err (Anyhow "tax: missing subcommand"))
  | None => Ret (Err (Anyhow "tax: missing subcommand"))
  end.

Definition tick_columns : list ColumnSpec :=
  [col "ran_schedule_ids" 24; col "sent_reminders" 24; col "overdue_invoices" 24; col "drafts" 16].
Definition run_schedules (ctx : CoreCtx) (m : ArgMatches) : prog (CR string) :=
  output ←? cli_command "schedules_tick failed" (schedules_tick ctx);
  Ret (render_value m
    (JObj [("ran_schedule_ids", JArr ((λ s, JStr (id_to_string s)) <$> sto_ran_schedule_ids output));
           ("drafts", JArr ((λ d, JStr (id_to_string (inv_id (do_invoice d)))) <$> sto_drafts output))])
    tick_columns).
Definition run_reminders (ctx : CoreCtx) (m : ArgMatches) : prog (CR string) :=
  output ←? cli_command "reminders_tick failed" (reminders_tick ctx);
  Ret (render_value m (JObj [("sent_reminders", JArr ((λ r, JStr (id_to_string (rem_id r))) <$> output))])
         tick_columns).
Definition run_overdue (ctx : CoreCtx) (m : ArgMatches) : prog (CR string) :=
  output ←? cli_command "mark_overdue_ticker failed" (mark_overdue_ticker ctx);
  Ret (render_value m (JObj [("overdue_invoices", JArr ((λ i, JStr (id_to_string (inv_id i))) <$> output))])
         tick_columns).
Definition cli_tick (ctx : CoreCtx) (m : ArgMatches) : prog (CR string) :=
  match subcommand m with
  | Some (verb, sub) =>
      if String.eqb verb "schedules" then run_schedules ctx sub
      else if String.eqb verb "reminders" then run_reminders ctx sub
      else if String.eqb verb "overdue" then run_overdue ctx sub
      else Ret (Err (Anyhow "tick: missing subcommand"))
  | None => Ret (Err (Anyhow "tick: missing subcommand"))
  end.

(** What the dispatch comes to: what was printed, or [server::dispatch] with
    these arguments, which the process goes on as. *)
Inductive Dispatched := Printed (out : string) | Serve (m : ArgMatches).
Definition printed (p : prog (CR string)) : prog (CR Dispatched) := out ←? p; Ret (Ok (Printed out)).
(** [async_run] once the context is built. *)
Definition cli_dispatch (ctx : CoreCtx) (m : ArgMatches) : prog (CR Dispatched) :=
  match subcommand m with
  | Some (noun, sub) =>
      if String.eqb noun "invoice" then printed (cli_invoice ctx sub)
      else if String.eqb noun "creditnote" then printed (cli_creditnote ctx sub)
      else if String.eqb noun "schedule" then printed (cli_schedule ctx sub)
      else if String.eqb noun "reminder" then printed (cli_reminder ctx sub)
      else if String.eqb noun "customer" then printed (cli_customer ctx sub)
      else if String.eqb noun "tax" then printed (cli_tax ctx sub)
      else if String.eqb noun "tick" then printed (cli_tick ctx sub)
      else if String.eqb noun "server" then Ret (Ok (Serve sub))
      else Crash
  | None => Crash
  end.
End cli.
