(* ===== verification/CliRun.v ===== *)
(** * What the command line does

    An invocation is one command or nothing, and the shape of a [--line]. *)

From S2P Require Import Prelude External Concrete Money Ids Domain InvoiceFsm CreditNoteFsm Events Cadence.
From S2P Require Import Tax Store Codec ConcreteJson Wire Render Command Effects Transition Invariant Evolution World.
From S2P Require Import Fixtures Draft Issue Pay Void Send Credit Overdue Reminders Schedules SignedLink Outbox.
From S2P Require Import System Adapter Cli.

Section calls.
Context {P : Platform} {L : PlatformLaws P} {S : Serde} {T : Tera} {K : Kit} {C : Crypto}.
Context (user : option string).
Implicit Types (E : Env) (w : World) (ctx : CoreCtx) (m : ArgMatches).

(** A command's error comes under a context, the save of a customer's too; the
    renderer may still fail once the command has succeeded. *)
Definition cli_tells (e : CoreError) (e' : CliError) : Prop :=
  (∃ context, e' = Failed context e) ∨ ∃ s, e = Repo s ∧ e' = StoreFailed (Some "save customer") s.
Definition unprinted (c : System.Command) (e : CliError) : Prop := ∃ msg, e = OutputDispatch msg.
Notation asks := (Adapter.asks (A:=string) cli_tells unprinted).

Lemma cli_tells_core context e : cli_tells e (Failed context e).
Proof. left. by eexists. Qed.
Lemma silent_cli_store {A} (f : Db → SR A) : silent (cli_store f).
Proof. apply silent_try_conv, silent_db_try. Qed.
Lemma silent_cli_found {A} what (o : option A) : silent (cli_found what o).
Proof. constructor. Qed.
Hint Resolve silent_cli_store silent_cli_found : inv.

(** What is rendered, or why it was not. *)
Lemma rendered c m v columns : ends_in unprinted c (Ret (render_value m v columns)).
Proof.
  split; [constructor|]. intros E w. cbn. unfold render_value, dispatch_inner.
  destruct (kit_dispatch _ _ _) as [e|t]; [right|left; by eexists]. eexists. split; [done|]. by eexists.
Qed.

(** The verbs that only answer what is stored, and those that are refused. *)
Definition reads_only (noun verb : string) : bool :=
  String.eqb verb "show" || String.eqb verb "list" || String.eqb noun "tax".
Definition cli_reads m : bool :=
  match subcommand m with
  | Some (noun, sub) =>
      match subcommand sub with Some (verb, _) => reads_only noun verb | None => false end
  | None => false
  end.

(** The arguments of [inv server]. *)
Definition cli_server m : option ArgMatches :=
  match subcommand m with Some (noun, sub) => if String.eqb noun "server" then Some sub else None | None => None end.

Ltac ask_cli mk :=
  apply asks_input; let a := fresh in intros a;
  eapply asks_ends with (c := mk a); [intros; apply cli_tells_core|done|intros; apply rendered].
Ltac ask_tick cmd :=
  eapply asks_ends with (c := cmd); [intros; apply cli_tells_core|done|intros; apply rendered].

Lemma cli_customer_add_asks ctx m : asks ctx false (customer_add ctx m).
Proof.
  unfold customer_add. apply asks_input. intros [display_name address] E w. right.
  eexists (SaveCustomer (MkCustomer (id_new ECustomer (w_step (tick w))) display_name (get_one m "email") address ∅
    (env_now E (w_step w)) (env_now E (w_step w)))), (tick (tick w)).
  split; [etrans; apply same_world_tick|]. cbn [perform]. rw run_db_exec. cbn.
  destruct (env_db_ok E _); cbn; [|split; [done|]; right; by eexists].
  split; [done|]. destruct (rendered (SaveCustomer (MkCustomer (id_new ECustomer (Datatypes.S (w_step w))) display_name
    (get_one m "email") address ∅ (env_now E (w_step w)) (env_now E (w_step w)))) m
    (Customer_json (MkCustomer (id_new ECustomer (Datatypes.S (w_step w))) display_name
      (get_one m "email") address ∅ (env_now E (w_step w)) (env_now E (w_step w)))) customer_columns) as [_ Hr].
  unfold customer_columns in *. destruct (Hr E w) as [[t Ht]|(e & Ht & He)]; injection Ht as ->; [done|exact He].
Qed.

(** A noun's [dispatch]: one verb after the other. *)
Ltac by_verb := match goal with
  | |- asks _ _ (if String.eqb ?v ?s then _ else _) => destruct (String.eqb_spec v s) as [->|]
  | |- asks _ _ (match subcommand ?o with _ => _ end) => destruct (subcommand o) as [[? ?]|]
  | |- asks _ _ (Ret (Err _)) => apply asks_refused
  end.
Lemma asks_reading ctx reads p : silent p → reads = true → asks ctx reads p.
Proof. intros Hp ->. by apply asks_silent. Qed.
Ltac cli_silent := apply asks_reading; [silent_read|reflexivity].
Notation reads_of noun m :=
  (match subcommand m with Some (verb, _) => reads_only noun verb | None => false end).

Lemma invoice_asks ctx m : asks ctx (reads_of "invoice" m) (cli_invoice user ctx m).
Proof.
  unfold cli_invoice. repeat by_verb.
  - ask_cli DraftInvoice.
  - ask_cli IssueInvoice.
  - ask_cli SendInvoice.
  - ask_cli MarkPaid.
  - ask_cli VoidInvoice.
  - cli_silent.
  - cli_silent.
Qed.
Lemma creditnote_asks ctx m : asks ctx (reads_of "creditnote" m) (cli_creditnote user ctx m).
Proof.
  unfold cli_creditnote. repeat by_verb.
  - ask_cli CreateCreditNote.
  - ask_cli IssueCreditNote.
  - cli_silent.
  - cli_silent.
Qed.
Lemma schedule_asks ctx m : asks ctx (reads_of "schedule" m) (cli_schedule user ctx m).
Proof.
  unfold cli_schedule. repeat by_verb.
  - ask_cli ScheduleCreate.
  - ask_cli SchedulePause.
  - ask_cli ScheduleCancel.
  - cli_silent.
  - cli_silent.
Qed.
Lemma reminder_asks ctx m : asks ctx (reads_of "reminder" m) (cli_reminder user ctx m).
Proof.
  unfold cli_reminder. repeat by_verb.
  - ask_cli ReminderSchedule.
  - ask_cli ReminderCancel.
  - cli_silent.
Qed.
Lemma customer_asks ctx m : asks ctx (reads_of "customer" m) (cli_customer ctx m).
Proof.
  unfold cli_customer. repeat by_verb.
  - apply cli_customer_add_asks.
  - cli_silent.
  - cli_silent.
Qed.
Lemma tax_asks ctx m : asks ctx (reads_of "tax" m) (cli_tax ctx m).
Proof.
  unfold cli_tax. destruct (subcommand m) as [[noun sub]|]; [|apply asks_refused].
  apply asks_reading; [silent_read|apply orb_true_r].
Qed.
Lemma tick_asks ctx m : asks ctx (reads_of "tick" m) (cli_tick ctx m).
Proof.
  unfold cli_tick. repeat by_verb.
  - ask_tick SchedulesTick.
  - ask_tick RemindersTick.
  - ask_tick MarkOverdue.
Qed.

(** The arms: a server, or a noun whose output is printed. *)
Lemma dispatch_arms ctx m :
  (∃ sub, subcommand m = Some ("server", sub) ∧ cli_dispatch user ctx m = Ret (Ok (Serve sub))) ∨
  (cli_server m = None ∧ ∃ p, cli_dispatch user ctx m = printed p ∧ asks ctx (cli_reads m) p).
Proof.
  assert (∀ reads, asks ctx reads (@Crash _ (res CliError string))) as Hcrash.
  { intros reads E w. left. by split. }
  unfold cli_dispatch, cli_reads, cli_server. destruct (subcommand m) as [[noun sub]|]; [|right; split; [done|by exists Crash]].
  repeat (match goal with |- context [if String.eqb noun ?s then printed _ else _] =>
    destruct (String.eqb_spec noun s) as [->|] end; [right; split; [done|]; eexists; split; [done|];
      solve [auto using invoice_asks, creditnote_asks, schedule_asks, reminder_asks, customer_asks, tax_asks, tick_asks]|]).
  destruct (String.eqb_spec noun "server") as [->|]; [left; by exists sub|right].
  split; [done|by exists Crash].
Qed.
End calls.

(** ** Theorems *)

Section theorems.
Context {P : Platform} {L : PlatformLaws P} {S : Serde} {T : Tera} {K : Kit} {C : Crypto}.
Context (user : option string).
Implicit Types (E : Env) (w : World) (ctx : CoreCtx) (m : ArgMatches).

#[local] Hint Resolve silent_cli_store silent_cli_found : inv.
Ltac since_cli lem :=
  apply since_input; [done|intros]; apply since_command; [by apply lem|intros; constructor].

Lemma cli_customer_add_since d0 E ctx m w :
  ok_since d0 w → safe (ok_since d0) E (customer_add ctx m) w.
Proof.
  intros Hw. unfold customer_add. apply since_input; [done|]. intros [display_name address].
  apply safe_bind; [by apply since_silent, silent_clock_now|]. intros w1 now Hw1.
  apply safe_bind; [by apply safe_quiet; [apply ok_since_stable|solve_quiet|]|]. intros w2 id Hw2.
  apply safe_try_bind; [by apply since_save_customer|done].
Qed.
Lemma cli_dispatch_since d0 E ctx m w : ok_since d0 w → safe (ok_since d0) E (cli_dispatch user ctx m) w.
Proof.
  intros Hw.
  unfold cli_dispatch, cli_invoice, cli_creditnote, cli_schedule, cli_reminder, cli_customer, cli_tax, cli_tick.
  repeat match goal with
  | |- safe _ _ (if String.eqb ?v ?s then _ else _) _ => destruct (String.eqb v s)
  | |- safe _ _ (match subcommand ?o with _ => _ end) _ => destruct (subcommand o) as [[? ?]|]
  | |- safe _ _ (printed _) _ => apply safe_try_bind; [|done]
  end; try done; try (apply since_silent; [done|]; silent_read; done).
  - since_cli draft_invoice_since.
  - since_cli issue_invoice_since.
  - since_cli send_invoice_since.
  - since_cli mark_paid_since.
  - since_cli void_invoice_since.
  - since_cli create_credit_note_since.
  - since_cli issue_credit_note_since.
  - since_cli schedule_create_since.
  - since_cli transition_schedule_since.
  - since_cli transition_schedule_since.
  - since_cli reminder_schedule_since.
  - since_cli reminder_cancel_since.
  - by apply cli_customer_add_since.
  - apply since_command; [by apply schedules_tick_since|constructor].
  - apply since_command; [by apply reminders_tick_since|constructor].
  - apply since_command; [|constructor].
    apply safe_quiet; [apply ok_since_stable|apply quiet_mark_overdue_ticker|done].
Qed.

(** An invocation of the command line is one command, the server or nothing:
    [inv server] hands its arguments over and touches nothing; any other line
    either leaves the store and the bus as they were, and then a verb other than
    [show], [list] and the tax table was refused; or it does exactly what one
    command of the command layer does and reports its error, and an error after a
    command that succeeded is the renderer's.  And even if it was killed on the
    way, the books stay consistent and what was issued stays frozen. *)
Lemma invocations_are_commands ctx m E w :
  (let '(w', out) := run E (cli_dispatch user ctx m) w in
   match cli_server m with
   | Some sub => w' = w ∧ out = Ok (Ok (Serve sub))
   | None =>
       (∀ sub, out ≠ Ok (Ok (Serve sub))) ∧
       ((same_world w w' ∧ (cli_reads m = false → ∀ t, out ≠ Ok (Ok (Printed t)))) ∨
        ∃ c w0, same_world w w0 ∧ same_world (run E (perform ctx c) w0).1 w' ∧
          match (run E (perform ctx c) w0).2, out with
          | Ok _, Ok (Ok _) | Panic, Panic => True
          | Ok _, Ok (Err e') => ∃ msg, e' = OutputDispatch msg
          | Err e, Ok (Err e') =>
              (∃ context, e' = Failed context e) ∨ ∃ s, e = Repo s ∧ e' = StoreFailed (Some "save customer") s
          | _, _ => False
          end)
   end) ∧
  (world_ok w → ∀ n, world_ok (crash_run E n (cli_dispatch user ctx m) w) ∧
     evolves (w_db w) (w_db (crash_run E n (cli_dispatch user ctx m) w))).
Proof.
  split.
  - destruct (dispatch_arms user ctx m) as [(sub & Em & ->)|(-> & p & -> & Hp)].
    { unfold cli_server. by rw Em. }
    unfold printed. rw run_try_bind. specialize (Hp E w).
    destruct (run E p w) as [w' [[t|e|]|e|]]; cbn; (split; [done|]);
      (destruct Hp as [(Hw & Hr)|(c & w0 & H0 & H1 & Hr)];
        [left; (split; [done|]); intros Hm t' Ht; simplify_eq/=; by eapply Hr
        |right; exists c, w0; (split; [done|]); (split; [done|]); revert Hr; unfold reported, cli_tells, unprinted;
         destruct (run E (perform ctx c) w0).2; tauto]).
  - intros Hw n. apply ok_since_refl in Hw.
    by destruct (safe_crash_run _ E n _ w (cli_dispatch_since _ E ctx m w Hw)); split.
Qed.
End theorems.

(** ** A line *)

Section lines.
Context {P : Platform}.

(** The texts that [--line] accepts are exactly [<desc>:<qty>:<price>] with two
    decimals and a description that is not blank; the description may hold colons,
    and every such text is read one way only. *)
Lemma parse_line_exact raw desc quantity unit_price :
  parse_line raw = Ok (MkLineSpec desc quantity unit_price) ↔
  ∃ qty price, raw = desc +:+ ":" +:+ qty +:+ ":" +:+ price ∧
    str_free ":" qty = true ∧ str_free ":" price = true ∧ is_blank desc = false ∧
    dec_from_str qty = Some quantity ∧ dec_from_str price = Some unit_price.
Proof.
  unfold parse_line. split.
  - destruct (rsplit_once ":" raw) as [[rest price]|] eqn:E1; cbn; [|done].
    destruct (rsplit_once ":" rest) as [[d qty]|] eqn:E2; cbn; [|done].
    unfold parse_decimal.
    destruct (dec_from_str price) as [p|] eqn:Ep; cbn; [|done].
    destruct (dec_from_str qty) as [q|] eqn:Eq; cbn; [|done].
    destruct (is_blank d) eqn:Eb; [done|]. intros [= <- <- <-].
    pose proof (rsplit_once_free_r _ _ _ _ E1). pose proof (rsplit_once_free_r _ _ _ _ E2).
    apply rsplit_once_Some in E1 as ->, E2 as ->. exists qty, price.
    split; [|done]. change (":" +:+ ?x) with (String ":" x). by rw -str_app_assoc.
  - intros (qty & price & -> & Hq & Hp & Hb & Eq & Ep).
    change (desc +:+ ":" +:+ qty +:+ ":" +:+ price) with (desc +:+ String ":" (qty +:+ String ":" price)).
    assert (desc +:+ String ":" (qty +:+ String ":" price) = (desc +:+ String ":" qty) +:+ String ":" price) as ->
      by (by rw -str_app_assoc).
    rw rsplit_once_app; [done|]. cbn. rw rsplit_once_app; [done|]. cbn.
    unfold parse_decimal. rw Ep Eq. cbn. by rw Hb.
Qed.
End lines.

(** ** Accepted arguments and the list's column *)

Section arguments.
Context {P : Platform}.
Implicit Types (m : ArgMatches).

(** What clap requires is there: the handlers' own checks never fire. *)
Lemma accepts_required args m a msg :
  accepts args m = true → a ∈ args → arg_kind a = KText → arg_required a = true →
  ∃ s, get_one m (arg_id a) = Some s ∧ required m (arg_id a) msg = Ok s.
Proof.
  intros H Hin Hk Hr. unfold accepts in H. rewrite -> forallb_forall in H.
  apply list_elem_of_In in Hin. specialize (H a Hin). unfold arg_fits in H. rewrite -> Hk, Hr in H.
  unfold required, get_one, get_many.
  destruct (am_args m !! arg_id a) as [[l|z|b]|]; try discriminate H.
  destruct l as [|s [|]]; try discriminate H. by exists s.
Qed.
Lemma parse_line_other raw : parse_line raw ≠ Err (Anyhow "at least one --line is required").
Proof.
  unfold parse_line, parse_decimal.
  destruct (mbind _ (rsplit_once ":" raw)) as [[[d q] p]|]; [|intros [= H]; discriminate H].
  destruct (dec_from_str p); [|done]. destruct (dec_from_str q); [|done]. cbn.
  destruct (is_blank d); [intros [= H]; discriminate H|done].
Qed.
Lemma accepts_lines args m a :
  accepts args m = true → a ∈ args → arg_kind a = KRepeated → arg_required a = true → arg_id a = "line" →
  line_specs m ≠ Err (Anyhow "at least one --line is required").
Proof.
  intros H Hin Hk Hr Hid. unfold accepts in H. rewrite -> forallb_forall in H.
  apply list_elem_of_In in Hin. specialize (H a Hin). unfold arg_fits in H. rewrite -> Hk, Hr, Hid in H.
  unfold line_specs, get_many. destruct (am_args m !! "line") as [[l|z|b]|]; try discriminate H.
  destruct l as [|s l]; [discriminate H|].
  destruct (res_mapM parse_line (s :: l)) as [ys|e|] eqn:El; cbn [mbind res_bind]; [..|done].
  - apply res_mapM_length in El. by destruct ys.
  - intros [= ->]. clear H. revert El. generalize (s :: l) as k. clear s l. induction k as [|t k IH]; cbn [res_mapM]; [done|].
    destruct (parse_line t) as [y|e|] eqn:Ey; cbn [mbind res_bind]; [|intros [= ->]; by destruct (parse_line_other t)|done].
    destruct (res_mapM parse_line k); cbn [mbind res_bind]; done.
Qed.

Lemma obj_get_insert k v ms : obj_get k (JObj (obj_insert k v ms)) = Some v.
Proof.
  cbn. induction ms as [|[k' v'] ms IH]; cbn; [by rw String.eqb_refl|].
  destruct (String.eqb k' k) eqn:E; cbn; [by rw String.eqb_refl|]. by rw E.
Qed.
Lemma obj_get_insert_ne k k' v ms : k' ≠ k → obj_get k (JObj (obj_insert k' v ms)) = obj_get k (JObj ms).
Proof.
  intros Hne. cbn. apply String.eqb_neq in Hne.
  induction ms as [|[k2 v2] ms IH]; cbn; [by rw Hne|].
  destruct (String.eqb_spec k2 k') as [->|]; cbn; [by rw !Hne|].
  destruct (String.eqb k2 k); [done|]. exact IH.
Qed.

(** The list's rows keep their fields and get a column: the end of the schedule's
    id, or a dash. *)
Lemma decorated_row ms k :
  obj_get "schedule" (decorate_row (JObj ms)) =
    Some (JStr match obj_get "schedule_id" (JObj ms) with
               | Some (JStr s) => schedule_id_suffix s | _ => NULL_GLYPH end) ∧
  (k ≠ "schedule" → obj_get k (decorate_row (JObj ms)) = obj_get k (JObj ms)).
Proof.
  split; [apply obj_get_insert|]. intros Hk. apply obj_get_insert_ne. done.
Qed.

Lemma chars_concat s : foldr String.append "" (chars s) = s.
Proof.
  induction s as [|c s IH]; [done|]. cbn [chars]. destruct (chars s) as [|[|d t] l]; cbn in IH |- *.
  - by rw -IH.
  - by rw -IH.
  - destruct (byte_in 128 191 d); cbn; by rw -IH.
Qed.
(** The column ends the id and has at most eight characters. *)
Lemma suffix_ends id : ∃ s, id = s +:+ schedule_id_suffix id.
Proof.
  unfold schedule_id_suffix. destruct (_ <=? _)%nat; [by exists ""|].
  set (n := (length (chars id) - 8)%nat). exists (foldr String.append "" (take n (chars id))).
  rewrite <- (chars_concat id) at 1. rewrite <- (take_drop n (chars id)) at 1.
  induction (take n (chars id)) as [|x l IH]; [done|]. cbn. rw IH. apply str_app_assoc.
Qed.
End arguments.

(** ** Witness *)

#[local] Existing Instance Concrete.platform.
#[local] Existing Instance Concrete.platform_laws.
#[local] Existing Instance ConcreteJson.serde.
#[local] Existing Instance ConcreteCrypto.crypto.
#[local] Existing Instance concrete_tera.
Definition concrete_kit : Kit := λ _ v _, inr (json_to_string v).
#[local] Existing Instance concrete_kit.

(** [inv invoice void <id> --reason duplicate] *)
Definition fx_void_line : ArgMatches :=
  Sub ∅ "invoice" (Sub ∅ "void" (Leaf
    {[ "id" := ATexts [id_to_string fx_invoice_id]; "reason" := ATexts ["duplicate"] ]})).
Lemma fx_void_line_accepted :
  match subcommand fx_void_line with
  | Some (_, m) => match subcommand m with Some (_, args) => accepts (invoice_cmd "void") args | None => false end
  | None => false
  end = true.
Proof. reflexivity. Qed.

Lemma invocations_are_commands_witness :
  let w := fx_world Sent in
  world_ok (crash_run fx_env 5 (cli_dispatch (Some "ana") fx_ctx fx_void_line) w) ∧
  evolves (w_db w) (w_db (crash_run fx_env 5 (cli_dispatch (Some "ana") fx_ctx fx_void_line) w)).
Proof. apply (invocations_are_commands (Some "ana") fx_ctx fx_void_line fx_env (fx_world Sent)). apply fx_world_ok. Defined.
