(* ===== verification/Http.v ===== *)
(** * HTTP requests ([api/src/lib.rs], [middleware.rs], the bodies and queries of [handlers/])

    From a request as it comes in to the answer: the router's table of paths and
    methods, the extractors of each handler, the bearer check around the [/v1]
    routes, the body limit and the CORS layer.  [Api] has the handlers, behind
    the requests that are well formed. *)

From S2P Require Import Prelude External Concrete Money Ids Domain InvoiceFsm CreditNoteFsm Events Cadence.
From S2P Require Import Tax Store Codec ConcreteJson Wire Render Command Effects Transition Invariant Evolution World.
From S2P Require Import Fixtures Draft Issue Pay Void Send Credit Overdue Reminders Schedules SignedLink Outbox View.
From S2P Require Import Ops Cli System Adapter Api.

Record HttpRequest := MkHttpRequest {
  hr_method : string;
  hr_path : string;
  hr_query : string;
  hr_content_type : option string;
  hr_authorization : option string;
  hr_body : string;
}.

(** What [axum] and the crates under it make of the parts of a request: a path
    parameter without its percent escapes, the pairs of a query, whether a
    content type is JSON. *)
Class Axum := {
  path_decode : string → option string;
  query_pairs : string → list (string * string);
  json_content_type : string → bool;
}.

(** The answers that come from the framework. *)
Inductive Rejection := NotMatched | WrongMethod | BadPath | BadQuery | NotJson | TooLarge | BadBody.
(** 404, 405, .. ; a body of the wrong shape is 422, one that is no JSON 400. *)
Definition rejection_codes (r : Rejection) : list Z :=
  match r with
  | NotMatched => [404] | WrongMethod => [405] | BadPath | BadQuery => [400]
  | NotJson => [415] | TooLarge => [413] | BadBody => [400; 422]
  end.
Inductive Reply := Served (status : Z) (body : Body) | Refused (r : Rejection).

(** [DEFAULT_BODY_LIMIT_BYTES] *)
Definition DEFAULT_BODY_LIMIT_BYTES : Z := 1024 * 1024.

Section http.
Context {P : Platform} {S : Serde} {T : Tera} {C : Crypto} {A : Axum}.

(** ** Bodies and queries ([handlers/*.rs]) *)

(** [LineBody] and [TemplateLineBody] have the same fields. *)
Definition LineBody_de (v : json) : SR LineBody :=
  ms ← struct_fields ["description"; "quantity"; "unit_price"; "tax_category"] v;
  description ← str_field "description" ms;
  quantity ← Codec.required Decimal_from_json "quantity" ms;
  unit_price ← Codec.required Decimal_from_json "unit_price" ms;
  tax_category ← defaulted TaxCategory_from_json Standard "tax_category" ms;
  Ok (MkLineBody description quantity unit_price tax_category).
Definition DraftBody_de (v : json) : SR DraftBody :=
  ms ← struct_fields ["customer_id"; "seller_jurisdiction"; "currency"; "lines"; "idempotency_key";
                      "due_at"; "template_path"] v;
  customer_id ← str_field "customer_id" ms;
  seller_jurisdiction ← str_field "seller_jurisdiction" ms;
  currency ← str_field "currency" ms;
  lines ← Codec.required (list_de LineBody_de) "lines" ms;
  idempotency_key ← opt_field "idempotency_key" ms;
  due_at ← optional DateTime_from_json "due_at" ms;
  template_path ← opt_field "template_path" ms;
  Ok (MkDraftBody customer_id seller_jurisdiction currency lines idempotency_key due_at template_path).
Definition SendBody_de (v : json) : SR SendBody :=
  ms ← struct_fields ["destination_uri"; "idempotency_key"] v;
  destination_uri ← str_field "destination_uri" ms;
  idempotency_key ← opt_field "idempotency_key" ms;
  Ok (MkSendBody destination_uri idempotency_key).
Definition PayBody_de (v : json) : SR PayBody :=
  ms ← struct_fields ["amount"; "received_at"; "bus_event_id"; "idempotency_key"] v;
  amount ← Codec.required Decimal_from_json "amount" ms;
  received_at ← optional DateTime_from_json "received_at" ms;
  bus_event_id ← opt_field "bus_event_id" ms;
  idempotency_key ← opt_field "idempotency_key" ms;
  Ok (MkPayBody amount received_at bus_event_id idempotency_key).
Definition DraftCreditBody_de (v : json) : SR DraftCreditBody :=
  ms ← struct_fields ["amount"; "reason"; "refund_ref"; "idempotency_key"] v;
  amount ← Codec.required Decimal_from_json "amount" ms;
  reason ← opt_field "reason" ms;
  refund_ref ← opt_field "refund_ref" ms;
  idempotency_key ← opt_field "idempotency_key" ms;
  Ok (MkDraftCreditBody amount reason refund_ref idempotency_key).
Definition ScheduleBody_de (v : json) : SR ScheduleBody :=
  ms ← struct_fields ["customer_id"; "template_lines"; "currency"; "cadence"; "start_date"; "end_date";
                      "auto_issue"] v;
  customer_id ← str_field "customer_id" ms;
  template_lines ← Codec.required (list_de LineBody_de) "template_lines" ms;
  currency ← str_field "currency" ms;
  cadence ← str_field "cadence" ms;
  start_date ← Codec.required NaiveDate_from_json "start_date" ms;
  end_date ← optional NaiveDate_from_json "end_date" ms;
  auto_issue ← defaulted bool_de false "auto_issue" ms;
  Ok (MkScheduleBody customer_id template_lines currency cadence start_date end_date auto_issue).
Definition ReminderBody_de (v : json) : SR (DateTime * ReminderChannel) :=
  ms ← struct_fields ["scheduled_at"; "channel"] v;
  scheduled_at ← Codec.required DateTime_from_json "scheduled_at" ms;
  channel ← Codec.required ReminderChannel_from_json "channel" ms;
  Ok (scheduled_at, channel).
(** A [BTreeMap] of strings. *)
Definition Metadata_de (v : json) : SR Metadata :=
  match v with
  | JObj ms => btree_of <$> res_mapM (λ kv, s ← json_str kv.2; Ok (kv.1, s)) ms
  | _ => Err Json
  end.
Definition CustomerBody_de (v : json) : SR CustomerBody :=
  ms ← struct_fields ["display_name"; "email"; "address"; "metadata"] v;
  display_name ← str_field "display_name" ms;
  email ← opt_field "email" ms;
  address ← Codec.required Address_from_json "address" ms;
  metadata ← defaulted Metadata_de ∅ "metadata" ms;
  Ok (MkCustomerBody display_name email address metadata).

(** A query parameter, which must not be repeated, and an [i64]. *)
Definition query_text (k : string) (q : list (string * string)) : SR (option string) :=
  match List.filter (λ kv, String.eqb kv.1 k) q with
  | [] => Ok None
  | [kv] => Ok (Some kv.2)
  | _ => Err Json
  end.
Definition query_i64 (k : string) (q : list (string * string)) : SR (option Z) :=
  s ← query_text k q;
  match s with None => Ok None | Some s => Some <$> ok_or Json (parse_i64 s) end.
(** [owner]: the parameter that names the customer or the invoice. *)
Definition ListQuery_de (owner : string) (q : list (string * string)) : SR ListQuery :=
  o ← query_text owner q;
  state ← query_text "state" q;
  limit ← query_i64 "limit" q;
  offset ← query_i64 "offset" q;
  Ok (MkListQuery o state limit offset).
Definition CustomerQuery_de (q : list (string * string)) : SR (option Z * option Z) :=
  limit ← query_i64 "limit" q;
  offset ← query_i64 "offset" q;
  Ok (limit, offset).

(** ** Extractors

    [Path], [Query], [Bytes] and [Json] refuse a request as axum documents them to. *)

Definition param (seg : string) : res Rejection string := ok_or BadPath (path_decode seg).
Definition query {B} (rq : HttpRequest) (de : list (string * string) → SR B) : res Rejection B :=
  map_err (λ _, BadQuery) (de (query_pairs (hr_query rq))).
(** [Bytes], under the limit. *)
Definition bytes_body (rq : HttpRequest) : res Rejection string :=
  if Z.of_nat (String.length (hr_body rq)) <=? DEFAULT_BODY_LIMIT_BYTES then Ok (hr_body rq) else Err TooLarge.
(** [Json<B>]: the content type, the bytes, the document. *)
Definition json_body {B} (rq : HttpRequest) (de : json → SR B) : res Rejection B :=
  _ ← ensure (match hr_content_type rq with Some t => json_content_type t | None => false end) NotJson;
  bytes ← bytes_body rq;
  v ← ok_or BadBody (json_from_str bytes);
  map_err (λ _, BadBody) (de v).

(** ** The routes ([router]) *)

(** The methods of a path, each with what its extractors make of the request. *)
Definition Methods : Type := list (string * res Rejection Route).

Definition invoice_verb (rq : HttpRequest) (id verb : string) : option Methods :=
  if String.eqb verb "issue" then
    Some [("POST", id ← param id; bytes ← bytes_body rq; Ok (RInvoiceIssue id bytes))]
  else if String.eqb verb "send" then
    Some [("POST", id ← param id; body ← json_body rq SendBody_de; Ok (RInvoiceSend id body))]
  else if String.eqb verb "pay" then
    Some [("POST", id ← param id; body ← json_body rq PayBody_de; Ok (RInvoicePay id body))]
  else if String.eqb verb "void" then
    Some [("POST", id ← param id; bytes ← bytes_body rq; Ok (RInvoiceVoid id bytes))]
  else if String.eqb verb "credit-notes" then
    Some [("POST", id ← param id; body ← json_body rq DraftCreditBody_de; Ok (RCreditDraft id body))]
  else if String.eqb verb "reminders" then
    Some [("POST", id ← param id; body ← json_body rq ReminderBody_de;
                   Ok (RReminderSchedule id body.1 body.2))]
  else None.

Definition v1_collection (rq : HttpRequest) (noun : string) : option Methods :=
  if String.eqb noun "invoices" then
    Some [("POST", RInvoiceDraft <$> json_body rq DraftBody_de);
          ("GET", RInvoiceList <$> query rq (ListQuery_de "customer"))]
  else if String.eqb noun "credit-notes" then
    Some [("GET", RCreditList <$> query rq (ListQuery_de "invoice_id"))]
  else if String.eqb noun "schedules" then
    Some [("POST", RScheduleCreate <$> json_body rq ScheduleBody_de);
          ("GET", RScheduleList <$> query rq (ListQuery_de "customer_id"))]
  else if String.eqb noun "reminders" then
    Some [("GET", RReminderList <$> query rq (query_text "invoice_id"))]
  else if String.eqb noun "customers" then
    Some [("POST", RCustomerCreate <$> json_body rq CustomerBody_de);
          ("GET", (λ q, RCustomerList q.1 q.2) <$> query rq CustomerQuery_de)]
  else None.
Definition v1_item (noun id : string) : option Methods :=
  if String.eqb noun "tick" then
    if String.eqb id "schedules" then Some [("POST", Ok RTickSchedules)]
    else if String.eqb id "reminders" then Some [("POST", Ok RTickReminders)]
    else if String.eqb id "overdue" then Some [("POST", Ok RTickOverdue)]
    else None
  else if String.eqb noun "tax" then
    if String.eqb id "rates" then Some [("GET", Ok RTaxRates)] else None
  else if String.eqb id "" then None
  else if String.eqb noun "invoices" then Some [("GET", RInvoiceGet <$> param id)]
  else if String.eqb noun "credit-notes" then Some [("GET", RCreditGet <$> param id)]
  else if String.eqb noun "schedules" then Some [("GET", RScheduleGet <$> param id)]
  else if String.eqb noun "customers" then Some [("GET", RCustomerGet <$> param id)]
  else None.
Definition v1_verb (rq : HttpRequest) (noun id verb : string) : option Methods :=
  if String.eqb id "" then None
  else if String.eqb noun "invoices" then invoice_verb rq id verb
  else if String.eqb noun "credit-notes" then
    if String.eqb verb "issue" then Some [("POST", RCreditIssue <$> param id)] else None
  else if String.eqb noun "schedules" then
    if String.eqb verb "pause" then Some [("POST", RSchedulePause <$> param id)]
    else if String.eqb verb "cancel" then Some [("POST", RScheduleCancel <$> param id)]
    else None
  else if String.eqb noun "reminders" then
    if String.eqb verb "cancel" then Some [("POST", RReminderCancel <$> param id)] else None
  else None.
(** The table of the [/v1] subtree, by the segments below it. *)
Definition v1 (rq : HttpRequest) (segs : list string) : option Methods :=
  match segs with
  | [noun] => v1_collection rq noun
  | [noun; id] => v1_item noun id
  | [noun; id; verb] => v1_verb rq noun id verb
  | _ => None
  end.
Definition public_routes (segs : list string) : option Methods :=
  match segs with
  | [a] => if String.eqb a "healthz" then Some [("GET", Ok RHealthz)] else None
  | [a; token] =>
      if String.eqb a "v" && negb (String.eqb token "") then Some [("GET", RView <$> param token)] else None
  | _ => None
  end.

(** [HEAD] is answered by the handler of [GET]. *)
Definition allows (method : string) (h : string * res Rejection Route) : bool :=
  String.eqb method h.1 || String.eqb method "HEAD" && String.eqb h.1 "GET".
Definition pick (method : string) (hs : Methods) : res Rejection Route :=
  match List.find (allows method) hs with Some h => h.2 | None => Err WrongMethod end.

(** A matched request: whether it is outside [/v1], and what is handled. *)
Definition matched (rq : HttpRequest) : option (bool * res Rejection Route) :=
  match split_on "/" (hr_path rq) with
  | "" :: segs =>
      match public_routes segs with
      | Some hs => Some (true, pick (hr_method rq) hs)
      | None =>
          match segs with
          | top :: segs =>
              if String.eqb top "v1" then (λ hs, (false, pick (hr_method rq) hs)) <$> v1 rq segs else None
          | [] => None
          end
      end
  | _ => None
  end.

(** [router], under [middleware::apply]: the CORS layer answers [OPTIONS]; the
    bearer check is in front of every method of a [/v1] path. *)
Definition next (st : ApiState) (now_unix : Z) (r : res Rejection Route) : prog (res ApiError Reply) :=
  match r with
  | Ok r => a ←? handle st now_unix r; Ret (Ok (Served a.1 a.2))
  | Err e => Ret (Ok (Refused e))
  | Panic => Crash
  end.
Definition router (st : ApiState) (now_unix : Z) (rq : HttpRequest) : prog (res ApiError Reply) :=
  if String.eqb (hr_method rq) "OPTIONS" then Ret (Ok (Served 200 (BText EmptyString)))
  else match matched rq with
  | None => Ret (Ok (Refused NotMatched))
  | Some (public, r) =>
      if public then next st now_unix r
      else require_bearer st (hr_authorization rq) (next st now_unix r)
  end.
End http.

(** ** Matched requests *)

Section requests.
Context {P : Platform} {S : Serde} {T : Tera} {C : Crypto} {A : Axum}.
Implicit Types (rq : HttpRequest) (st : ApiState).

Lemma calm_line_body v : calm (LineBody_de v).
Proof. unfold LineBody_de, defaulted. solve_calm. Qed.
Hint Resolve calm_line_body calm_list_de calm_bool_de calm_date : calm.
Lemma calm_address v : calm (Address_from_json v).
Proof. unfold Address_from_json. solve_calm. Qed.
Lemma calm_metadata v : calm (Metadata_de v).
Proof. unfold Metadata_de. solve_calm. Qed.
Hint Resolve calm_address calm_metadata calm_reminder_channel : calm.
Lemma calm_json_body {B} rq (de : json → SR B) : (∀ v, calm (de v)) → calm (json_body rq de).
Proof. intros Hd. unfold json_body, bytes_body, ensure. solve_calm. Qed.
Lemma calm_query_text k q : calm (query_text k q).
Proof. unfold query_text. destruct (List.filter _ _) as [|? []]; done. Qed.
Hint Resolve calm_query_text : calm.
Lemma calm_query_i64 k q : calm (query_i64 k q).
Proof. unfold query_i64. solve_calm. Qed.
Hint Resolve calm_query_i64 : calm.
Lemma calm_bodies v :
  calm (DraftBody_de v) ∧ calm (SendBody_de v) ∧ calm (PayBody_de v) ∧ calm (DraftCreditBody_de v) ∧
  calm (ScheduleBody_de v) ∧ calm (ReminderBody_de v) ∧ calm (CustomerBody_de v).
Proof.
  unfold DraftBody_de, SendBody_de, PayBody_de, DraftCreditBody_de, ScheduleBody_de, ReminderBody_de,
    CustomerBody_de, defaulted. repeat split; solve_calm.
Qed.

(** What a matched request asks for is public exactly when its route is, and its
    extractors answer. *)
Definition sound_methods (public : bool) (hs : Methods) : Prop :=
  Forall (λ h, calm h.2 ∧ ∀ r, h.2 = Ok r → is_public r = public) hs.
Ltac calm_extractor :=
  cbn [snd]; unfold param, query, bytes_body; repeat first
    [ solve [auto with calm] | apply calm_json_body; intros v; apply (calm_bodies v)
    | apply calm_fmap | apply calm_bind; [|intros ?] | apply calm_map_err
    | match goal with |- calm (if ?b then _ else _) => destruct b end | done
    | unfold ListQuery_de, CustomerQuery_de; solve_calm ].
Ltac sound_route :=
  repeat (apply List.Forall_cons; [split; [solve [calm_extractor]|cbn [snd]; intros r Hr; inv_res; done]|]);
  apply List.Forall_nil.
Lemma public_routes_sound segs hs : public_routes segs = Some hs → sound_methods true hs.
Proof.
  unfold public_routes. destruct segs as [|a [|token []]]; try done.
  - destruct (String.eqb a "healthz"); intros [= <-]. sound_route.
  - destruct (String.eqb a "v" && _); intros [= <-]. sound_route.
Qed.
Lemma v1_sound rq segs hs : v1 rq segs = Some hs → sound_methods false hs.
Proof.
  unfold v1, v1_collection, v1_item, v1_verb, invoice_verb. destruct segs as [|noun [|id [|verb []]]]; try done;
  repeat match goal with |- (if ?b then _ else _) = _ → _ => destruct b end; intros [= <-]; sound_route.
Qed.
Lemma pick_sound public method hs :
  sound_methods public hs → calm (pick method hs) ∧ ∀ r, pick method hs = Ok r → is_public r = public.
Proof.
  unfold sound_methods, pick. rw Forall_forall. intros Hs.
  destruct (List.find (allows method) hs) as [h|] eqn:E; [|done].
  apply List.find_some in E as [Hin _]. by apply Hs, list_elem_of_In.
Qed.
Lemma matched_sound rq public r :
  matched rq = Some (public, r) → calm r ∧ ∀ route, r = Ok route → is_public route = public.
Proof.
  unfold matched. destruct (split_on "/" (hr_path rq)) as [|[] segs]; try done.
  destruct (public_routes segs) as [hs|] eqn:Ep.
  - intros [= <- <-]. eapply pick_sound, public_routes_sound, Ep.
  - destruct segs as [|top segs]; [done|]. destruct (String.eqb top "v1"); [|done].
    destruct (v1 rq segs) as [hs|] eqn:Ev; [|done]. intros [= <- <-]. eapply pick_sound, v1_sound, Ev.
Qed.

(** What the router does, case by case. *)
Inductive routed st now rq : prog (res ApiError Reply) → Prop :=
  | routed_preflight : hr_method rq = "OPTIONS" → routed st now rq (Ret (Ok (Served 200 (BText EmptyString))))
  | routed_refused e : routed st now rq (Ret (Ok (Refused e)))
  | routed_unauthorised r :
      matched rq = Some (false, r) → routed st now rq (Ret (Err Unauthorized))
  | routed_served r :
      matched rq = Some (is_public r, Ok r) →
      routed st now rq (a ←? serve st now (hr_authorization rq) r; Ret (Ok (Served a.1 a.2))).
Lemma bearer_through {B D} st header (p : prog (res ApiError B)) (f : B → prog (res ApiError D)) :
  require_bearer st header (try_bind p f) = try_bind (require_bearer st header p) f.
Proof.
  unfold require_bearer. destruct (bearer_tokens _); [done|]. destruct header as [h|]; [|done].
  destruct (match strip_prefix "Bearer " h with Some _ => _ | None => _ end); [|done].
  by destruct (existsb _ _).
Qed.
Lemma router_routed st now rq : routed st now rq (router st now rq).
Proof.
  unfold router. destruct (String.eqb_spec (hr_method rq) "OPTIONS"); [by constructor|].
  destruct (matched rq) as [[public r]|] eqn:Em; [|apply routed_refused].
  destruct (matched_sound _ _ _ Em) as [Hc Hp]. destruct r as [r|e|]; [|destruct public|done].
  - specialize (Hp r eq_refl). subst public. pose proof (routed_served st now rq r Em) as H. revert H.
    unfold serve, next. destruct (is_public r); [done|]. by rw bearer_through.
  - apply routed_refused.
  - cbn [next]. destruct (bearer_cases st (hr_authorization rq) (Ret (Ok (Refused e)))) as [->| ->];
      [apply routed_refused|by eapply routed_unauthorised].
Qed.

(** A path is its segments. *)
Lemma concat_split c s : String.concat (String c EmptyString) (split_on c s) = s.
Proof.
  induction s as [|x s IH]; [done|]. cbn [split_on]. destruct (Ascii.eqb_spec x c) as [->|Hx].
  - cbn [String.concat]. destruct (split_on c s) as [|a l] eqn:E; [by destruct s; cbn in E; repeat case_match|].
    by rw IH.
  - destruct (split_on c s) as [|a l] eqn:E; [by destruct s; cbn in E; repeat case_match|].
    rw -IH. by destruct l.
Qed.
(** The public paths. *)
Lemma matched_public rq r :
  matched rq = Some (true, r) →
  (∃ e, r = Err e) ∨
  ((hr_method rq = "GET" ∨ hr_method rq = "HEAD") ∧
   ((hr_path rq = "/healthz" ∧ r = Ok RHealthz) ∨
    ∃ seg token, hr_path rq = "/v/" +:+ seg ∧ param seg = Ok token ∧ r = Ok (RView token))).
Proof.
  unfold matched. rw -{2 3}(concat_split "/" (hr_path rq)).
  destruct (split_on "/" (hr_path rq)) as [|[] segs]; try done.
  assert (∀ h hs, pick (hr_method rq) [("GET", h)] = hs →
    (∃ e, hs = Err e) ∨ ((hr_method rq = "GET" ∨ hr_method rq = "HEAD") ∧ hs = h)) as Hget.
  { intros h hs <-. unfold pick, allows. cbn.
    destruct (String.eqb_spec (hr_method rq) "GET"); [by right; split; [left|]|].
    destruct (String.eqb_spec (hr_method rq) "HEAD"); [by right; split; [right|]|left; by eexists]. }
  destruct (public_routes segs) as [hs|] eqn:Ep.
  2:{ destruct segs as [|top segs]; [done|]. destruct (String.eqb top "v1"); [|done]. by destruct (v1 rq segs). }
  intros [= <-]. unfold public_routes in Ep. destruct segs as [|a [|seg []]]; try done.
  - destruct (String.eqb_spec a "healthz") as [->|]; [|done]. injection Ep as <-.
    destruct (Hget (Ok RHealthz) _ eq_refl) as [[e Hr]|[Hm Hr]]; rw Hr; [left; by eexists|right]. split; [done|]. by left.
  - destruct (String.eqb_spec a "v") as [->|]; [|done]. cbn [andb] in Ep.
    destruct (negb (String.eqb seg EmptyString)); [|done]. injection Ep as <-.
    destruct (Hget (RView <$> param seg) _ eq_refl) as [[e Hr]|[Hm Hr]]; rw Hr; [left; by eexists|].
    unfold param. destruct (path_decode seg) as [token|] eqn:Ed; [|left; by eexists].
    right. split; [done|]. right. exists seg, token. by rw Ed.
Qed.

(** The requests that only read. *)
Definition reading rq : bool :=
  String.eqb (hr_method rq) "OPTIONS" ||
  match matched rq with Some (_, Ok r) => Api.reads r | _ => false end.
End requests.

(** ** Theorems *)

Section theorems.
Context {P : Platform} {L : PlatformLaws P} {S : Serde} {T : Tera} {C : Crypto} {CL : CryptoLaws C} {A : Axum}.
Implicit Types (E : Env) (w : World) (rq : HttpRequest) (st : ApiState).

(** C25: an HTTP request is one command or nothing: whatever its method, path,
    headers and body, either it leaves the store and the bus as they were, and
    then a request other than the reading ones was refused, by the router, an
    extractor, the bearer check or the handler; or it does exactly what one
    command of the command layer does, answers a result when the command
    succeeds, the command's own error when it fails, and reports 400 or 502 after
    a successful command only for a webhook whose delivery failed.  And whatever
    happened, even if the server was killed on the way, the books stay consistent
    and what was issued stays frozen. *)
Theorem http_requests_are_commands st now rq E w :
  (let '(w', out) := run E (router st now rq) w in
   (same_world w w' ∧ (reading rq = false → ∀ s b, out ≠ Ok (Ok (Served s b)))) ∨
   ∃ c w0, same_world w w0 ∧ same_world (run E (perform (st_ctx st) c) w0).1 w' ∧
     match (run E (perform (st_ctx st) c) w0).2, out with
     | Ok _, Ok (Ok (Served _ _)) | Panic, Panic => True
     | Ok _, Ok (Err e) => ∃ input, c = SendInvoiceRender input ∧ (status e = 400 ∨ status e = 502)
     | Err e, Ok (Err e') => e' = Core e
     | _, _ => False
     end) ∧
  (world_ok w → ∀ n, world_ok (crash_run E n (router st now rq) w) ∧
     evolves (w_db w) (w_db (crash_run E n (router st now rq) w))).
Proof.
  destruct (router_routed st now rq) as [Hm|e|r Hr|r Hr].
  1-3: split; [left; split; [done|]|intros Hw n; by destruct n; destruct (ok_since_refl w Hw)].
  - unfold reading. by rw Hm.
  - done.
  - done.
  - destruct (requests_are_commands st now (hr_authorization rq) r E w) as [H _]. split.
    + rw run_try_bind. destruct (run E (serve st now (hr_authorization rq) r) w) as [w' out] eqn:Er. rw Er.
      destruct H as [[Hw Ho]|(c & w0 & H0 & H1 & H)].
      * destruct out as [[[s b]|e|]|e|]; cbn; left; split; try done. intros Hread s' b'.
        unfold reading in Hread. rw Hr in Hread. apply orb_false_iff in Hread as [_ Hread]. intros _. by destruct (Ho Hread (s, b) eq_refl).
      * destruct out as [[[s b]|e|]|e|]; cbn; right; exists c, w0; split; [done|split; [done|]|done|split; [done|]|..];
          try done; by destruct (run E (perform (st_ctx st) c) w0).2.
    + intros Hw n. apply ok_since_refl in Hw.
      assert (safe (ok_since (w_db w)) E (a ←? serve st now (hr_authorization rq) r; Ret (Ok (Served a.1 a.2))) w) as Hs.
      { apply safe_try_bind; [|done]. destruct (serve_cases st now (hr_authorization rq) r) as [->| ->]; [by apply handle_since|done]. }
      by destruct (safe_crash_run _ E n _ w Hs); split.
Qed.

(** C28: who may call: once bearer tokens are configured, a request with a
    configured token in its [Authorization] header reaches what its path and
    method name; and without one nothing can be reached but the health check and
    the shared links, by [GET] or [HEAD] : any other request is answered 401,
    before a handler reads or writes anything, or refused by the framework, or
    is a CORS preflight. *)
Theorem bearer_guards_api st now rq :
  bearer_tokens (st_config st) ≠ [] →
  (authorised st (hr_authorization rq) ∧
   ∀ public r, hr_method rq ≠ "OPTIONS" → matched rq = Some (public, r) → router st now rq = next st now r) ∨
  (¬ authorised st (hr_authorization rq) ∧
   (router st now rq = Ret (Err Unauthorized) ∨ (∃ e, router st now rq = Ret (Ok (Refused e))) ∨
    (hr_method rq = "OPTIONS" ∧ router st now rq = Ret (Ok (Served 200 (BText EmptyString)))) ∨
    ((hr_method rq = "GET" ∨ hr_method rq = "HEAD") ∧
     ((hr_path rq = "/healthz" ∧ router st now rq = next st now (Ok RHealthz)) ∨
      ∃ seg token, hr_path rq = "/v/" +:+ seg ∧ param seg = Ok token ∧
        router st now rq = next st now (Ok (RView token)))))).
Proof.
  intros Ht.
  assert (∀ B (p : prog (res ApiError B)), _) as Hb by exact (λ B p, bearer_decides st (hr_authorization rq) p Ht).
  destruct (Hb _ (Ret (Ok tt))) as [[Ha _]|[Ha _]]; [left|right]; (split; [done|]).
  - intros public r Hm Er. unfold router. apply String.eqb_neq in Hm. rw Hm Er.
    destruct public; [done|]. by destruct (Hb _ (next st now r)) as [[_ ->]|[]].
  - unfold router. destruct (String.eqb_spec (hr_method rq) "OPTIONS") as [Hm|_]; [by right; right; left|].
    destruct (matched rq) as [[public r]|] eqn:Em; [|by right; left; eexists].
    destruct public; [|left; by destruct (Hb _ (next st now r)) as [[]|[_ ->]]].
    destruct (matched_public _ _ Em) as [[e ->]|[Hg H]]; [by right; left; eexists|]. right; right; right. split; [done|].
    destruct H as [[Hp ->]|(seg & token & Hp & Hs & ->)]; [by left|right; by exists seg, token].
Qed.
End theorems.

(** ** Witnesses *)

#[local] Existing Instance Concrete.platform.
#[local] Existing Instance Concrete.platform_laws.
#[local] Existing Instance ConcreteJson.serde.
#[local] Existing Instance ConcreteCrypto.crypto.
#[local] Existing Instance ConcreteCrypto.crypto_laws.
#[local] Existing Instance concrete_tera.
#[local] Instance fx_axum : Axum := {|
  path_decode seg := Some seg;
  query_pairs _ := [];
  json_content_type t := String.eqb t "application/json";
|}.

Definition fx_state : ApiState :=
  MkApiState fx_ctx (MkApiConfig ["secret"] "link-key" 600 "http://localhost:7400/" "hook-key")
    (λ _ _ _ _ _, Replied 204 "No Content").
(** [POST /v1/invoices/<id>/pay] of the amount, as JSON. *)
Definition fx_pay_request (auth : option string) : HttpRequest := {|
  hr_method := "POST";
  hr_path := "/v1/invoices/" +:+ id_to_string fx_invoice_id +:+ "/pay";
  hr_query := EmptyString;
  hr_content_type := Some "application/json";
  hr_authorization := auth;
  hr_body := json_to_string (JObj [("amount", JStr "50.00")]);
|}.
Definition fx_get (path : string) (auth : option string) : HttpRequest :=
  MkHttpRequest "GET" path EmptyString None auth EmptyString.

Lemma fx_pay_request_pays :
  let '(w', out) := run fx_env (router fx_state 1000 (fx_pay_request (Some "Bearer secret"))) (fx_world Sent) in
  (match out with Ok (Ok (Served 200 _)) => true | _ => false end,
   bool_decide (inv_state <$> invoice_get fx_invoice_id (w_db w') = Some PartiallyPaid)) = (true, true).
Proof. vm_compute. reflexivity. Qed.
Example fx_rejections :
  (λ rq, match (run fx_env (router fx_state 1000 rq) (fx_world Sent)).2 with
         | Ok (Ok (Refused e)) => rejection_codes e | Ok (Err e) => [status e] | _ => []
         end)
  <$> [fx_get "/v1/invoices/" (Some "Bearer secret"); fx_get "/v1/tick/overdue" (Some "Bearer secret");
       fx_get "/v1/tick/overdue" None; fx_get "/v1/invoices/x" (Some "Bearer secret");
       MkHttpRequest "POST" "/v1/customers" EmptyString None (Some "Bearer secret") EmptyString]
  = [[404]; [405]; [401]; [400]; [415]].
Proof. vm_compute. reflexivity. Qed.

Lemma http_requests_are_commands_witness :
  let w := fx_world Sent in let rq := fx_pay_request (Some "Bearer secret") in
  world_ok (crash_run fx_env 5 (router fx_state 1000 rq) w) ∧
  evolves (w_db w) (w_db (crash_run fx_env 5 (router fx_state 1000 rq) w)).
Proof.
  apply (http_requests_are_commands fx_state 1000 (fx_pay_request (Some "Bearer secret")) fx_env (fx_world Sent)).
  apply fx_world_ok.
Defined.
(** The token may stand between blanks; the scheme is [Bearer] or [bearer] only. *)
Lemma bearer_guards_api_witness :
  router fx_state 1000 (fx_get "/v1/tax/rates" (Some "bearer  secret ")) = next fx_state 1000 (Ok RTaxRates) ∧
  router fx_state 1000 (fx_pay_request (Some "BEARER secret")) = Ret (Err Unauthorized).
Proof.
  split.
  - destruct (bearer_guards_api fx_state 1000 (fx_get "/v1/tax/rates" (Some "bearer  secret "))) as [[_ H]|[H _]];
      [discriminate|by apply (H false)|].
    exfalso. apply H. exists " secret ". split; [by right|]. vm_compute. apply list_elem_of_here.
  - destruct (bearer_guards_api fx_state 1000 (fx_pay_request (Some "BEARER secret")))
      as [[(t & [H|H] & _) _]|[_ [H|[[e H]|[[H _]|[[H|H] _]]]]]]; try discriminate; exact H.
Defined.
