(* ===== verification/Parity.v ===== *)
(** * One request over three adapters

    The HTTP handlers, the WebSocket operations and the MCP tools each have their
    own structs, decoders and parsers for what is the same request.  [Shared]
    lists the commands all three offer; for each the same JSON document gives the
    same command, up to who sent it and over which channel. *)

From S2P Require Import Prelude External Concrete Money Ids Domain InvoiceFsm CreditNoteFsm Events Cadence.
From S2P Require Import Tax Store Codec ConcreteJson Wire Render Command Effects Transition Invariant Evolution World.
From S2P Require Import Fixtures Draft Issue Pay Void Send Credit Overdue Reminders Schedules SignedLink Outbox View.
From S2P Require Import Ops System Adapter Api Mcp McpCall Http.

(** ** Who sends a command, and how *)

(** An input that carries its actor and its channel. *)
Class Origin (I : Type) := from : Actor → Channel → I → I.

Section origin.
Context {P : Platform}.
#[export] Instance draft_origin : Origin DraftInvoiceInput := λ a ch i,
  {| di_customer_id := di_customer_id i; di_seller_jurisdiction := di_seller_jurisdiction i;
     di_currency := di_currency i; di_lines := di_lines i; di_idempotency_key := di_idempotency_key i;
     di_actor := a; di_channel := ch; di_due_at := di_due_at i; di_template_path := di_template_path i;
     di_schedule_id := di_schedule_id i |}.
#[export] Instance issue_origin : Origin IssueInvoiceInput := λ a ch i,
  MkIssueInvoiceInput (ii_invoice_id i) (ii_idempotency_key i) a ch.
#[export] Instance pay_origin : Origin MarkPaidInput := λ a ch i,
  MkMarkPaidInput (mp_invoice_id i) (mp_amount i) (mp_received_at i) (mp_idempotency_key i) (mp_bus_event_id i) a ch.
#[export] Instance void_origin : Origin VoidInvoiceInput := λ a ch i,
  MkVoidInvoiceInput (vi_invoice_id i) (vi_reason i) (vi_idempotency_key i) a ch.
#[export] Instance credit_origin : Origin CreateCreditNoteInput := λ a ch i,
  MkCreateCreditNoteInput (cci_invoice_id i) (cci_amount i) (cci_reason i) (cci_refund_ref i)
    (cci_idempotency_key i) a ch.
#[export] Instance issue_credit_origin : Origin IssueCreditNoteInput := λ a ch i,
  MkIssueCreditNoteInput (ici_credit_note_id i) (ici_idempotency_key i) a ch.
#[export] Instance schedule_origin : Origin ScheduleCreateInput := λ a ch i,
  {| sci_customer_id := sci_customer_id i; sci_template_lines := sci_template_lines i;
     sci_currency := sci_currency i; sci_cadence := sci_cadence i; sci_start_date := sci_start_date i;
     sci_end_date := sci_end_date i; sci_auto_issue := sci_auto_issue i; sci_actor := a; sci_channel := ch |}.
#[export] Instance change_origin : Origin ScheduleStateChangeInput := λ a ch i,
  MkScheduleStateChangeInput (ssi_schedule_id i) a ch.
#[export] Instance reminder_origin : Origin ReminderScheduleInput := λ a ch i,
  MkReminderScheduleInput (rsi_invoice_id i) (rsi_scheduled_at i) (rsi_channel_scheme i) a ch.
#[export] Instance reminder_cancel_origin : Origin ReminderCancelInput := λ a ch i,
  MkReminderCancelInput (rci_reminder_id i) a ch.

(** The same command, sent by another actor over another channel. *)
Definition reissue (a : Actor) (ch : Channel) (c : Command) : Command :=
  match c with
  | DraftInvoice i => DraftInvoice (from a ch i)
  | IssueInvoice i => IssueInvoice (from a ch i)
  | MarkPaid i => MarkPaid (from a ch i)
  | VoidInvoice i => VoidInvoice (from a ch i)
  | CreateCreditNote i => CreateCreditNote (from a ch i)
  | IssueCreditNote i => IssueCreditNote (from a ch i)
  | ScheduleCreate i => ScheduleCreate (from a ch i)
  | SchedulePause i => SchedulePause (from a ch i)
  | ScheduleCancel i => ScheduleCancel (from a ch i)
  | ReminderSchedule i => ReminderSchedule (from a ch i)
  | ReminderCancel i => ReminderCancel (from a ch i)
  | c => c
  end.
End origin.

(** ** Requests *)

Section requests.
Context {P : Platform} {S : Serde}.

(** The requests that all three adapters take. *)
Inductive Shared :=
  | ShDraft | ShIssue | ShPay | ShVoid | ShCreditDraft | ShCreditIssue
  | ShScheduleCreate | ShSchedulePause | ShScheduleCancel | ShReminderSchedule | ShReminderCancel.

(** Over HTTP the id of the entity is in the path, and the rest in the body. *)
Definition http_route (s : Shared) (id : string) (body : list (string * json)) : SR Route :=
  match s with
  | ShDraft => RInvoiceDraft <$> DraftBody_de (JObj body)
  | ShIssue => Ok (RInvoiceIssue id (json_to_string (JObj body)))
  | ShPay => RInvoicePay id <$> PayBody_de (JObj body)
  | ShVoid => Ok (RInvoiceVoid id (json_to_string (JObj body)))
  | ShCreditDraft => RCreditDraft id <$> DraftCreditBody_de (JObj body)
  | ShCreditIssue => Ok (RCreditIssue id)
  | ShScheduleCreate => RScheduleCreate <$> ScheduleBody_de (JObj body)
  | ShSchedulePause => Ok (RSchedulePause id)
  | ShScheduleCancel => Ok (RScheduleCancel id)
  | ShReminderSchedule => (λ b, RReminderSchedule id b.1 b.2) <$> ReminderBody_de (JObj body)
  | ShReminderCancel => Ok (RReminderCancel id)
  end.

(** Elsewhere the id is one more member; the channel of a reminder has another
    name. *)
Definition renamed (kv : string * json) : string * json :=
  if String.eqb kv.1 "channel" then ("channel_scheme", kv.2) else kv.
Definition payload (s : Shared) (id : string) (body : list (string * json)) : list (string * json) :=
  match s with
  | ShDraft | ShScheduleCreate => body
  | ShIssue | ShPay | ShVoid | ShCreditDraft => ("invoice_id", JStr id) :: body
  | ShCreditIssue => [("credit_note_id", JStr id)]
  | ShSchedulePause | ShScheduleCancel => [("schedule_id", JStr id)]
  | ShReminderSchedule => ("invoice_id", JStr id) :: (renamed <$> body)
  | ShReminderCancel => [("reminder_id", JStr id)]
  end.
Definition ws_op (s : Shared) : string :=
  match s with
  | ShDraft => "invoice.draft" | ShIssue => "invoice.issue" | ShPay => "invoice.pay" | ShVoid => "invoice.void"
  | ShCreditDraft => "creditnote.draft" | ShCreditIssue => "creditnote.issue"
  | ShScheduleCreate => "schedule.create" | ShSchedulePause => "schedule.pause"
  | ShScheduleCancel => "schedule.cancel" | ShReminderSchedule => "reminder.schedule"
  | ShReminderCancel => "reminder.cancel"
  end.
Definition mcp_tool (s : Shared) : string :=
  match s with
  | ShDraft => "inv_invoice_draft" | ShIssue => "inv_invoice_issue" | ShPay => "inv_invoice_pay"
  | ShVoid => "inv_invoice_void" | ShCreditDraft => "inv_creditnote_draft" | ShCreditIssue => "inv_creditnote_issue"
  | ShScheduleCreate => "inv_schedule_create" | ShSchedulePause => "inv_schedule_pause"
  | ShScheduleCancel => "inv_schedule_cancel" | ShReminderSchedule => "inv_reminder_schedule"
  | ShReminderCancel => "inv_reminder_cancel"
  end.
End requests.

(** ** Members *)

Section fields.
Context {P : Platform} {S : Serde}.
Implicit Types (ms : list (string * json)).

(** A member in front does not matter for the other fields. *)
Lemma field_skip k k0 v ms : String.eqb k0 k = false → field k ((k0, v) :: ms) = field k ms.
Proof. intros Hk. unfold field. cbn [List.filter fst]. by rw Hk. Qed.
Lemma required_skip {A} (f : json → SR A) k k0 v ms :
  String.eqb k0 k = false → required f k ((k0, v) :: ms) = required f k ms.
Proof. intros Hk. unfold required. by rw field_skip. Qed.
Lemma optional_skip {A} (f : json → SR A) k k0 v ms :
  String.eqb k0 k = false → optional f k ((k0, v) :: ms) = optional f k ms.
Proof. intros Hk. unfold optional. by rw field_skip. Qed.
Lemma opt_field_skip k k0 v ms : String.eqb k0 k = false → opt_field k ((k0, v) :: ms) = opt_field k ms.
Proof. apply optional_skip. Qed.

(** A document that is a value has each key once. *)
Definition is_value ms : Prop := value_of (JObj ms) = JObj ms.
Lemma is_value_keys ms : is_value ms → NoDup ms.*1.
Proof.
  unfold is_value. change (value_of (JObj ms)) with (JObj (values_of ms)). intros [= H].
  rewrite <- H. apply values_of_keys.
Qed.
Lemma is_value_first k v ms : is_value ((k, v) :: ms) → member k ms = false.
Proof.
  intros [H _]%is_value_keys%NoDup_cons. cbn in H. destruct (member k ms) eqn:E; [|done].
  by apply member_elem in E.
Qed.
Lemma field_absent k ms : member k ms = false → field k ms = Ok None.
Proof.
  intros H. unfold field. assert (List.filter (λ kv, String.eqb kv.1 k) ms = []) as ->; [|done].
  induction ms as [|kv ms IH]; [done|]. rewrite member_cons in H.
  apply orb_false_elim in H as [Hk H]. cbn [List.filter]. rw Hk. auto.
Qed.
Lemma field_first k v ms : member k ms = false → field k ((k, v) :: ms) = Ok (Some v).
Proof.
  intros H. apply field_absent in H. revert H. unfold field. cbn [List.filter fst].
  rewrite String.eqb_refl. by destruct (List.filter _ ms) as [|? []].
Qed.

Lemma field_elem k v ms : NoDup ms.*1 → (k, v) ∈ ms → field k ms = Ok (Some v).
Proof.
  induction ms as [|[k' v'] ms IH]; [by intros _ ?%elem_of_nil|].
  cbn. intros [Hk Hms]%NoDup_cons [[= -> ->]|Hin]%elem_of_cons.
  - apply field_first. destruct (member k' ms) eqn:E; [|done]. by apply member_elem in E.
  - rewrite -> field_skip; [auto|]. apply String.eqb_neq. intros ->. apply Hk.
    by apply (list_elem_of_fmap_2' fst _ (k, v)).
Qed.
Lemma field_found k ms v : field k ms = Ok (Some v) → (k, v) ∈ ms.
Proof.
  unfold field. destruct (List.filter _ ms) as [|[k' v'] [|]] eqn:E; try done. intros [= <-].
  assert (In (k', v') (List.filter (λ kv, String.eqb kv.1 k) ms)) as [Hin Hk]%filter_In by (rw E; by left).
  cbn in Hk. apply String.eqb_eq in Hk as ->. by apply list_elem_of_In.
Qed.
(** Renaming the channel of a reminder. *)
Lemma field_renamed k ms :
  String.eqb "channel" k = false → String.eqb "channel_scheme" k = false →
  field k (renamed <$> ms) = field k ms.
Proof.
  intros H1 H2. unfold field.
  assert (List.filter (λ kv, String.eqb kv.1 k) (renamed <$> ms) = List.filter (λ kv, String.eqb kv.1 k) ms)
    as ->; [|done].
  induction ms as [|[k' v] ms IH]; [done|].
  change (renamed <$> (k', v) :: ms) with (renamed (k', v) :: (renamed <$> ms)). unfold renamed at 1. cbn [fst snd].
  destruct (String.eqb_spec k' "channel") as [->|Hne]; cbn [List.filter fst]; [rw H1 H2|rw IH]; done.
Qed.
Lemma required_renamed {A} (f : json → SR A) k ms :
  String.eqb "channel" k = false → String.eqb "channel_scheme" k = false →
  required f k (renamed <$> ms) = required f k ms.
Proof. intros H1 H2. unfold required. by rewrite -> field_renamed. Qed.
Lemma required_channel {A} (f : json → SR A) ms x :
  NoDup (renamed <$> ms).*1 → required f "channel" ms = Ok x →
  required f "channel_scheme" (renamed <$> ms) = Ok x.
Proof.
  intros Hn H. unfold required in *. apply res_bind_ok in H as (o & Ho & H). destruct o as [v|]; [|done].
  rewrite -> (field_elem "channel_scheme" v); [exact H|done|].
  apply field_found in Ho. by apply (list_elem_of_fmap_2' renamed _ ("channel", v)).
Qed.

Lemma str_field_ok k ms s : str_field k ms = Ok s → field k ms = Ok (Some (JStr s)).
Proof.
  unfold str_field, required. intros H. inv_res.
  match goal with H : json_str ?v = _ |- _ => destruct v; try discriminate H; injection H as -> end. done.
Qed.
Lemma str_field_first k s ms : member k ms = false → str_field k ((k, JStr s) :: ms) = Ok s.
Proof. intros H. unfold str_field, required. by rewrite (field_first _ _ _ H). Qed.
Lemma required_field {A} (f : json → SR A) k ms v : field k ms = Ok (Some v) → required f k ms = f v.
Proof. intros H. unfold required. by rw H. Qed.
End fields.

(** ** Inputs *)

Section inputs.
Context {P : Platform} {S : Serde}.
Implicit Types (ms : list (string * json)) (v : json).

(** The fields of one decoder are those of the other. *)
Ltac decoded :=
  repeat first [rewrite -> required_skip by reflexivity | rewrite -> optional_skip by reflexivity
               | rewrite -> opt_field_skip by reflexivity];
  repeat match goal with
  | H : ?x = Ok _ |- context [?x] => rewrite -> H; clear H; cbn [mbind res_bind fmap res_fmap map_err]
  end.

(** A list of lines, read by two adapters. *)
Lemma mapM_agree {A B C} (f : json → SR A) (g : json → SR B) (i : A → C) (j : B → C) vs l :
  (∀ v a, f v = Ok a → ∃ b, g v = Ok b ∧ j b = i a) →
  res_mapM f vs = Ok l → ∃ l', res_mapM g vs = Ok l' ∧ j <$> l' = i <$> l.
Proof.
  intros Hfg. revert l. induction vs as [|v vs IH]; intros l Hl.
  - injection Hl as <-. by exists [].
  - cbn in Hl. apply res_bind_ok in Hl as (a & Ha & Hl). apply res_bind_ok in Hl as (k & Hk & [= <-]).
    destruct (Hfg v a Ha) as (b & Hb & Eb). destruct (IH k Hk) as (l' & Hl' & El).
    exists (b :: l'). cbn. rw Hb Hl'. cbn. by rw Eb El.
Qed.
Lemma lines_agree {A B C} (f : json → SR A) (g : json → SR B) (i : A → C) (j : B → C) k ms l :
  (∀ v a, f v = Ok a → ∃ b, g v = Ok b ∧ j b = i a) →
  required (list_de f) k ms = Ok l → ∃ l', required (list_de g) k ms = Ok l' ∧ j <$> l' = i <$> l.
Proof.
  intros Hfg H. unfold required in *. apply res_bind_ok in H as (o & -> & H). cbn.
  apply res_bind_ok in H as (v & -> & H). cbn. unfold list_de in *.
  apply res_bind_ok in H as (vs & -> & H). cbn. by eapply mapM_agree.
Qed.

(** A category that may be absent, and one that has a default. *)
Lemma category_agrees ms c :
  defaulted TaxCategory_from_json Standard "tax_category" ms = Ok c →
  ∃ o, optional TaxCategory_from_json "tax_category" ms = Ok o ∧ default Standard o = c.
Proof.
  unfold defaulted, optional. intros H. apply res_bind_ok in H as (o & -> & H). cbn.
  destruct o as [v|]; [|injection H as <-; by exists None].
  exists (Some c). split; [|done]. destruct v; try done; by rw H.
Qed.

Definition line_input_of_body (l : LineBody) : string * Decimal * Decimal * TaxCategory :=
  (lb_description l, lb_quantity l, lb_unit_price l, lb_tax_category l).
Definition line_input_of_wire (l : DraftLineWire) : string * Decimal * Decimal * TaxCategory :=
  (dlw_description l, dlw_quantity l, dlw_unit_price l, dlw_tax_category l).
Definition line_input_of_mcp (l : McpLine) : string * Decimal * Decimal * TaxCategory :=
  (ml_description l, ml_quantity l, ml_unit_price l, default Standard (ml_tax_category l)).
Lemma line_ws v l :
  LineBody_de v = Ok l → ∃ l', DraftLineWire_de v = Ok l' ∧ line_input_of_wire l' = line_input_of_body l.
Proof.
  unfold LineBody_de, DraftLineWire_de. intros H. inv_res. eexists. split; [by decoded|done].
Qed.
Lemma line_mcp v l :
  LineBody_de v = Ok l → ∃ l', McpLine_de v = Ok l' ∧ line_input_of_mcp l' = line_input_of_body l.
Proof.
  unfold LineBody_de, McpLine_de. intros H. inv_res.
  match goal with H : defaulted _ _ _ _ = Ok _ |- _ => apply category_agrees in H as (o & H & <-) end.
  eexists. split; [by decoded|done].
Qed.

Lemma lines_ws k ms l :
  required (list_de LineBody_de) k ms = Ok l →
  ∃ l', required (list_de DraftLineWire_de) k ms = Ok l' ∧
    ∀ D (mk : string → Decimal → Decimal → TaxCategory → D),
      (λ l, mk (dlw_description l) (dlw_quantity l) (dlw_unit_price l) (dlw_tax_category l)) <$> l' =
      (λ l, mk (lb_description l) (lb_quantity l) (lb_unit_price l) (lb_tax_category l)) <$> l.
Proof.
  intros (l' & Hl & E)%(lines_agree _ _ _ _ _ _ _ line_ws). exists l'. split; [done|]. intros D mk.
  apply (f_equal (fmap (λ t, mk t.1.1.1 t.1.1.2 t.1.2 t.2))) in E. by rewrite <- !list_fmap_compose in E.
Qed.
Lemma lines_mcp k ms l :
  required (list_de LineBody_de) k ms = Ok l →
  ∃ l', required (list_de McpLine_de) k ms = Ok l' ∧
    ∀ D (mk : string → Decimal → Decimal → TaxCategory → D),
      (λ l, mk (ml_description l) (ml_quantity l) (ml_unit_price l) (default Standard (ml_tax_category l))) <$> l' =
      (λ l, mk (lb_description l) (lb_quantity l) (lb_unit_price l) (lb_tax_category l)) <$> l.
Proof.
  intros (l' & Hl & E)%(lines_agree _ _ _ _ _ _ _ line_mcp). exists l'. split; [done|]. intros D mk.
  apply (f_equal (fmap (λ t, mk t.1.1.1 t.1.1.2 t.1.2 t.2))) in E. by rewrite <- !list_fmap_compose in E.
Qed.

(** Each adapter reads texts with parsers of its own; the values are the same. *)
Lemma jurisdiction_field k ms s j :
  str_field k ms = Ok s → Jurisdiction.from_str s = Ok j → required Jurisdiction_from_json k ms = Ok j.
Proof.
  intros H%str_field_ok Hj. rewrite -> (required_field _ _ _ _ H). unfold Jurisdiction_from_json. cbn. by rw Hj.
Qed.
Lemma currency_field k ms s c :
  str_field k ms = Ok s → Currency.new s = Ok c → required Currency_from_json k ms = Ok c.
Proof.
  intros H%str_field_ok Hj. rewrite -> (required_field _ _ _ _ H). unfold Currency_from_json. cbn. by rw Hj.
Qed.
Lemma cadence_field k ms s c :
  str_field k ms = Ok s → Cadence.from_str s = Ok c → required Cadence_from_json k ms = Ok c.
Proof.
  intros H%str_field_ok Hj. rewrite -> (required_field _ _ _ _ H). unfold Cadence_from_json. cbn. by rw Hj.
Qed.

Context (a : Actor) (ch : Channel).

Lemma draft_parity ms b i :
  DraftBody_de (JObj ms) = Ok b → draft_body_input b = Ok i →
  (∃ w, DraftInvoiceWire_de (JObj ms) = Ok w ∧ draft_into_input a ch w = Ok (from a ch i)) ∧
  ∃ m, InvoiceDraftInput_de (JObj ms) = Ok m ∧ mcp_draft_input m = Ok (from mcp_actor mcp_channel i).
Proof.
  unfold DraftBody_de, draft_body_input, api_parse_customer_id, parse_path, api_parse_jurisdiction,
    api_parse_currency. cbn [struct_fields mbind res_bind]. intros H Hi. inv_res.
  cbn [db_customer_id db_seller_jurisdiction db_currency] in *.
  match goal with H : required (list_de LineBody_de) _ _ = Ok _ |- _ =>
    pose proof (lines_ws _ _ _ H) as (lw & Hw & Ew); pose proof (lines_mcp _ _ _ H) as (lm & Hm & Em) end.
  match goal with H1 : str_field "seller_jurisdiction" _ = Ok ?s, H2 : Jurisdiction.from_str ?s = Ok _ |- _ =>
    pose proof (jurisdiction_field _ _ _ _ H1 H2) as Hj end.
  match goal with H1 : str_field "currency" _ = Ok ?s, H2 : Currency.new ?s = Ok _ |- _ =>
    pose proof (currency_field _ _ _ _ H1 H2) as Hc end.
  split; eexists; (split; [unfold DraftInvoiceWire_de, InvoiceDraftInput_de; cbn [struct_fields mbind res_bind]; by decoded|]).
  - unfold draft_into_input, Ops.parse_customer_id, parse_entity. cbn. decoded. by rewrite -> (Ew _ MkDraftLineInput).
  - unfold mcp_draft_input, parse_arg, parse_currency_arg. cbn. decoded. by rewrite -> (Em _ MkDraftLineInput).
Qed.

(** The id in front of the members. *)
Ltac with_id := rewrite -> str_field_first by assumption; cbn [mbind res_bind].
Tactic Notation "parity" reference(de) :=
  eexists; split; [unfold de; cbn [struct_fields mbind res_bind]; try with_id; by decoded|].

Lemma pay_parity id ms b i :
  PayBody_de (JObj ms) = Ok b → pay_body_input id b = Ok i → member "invoice_id" ms = false →
  (∃ w, MarkPaidWire_de (JObj (("invoice_id", JStr id) :: ms)) = Ok w ∧ pay_input a ch w = Ok (from a ch i)) ∧
  ∃ m, InvoicePayInput_de (JObj (("invoice_id", JStr id) :: ms)) = Ok m ∧
    mcp_pay_input m = Ok (from mcp_actor mcp_channel i).
Proof.
  unfold PayBody_de, pay_body_input, api_parse_invoice_id, parse_path. cbn [struct_fields mbind res_bind].
  intros H Hi Hid. inv_res. split; [parity MarkPaidWire_de|parity InvoicePayInput_de].
  - unfold pay_input, Ops.parse_invoice_id, parse_entity. cbn. by decoded.
  - unfold mcp_pay_input, parse_arg. cbn. by decoded.
Qed.
Lemma credit_parity id ms b i :
  DraftCreditBody_de (JObj ms) = Ok b → credit_body_input id b = Ok i → member "invoice_id" ms = false →
  (∃ w, CreateCreditNoteWire_de (JObj (("invoice_id", JStr id) :: ms)) = Ok w ∧
     credit_input a ch w = Ok (from a ch i)) ∧
  ∃ m, CreditNoteDraftInput_de (JObj (("invoice_id", JStr id) :: ms)) = Ok m ∧
    mcp_credit_input m = Ok (from mcp_actor mcp_channel i).
Proof.
  unfold DraftCreditBody_de, credit_body_input, parse_path. cbn [struct_fields mbind res_bind].
  intros H Hi Hid. inv_res. split; [parity CreateCreditNoteWire_de|parity CreditNoteDraftInput_de].
  - unfold credit_input, Ops.parse_invoice_id, parse_entity. cbn. by decoded.
  - unfold mcp_credit_input, parse_arg. cbn. by decoded.
Qed.

Lemma reminder_parity id ms b i :
  ReminderBody_de (JObj ms) = Ok b → reminder_body_input id b.1 b.2 = Ok i →
  is_value (("invoice_id", JStr id) :: (renamed <$> ms)) →
  (∃ w, ReminderScheduleWire_de (JObj (("invoice_id", JStr id) :: (renamed <$> ms))) = Ok w ∧
     reminder_input a ch w = Ok (from a ch i)) ∧
  ∃ m, McpReminder_de (JObj (("invoice_id", JStr id) :: (renamed <$> ms))) = Ok m ∧
    mcp_reminder_input m.1.1 m.1.2 m.2 = Ok (from mcp_actor mcp_channel i).
Proof.
  unfold ReminderBody_de, reminder_body_input, parse_path. cbn [struct_fields mbind res_bind].
  intros H Hi Hv. pose proof (is_value_first _ _ _ Hv) as Hid. apply is_value_keys, NoDup_cons in Hv as [_ Hn].
  inv_res.
  match goal with H : required _ "channel" _ = Ok _ |- _ => apply (required_channel _ _ _ Hn) in H end.
  match goal with H : required _ "scheduled_at" _ = Ok _ |- _ =>
    rewrite <- required_renamed in H by reflexivity end.
  split; [parity ReminderScheduleWire_de|parity McpReminder_de].
  - unfold reminder_input, Ops.parse_invoice_id, parse_entity. cbn. by decoded.
  - unfold mcp_reminder_input, parse_arg. cbn. by decoded.
Qed.
Lemma schedule_parity ms b i :
  ScheduleBody_de (JObj ms) = Ok b → schedule_body_input b = Ok i →
  (∃ w, ScheduleCreateWire_de (JObj ms) = Ok w ∧ schedule_into_input a ch w = Ok (from a ch i)) ∧
  ∃ m, McpScheduleInput_de (JObj ms) = Ok m ∧ mcp_schedule_input m = Ok (from mcp_actor mcp_channel i).
Proof.
  unfold ScheduleBody_de, schedule_body_input, api_parse_customer_id, parse_path, api_parse_currency.
  cbn [struct_fields mbind res_bind]. intros H Hi. inv_res.
  cbn [scb_customer_id scb_currency scb_cadence] in *.
  match goal with H : required (list_de LineBody_de) _ _ = Ok _ |- _ =>
    pose proof (lines_ws _ _ _ H) as (lw & Hw & Ew); pose proof (lines_mcp _ _ _ H) as (lm & Hm & Em) end.
  match goal with H1 : str_field "currency" _ = Ok ?s, H2 : Currency.new ?s = Ok _ |- _ =>
    pose proof (currency_field _ _ _ _ H1 H2) as Hc end.
  match goal with H1 : str_field "cadence" _ = Ok ?s, H2 : Cadence.from_str ?s = Ok _ |- _ =>
    pose proof (cadence_field _ _ _ _ H1 H2) as Hd end.
  split; [parity ScheduleCreateWire_de|parity McpScheduleInput_de].
  - unfold schedule_into_input, Ops.parse_customer_id, parse_entity. cbn. decoded.
    by rewrite -> (Ew _ MkScheduleLineInput).
  - unfold mcp_schedule_input, parse_arg, parse_currency_arg, parse_cadence_arg. cbn. decoded.
    by rewrite -> (Em _ MkScheduleLineInput).
Qed.

(** Requests that are an id alone. *)
Lemma issue_credit_parity id i :
  credit_issue_input id = Ok i →
  (∃ w, CreditNoteIdWire_de (JObj [("credit_note_id", JStr id)]) = Ok w ∧
     issue_credit_input a ch w = Ok (from a ch i)) ∧
  ∃ m, CreditNoteIssueInput_de (JObj [("credit_note_id", JStr id)]) = Ok m ∧
    mcp_credit_issue_input m.1 m.2 = Ok (from mcp_actor mcp_channel i).
Proof.
  unfold credit_issue_input, parse_path. intros H. inv_res.
  split; eexists; (split; [reflexivity|]).
  - unfold issue_credit_input, Ops.parse_credit_note_id, parse_entity. cbn. by decoded.
  - unfold mcp_credit_issue_input, parse_arg. cbn. by decoded.
Qed.
Lemma change_parity id i :
  schedule_id_input id = Ok i →
  (∃ w, ScheduleIdWire_de (JObj [("schedule_id", JStr id)]) = Ok w ∧
     schedule_change_input a ch w = Ok (from a ch i)) ∧
  ∃ m, id_input_de "schedule_id" (JObj [("schedule_id", JStr id)]) = Ok m ∧
    mcp_schedule_change m = Ok (from mcp_actor mcp_channel i).
Proof.
  unfold schedule_id_input, parse_path. intros H. inv_res. split; eexists; (split; [reflexivity|]).
  - unfold schedule_change_input, Ops.parse_schedule_id, parse_entity. cbn. by decoded.
  - unfold mcp_schedule_change, parse_arg. cbn. by decoded.
Qed.
Lemma reminder_cancel_parity id i :
  reminder_cancel_id_input id = Ok i →
  (∃ w, ReminderIdWire_de (JObj [("reminder_id", JStr id)]) = Ok w ∧
     reminder_cancel_input a ch w = Ok (from a ch i)) ∧
  ∃ m, id_input_de "reminder_id" (JObj [("reminder_id", JStr id)]) = Ok m ∧
    mcp_reminder_cancel m = Ok (from mcp_actor mcp_channel i).
Proof.
  unfold reminder_cancel_id_input, parse_path. intros H. inv_res. split; eexists; (split; [reflexivity|]).
  - unfold reminder_cancel_input, Ops.parse_reminder_id, parse_entity. cbn. by decoded.
  - unfold mcp_reminder_cancel, parse_arg. cbn. by decoded.
Qed.

Context `{L : !SerdeLaws S}.
(** A body that is not empty. *)
Lemma optional_body {A} (d : A) de v x :
  parse_optional_body d de (json_to_string v) = Ok x → de v = Ok x.
Proof.
  unfold parse_optional_body. destruct (String.eqb_spec (json_to_string v) "") as [E|_].
  { by apply json_string_nonempty in E. }
  rewrite -> json_string_roundtrip. cbn. by intros H%map_err_ok.
Qed.
Lemma issue_parity id ms i :
  issue_body_input id (json_to_string (JObj ms)) = Ok i → member "invoice_id" ms = false →
  (∃ w, InvoiceIdWire_de (JObj (("invoice_id", JStr id) :: ms)) = Ok w ∧ issue_input a ch w = Ok (from a ch i)) ∧
  ∃ m, InvoiceIssueInput_de (JObj (("invoice_id", JStr id) :: ms)) = Ok m ∧
    mcp_issue_input m.1 m.2 = Ok (from mcp_actor mcp_channel i).
Proof.
  unfold issue_body_input, api_parse_invoice_id, parse_path. intros H Hid. inv_res.
  match goal with H : parse_optional_body _ _ _ = Ok _ |- _ => apply optional_body in H; unfold IssueBody_de in H end.
  cbn [struct_fields mbind res_bind] in *.
  split; [parity InvoiceIdWire_de|parity InvoiceIssueInput_de].
  - unfold issue_input, Ops.parse_invoice_id, parse_entity. cbn. by decoded.
  - unfold mcp_issue_input, parse_arg. cbn. by decoded.
Qed.
Lemma void_parity id ms i :
  void_body_input id (json_to_string (JObj ms)) = Ok i → member "invoice_id" ms = false →
  (∃ w, VoidInvoiceWire_de (JObj (("invoice_id", JStr id) :: ms)) = Ok w ∧ void_input a ch w = Ok (from a ch i)) ∧
  ∃ m, InvoiceVoidInput_de (JObj (("invoice_id", JStr id) :: ms)) = Ok m ∧
    mcp_void_input m.1.1 m.1.2 m.2 = Ok (from mcp_actor mcp_channel i).
Proof.
  unfold void_body_input, api_parse_invoice_id, parse_path. intros H Hid. inv_res.
  match goal with H : parse_optional_body _ _ _ = Ok ?x |- _ =>
    apply optional_body in H; unfold VoidBody_de in H; destruct x end.
  cbn [struct_fields mbind res_bind] in *. inv_res.
  split; [parity VoidInvoiceWire_de|parity InvoiceVoidInput_de].
  - unfold void_input, Ops.parse_invoice_id, parse_entity. cbn. by decoded.
  - unfold mcp_void_input, parse_arg. cbn. by decoded.
Qed.
End inputs.

(** ** One command *)

Section parity.
Context {P : Platform} {S : Serde} {L : SerdeLaws S} {T : Tera} {C : Crypto}.
Implicit Types (E : Env) (w : World) (ctx : CoreCtx) (st : ApiState).

(** [p] does what the command does, and succeeds when it does. *)
Definition carries {Er A} ctx (p : prog (res Er A)) (c : Command) : Prop :=
  ∀ E w, (run E p w).1 = (run E (perform ctx c) w).1 ∧
    match (run E (perform ctx c) w).2, (run E p w).2 with
    | Ok _, Ok (Ok _) | Err _, Ok (Err _) | Panic, Panic => True
    | _, _ => False
    end.
(** [p] fails before any interaction. *)
Definition declines {Er A} (p : prog (res Er A)) : Prop :=
  match p with Ret m => ∀ a, m ≠ Ok a | Throw _ | Crash => True | Act _ _ => False end.

Lemma carries_command {Er A B} ctx c (core : CoreError → Er) (p : prog B) (g : B → A) :
  perform ctx c = forget p → carries ctx (out ←? command_as core p; Ret (Ok (g out))) c.
Proof.
  intros Ec E w. rw Ec. unfold forget. rw run_try_bind run_command_as run_bind.
  by destruct (run E p w) as [w' [b|e|]].
Qed.
Lemma carries_wrap {A} ctx c p (g : json → A) :
  carries ctx p c → carries ctx (v ←? wrap p; Ret (Ok (g v))) c.
Proof.
  intros Hp E w. destruct (Hp E w) as [H1 H2]. unfold wrap. rw run_try_bind run_try_conv.
  destruct (run E p w) as [w' [[a|e|]|e|]], (run E (perform ctx c) w) as [w2 [[]|e2|]]; by cbn in *.
Qed.
Lemma carries_arm {A W B} ctx (mk : A → Command) from_value (into : W → res OpError A) v
    (command : A → prog B) answer wire i :
  from_value v = Ok wire → into wire = Ok i → (∀ i, perform ctx (mk i) = forget (command i)) →
  carries ctx (arm from_value into v command answer) (mk i).
Proof.
  intros Hv Hi Hp. unfold arm, decode. rw Hv. cbn [map_err mbind res_bind]. rw Hi.
  by apply (carries_command ctx (mk i) from_core (command i) answer).
Qed.
(** A tool by its name. *)
Lemma carries_tool ctx c name ps de t :
  find_tool name = Some de → is_value ps → de (JObj ps) = Ok t → carries ctx (call_tool ctx t) c →
  carries ctx (mcp_serve ctx (CallTool name (Some ps))) c.
Proof.
  intros Hf Hv Ht Hc. cbn [mcp_serve]. unfold tool_of. rw Hf. cbn [ok_or mbind res_bind default].
  unfold is_value in Hv. rw Hv Ht. by apply carries_wrap.
Qed.
Lemma carries_input {Er I A} ctx c (m : res Er I) (f : I → prog (res Er A)) i :
  m = Ok i → carries ctx (f i) c → carries ctx (try_bind (Ret m) f) c.
Proof. by intros ->. Qed.

(** One shared request: [m] is the input of the HTTP handler, and what the other
    two decode is the same input from elsewhere. *)
Lemma same_command {I W B} `{Origin I} ctx (mk : I → Command) (m : res ApiError I) (f : I → prog Answer)
    name op tool ps from_value (into : W → res OpError I) (command : I → prog B) answer de :
  (∀ i, carries ctx (f i) (mk i)) →
  (∀ a ch i, reissue a ch (mk i) = mk (from a ch i)) →
  (∀ i, perform ctx (mk i) = forget (command i)) →
  Ops.dispatch ctx op (JObj ps) name = arm from_value into (JObj ps) command answer →
  find_tool tool = Some de → is_value ps →
  (∀ i, m = Ok i →
     (∃ wire, from_value (JObj ps) = Ok wire ∧ into wire = Ok (from (AWs name) ChWs i)) ∧
     ∃ t, de (JObj ps) = Ok t ∧ carries ctx (call_tool ctx t) (mk (from mcp_actor mcp_channel i))) →
  declines (try_bind (Ret m) f) ∨
  ∃ c, carries ctx (try_bind (Ret m) f) c ∧
    carries ctx (Ops.dispatch ctx op (JObj ps) name) (reissue (AWs name) ChWs c) ∧
    carries ctx (mcp_serve ctx (CallTool tool (Some ps))) (reissue mcp_actor mcp_channel c).
Proof.
  intros Hf Hre Hp Hd Ht Hv Hm. destruct m as [i|e|]; [right|by left..].
  destruct (Hm i eq_refl) as [(wire & Hw & Hi) (t & Hde & Hc)]. exists (mk i). split; [apply Hf|].
  rw !Hre Hd. split; [by eapply carries_arm|by eapply carries_tool].
Qed.

Ltac named :=
  cbv [find_tool tool_table List.find String.eqb Ascii.eqb Bool.eqb fst snd fmap option_fmap option_map];
  reflexivity.
Ltac shared mk :=
  eapply (same_command _ mk); [by intros; apply carries_command|done|done|reflexivity|named|done|].

(** The inputs agree by [lem], and the decoded tool is [mk m]. *)
Ltac agree lem :=
  let i := fresh "i" in let Hi := fresh "Hi" in let Hw := fresh "Hw" in
  let m := fresh "m" in let Hm := fresh "Hm" in let Him := fresh "Him" in
  intros i Hi; destruct (lem i Hi) as [Hw (m & Hm & Him)];
  lazymatch type of m with
  | (_ * _ * _)%type => destruct m as [[? ?] ?] | (_ * _)%type => destruct m as [? ?] | _ => idtac
  end; cbn [fst snd] in *;
  split; [exact Hw|]; eexists; split; [cbv beta; rw Hm; reflexivity|];
  eapply carries_input; [exact Him|]; by apply carries_command.

(** C31: one request, one command: whichever of the adapters takes it, the same
    JSON document gives the same command.  For each of the eleven requests that
    all three adapters offer, whatever its id and members are: when the HTTP
    extractors take the body, either the handler fails before any
    interaction, or the HTTP handler, the WebSocket operation and the MCP tool of
    that request each do what one command does and succeed exactly when it does,
    and the three commands differ in the actor and the channel only. *)
Theorem one_command_per_request st now name s id body r :
  http_route s id body = Ok r → is_value (payload s id body) →
  declines (handle st now r) ∨
  ∃ c, carries (st_ctx st) (handle st now r) c ∧
    carries (st_ctx st) (Ops.dispatch (st_ctx st) (ws_op s) (JObj (payload s id body)) name)
      (reissue (AWs name) ChWs c) ∧
    carries (st_ctx st) (mcp_serve (st_ctx st) (CallTool (mcp_tool s) (Some (payload s id body))))
      (reissue mcp_actor mcp_channel c).
Proof.
  intros Hr Hv. destruct s; cbn [http_route payload ws_op mcp_tool] in *; inv_res; cbn [handle].
  - shared DraftInvoice. agree (λ i, draft_parity (AWs name) ChWs _ _ i H).
  - shared IssueInvoice. agree (λ i Hi, issue_parity (AWs name) ChWs id body i Hi (is_value_first _ _ _ Hv)).
  - shared MarkPaid. agree (λ i Hi, pay_parity (AWs name) ChWs id _ _ i H Hi (is_value_first _ _ _ Hv)).
  - shared VoidInvoice. agree (λ i Hi, void_parity (AWs name) ChWs id body i Hi (is_value_first _ _ _ Hv)).
  - shared CreateCreditNote. agree (λ i Hi, credit_parity (AWs name) ChWs id _ _ i H Hi (is_value_first _ _ _ Hv)).
  - shared IssueCreditNote. agree (λ i, issue_credit_parity (AWs name) ChWs id i).
  - shared ScheduleCreate. agree (λ i, schedule_parity (AWs name) ChWs _ _ i H).
  - shared SchedulePause. agree (λ i, change_parity (AWs name) ChWs id i).
  - shared ScheduleCancel. agree (λ i, change_parity (AWs name) ChWs id i).
  - shared ReminderSchedule. agree (λ i Hi, reminder_parity (AWs name) ChWs id _ _ i H Hi Hv).
  - shared ReminderCancel. agree (λ i, reminder_cancel_parity (AWs name) ChWs id i).
Qed.
End parity.

(** ** Witness *)

#[local] Existing Instance Concrete.platform.
#[local] Existing Instance ConcreteJson.serde.
#[local] Existing Instance ConcreteJson.serde_laws.
#[local] Existing Instance ConcreteCrypto.crypto.
#[local] Existing Instance concrete_tera.

(** A payment of the fixtures' invoice: it is not declined. *)
Lemma one_command_per_request_witness :
  let id := id_to_string fx_invoice_id in
  let body := [("amount", JStr "100.00"); ("received_at", JStr (dt_to_rfc3339 fx_later))] in
  let r := RInvoicePay id (MkPayBody (fx_dec 10000) (Some fx_later) None None) in
  http_route ShPay id body = Ok r ∧
  ∃ c, carries fx_ctx (handle fx_state 0 r) c ∧
    carries fx_ctx (Ops.dispatch fx_ctx "invoice.pay" (JObj (payload ShPay id body)) "ana") (reissue (AWs "ana") ChWs c) ∧
    carries fx_ctx (mcp_serve fx_ctx (CallTool "inv_invoice_pay" (Some (payload ShPay id body))))
      (reissue mcp_actor mcp_channel c).
Proof.
  intros id body r. assert (http_route ShPay id body = Ok r) as Hr by reflexivity.
  split; [exact Hr|].
  assert (is_value (payload ShPay id body)) as Hv by reflexivity.
  destruct (one_command_per_request fx_state 0 "ana" ShPay id body r Hr Hv) as [Hd|H]; [|exact H].
  assert (match handle fx_state 0 r with Act _ _ => true | _ => false end = true) as Ha by (vm_compute; reflexivity).
  unfold declines in Hd. destruct (handle fx_state 0 r); [discriminate Ha|discriminate Ha|discriminate Ha|destruct Hd].
Defined.

(** Not the other way round: what the tools and the operations take, the HTTP
    handlers may refuse. *)
Example null_category :
  let line := JObj [("description", JStr "hosting"); ("quantity", JStr "1"); ("unit_price", JStr "10");
                    ("tax_category", JNull)] in
  is_ok (McpLine_de line) = true ∧ is_ok (DraftLineWire_de line) = false ∧ is_ok (LineBody_de line) = false.
Proof. done. Qed.
Example jurisdiction_object :
  let body := JObj [("customer_id", JStr "c"); ("seller_jurisdiction", JObj [("CA-QC", JNull)]);
                    ("currency", JStr "CAD"); ("lines", JArr [])] in
  is_ok (InvoiceDraftInput_de body) = true ∧ is_ok (DraftInvoiceWire_de body) = true ∧
  is_ok (DraftBody_de body) = false.
Proof. done. Qed.
