(* ===== verification/Sql.v ===== *)
(** * Statements and backends ([store/src/sql.rs], [pool.rs], [migrate.rs])

    The repositories write their statements with [?] placeholders and bind the
    values in order; for PostgreSQL the placeholders are numbered.  Here are the
    pool, the rewriting, the text of every statement with the values bound to
    it, and what each database reads in that text. *)

From S2P Require Import Prelude External Concrete Money Ids Domain InvoiceFsm Cadence Events Store.
From S2P Require Import Codec ConcreteJson Rows Tax Render Command Effects.

(** ** Backends ([pool.rs]) *)

Inductive Backend := Sqlite | Postgres | Mysql.
#[export] Instance Backend_eq_dec : EqDecision Backend.
Proof. solve_decision. Defined.

(** The Cargo features of the crate; it does not compile with none of them. *)
Record Features := MkFeatures { ft_sqlite : bool; ft_postgres : bool; ft_tidb : bool }.
Definition any_feature (f : Features) : bool := ft_sqlite f || ft_postgres f || ft_tidb f.

Definition from_backend_name (name : string) : option Backend :=
  if String.eqb name "sqlite" then Some Sqlite
  else if String.eqb name "postgresql" || String.eqb name "postgres" then Some Postgres
  else if String.eqb name "mysql" then Some Mysql
  else None.
Definition scheme_of (dsn : string) : string :=
  str_to_ascii_lowercase (match split_once ":" dsn with Some (s, _) => s | None => dsn end).
Definition backend_from_scheme (f : Features) (scheme : string) : option Backend :=
  if ft_sqlite f && String.eqb scheme "sqlite" then Some Sqlite
  else if ft_postgres f && (String.eqb scheme "postgres" || String.eqb scheme "postgresql") then Some Postgres
  else if ft_tidb f && String.eqb scheme "mysql" then Some Mysql
  else None.

(** [str::contains] *)
Fixpoint str_contains (needle s : string) : bool :=
  String.prefix needle s ||
  match s with EmptyString => false | String _ s => str_contains needle s end.
Definition is_sqlite_in_memory (dsn : string) : bool :=
  let d := str_to_ascii_lowercase dsn in
  String.eqb d "sqlite::memory:" || String.prefix "sqlite::memory:?" d || str_contains ":memory:" d.

(** [sqlx::Any]: opening a pool, the name its connections report, and running
    the migrations embedded from a directory. *)
Class SqlxAny := {
  AnyPool : Type;
  any_connect (max_connections min_connections : nat) (dsn : string) : SR AnyPool;
  backend_name : AnyPool → string;
  migrator_run (dir : string) (pool : AnyPool) : SR ();
}.

Section pool.
Context {P : Platform} {X : SqlxAny}.

Definition connect (f : Features) (dsn : string) : SR AnyPool :=
  match backend_from_scheme f (scheme_of dsn) with
  | None => Err (UnsupportedDsn dsn)
  | Some _ =>
      let max_conn := if is_sqlite_in_memory dsn then 1%nat else 5%nat in
      any_connect max_conn (if is_sqlite_in_memory dsn then 1%nat else 0%nat) dsn
  end.

(** [pool.acquire()] can fail; the name is that of the connection. *)
Definition acquire (pool : AnyPool) : prog (SR string) :=
  Act (λ E w, (tick w, if env_db_ok E (w_step w) then Ok (backend_name pool) else Err (Sqlx Unavailable))) Ret.
Definition backend_of (pool : AnyPool) : prog (SR Backend) :=
  name ←? acquire pool;
  let name := str_to_ascii_lowercase name in
  Ret (ok_or (InvalidValue "backend_name" name) (from_backend_name name)).

(** ** Migrations ([migrate.rs]) *)

Definition run_migrations (f : Features) (pool : AnyPool) : prog (SR ()) :=
  backend ←? backend_of pool;
  match backend with
  | Sqlite => if ft_sqlite f then Ret (migrator_run "./migrations/sqlite" pool) else Crash
  | Postgres => if ft_postgres f then Ret (migrator_run "./migrations/postgres" pool) else Crash
  | Mysql =>
      if ft_tidb f then Ret (Err (Other "tidb migrations not authored yet (see T-0008 follow-up)")) else Crash
  end.

(** ** Placeholders ([sql.rs]) *)

Fixpoint rewrite_from (n : N) (sql : string) : string :=
  match sql with
  | EmptyString => EmptyString
  | String ch sql =>
      if Ascii.eqb ch "?" then "$" +:+ uint_str (n + 1) +:+ rewrite_from (n + 1) sql
      else String ch (rewrite_from n sql)
  end.
Definition rewrite_postgres (sql : string) : string := rewrite_from 0 sql.
Definition rewrite (backend : Backend) (sql : string) : string :=
  match backend with Postgres => rewrite_postgres sql | Sqlite | Mysql => sql end.
Definition portable_sql (pool : AnyPool) (sql : string) : prog (SR string) :=
  backend ←? backend_of pool; Ret (Ok (rewrite backend sql)).
(** The transaction owns a connection; an unknown backend is left alone. *)
Definition portable_sql_for_tx (pool : AnyPool) (sql : string) : string :=
  rewrite (default Sqlite (from_backend_name (str_to_ascii_lowercase (backend_name pool)))) sql.
End pool.

(** ** What a database reads

    A statement is text with parameters in it.  SQLite takes [?] as the next
    parameter and [?NNN] as a numbered one, MySQL takes every [?] as the next,
    PostgreSQL takes [$NNN]; in a text literal none of them counts. *)

Inductive token := Chr (c : ascii) | Arg (k : N).
#[export] Instance token_eq_dec : EqDecision token.
Proof. solve_decision. Defined.

Definition is_digit (c : ascii) : bool := (48 <=? N_of_ascii c)%N && (N_of_ascii c <=? 57)%N.
Fixpoint leading_digits (s : string) : string :=
  match s with
  | String c s => if is_digit c then String c (leading_digits s) else ""
  | EmptyString => ""
  end.

Record Syntax := MkSyntax { sx_mark : ascii; sx_numbered : bool; sx_next : bool }.
Definition syntax_of (b : Backend) : Syntax :=
  match b with
  | Sqlite => MkSyntax "?" true true
  | Mysql => MkSyntax "?" false true
  | Postgres => MkSyntax "$" true false
  end.

(** [quoted]: inside a text literal; [next]: the last parameter given out;
    [skip]: characters of a number already read. *)
Fixpoint scan (x : Syntax) (quoted : bool) (next : N) (skip : nat) (s : string) : list token :=
  match s, skip with
  | EmptyString, _ => []
  | String _ s, S skip => scan x quoted next skip s
  | String c s, O =>
      if Ascii.eqb c "'" then Chr c :: scan x (negb quoted) next 0 s
      else if negb quoted && Ascii.eqb c (sx_mark x) then
        match (if sx_numbered x then digits_val (leading_digits s) else None) with
        | Some k => Arg k :: scan x quoted (N.max next k) (String.length (leading_digits s)) s
        | None =>
            if sx_next x then Arg (next + 1) :: scan x quoted (next + 1) 0 s
            else Chr c :: scan x quoted next 0 s
        end
      else Chr c :: scan x quoted next 0 s
  end.
Definition reads (b : Backend) (sql : string) : list token := scan (syntax_of b) false 0 0 sql.
Definition args (ts : list token) : list N :=
  omap (λ t, match t with Arg k => Some k | Chr _ => None end) ts.

(** What the rewriting asks of a statement: no [$], no [?] in a literal, no
    digit after a [?]. *)
Definition starts_with_digit (s : string) : bool :=
  match s with String c _ => is_digit c | EmptyString => false end.
Fixpoint portable (quoted : bool) (s : string) : bool :=
  match s with
  | EmptyString => true
  | String c s =>
      if Ascii.eqb c "'" then portable (negb quoted) s
      else if Ascii.eqb c "$" then false
      else if Ascii.eqb c "?" then negb quoted && negb (starts_with_digit s) && portable quoted s
      else portable quoted s
  end.

Lemma leading_digits_none s : starts_with_digit s = false → leading_digits s = "".
Proof. destruct s as [|c s]; [done|]. cbn. by intros ->. Qed.
Lemma leading_digits_uint n s :
  starts_with_digit s = false → leading_digits (uint_str n +:+ s) = uint_str n.
Proof.
  intros Hs. unfold uint_str. induction (N.to_uint n) as [|u IHu|u IHu|u IHu|u IHu|u IHu|u IHu|u IHu|u IHu|u IHu|u IHu]; cbn [DecimalString.NilEmpty.string_of_uint]; rw ?str_app_nil_l ?str_app_cons;
    [by apply leading_digits_none|..]; cbn [leading_digits is_digit]; by rw IHu.
Qed.
Lemma scan_skip x q n ds s : scan x q n (String.length ds) (ds +:+ s) = scan x q n 0 s.
Proof. induction ds as [|c ds IH]; [done|]. rw str_app_cons. cbn. apply IH. Qed.
Lemma rewrite_starts n s :
  starts_with_digit s = false → starts_with_digit (rewrite_from n s) = false.
Proof. destruct s as [|c s]; [done|]. cbn. by destruct (Ascii.eqb c "?"). Qed.

(** PostgreSQL reads in the rewritten text what SQLite reads in the original. *)
Lemma scan_rewritten q n s :
  portable q s = true →
  scan (syntax_of Postgres) q n 0 (rewrite_from n s) = scan (syntax_of Sqlite) q n 0 s ∧
  scan (syntax_of Mysql) q n 0 s = scan (syntax_of Sqlite) q n 0 s.
Proof.
  revert q n. induction s as [|c s IH]; intros q n; [done|]. cbn [portable rewrite_from].
  destruct (Ascii.eqb_spec c "'") as [->|Hq].
  { intros Hp. destruct (IH (negb q) n Hp) as [E1 E2]. cbn. by rw E1 E2. }
  destruct (Ascii.eqb_spec c "$") as [->|Hd]; [done|].
  destruct (Ascii.eqb_spec c "?") as [->|Hm].
  - intros [[->%negb_true_iff Hs%negb_true_iff]%andb_true_iff Hp]%andb_true_iff.
    destruct (IH false (n + 1)%N Hp) as [E1 E2].
    rw str_app_cons str_app_nil_l. cbn [scan syntax_of sx_mark sx_numbered sx_next negb andb] in *.
    rw (leading_digits_none s Hs) (leading_digits_uint _ _ (rewrite_starts (n + 1) s Hs)).
    rw (digits_val_uint_str (n + 1)) scan_skip (N.max_r n (n + 1)); [lia|].
    cbn. by rw E1 E2.
  - intros Hp. destruct (IH q n Hp) as [E1 E2]. cbn [scan syntax_of sx_mark].
    apply Ascii.eqb_neq in Hq, Hd, Hm. rw Hq Hm Hd andb_false_r. by rw E1 E2.
Qed.
Lemma rewrite_reads b s : portable false s = true → reads b (rewrite b s) = reads Sqlite s.
Proof. intros H. destruct (scan_rewritten false 0 s H). by destruct b. Qed.

(** ** The statements ([repo/*.rs], [commands/src/issue.rs], [credit.rs]) *)

Section statements.
Context {P : Platform} {S : Serde}.

Inductive Statement :=
  (* repo/customer.rs *)
  | CustomerSave (c : Customer) | CustomerGet (i : CustomerId) | CustomerList (limit offset : Z)
  (* repo/invoice.rs *)
  | InvoiceSave (i : Invoice) | InvoiceGet (i : InvoiceId) | InvoiceByKey (key : string)
  | InvoiceList (f : InvoiceFilter) | InvoiceDelete (i : InvoiceId)
  | LineSave (l : InvoiceLine) | LinesDelete (i : InvoiceId) | LineInsert (l : InvoiceLine)
  | LinesOf (i : InvoiceId)
  (* repo/history.rs *)
  | HistorySave (h : InvoiceStateHistory) | HistoryOf (i : InvoiceId) | HistoryPending (limit : Z)
  | HistoryPublished (now : DateTime) (i : HistoryId)
  (* repo/credit_note.rs *)
  | CreditNoteSave (n : CreditNote) | CreditNoteGet (i : CreditNoteId) | CreditNoteList (f : CreditNoteFilter)
  | CnHistorySave (h : CreditNoteStateHistory) | CnHistoryOf (i : CreditNoteId) | CnHistoryPending (limit : Z)
  | CnHistoryPublished (now : DateTime) (i : HistoryId)
  (* repo/reminder.rs *)
  | ReminderSave (r : Reminder) | ReminderGet (i : ReminderId) | RemindersOf (i : InvoiceId)
  | RemindersDue (cutoff : DateTime)
  (* repo/schedule.rs *)
  | ScheduleSave (s : Schedule) | ScheduleGet (i : ScheduleId) | ScheduleList (f : ScheduleFilter)
  | SchedulesDue (cutoff : NaiveDate)
  (* repo/send_idempotency.rs *)
  | SendFind (i : InvoiceId) (key : string) | SendInsert (r : SendIdempotencyRecord)
  (* repo/bus_inbox.rs *)
  | InboxExists (event_id : string) | InboxInsert (r : BusInboxRecord)
  | InboxProcessed (now : DateTime) (event_id : string) | InboxGet (event_id : string)
  (* commands/src/issue.rs, credit.rs *)
  | InvoiceCount (year : Z) | CreditNoteCount (year : Z).

(** [sql.push_str(..)] under an [is_some] *)
Definition push_if {A} (o : option A) (s : string) : string := if is_some o then s else "".

Definition invoice_list_sql (f : InvoiceFilter) : string :=
  "SELECT id, number, customer_id, seller_jur, currency, state, issued_at, due_at, sent_at, " +:+
  "viewed_at, paid_at, voided_at, subtotal, tax_total, total, amount_paid, schedule_id, " +:+
  "template_path, pdf_blob_ref, idempotency_key, nexus_review, metadata, created_at, " +:+
  "updated_at FROM invoices WHERE 1=1" +:+
  push_if (if_customer_id f) " AND customer_id = ?" +:+ push_if (if_state f) " AND state = ?" +:+
  " ORDER BY created_at ASC" +:+
  push_if (if_limit f) " LIMIT ?" +:+ push_if (if_offset f) " OFFSET ?".
Definition credit_note_list_sql (f : CreditNoteFilter) : string :=
  "SELECT id, number, invoice_id, state, amount, currency, reason, refund_ref, issued_at, " +:+
  "created_at, metadata FROM credit_notes WHERE 1=1" +:+
  push_if (cf_invoice_id f) " AND invoice_id = ?" +:+ push_if (cf_state f) " AND state = ?" +:+
  " ORDER BY created_at ASC" +:+
  push_if (cf_limit f) " LIMIT ?" +:+ push_if (cf_offset f) " OFFSET ?".
Definition schedule_list_sql (f : ScheduleFilter) : string :=
  "SELECT id, customer_id, template_lines, currency, cadence, start_date, end_date, " +:+
  "auto_issue, next_run, last_run, state, metadata, created_at, updated_at FROM schedules " +:+
  "WHERE 1=1" +:+
  push_if (sf_customer_id f) " AND customer_id = ?" +:+ push_if (sf_state f) " AND state = ?" +:+
  " ORDER BY created_at ASC" +:+
  push_if (sf_limit f) " LIMIT ?" +:+ push_if (sf_offset f) " OFFSET ?".

(** [repo/customer.rs] *)
Definition CUSTOMER_UPSERT : string :=
  "INSERT INTO customers (id, display_name, email, address_json, jurisdiction, metadata, " +:+
  "created_at, updated_at) VALUES (?, ?, ?, ?, ?, ?, ?, ?) ON CONFLICT (id) DO UPDATE SET " +:+
  "display_name = excluded.display_name, email = excluded.email, address_json = " +:+
  "excluded.address_json, jurisdiction = excluded.jurisdiction, metadata = excluded.metadata, " +:+
  "updated_at = excluded.updated_at".
Definition CUSTOMER_SELECT : string :=
  "SELECT id, display_name, email, address_json, metadata, created_at, updated_at FROM " +:+
  "customers WHERE id = ?".
Definition CUSTOMER_LIST : string :=
  "SELECT id, display_name, email, address_json, metadata, created_at, updated_at FROM " +:+
  "customers ORDER BY created_at ASC LIMIT ? OFFSET ?".

(** [repo/invoice.rs] *)
Definition INVOICE_UPSERT : string :=
  "INSERT INTO invoices (id, number, customer_id, seller_jur, currency, state, issued_at, " +:+
  "due_at, sent_at, viewed_at, paid_at, voided_at, subtotal, tax_total, total, amount_paid, " +:+
  "schedule_id, template_path, pdf_blob_ref, idempotency_key, nexus_review, metadata, " +:+
  "created_at, updated_at) VALUES (?, ?, ?, ?, ?, ?, ?, ?, ?, ?, ?, ?, ?, ?, ?, ?, ?, ?, ?, ?, " +:+
  "?, ?, ?, ?) ON CONFLICT (id) DO UPDATE SET number = excluded.number, customer_id = " +:+
  "excluded.customer_id, seller_jur = excluded.seller_jur, currency = excluded.currency, state " +:+
  "= excluded.state, issued_at = excluded.issued_at, due_at = excluded.due_at, sent_at = " +:+
  "excluded.sent_at, viewed_at = excluded.viewed_at, paid_at = excluded.paid_at, voided_at = " +:+
  "excluded.voided_at, subtotal = excluded.subtotal, tax_total = excluded.tax_total, total = " +:+
  "excluded.total, amount_paid = excluded.amount_paid, schedule_id = excluded.schedule_id, " +:+
  "template_path = excluded.template_path, pdf_blob_ref = excluded.pdf_blob_ref, " +:+
  "idempotency_key = excluded.idempotency_key, nexus_review = excluded.nexus_review, metadata " +:+
  "= excluded.metadata, updated_at = excluded.updated_at".
Definition INVOICE_BY_KEY : string :=
  "SELECT id, number, customer_id, seller_jur, currency, state, issued_at, due_at, sent_at, " +:+
  "viewed_at, paid_at, voided_at, subtotal, tax_total, total, amount_paid, schedule_id, " +:+
  "template_path, pdf_blob_ref, idempotency_key, nexus_review, metadata, created_at, " +:+
  "updated_at FROM invoices WHERE idempotency_key = ? LIMIT 1".
Definition INVOICE_DELETE : string :=
  "DELETE FROM invoices WHERE id = ?".
Definition invoice_select_columns : string :=
  "SELECT id, number, customer_id, seller_jur, currency, state, issued_at, due_at, sent_at, " +:+
  "viewed_at, paid_at, voided_at, subtotal, tax_total, total, amount_paid, schedule_id, " +:+
  "template_path, pdf_blob_ref, idempotency_key, nexus_review, metadata, created_at, " +:+
  "updated_at FROM invoices WHERE id = ?".
Definition LINE_UPSERT : string :=
  "INSERT INTO invoice_lines (id, invoice_id, position, description, quantity, unit_price, " +:+
  "tax_rate_ids, tax_category, tax_amount, line_total, metadata) VALUES (?, ?, ?, ?, ?, ?, ?, " +:+
  "?, ?, ?, ?) ON CONFLICT (id) DO UPDATE SET invoice_id = excluded.invoice_id, position = " +:+
  "excluded.position, description = excluded.description, quantity = excluded.quantity, " +:+
  "unit_price = excluded.unit_price, tax_rate_ids = excluded.tax_rate_ids, tax_category = " +:+
  "excluded.tax_category, tax_amount = excluded.tax_amount, line_total = excluded.line_total, " +:+
  "metadata = excluded.metadata".
Definition LINES_DELETE : string :=
  "DELETE FROM invoice_lines WHERE invoice_id = ?".
Definition LINE_INSERT : string :=
  "INSERT INTO invoice_lines (id, invoice_id, position, description, quantity, unit_price, " +:+
  "tax_rate_ids, tax_category, tax_amount, line_total, metadata) VALUES (?, ?, ?, ?, ?, ?, ?, " +:+
  "?, ?, ?, ?)".
Definition LINES_SELECT : string :=
  "SELECT id, invoice_id, position, description, quantity, unit_price, tax_rate_ids, " +:+
  "tax_category, tax_amount, line_total, metadata FROM invoice_lines WHERE invoice_id = ? " +:+
  "ORDER BY position ASC".

(** [repo/history.rs] *)
Definition HISTORY_INSERT : string :=
  "INSERT INTO invoice_state_history (id, invoice_id, from_state, to_state, event, actor, " +:+
  "channel, bus_event_id, reason, occurred_at, published_at, metadata) VALUES (?, ?, ?, ?, ?, " +:+
  "?, ?, ?, ?, ?, ?, ?)".
Definition HISTORY_SELECT : string :=
  "SELECT id, invoice_id, from_state, to_state, event, actor, channel, bus_event_id, reason, " +:+
  "occurred_at, published_at, metadata FROM invoice_state_history WHERE invoice_id = ? ORDER " +:+
  "BY occurred_at ASC".
Definition HISTORY_PENDING : string :=
  "SELECT id, invoice_id, from_state, to_state, event, actor, channel, bus_event_id, reason, " +:+
  "occurred_at, published_at, metadata FROM invoice_state_history WHERE published_at IS NULL " +:+
  "ORDER BY occurred_at ASC LIMIT ?".
Definition HISTORY_PUBLISHED : string :=
  "UPDATE invoice_state_history SET published_at = ? WHERE id = ?".

(** [repo/credit_note.rs] *)
Definition CREDIT_NOTE_UPSERT : string :=
  "INSERT INTO credit_notes (id, number, invoice_id, state, amount, currency, reason, " +:+
  "refund_ref, issued_at, created_at, metadata) VALUES (?, ?, ?, ?, ?, ?, ?, ?, ?, ?, ?) ON " +:+
  "CONFLICT (id) DO UPDATE SET number = excluded.number, invoice_id = excluded.invoice_id, " +:+
  "state = excluded.state, amount = excluded.amount, currency = excluded.currency, reason = " +:+
  "excluded.reason, refund_ref = excluded.refund_ref, issued_at = excluded.issued_at, metadata " +:+
  "= excluded.metadata".
Definition CREDIT_NOTE_SELECT : string :=
  "SELECT id, number, invoice_id, state, amount, currency, reason, refund_ref, issued_at, " +:+
  "created_at, metadata FROM credit_notes WHERE id = ?".
Definition CN_HISTORY_INSERT : string :=
  "INSERT INTO credit_note_state_history (id, credit_note_id, from_state, to_state, event, " +:+
  "actor, channel, bus_event_id, occurred_at, published_at, metadata) VALUES (?, ?, ?, ?, ?, " +:+
  "?, ?, ?, ?, ?, ?)".
Definition CN_HISTORY_SELECT : string :=
  "SELECT id, credit_note_id, from_state, to_state, event, actor, channel, bus_event_id, " +:+
  "occurred_at, published_at, metadata FROM credit_note_state_history WHERE credit_note_id = ? " +:+
  "ORDER BY occurred_at ASC".
Definition CN_HISTORY_PENDING : string :=
  "SELECT id, credit_note_id, from_state, to_state, event, actor, channel, bus_event_id, " +:+
  "occurred_at, published_at, metadata FROM credit_note_state_history WHERE published_at IS " +:+
  "NULL ORDER BY occurred_at ASC LIMIT ?".
Definition CN_HISTORY_PUBLISHED : string :=
  "UPDATE credit_note_state_history SET published_at = ? WHERE id = ?".

(** [repo/reminder.rs] *)
Definition REMINDER_UPSERT : string :=
  "INSERT INTO reminders (id, invoice_id, scheduled_at, sent_at, channel, state) VALUES (?, ?, " +:+
  "?, ?, ?, ?) ON CONFLICT (id) DO UPDATE SET invoice_id = excluded.invoice_id, scheduled_at = " +:+
  "excluded.scheduled_at, sent_at = excluded.sent_at, channel = excluded.channel, state = " +:+
  "excluded.state".
Definition REMINDER_SELECT : string :=
  "SELECT id, invoice_id, scheduled_at, sent_at, channel, state FROM reminders WHERE id = ?".
Definition REMINDERS_SELECT : string :=
  "SELECT id, invoice_id, scheduled_at, sent_at, channel, state FROM reminders WHERE " +:+
  "invoice_id = ? ORDER BY scheduled_at ASC".
Definition REMINDERS_DUE : string :=
  "SELECT id, invoice_id, scheduled_at, sent_at, channel, state FROM reminders WHERE state = " +:+
  "'scheduled' AND scheduled_at <= ? ORDER BY scheduled_at ASC".

(** [repo/schedule.rs] *)
Definition SCHEDULE_UPSERT : string :=
  "INSERT INTO schedules (id, customer_id, template_lines, currency, cadence, start_date, " +:+
  "end_date, auto_issue, next_run, last_run, state, metadata, created_at, updated_at) VALUES " +:+
  "(?, ?, ?, ?, ?, ?, ?, ?, ?, ?, ?, ?, ?, ?) ON CONFLICT (id) DO UPDATE SET customer_id = " +:+
  "excluded.customer_id, template_lines = excluded.template_lines, currency = " +:+
  "excluded.currency, cadence = excluded.cadence, start_date = excluded.start_date, end_date = " +:+
  "excluded.end_date, auto_issue = excluded.auto_issue, next_run = excluded.next_run, last_run " +:+
  "= excluded.last_run, state = excluded.state, metadata = excluded.metadata, updated_at = " +:+
  "excluded.updated_at".
Definition SCHEDULE_SELECT : string :=
  "SELECT id, customer_id, template_lines, currency, cadence, start_date, end_date, " +:+
  "auto_issue, next_run, last_run, state, metadata, created_at, updated_at FROM schedules " +:+
  "WHERE id = ?".
Definition SCHEDULES_DUE : string :=
  "SELECT id, customer_id, template_lines, currency, cadence, start_date, end_date, " +:+
  "auto_issue, next_run, last_run, state, metadata, created_at, updated_at FROM schedules " +:+
  "WHERE state = 'active' AND next_run <= ? ORDER BY next_run ASC".

(** [repo/send_idempotency.rs] *)
Definition SEND_SELECT : string :=
  "SELECT invoice_id, idempotency_key, history_id, delivered_to, created_at FROM " +:+
  "send_idempotency WHERE invoice_id = ? AND idempotency_key = ?".
Definition SEND_INSERT : string :=
  "INSERT INTO send_idempotency (invoice_id, idempotency_key, history_id, delivered_to, " +:+
  "created_at) VALUES (?, ?, ?, ?, ?)".

(** [repo/bus_inbox.rs] *)
Definition INBOX_EXISTS : string :=
  "SELECT event_id FROM bus_inbox WHERE event_id = ?".
Definition INBOX_INSERT : string :=
  "INSERT INTO bus_inbox (event_id, topic, source, received_at, payload_json, processed_at, " +:+
  "invoice_id) VALUES (?, ?, ?, ?, ?, ?, ?)".
Definition INBOX_PROCESSED : string :=
  "UPDATE bus_inbox SET processed_at = ? WHERE event_id = ?".
Definition INBOX_SELECT : string :=
  "SELECT event_id, topic, source, received_at, payload_json, processed_at, invoice_id FROM " +:+
  "bus_inbox WHERE event_id = ?".

(** [commands/src/issue.rs, credit.rs] *)
Definition INVOICE_COUNT : string :=
  "SELECT COUNT(*) AS c FROM invoices WHERE issued_at IS NOT NULL AND issued_at >= ? AND " +:+
  "issued_at < ?".
Definition CREDIT_NOTE_COUNT : string :=
  "SELECT COUNT(*) AS c FROM credit_notes WHERE issued_at IS NOT NULL AND issued_at >= ? AND " +:+
  "issued_at < ?".

(** The text as the source writes it. *)
Definition text (st : Statement) : string :=
  match st with
  | CustomerSave _ => CUSTOMER_UPSERT
  | CustomerGet _ => CUSTOMER_SELECT
  | CustomerList _ _ => CUSTOMER_LIST
  | InvoiceSave _ => INVOICE_UPSERT
  | InvoiceGet _ => invoice_select_columns
  | InvoiceByKey _ => INVOICE_BY_KEY
  | InvoiceList f => invoice_list_sql f
  | InvoiceDelete _ => INVOICE_DELETE
  | LineSave _ => LINE_UPSERT
  | LinesDelete _ => LINES_DELETE
  | LineInsert _ => LINE_INSERT
  | LinesOf _ => LINES_SELECT
  | HistorySave _ => HISTORY_INSERT
  | HistoryOf _ => HISTORY_SELECT
  | HistoryPending _ => HISTORY_PENDING
  | HistoryPublished _ _ => HISTORY_PUBLISHED
  | CreditNoteSave _ => CREDIT_NOTE_UPSERT
  | CreditNoteGet _ => CREDIT_NOTE_SELECT
  | CreditNoteList f => credit_note_list_sql f
  | CnHistorySave _ => CN_HISTORY_INSERT
  | CnHistoryOf _ => CN_HISTORY_SELECT
  | CnHistoryPending _ => CN_HISTORY_PENDING
  | CnHistoryPublished _ _ => CN_HISTORY_PUBLISHED
  | ReminderSave _ => REMINDER_UPSERT
  | ReminderGet _ => REMINDER_SELECT
  | RemindersOf _ => REMINDERS_SELECT
  | RemindersDue _ => REMINDERS_DUE
  | ScheduleSave _ => SCHEDULE_UPSERT
  | ScheduleGet _ => SCHEDULE_SELECT
  | ScheduleList f => schedule_list_sql f
  | SchedulesDue _ => SCHEDULES_DUE
  | SendFind _ _ => SEND_SELECT
  | SendInsert _ => SEND_INSERT
  | InboxExists _ => INBOX_EXISTS
  | InboxInsert _ => INBOX_INSERT
  | InboxProcessed _ _ => INBOX_PROCESSED
  | InboxGet _ => INBOX_SELECT
  | InvoiceCount _ => INVOICE_COUNT
  | CreditNoteCount _ => CREDIT_NOTE_COUNT
  end.

Definition cid {e} (i : EntityId e) : cell := CText (id_to_string i).
Definition bind_if {A} (f : A → cell) (o : option A) : list cell :=
  match o with Some a => [f a] | None => [] end.
Definition year_binds (year : Z) : list cell :=
  [CText (show_Z_pad 4 year +:+ "-01-01T00:00:00Z"); CText (show_Z_pad 4 (year + 1) +:+ "-01-01T00:00:00Z")].

(** The values in the order they are bound. *)
Definition binds (st : Statement) : list cell :=
  match st with
  | CustomerSave c => row_binds c
  | CustomerGet i => [cid i]
  | CustomerList limit offset => [CInt limit; CInt offset]
  | InvoiceSave i => row_binds i
  | InvoiceGet i | InvoiceDelete i | LinesDelete i | LinesOf i | HistoryOf i | RemindersOf i => [cid i]
  | InvoiceByKey key => [CText key]
  | InvoiceList f =>
      bind_if cid (if_customer_id f) ++ bind_if (λ s, CText (state_to_str s)) (if_state f) ++
      bind_if CInt (if_limit f) ++ bind_if CInt (if_offset f)
  | LineSave l | LineInsert l => row_binds l
  | HistorySave h => row_binds h
  | HistoryPending limit | CnHistoryPending limit => [CInt limit]
  | HistoryPublished now i | CnHistoryPublished now i => [CText (ts_to_string now); cid i]
  | CreditNoteSave n => row_binds n
  | CreditNoteGet i | CnHistoryOf i => [cid i]
  | CreditNoteList f =>
      bind_if cid (cf_invoice_id f) ++ bind_if (λ s, CText (cn_state_to_str s)) (cf_state f) ++
      bind_if CInt (cf_limit f) ++ bind_if CInt (cf_offset f)
  | CnHistorySave h => row_binds h
  | ReminderSave r => row_binds r
  | ReminderGet i => [cid i]
  | RemindersDue cutoff => [CText (ts_to_string cutoff)]
  | ScheduleSave s => row_binds s
  | ScheduleGet i => [cid i]
  | ScheduleList f =>
      bind_if cid (sf_customer_id f) ++ bind_if (λ s, CText (schedule_state_to_str s)) (sf_state f) ++
      bind_if CInt (sf_limit f) ++ bind_if CInt (sf_offset f)
  | SchedulesDue cutoff => [CText (nd_to_string cutoff)]
  | SendFind i key => [cid i; CText key]
  | SendInsert r => row_binds r
  | InboxExists event_id | InboxGet event_id => [CText event_id]
  | InboxInsert r => row_binds r
  | InboxProcessed now event_id => [CText (ts_to_string now); CText event_id]
  | InvoiceCount year | CreditNoteCount year => year_binds year
  end.

(** What is sent: the repositories rewrite, the two counts of the commands go
    to the pool as they are written. *)
Definition counts (st : Statement) : bool :=
  match st with InvoiceCount _ | CreditNoteCount _ => true | _ => false end.
Definition sent (b : Backend) (st : Statement) : string :=
  if counts st then text st else rewrite b (text st).
End statements.

(** ** Every backend reads the same statement *)

(** The form of a writing statement, from its table, its columns and the columns
    an existing row takes over. *)
Definition insert_text (table : string) (columns : list string) : string :=
  "INSERT INTO " +:+ table +:+ " (" +:+ String.concat ", " columns +:+ ") VALUES ("
  +:+ String.concat ", " ((λ _, "?") <$> columns) +:+ ")".
Definition upsert_text (set : list string) : string :=
  " ON CONFLICT (id) DO UPDATE SET " +:+ String.concat ", " ((λ c, c +:+ " = excluded." +:+ c) <$> set).

Section portability.
Context {P : Platform} {S : Serde}.

(** The table, the columns and the updated columns of what writes a record. *)
Definition written (st : Statement) : option (string * list string * option (list string)) :=
  match st with
  | CustomerSave _ => Some ("customers", CUSTOMER_COLUMNS, Some CUSTOMER_SET)
  | InvoiceSave _ => Some ("invoices", INVOICE_COLUMNS, Some INVOICE_SET)
  | LineSave _ => Some ("invoice_lines", LINE_COLUMNS, Some LINE_SET)
  | LineInsert _ => Some ("invoice_lines", LINE_COLUMNS, None)
  | HistorySave _ => Some ("invoice_state_history", HISTORY_COLUMNS, None)
  | CreditNoteSave _ => Some ("credit_notes", CREDIT_NOTE_COLUMNS, Some CREDIT_NOTE_SET)
  | CnHistorySave _ => Some ("credit_note_state_history", CN_HISTORY_COLUMNS, None)
  | ReminderSave _ => Some ("reminders", REMINDER_COLUMNS, Some REMINDER_SET)
  | ScheduleSave _ => Some ("schedules", SCHEDULE_COLUMNS, Some SCHEDULE_SET)
  | SendInsert _ => Some ("send_idempotency", SEND_COLUMNS, None)
  | InboxInsert _ => Some ("bus_inbox", INBOX_COLUMNS, None)
  | _ => None
  end.

(** Cases of a statement, the listings by the filters that are set. *)
Ltac cases_statement st :=
  destruct st; try match goal with f : InvoiceFilter |- _ => destruct f as [[] [] [] []] end;
  try match goal with f : CreditNoteFilter |- _ => destruct f as [[] [] [] []] end;
  try match goal with f : ScheduleFilter |- _ => destruct f as [[] [] [] []] end.

Lemma text_portable st : portable false (text st) = true.
Proof. cases_statement st; vm_compute; reflexivity. Qed.
Lemma text_args st : args (reads Sqlite (text st)) = N.of_nat <$> seq 1 (length (binds st)).
Proof. cases_statement st; vm_compute; reflexivity. Qed.
Lemma text_written st table columns set :
  written st = Some (table, columns, set) →
  text st = insert_text table columns +:+ from_option upsert_text "" set ∧ length columns = length (binds st).
Proof. destruct st; intros [= <- <- <-]; split; vm_compute; reflexivity. Qed.
Lemma counts_unread st : counts st = true → args (reads Postgres (text st)) = [] ∧ length (binds st) = 2%nat.
Proof. by destruct st. Qed.

(** C15: a statement is the same on every backend: what PostgreSQL, MySQL and SQLite
    read in the text that a repository sends them is the same text with the same
    parameters at the same places, the parameters are numbered as the values are
    bound and there is one for each of them, and what writes a record lists the
    columns of its row; but the two counts that issuing an invoice or a credit
    note needs are sent as they are written, and in those PostgreSQL reads no
    parameter at all where two values are bound. *)
Theorem statements_portable b st :
  (if counts st && bool_decide (b = Postgres)
   then args (reads b (sent b st)) = [] ∧ length (binds st) = 2%nat
   else reads b (sent b st) = reads Sqlite (text st) ∧
        args (reads b (sent b st)) = N.of_nat <$> seq 1 (length (binds st))) ∧
  (∀ table columns set, written st = Some (table, columns, set) →
     text st = insert_text table columns +:+ from_option upsert_text "" set ∧ length columns = length (binds st)).
Proof.
  split; [|apply text_written]. unfold sent.
  assert (reads b (rewrite b (text st)) = reads Sqlite (text st)) as E by apply rewrite_reads, text_portable.
  destruct (counts st) eqn:Ec; cbn [andb]; [|by rw E text_args].
  case_bool_decide as Hb; [subst; by apply counts_unread|].
  assert (rewrite b (text st) = text st) as Er by (by destruct b).
  rw Er in E. by rw E text_args.
Qed.
End portability.
