(* ===== verification/Interleave.v ===== *)
(** * Commands that run at the same time

    The server runs its requests, ticks and deliveries as tasks of one runtime:
    they take turns at their interactions.  A pool of tasks steps one
    interaction of one task at a time; whatever the order, the constraints of
    the schema hold and nothing recorded is lost, invoice lines apart, which
    issuing removes and writes anew.  What a command read may be
    stale by the time it writes: two payments at the same time can lose one. *)

From S2P Require Import Prelude Rounding External Concrete Money Ids Domain InvoiceFsm CreditNoteFsm Events Tax.
From S2P Require Import Store Codec ConcreteJson Render Command Effects Transition Invariant Evolution World Numbering.
From S2P Require Import Fixtures Draft Pay Void Issue Send Credit Overdue Reminders Schedules Outbox Consumer.
From S2P Require Import SignedLink View Transactions System.

(** ** The constraints of the schema *)

Section schema.
Context `{P : Platform}.
Implicit Types (d : Db) (f : Db → SR Db).

Record schema_ok d : Prop := {
  so_invoices : map_Forall (λ k i, k = id_to_string (inv_id i) ∧
    is_Some (customers d !! id_to_string (inv_customer_id i))) (invoices d);
  so_number : unique_by inv_number (invoices d);
  so_idempotency : unique_by inv_idempotency_key (invoices d);
  so_lines : map_Forall (λ k l, k = id_to_string (line_id l) ∧
    is_Some (invoices d !! id_to_string (line_invoice_id l))) (invoice_lines d);
  so_positions k1 k2 l1 l2 : invoice_lines d !! k1 = Some l1 → invoice_lines d !! k2 = Some l2 →
    id_to_string (line_invoice_id l1) = id_to_string (line_invoice_id l2) →
    line_position l1 = line_position l2 → k1 = k2;
  so_credit_notes : map_Forall (λ k n, k = id_to_string (cn_id n) ∧
    is_Some (invoices d !! id_to_string (cn_invoice_id n))) (credit_notes d);
  so_cn_number : unique_by cn_number (credit_notes d);
  so_sends : map_Forall (λ k r, k = (id_to_string (si_invoice_id r), si_idempotency_key r) ∧
    is_Some (invoices d !! id_to_string (si_invoice_id r))) (send_idempotency d);
  so_reminders : map_Forall (λ k r, k = id_to_string (rem_id r) ∧
    is_Some (invoices d !! id_to_string (rem_invoice_id r))) (reminders d);
  so_schedules : map_Forall (λ k s, k = id_to_string (sch_id s) ∧
    is_Some (customers d !! id_to_string (sch_customer_id s))) (schedules d);
  so_history : NoDup ((id_to_string ∘ h_id) <$> invoice_state_history d) ∧
    Forall (λ h, is_Some (invoices d !! id_to_string (h_invoice_id h))) (invoice_state_history d);
  so_cn_history : NoDup ((id_to_string ∘ cnh_id) <$> credit_note_state_history d) ∧
    Forall (λ h, is_Some (credit_notes d !! id_to_string (cnh_credit_note_id h))) (credit_note_state_history d);
}.

(** What a quiescent store satisfies, with the positions of the lines. *)
Lemma db_schema_ok d :
  db_ok d →
  (∀ k1 k2 l1 l2, invoice_lines d !! k1 = Some l1 → invoice_lines d !! k2 = Some l2 →
    id_to_string (line_invoice_id l1) = id_to_string (line_invoice_id l2) →
    line_position l1 = line_position l2 → k1 = k2) → schema_ok d.
Proof.
  intros Hd Hp. split; try done; try apply Hd.
  - intros k i Hi. split; [by apply (ok_invoice_key _ Hd)|]. by eapply ok_invoice_customer.
  - intros k l Hl. by apply (ok_line _ Hd).
  - intros k n Hn. split; [by apply (ok_cn_key _ Hd)|by eapply ok_cn_invoice].
  - intros k r Hr. by apply (ok_send _ Hd).
  - intros k r Hr. by apply (ok_reminder _ Hd).
  - intros k s Hs. by apply (ok_schedule _ Hd).
  - split; [apply Hd|]. apply Forall_forall. intros h Hh. by apply (ok_no_orphan _ Hd), list_elem_of_In.
  - split; [apply Hd|]. apply Forall_forall. intros h Hh. by apply (ok_cn_no_orphan _ Hd), list_elem_of_In.
Qed.

(** Nothing recorded is removed: rows of the keyed tables may be rewritten, the
    history tables only grow, a recorded send stays as it is.  The lines are not
    here: issuing removes the lines of an invoice and writes them anew. *)
Record nothing_lost d d' : Prop := {
  kt_customers : dom (customers d) ⊆ dom (customers d');
  kt_invoices : dom (invoices d) ⊆ dom (invoices d');
  kt_credit_notes : dom (credit_notes d) ⊆ dom (credit_notes d');
  kt_reminders : dom (reminders d) ⊆ dom (reminders d');
  kt_schedules : dom (schedules d) ⊆ dom (schedules d');
  kt_history : grows row_kept (invoice_state_history d) (invoice_state_history d');
  kt_cn_history : grows cn_row_kept (credit_note_state_history d) (credit_note_state_history d');
  kt_sends : send_idempotency d ⊆ send_idempotency d';
  kt_inbox : dom (bus_inbox d) ⊆ dom (bus_inbox d');
}.
#[export] Instance nothing_lost_preorder : PreOrder nothing_lost.
Proof.
  split; [intros d; by split|]. intros d1 d2 d3 [] []. split; by etrans.
Qed.

(** A transaction that keeps both, whatever it is asked to write. *)
Definition sound f : Prop := ∀ d d', f d = Ok d' → nothing_lost d d' ∧ (schema_ok d → schema_ok d').

Lemma sound_ok : sound Ok.
Proof. by intros d d' [= <-]. Qed.
Lemma sound_bind f g : sound f → sound g → sound (λ d, d ← f d; g d).
Proof.
  intros Hf Hg d d' H. destruct (f d) as [d1|e|] eqn:E; [|done..].
  destruct (Hf _ _ E) as [K1 S1], (Hg _ _ H) as [K2 S2]. split; [by etrans|auto].
Qed.
Lemma sound_foldM {A} (f : Db → A → SR Db) l :
  (∀ a, sound (λ d, f d a)) → sound (λ d, res_foldM f d l).
Proof.
  intros Hf. induction l as [|a l IH]; [apply sound_ok|]. cbn [res_foldM].
  by apply (sound_bind (λ d, f d a) (λ d, res_foldM f d l)).
Qed.

Lemma is_Some_insert {K A} `{Countable K} (m : gmap K A) k v k' :
  is_Some (m !! k') → is_Some (<[k := v]> m !! k').
Proof. rw lookup_insert_is_Some. destruct (decide (k = k')); auto. Qed.

Lemma dom_insert_keeps {K A} `{Countable K} (m : gmap K A) k v : dom m ⊆ dom (<[k := v]> m).
Proof. rw dom_insert_L. set_solver. Qed.
(** Rows of another table that point to one that was written. *)
Lemma points_insert {K A B} `{Countable K} (key : K → B → Prop) (to : B → string) (m : gmap K B)
    (t : gmap string A) k v :
  map_Forall (λ x b, key x b ∧ is_Some (t !! to b)) m →
  map_Forall (λ x b, key x b ∧ is_Some (<[k := v]> t !! to b)) m.
Proof. intros Hm x b Hb. destruct (Hm x b Hb). split; [done|by apply is_Some_insert]. Qed.
End schema.

(** A transaction on one table: the other fields of both carry over. *)
Ltac carry H := first [exact (so_invoices _ H)|exact (so_number _ H)|exact (so_idempotency _ H)|
  exact (so_lines _ H)|exact (so_positions _ H)|exact (so_credit_notes _ H)|exact (so_cn_number _ H)|
  exact (so_sends _ H)|exact (so_reminders _ H)|exact (so_schedules _ H)|exact (so_history _ H)|
  exact (so_cn_history _ H)].
Ltac sound_split := intros; split; [split; cbn; try done|intros Hd; split; cbn; try carry Hd].

Section schema_writes.
Context `{P : Platform}.
Implicit Types (d : Db) (f : Db → SR Db).

Lemma customer_save_sound c : sound (customer_save c).
Proof.
  intros d d' [= <-]. sound_split.
  - apply dom_insert_keeps.
  - by apply points_insert, so_invoices.
  - by apply points_insert, so_schedules.
Qed.
Lemma invoice_save_sound i : sound (invoice_save_in_tx i).
Proof.
  intros d d' H. apply invoice_save_in_tx_ok in H as (-> & [c Hc] & Hn & Hk).
  destruct (invoice_upserted_eq (invoices d !! id_to_string (inv_id i)) i) as (Eid & Enum & Ekey & Ecust & _).
  sound_split.
  - apply dom_insert_keeps.
  - apply map_Forall_insert_2; [|apply Hd]. rw Eid Ecust. split; [done|by exists c].
  - apply unique_by_insert; [apply Hd|]. intros k' a Hne Ha. rw Enum. by eapply Hn.
  - apply unique_by_insert; [apply Hd|]. intros k' a Hne Ha. rw Ekey. by eapply Hk.
  - by apply points_insert, so_lines.
  - by apply points_insert, so_credit_notes.
  - by apply points_insert, so_sends.
  - by apply points_insert, so_reminders.
  - destruct (so_history _ Hd) as [? Hh]. split; [done|]. eapply Forall_impl; [exact Hh|].
    intros. by apply is_Some_insert.
Qed.
Lemma history_save_sound h : sound (history_save_in_tx h).
Proof.
  intros d d' H. apply history_save_in_tx_ok in H as (-> & Hid & i & Hi). sound_split.
  - apply grows_snoc, _.
  - destruct (so_history _ Hd) as [Hnd Hh]. split.
    + rw fmap_app. apply NoDup_app. split; [done|]. split; [|apply NoDup_singleton].
      intros x Hx ->%list_elem_of_singleton. done.
    + apply Forall_app_2; [done|]. by repeat constructor; exists i.
Qed.
Lemma cn_save_sound n : sound (cn_save_in_tx n).
Proof.
  intros d d' H. apply cn_save_in_tx_ok in H as (-> & [i Hi] & Hn).
  destruct (cn_upserted_eq (credit_notes d !! id_to_string (cn_id n)) n) as (Eid & Enum & Einv & _).
  sound_split.
  - apply dom_insert_keeps.
  - apply map_Forall_insert_2; [|apply Hd]. rw Eid Einv. split; [done|by exists i].
  - apply unique_by_insert; [apply Hd|]. intros k' a Hne Ha. rw Enum. by eapply Hn.
  - destruct (so_cn_history _ Hd) as [? Hh]. split; [done|]. eapply Forall_impl; [exact Hh|].
    intros. by apply is_Some_insert.
Qed.
Lemma cn_history_save_sound h : sound (cn_history_save_in_tx h).
Proof.
  intros d d' H. assert (is_Some (credit_notes d !! id_to_string (cnh_credit_note_id h))) as Hn.
  { unfold cn_history_save_in_tx in H. destruct (existsb _ _); [done|].
    destruct (cn_get _ d) eqn:E; [by eexists|done]. }
  apply cn_history_save_in_tx_ok in H as (-> & Hid). sound_split.
  - apply grows_snoc, _.
  - destruct (so_cn_history _ Hd) as [Hnd Hh]. split; [|by apply Forall_app_2; [|by repeat constructor]].
    rw fmap_app. apply NoDup_app. split; [done|]. split; [|apply NoDup_singleton].
    intros x Hx ->%list_elem_of_singleton. done.
Qed.
Lemma line_insert_sound l : sound (λ d, line_insert d l).
Proof.
  intros d d' H. assert (∀ k' l', k' ≠ id_to_string (line_id l) → invoice_lines d !! k' = Some l' →
    id_to_string (line_invoice_id l') = id_to_string (line_invoice_id l) →
    line_position l' = line_position l → False) as Hpos.
  { intros k' l' Hne Hl' Ei Ep. unfold line_insert, line_save_in_tx in H.
    destruct (invoice_lines d !! _); [done|]. destruct (line_clash _ _) eqn:E; [done|].
    eapply (existsb_others_false (λ l', String.eqb (id_to_string (line_invoice_id l')) _ && (line_position l' =? _)))
      in E; [|done..]. rewrite -> Ei, Ep, String.eqb_refl, Z.eqb_refl in E. done. }
  apply line_insert_ok in H as (-> & Hfresh & i & Hi). sound_split.
  - apply map_Forall_insert_2; [|apply Hd]. split; [done|by exists i].
  - intros k1 k2 l1 l2. rw !lookup_insert_Some. intros [[<- <-]|[? H1]] [[<- <-]|[? H2]] Ei Ep; [done|..].
    + exfalso. by eapply Hpos.
    + exfalso. by eapply Hpos.
    + by eapply so_positions.
Qed.
Lemma replace_lines_sound i ls : sound (replace_for_invoice_in_tx i ls).
Proof.
  apply (sound_bind (λ d, Ok (set_invoice_lines
    (filter (λ kv, id_to_string (line_invoice_id kv.2) ≠ id_to_string i) (invoice_lines d)) d))
    (λ d, res_foldM line_insert d ls)); [|apply sound_foldM, line_insert_sound].
  intros d d' [= <-]. sound_split.
  - intros k l [Hl _]%map_lookup_filter_Some. by apply (so_lines _ Hd).
  - intros k1 k2 l1 l2 [H1 _]%map_lookup_filter_Some [H2 _]%map_lookup_filter_Some. by eapply so_positions.
Qed.
Lemma send_insert_sound r : sound (send_idempotency_insert_in_tx r).
Proof.
  intros d d'. unfold send_idempotency_insert_in_tx. destruct (send_idempotency d !! _) eqn:E; [done|].
  destruct (invoice_get _ d) eqn:Ei; [|done]. intros [= <-]. sound_split.
  - by apply insert_subseteq.
  - apply map_Forall_insert_2; [|apply Hd]. split; [done|by eexists].
Qed.
Lemma reminder_save_sound r : sound (reminder_save r).
Proof.
  intros d d'. unfold reminder_save. destruct (invoice_get _ d) eqn:Ei; [|done]. intros [= <-]. sound_split.
  - apply dom_insert_keeps.
  - apply map_Forall_insert_2; [|apply Hd]. split; [done|by eexists].
Qed.
Lemma schedule_save_sound s : sound (schedule_save s).
Proof.
  intros d d'. unfold schedule_save. destruct (customer_get _ d) eqn:Ei; [|done]. intros [= <-]. sound_split.
  - apply dom_insert_keeps.
  - apply map_Forall_insert_2; [|apply Hd]. destruct (schedules d !! _); cbn; (split; [done|by eexists]).
Qed.
Lemma inbox_insert_sound r : sound (inbox_insert r).
Proof.
  intros d d'. unfold inbox_insert. destruct (bus_inbox d !! _); [done|]. intros [= <-]. sound_split.
  apply dom_insert_keeps.
Qed.
Lemma inbox_mark_sound now id : sound (λ d, Ok (inbox_mark_processed now id d)).
Proof. intros d d' [= <-]. sound_split. by rw dom_alter_L. Qed.

(** Marking changes [published_at] of some rows. *)
Lemma mark_rows {A} (R : relation A) `{!Reflexive R} (p : A → bool) (g : A → A) l :
  (∀ a, R a (g a)) → grows R l ((λ a, if p a then g a else a) <$> l).
Proof.
  intros Hg. exists ((λ a, if p a then g a else a) <$> l), []. rw app_nil_r. split; [done|].
  apply Forall2_fmap_r, Forall_Forall2_diag, Forall_true. intros a. cbn. destruct (p a); [apply Hg|reflexivity].
Qed.
Lemma mark_ids {A B} (f : A → B) (p : A → bool) (g : A → A) (l : list A) :
  (∀ a, f (g a) = f a) → f <$> ((λ a, if p a then g a else a) <$> l) = f <$> l.
Proof. intros Hg. rw -list_fmap_compose. apply list_fmap_ext. intros i a _. cbn. by destruct (p a). Qed.
Lemma mark_Forall {A} (Q : A → Prop) (p : A → bool) (g : A → A) l :
  (∀ a, Q a → Q (g a)) → Forall Q l → Forall Q ((λ a, if p a then g a else a) <$> l).
Proof. intros Hg Hl. apply Forall_fmap. eapply Forall_impl; [exact Hl|]. intros a Ha. cbn. destruct (p a); auto. Qed.
Lemma mark_published_sound now id : sound (λ d, Ok (history_mark_published now id d)).
Proof.
  intros d d' [= <-]. sound_split.
  - apply mark_rows; [apply _|]. intros h. right. by eexists.
  - destruct (so_history _ Hd) as [Hnd Hh]. split; [by rw mark_ids|by apply mark_Forall].
Qed.
Lemma cn_mark_published_sound now id : sound (λ d, Ok (cn_history_mark_published now id d)).
Proof.
  intros d d' [= <-]. sound_split.
  - apply mark_rows; [apply _|]. intros h. right. by eexists.
  - destruct (so_cn_history _ Hd) as [Hnd Hh]. split; [by rw mark_ids|by apply mark_Forall].
Qed.

(** The transactions of the commands. *)
Lemma save_transition_sound i h : sound (save_transition i h).
Proof. apply sound_bind; [apply invoice_save_sound|apply history_save_sound]. Qed.
Lemma save_all_sound i ls h : sound (save_all i ls h).
Proof.
  apply (sound_bind _ (λ d, d ← replace_for_invoice_in_tx (inv_id i) ls d; history_save_in_tx h d));
    [apply invoice_save_sound|]. apply sound_bind; [apply replace_lines_sound|apply history_save_sound].
Qed.
Lemma save_cn_transition_sound n h : sound (save_cn_transition n h).
Proof. apply sound_bind; [apply cn_save_sound|apply cn_history_save_sound]. Qed.
Lemma save_send_sound i h key dest now : sound (save_send i h key dest now).
Proof.
  apply (sound_bind _ (λ d, d ← history_save_in_tx h d; _)); [apply invoice_save_sound|].
  apply (sound_bind _ (λ d, _)); [apply history_save_sound|].
  destruct key; [apply send_insert_sound|apply sound_ok].
Qed.
End schema_writes.

(** ** Every command keeps both *)

Section steps.
Context `{P : Platform}.

(** An interaction that loses nothing and keeps the constraints. *)
Definition schema_step (w w' : World) : Prop :=
  nothing_lost (w_db w) (w_db w') ∧ (schema_ok (w_db w) → schema_ok (w_db w')).
Lemma sound_commits f : sound f → commits schema_step f.
Proof. intros Hf w d Hd. exact (Hf _ _ Hd). Qed.
#[export] Instance schema_transactions : Transactions schema_step.
Proof.
  split.
  - intros w w' [E _]. unfold schema_step. by rw E.
  - intros. apply sound_commits, customer_save_sound.
  - intros. apply sound_commits, save_transition_sound.
  - intros. apply sound_commits, save_all_sound.
  - intros. apply sound_commits, save_cn_transition_sound.
  - intros. apply sound_commits, save_send_sound.
  - intros. apply sound_commits, reminder_save_sound.
  - intros. apply sound_commits, inbox_insert_sound.
  - intros. apply sound_commits, inbox_mark_sound.
  - intros. apply sound_commits, mark_published_sound.
  - intros. apply sound_commits, cn_mark_published_sound.
Qed.
#[export] Instance schema_schedules : SavesSchedules schema_step.
Proof. intros s. apply sound_commits, schedule_save_sound. Qed.
End steps.
Notation holds := (holds_by schema_step).
Notation moves := (moves_by schema_step).

Section commands.
Context {P : Platform} {T : Tera} {S : Serde} {C : Crypto}.

Lemma moves_perform ctx c : moves (perform ctx c).
Proof.
  destruct c; cbn [perform]; unfold forget; walk_moves.
Qed.
End commands.

(** ** A pool of tasks *)

Section pool.
Context {P : Platform} {T : Tera} {S : Serde} {C : Crypto}.

(** A command starts, or one task does its next interaction; a task that is never
    chosen again is one that was killed. *)
Inductive pool_step : World * list (prog ()) → World * list (prog ()) → Prop :=
  | pool_spawn ctx c w ts : pool_step (w, ts) (w, ts ++ [perform ctx c])
  | pool_act E i X (f : Env → World → World * X) k w ts :
      ts !! i = Some (Act f k) → pool_step (w, ts) ((f E w).1, <[i := k (f E w).2]> ts).
Definition pool_steps : World * list (prog ()) → World * list (prog ()) → Prop := rtc pool_step.

Lemma pool_sound w ts w' ts' :
  pool_steps (w, ts) (w', ts') → Forall moves ts →
  nothing_lost (w_db w) (w_db w') ∧ (schema_ok (w_db w) → schema_ok (w_db w')).
Proof.
  intros H Hts. remember (w, ts) as p eqn:Ep. remember (w', ts') as p' eqn:Ep'.
  revert w ts Ep Hts. induction H as [p|p p1 p2 Hs _ IH]; intros w ts -> Hts.
  - injection Ep' as <- <-. done.
  - specialize (IH Ep'). inversion Hs as [ctx c w0 ts0|E i X f k w0 ts0 Hi]; subst.
    + apply (IH _ _ eq_refl). apply Forall_app_2; [done|]. constructor; [apply moves_perform|constructor].
    + assert (moves (Act f k)) as [Hf Hk]%moves_inv by (by eapply Forall_lookup_1).
      destruct (IH _ _ eq_refl) as [K2 S2]; [by apply Forall_insert|].
      destruct (Hf E w) as [K1 S1]. split; [by etrans|auto].
Qed.

(** Commands may run at the same time: whatever commands start, and however
    their interactions interleave, what the store guarantees by itself is kept:
    numbers, idempotency keys and line positions stay unique, every reference
    points to a row, no row of any table is lost, the history rows are only
    appended and marked published, and a recorded send stays as it is. *)
Lemma interleaved_commands_keep_schema w w' ts :
  schema_ok (w_db w) → pool_steps (w, []) (w', ts) →
  schema_ok (w_db w') ∧ nothing_lost (w_db w) (w_db w').
Proof. intros Hw H. destruct (pool_sound _ _ _ _ H) as [? ?]; [constructor|]. auto. Qed.

(** Running one task to its end is one way to go on. *)
Definition ended {A} (r : res CoreError A) : prog A :=
  match r with Ok a => Ret a | Err e => Throw e | Panic => Crash end.
Lemma pool_runs E i p w ts :
  ts !! i = Some p → pool_steps (w, ts) ((run E p w).1, <[i := ended (run E p w).2]> ts).
Proof.
  revert w ts. induction p as [a|e| |X f k IH]; intros w ts Hi; cbn [run fst snd ended];
    try (rw list_insert_id; [done|apply rtc_refl]).
  eapply rtc_l; [by eapply (pool_act E)|]. destruct (f E w) as [w1 x]. cbn [fst snd].
  pose proof (IH x w1 (<[i := k x]> ts)) as H. rewrite -> list_insert_insert_eq in H.
  apply H, list_lookup_insert_eq. by eapply lookup_lt_Some.
Qed.
End pool.

(** ** Two payments at the same time *)

Section payments.
Context {P : Platform} {L : PlatformLaws P} {T : Tera} {S : Serde} {C : Crypto}.

(** The task that has read the invoice and not yet written. *)
Lemma pool_reads E ctx input w ts i i0 :
  (∀ n, env_db_ok E n = true) → (0 < val (mp_amount input))%Q →
  invoice_get (mp_invoice_id input) (w_db w) = Some i0 →
  ts !! i = Some (perform ctx (MarkPaid input)) →
  pool_steps (w, ts) (tick w, <[i := forget (pay_found ctx input i0)]> ts).
Proof.
  intros HE Hpos Hg Hi. cbn [perform] in Hi. rewrite -> mark_paid_found in Hi by done.
  unfold forget, db_query in Hi. cbn in Hi. eapply rtc_once.
  match type of Hi with _ = Some (Act ?f ?k) => pose proof (pool_act E i _ f k w ts Hi) as Hs end.
  cbn in Hs. rewrite -> HE in Hs. cbn in Hs. rewrite -> Hg in Hs. exact Hs.
Qed.

Lemma run_forget {A} E (p : prog A) w :
  run E (forget p) w = ((run E p w).1, match (run E p w).2 with Ok _ => Ok () | Err e => Err e | Panic => Panic end).
Proof. unfold forget. rw run_bind. by destruct (run E p w) as [w' []]. Qed.

(** C32: commands that run at the same time can lose a payment: two payments on an
    open invoice, each valid by itself, interleave so that both are accepted and
    both are in the history, each from the same state, but the amount paid grows
    by the second only.  The second had read the invoice before the first wrote
    it, and nothing checks that the row is still the one that was read. *)
Theorem concurrent_payment_lost E ctx a b w i0 :
  world_ok w → (∀ n, env_db_ok E n = true) →
  invoice_get (mp_invoice_id a) (w_db w) = Some i0 → mp_invoice_id b = mp_invoice_id a →
  payable (inv_state i0) → (0 < val (mp_amount a))%Q → (0 < val (mp_amount b))%Q →
  representable (val (inv_amount_paid i0) + val (mp_amount a)) →
  representable (val (inv_amount_paid i0) + val (mp_amount b)) →
  ∃ w' i ha hb,
    pool_steps (w, [perform ctx (MarkPaid a); perform ctx (MarkPaid b)]) (w', [Ret (); Ret ()]) ∧
    invoice_get (mp_invoice_id a) (w_db w') = Some i ∧
    (val (inv_amount_paid i) == val (inv_amount_paid i0) + val (mp_amount b))%Q ∧
    invoice_state_history (w_db w') = invoice_state_history (w_db w) ++ [ha; hb] ∧
    h_invoice_id ha = inv_id i0 ∧ h_invoice_id hb = inv_id i0 ∧
    h_from_state ha = Some (inv_state i0) ∧ h_from_state hb = Some (inv_state i0) ∧
    h_metadata ha = {[ "amount" := dec_to_string (mp_amount a) ]} ∧
    h_metadata hb = {[ "amount" := dec_to_string (mp_amount b) ]}.
Proof.
  intros Hw HE Hg Eid Hs Ha Hb Hra Hrb.
  assert (world_ok (tick w)) as Hw1 by (eapply world_ok_stable; [apply same_db_tick|done]).
  (* the first payment runs once the second has read *)
  destruct (mark_paid_goes_through E ctx a (tick w) i0) as (w2 & out & Er & _); [done..|].
  pose proof (run_mark_paid E ctx a (tick w)) as Hp. rewrite -> Er in Hp.
  destruct Hp as (i0' & now & hid & Hg' & _ & Hpay & Ed). cbn in Hg'.
  assert (i0' = i0) as -> by congruence. clear Hg'.
  assert (world_ok w2) as Hw2.
  { pose proof (safe_run (ok_since (w_db (tick w))) E (mark_paid ctx a) (tick w)) as Hsafe.
    rewrite -> Er in Hsafe. eapply os_ok, Hsafe, mark_paid_since. by apply ok_since_refl. }
  set (ia := mpo_invoice out) in *.
  assert (inv_id ia = inv_id i0 ∧ inv_number ia = inv_number i0 ∧ inv_idempotency_key ia = inv_idempotency_key i0 ∧
    inv_customer_id ia = inv_customer_id i0) as (E1 & E2 & E3 & E4) by (by rw (po_rest _ _ _ _ _ Hpay)).
  pose proof (invoice_get_id _ _ _ (wo_db _ Hw) Hg) as Hg0.
  assert (∃ i1, invoice_get (inv_id i1) (w_db w2) = Some i1 ∧ inv_id i0 = inv_id i1 ∧
    inv_number i0 = inv_number i1 ∧ inv_idempotency_key i0 = inv_idempotency_key i1 ∧
    inv_customer_id i0 = inv_customer_id i1) as (i1 & Hg1 & F1 & F2 & F3 & F4).
  { exists (invoice_upserted (invoices (w_db w) !! id_to_string (inv_id ia)) ia).
    destruct (invoice_upserted_eq (invoices (w_db w) !! id_to_string (inv_id ia)) ia) as (-> & -> & -> & -> & _).
    rw Ed E1 E2 E3 E4. split; [|done]. unfold invoice_get. cbn. rw E1. apply lookup_insert_eq. }
  (* the second goes on from what it read *)
  destruct (payment_accepted w b i0) as (ab & s & Eab & Hvab & Es); [done|by rw Eid|done..|].
  pose proof (pay_found_goes_through E ctx b w2 i0 i1 ab s Hw2 HE Hg1 F1 F2 F3 F4 Eab Es) as Hrun.
  apply wpc_end in Hrun as (now' & hid' & Er' & Ed').
  destruct (pay_mutate_fields i0 ab s now') as (Eab' & _ & _ & Eib & _).
  pose proof (ok_invoice_key _ (wo_db _ Hw) _ _ Hg) as Ekey.
  eexists _, _, _, _. split; [|split; [|split; [|split; [|split]]]].
  - etrans; [eapply (pool_reads E ctx b w _ 1); [done|done|by rw Eid|done]|].
    etrans; [apply (pool_runs E 0); done|]. cbn [perform]. rw run_forget Er. cbn [fst snd ended].
    etrans; [apply (pool_runs E 1); done|]. rw run_forget Er'. cbn. apply rtc_refl.
  - rw Ed'. unfold invoice_get. cbn [invoices written set_history set_invoices].
    rw Ekey Eib. apply lookup_insert_eq.
  - by destruct (invoices (w_db w2) !! _); cbn; rw Eab'.
  - rw Ed' Ed. cbn. by rw -app_assoc.
  - done.
  - done.
Qed.
End payments.

(** ** Witnesses *)

#[local] Existing Instance Concrete.platform.
#[local] Existing Instance Concrete.platform_laws.
#[local] Existing Instance concrete_tera.
#[local] Existing Instance ConcreteJson.serde.
#[local] Existing Instance ConcreteCrypto.crypto.

Lemma empty_schema_ok : schema_ok empty_db.
Proof.
  split; cbn; try apply map_Forall_empty; try (intros k1 k2 a1 a2; intros;
    by match goal with H : ∅ !! _ = Some _ |- _ => rewrite lookup_empty in H end);
    (split; [constructor|by constructor]).
Qed.

Lemma concurrent_payment_lost_witness :
  ∃ w' i, pool_steps (fx_world Issued, [perform fx_ctx (MarkPaid (fx_payment 3000)); perform fx_ctx (MarkPaid (fx_payment 4000))])
      (w', [Ret (); Ret ()]) ∧
    invoice_get fx_invoice_id (w_db w') = Some i ∧ (val (inv_amount_paid i) == 40)%Q.
Proof.
  destruct (concurrent_payment_lost fx_env fx_ctx (fx_payment 3000) (fx_payment 4000) (fx_world Issued) (fx_invoice Issued))
    as (w' & i & ha & hb & Hp & Hi & Hv & _).
  - apply fx_world_ok.
  - done.
  - apply fx_get.
  - done.
  - by left.
  - reflexivity.
  - reflexivity.
  - exists 3000, 2%nat. split; [lia|]. split; reflexivity.
  - exists 4000, 2%nat. split; [lia|]. split; reflexivity.
  - exists w', i. split; [exact Hp|]. split; [exact Hi|]. rewrite -> Hv. reflexivity.
Defined.
