(* ===== verification/Relaying.v ===== *)
(** * The relay beside everything else ([bus/src/outbox.rs])

    A pass of the relay is a task among others: between two of its interactions
    the rest of the program may do anything to the store, other relays included.
    [beside] is what is sure of such a pass at each of its interactions,
    whatever was done before it: nothing but the log of its publisher and the
    marks of history rows changes, and a row it marks has all its events in the
    log. *)

From S2P Require Import Prelude External Concrete Money Ids Domain InvoiceFsm CreditNoteFsm Events.
From S2P Require Import Store Command Effects Transition Invariant Evolution World Outbox Transactions Interleave.

Section beside.
Context {P : Platform} {L : PlatformLaws P}.
Implicit Types (d : Db) (log : list BusMessage).

(** A row is as it was, or newly marked with all its messages in the log. *)
Definition noted (t : OutboxTable) `{TL : !OutboxLaws t} log (h h' : ot_row t) : Prop :=
  h' = h ∨ ((∃ now, h' = ot_publish now h) ∧ row_msgs t h ⊆ log).
Definition noted_db log d d' : Prop :=
  Forall2 (noted invoice_outbox log) (invoice_state_history d) (invoice_state_history d') ∧
  Forall2 (noted credit_note_outbox log) (credit_note_state_history d) (credit_note_state_history d').

(** What the others may have done to the store meanwhile. *)
Definition follows d d' : Prop := schema_ok d' ∧ nothing_lost d d'.
#[export] Instance follows_trans : Transitive follows.
Proof. intros d1 d2 d3 [_ K] [S K']. split; [done|by etrans]. Qed.
Lemma follows_refl d : schema_ok d → follows d d.
Proof. by split. Qed.

Lemma noted_refl t `{TL : !OutboxLaws t} log l : Forall2 (noted t log) l l.
Proof. apply Forall_Forall2_diag, Forall_forall. by left. Qed.
Lemma noted_db_refl log d : noted_db log d d.
Proof. split; apply noted_refl. Qed.

(** From a store and a log where [p] is about to go on: every interaction of
    [p], in any later state of the store, adds to the log and marks only rows
    whose messages are there. *)
Fixpoint beside {A} d log (p : prog A) (Q : Db → list BusMessage → A → Prop) : Prop :=
  match p with
  | Ret a => ∀ d', follows d d' → Q d' log a
  | Throw _ | Crash => True
  | Act f k => ∀ E w, follows d (w_db w) → w_bus w = log →
      let w1 := (f E w).1 in
      log `prefix_of` w_bus w1 ∧ noted_db (w_bus w1) (w_db w) (w_db w1) ∧
      beside (w_db w1) (w_bus w1) (k (f E w).2) Q
  end.

Lemma beside_follows {A} d d' log (p : prog A) Q : follows d d' → beside d log p Q → beside d' log p Q.
Proof.
  intros Hd. destruct p; cbn; try done.
  - intros H d2 Hd2. apply H. by etrans.
  - intros H E w Hw. apply H. by etrans.
Qed.
Lemma beside_bind {A B} d log (p : prog A) (f : A → prog B) Q Q' :
  schema_ok d → moves p → beside d log p Q →
  (∀ d' log' a, schema_ok d' → Q d' log' a → beside d' log' (f a) Q') → beside d log (p ≫= f) Q'.
Proof.
  intros Hd Hp. revert d log Hd. induction Hp as [a|e| |X f0 k Hf _ IH]; intros d log Hd H Hk; cbn in *; try done.
  - apply Hk; [done|]. by apply H, follows_refl.
  - intros E w Hw Hlog. destruct (H E w Hw Hlog) as (Hl & Hn & Hb). split; [done|]. split; [done|].
    apply IH; [by apply Hf, Hw|done..].
Qed.
Lemma beside_try_bind {Er A B} d log (p : prog (res Er A)) (f : A → prog (res Er B)) Q
    (Q' : Db → list BusMessage → res Er B → Prop) :
  schema_ok d → moves p →
  beside d log p (λ d' log' r, match r with Ok a => Q d' log' a | _ => True end) →
  (∀ d' log' a, schema_ok d' → Q d' log' a → beside d' log' (f a) Q') →
  (∀ d' log' r, match r with Ok _ => False | _ => True end → Q' d' log' r) →
  beside d log (try_bind p f) Q'.
Proof.
  intros Hd Hp H Hk He. eapply beside_bind; [done..|]. intros d' log' [a|e|] Hd' Ha; cbn; auto.
Qed.
Lemma beside_mono {A} d log (p : prog A) (Q Q' : Db → list BusMessage → A → Prop) :
  (∀ d' log' a, Q d' log' a → Q' d' log' a) → beside d log p Q → beside d log p Q'.
Proof.
  intros HQ. revert d log. induction p as [a|e| |X f k IH]; intros d log; cbn; auto.
  intros H E w Hw Hlog. destruct (H E w Hw Hlog) as (? & ? & ?). auto.
Qed.
(** An interaction that writes nothing. *)
Lemma beside_act {A X} d log (f : Env → World → World * X) (k : X → prog A) Q :
  (∀ E w, w_db (f E w).1 = w_db w ∧ w_bus (f E w).1 = w_bus w) →
  (∀ E w, follows d (w_db w) → beside (w_db w) log (k (f E w).2) Q) → beside d log (Act f k) Q.
Proof.
  intros Hf Hk E w Hw Hlog. destruct (Hf E w) as [Ed Eb]. cbv zeta. rw Ed Eb Hlog.
  split; [done|]. split; [apply noted_db_refl|]. auto.
Qed.
Lemma beside_conv {Er Er' A} d log (conv : Er → Er') (p : prog (res Er A)) Q :
  beside d log p (λ d' log' r, Q d' log' (map_err conv r)) → beside d log (try_conv conv p) Q.
Proof.
  unfold try_conv. revert d log. induction p as [a|e| |X f k IH]; intros d log; cbn; auto.
  intros H E w Hw Hlog. destruct (H E w Hw Hlog) as (? & ? & ?). auto.
Qed.
End beside.

(** ** A pass over one table *)

Section table.
Context {P : Platform} {L : PlatformLaws P}.
Implicit Types (d : Db) (log : list BusMessage).

(** The table has a row with this id and these events. *)
Definition listed (t : OutboxTable) `{TL : !OutboxLaws t} d (r : ot_row t) : Prop :=
  ∃ h, h ∈ ot_rows d ∧ ot_id t h = ot_id t r ∧ row_msgs t h = row_msgs t r.

(** What everybody else leaves of a history table. *)
Class SharedLaws (t : OutboxTable) `{TL : !OutboxLaws t} := {
  listed_follows d d' r : follows d d' → listed t d r → listed t d' r;
  shared_ids d : schema_ok d → NoDup (ot_id t <$> ot_rows d);
  mark_noted log now r d :
    Forall2 (noted t log) (ot_rows d) (ot_rows (ot_mark t now r d)) → noted_db log d (ot_mark t now r d);
  mark_sound now r : sound (λ d, Ok (ot_mark t now r d));
}.

Context (t : OutboxTable) `{SL : SharedLaws t}.

(** Marking a row whose messages are in the log. *)
Lemma marked_noted log now r d :
  schema_ok d → listed t d r → row_msgs t r ⊆ log → noted_db log d (ot_mark t now r d).
Proof.
  intros Hd (h0 & Hin0 & Eid0 & Em0) Hlog. apply mark_noted. rw ot_mark_rows ot_rows_put.
  apply Forall2_fmap_r, Forall_Forall2_diag, Forall_forall. intros h Hin.
  cbn. destruct (String.eqb_spec (ot_id t h) (ot_id t r)) as [E|]; [|by left].
  right. split; [by exists now|].
  assert (h = h0) as ->; [|by rw Em0].
  apply list_elem_of_lookup in Hin as [i Hi], Hin0 as [j Hj].
  assert (i = j) as ->; [|congruence].
  eapply (NoDup_lookup _ i j (ot_id t r) (shared_ids d Hd)); [by rw list_lookup_fmap Hi; cbn; f_equal|].
  by rw list_lookup_fmap Hj; cbn; f_equal.
Qed.

Lemma beside_events d log at_ evs stats :
  schema_ok d →
  beside d log (try_foldM (publish_one at_) stats evs) (λ d' log' r,
    match r with
    | Ok _ => follows d d' ∧ log `prefix_of` log' ∧ ((λ e, MkBusMessage e.1 e.2 at_) <$> evs) ⊆ log'
    | _ => True
    end).
Proof.
  revert d log stats. induction evs as [|e evs IH]; intros d log stats Hd; cbn [try_foldM].
  { intros d' Hd'. split; [done|]. split; [done|]. intros m Hm. by apply elem_of_nil in Hm. }
  eapply (beside_try_bind _ _ _ _ (λ d' log' _, follows d d' ∧ log `prefix_of` log' ∧
    MkBusMessage e.1 e.2 at_ ∈ log')); [done|unfold publish_one; walk_moves|..].
  - unfold publish_one. intros E w Hw Hlog. destruct (env_publish_ok E (w_step w)); cbn; rw ?Hlog.
    + split; [by eexists|]. split; [apply noted_db_refl|]. intros d' Hd'. split; [by etrans|].
      split; [by eexists|]. apply elem_of_app. right. by left.
    + split; [done|]. split; [apply noted_db_refl|done].
  - intros d' log' st Hd' (Hf & Hl & Hm). eapply beside_mono; [|by apply IH]. intros d2 log2 [st2|e2|]; [|done..].
    intros (Hf2 & Hl2 & Hm2). split; [by etrans|]. split; [by etrans|]. cbn.
    intros m [->|Hin]%elem_of_cons; [|by apply Hm2]. destruct Hl2 as [more ->]. apply elem_of_app. by left.
  - by intros d' log' [].
Qed.

Lemma beside_row d log stats r :
  schema_ok d → listed t d r →
  beside d log (relay_row t stats r) (λ d' _ res, match res with Ok _ => follows d d' | _ => True end).
Proof.
  intros Hd Hr. unfold relay_row.
  eapply (beside_try_bind _ _ _ _ (λ d' log' _, follows d d' ∧ row_msgs t r ⊆ log'));
    [done|unfold publish_one; walk_moves|..].
  - eapply beside_mono; [|by apply beside_events]. intros d' log' [a|e|]; [|done..]. by intros (? & _ & ?).
  - intros d1 log1 st _ [Hf Hm]. apply beside_act; [done|]. intros E0 w0 Hw0. cbn [snd].
    generalize (env_now E0 (w_step w0)) as now. intros now E w Hw Hlog.
    assert (follows d (w_db w)) as Hdw by (do 2 (etrans; [done|]); done).
    assert (follows (w_db w) (ot_mark t now r (w_db w))) as Hmark.
    { destruct (mark_sound now r (w_db w) _ eq_refl) as [K Sch]. split; [|done]. apply Sch, Hdw. }
    destruct (env_db_ok E (w_step w)); cbn.
    + split; [by rw Hlog|]. split.
      * apply marked_noted; [apply Hdw|by eapply listed_follows|by rw Hlog].
      * intros d' Hd'. by do 2 (etrans; [done|]).
    + split; [by rw Hlog|]. split; [apply noted_db_refl|done].
  - by intros d' log' [].
Qed.

Lemma beside_table d log limit stats :
  schema_ok d → beside d log (relay_table t limit stats) (λ d' _ res, True).
Proof.
  intros Hd. unfold relay_table.
  eapply (beside_try_bind _ _ _ _ (λ d' _ l, ∀ r, r ∈ l → listed t d' r)); [done|walk_moves|..].
  - apply beside_conv, beside_act; [done|]. intros E w Hw d' Hd'.
    destruct (env_db_ok E (w_step w)); [|done]. cbn.
    destruct (ot_pending_in t limit (w_db w)) as (l & -> & Hp & _). cbn.
    intros r Hr. eapply listed_follows; [done|]. destruct (Hp r Hr) as [Hin _]. by exists r.
  - intros d1 log1 l. revert d1 log1 stats. induction l as [|r l IH]; intros d1 log1 stats Hd1 Hl; [done|].
    cbn [try_foldM]. eapply (beside_try_bind _ _ _ _ (λ d' _ _, follows d1 d')); [done|..].
    + unfold relay_row, publish_one. pose proof (λ now r, sound_commits _ (mark_sound now r)) as Hm. walk_moves.
    + eapply beside_mono; [|apply beside_row; [done|apply Hl; by left]]. done.
    + intros d2 log2 st2 Hd2 Hf. apply IH; [done|]. intros r' Hr'. eapply listed_follows; [done|].
      apply Hl. by right.
    + done.
  - done.
Qed.
End table.

(** ** Both tables *)

Section tables.
Context {P : Platform} {L : PlatformLaws P}.

Lemma listed_row {A} (R : relation A) {I M} (ident : A → I) (msgs : A → M) (l l' : list A) i m :
  (∀ h h', R h h' → ident h' = ident h ∧ msgs h' = msgs h) → grows R l l' →
  (∃ h, h ∈ l ∧ ident h = i ∧ msgs h = m) → ∃ h, h ∈ l' ∧ ident h = i ∧ msgs h = m.
Proof.
  intros HR (kept & more & -> & Hk) (h & Hin & <- & <-).
  apply list_elem_of_lookup in Hin as [n Hn].
  destruct (Forall2_lookup_l _ _ _ _ _ Hk Hn) as (h' & Hn' & Hh). exists h'.
  split; [|by apply HR]. apply elem_of_app. left. by eapply list_elem_of_lookup_2.
Qed.

#[export] Instance invoice_outbox_shared : SharedLaws invoice_outbox.
Proof.
  split.
  - intros d d' r [_ K]. apply (listed_row row_kept); [|apply K]. by intros h h' [->|[now ->]].
  - intros d Hd. apply (so_history _ Hd).
  - intros log now r d H. split; [exact H|apply noted_refl].
  - intros now r. apply mark_published_sound.
Qed.
#[export] Instance credit_note_outbox_shared : SharedLaws credit_note_outbox.
Proof.
  split.
  - intros d d' r [_ K]. apply (listed_row cn_row_kept); [|apply K]. by intros h h' [->|[now ->]].
  - intros d Hd. apply (so_cn_history _ Hd).
  - intros log now r d H. split; [apply noted_refl|exact H].
  - intros now r. apply cn_mark_published_sound.
Qed.

(** A whole pass. *)
Lemma beside_relay d log limit : schema_ok d → beside d log (run_outbox_relay limit) (λ _ _ _, True).
Proof.
  intros Hd. unfold run_outbox_relay. eapply (beside_try_bind _ _ _ _ (λ _ _ _, True)); [done|..].
  - apply moves_relay_table. intros. apply tx_published.
  - eapply beside_mono; [|by apply (beside_table invoice_outbox)]. by intros d' log' [].
  - intros d' log' st Hd' _. by apply (beside_table credit_note_outbox).
  - done.
Qed.
End tables.
