(* ===== verification/Deliveries.v ===== *)
(** * Deliveries of the bus at the same time

    The inbox registers an event before its command runs ([bus/src/inbox.rs]).
    The trace of a pool of tasks ([Interleave]) tells which interaction of which
    task changed the world; by it, of any number of deliveries of one event that
    interleave with each other and with every other command, one at most does
    anything. *)

From S2P Require Import Prelude External Concrete Money Ids Domain InvoiceFsm Events Tax Store Codec ConcreteJson.
From S2P Require Import Render Command Effects Transition Invariant Evolution World Fixtures SignedLink Consumer System.
From S2P Require Import Transactions Interleave.

Section deliveries.
Context {P : Platform} {T : Tera} {S : Serde} {C : Crypto}.
Implicit Types (w : World) (ts : list (prog ())) (id : string).

(** ** Traces *)

(** One interaction: of which task, and the world before and after it. *)
Record Event := MkEvent { ev_task : nat; ev_before : World; ev_after : World }.

Inductive pool_trace : World * list (prog ()) → list Event → World * list (prog ()) → Prop :=
  | trace_done s : pool_trace s [] s
  | trace_spawn ctx c w ts tr s :
      pool_trace (w, ts ++ [perform ctx c]) tr s → pool_trace (w, ts) tr s
  | trace_act E i X (f : Env → World → World * X) k w ts tr s :
      ts !! i = Some (Act f k) → pool_trace ((f E w).1, <[i := k (f E w).2]> ts) tr s →
      pool_trace (w, ts) (MkEvent i w (f E w).1 :: tr) s.

(** Every run of the pool has a trace. *)
Lemma pool_steps_trace s s' : pool_steps s s' ↔ ∃ tr, pool_trace s tr s'.
Proof.
  split.
  - induction 1 as [s|s s1 s2 Hs _ [tr IH]]; [exists []; constructor|].
    destruct Hs as [ctx c w ts|E i X f k w ts Hi].
    + exists tr. exact (trace_spawn _ _ _ _ _ _ IH).
    + eexists. exact (trace_act _ _ _ _ _ _ _ _ _ Hi IH).
  - intros [tr H]. induction H as [s|ctx c w ts tr s _ IH|E i X f k w ts tr s Hi _ IH]; [apply rtc_refl|..].
    + eapply rtc_l; [constructor|exact IH].
    + eapply rtc_l; [by apply (pool_act E)|exact IH].
Qed.

(** Task [i] changed nothing but the count of interactions. *)
Definition idle (i : nat) (tr : list Event) : Prop :=
  Forall (λ e, ev_task e = i → same_world (ev_before e) (ev_after e)) tr.

(** ** At the gate *)

(** A program that changes nothing until it writes the inbox row of [id], which
    it can only do when there is none. *)
Inductive gate id : prog () → Prop :=
  | gate_ret a : gate id (Ret a)
  | gate_throw e : gate id (Throw e)
  | gate_crash : gate id Crash
  | gate_act X (f : Env → World → World * X) k :
      (∀ E w, same_world w (f E w).1 ∧ gate id (k (f E w).2) ∨
              bus_inbox (w_db w) !! id = None ∧ id ∈ dom (bus_inbox (w_db (f E w).1))) →
      gate id (Act f k).
Lemma gate_inv id p :
  gate id p →
  match p with
  | Act f k => ∀ E w, same_world w (f E w).1 ∧ gate id (k (f E w).2) ∨
                 bus_inbox (w_db w) !! id = None ∧ id ∈ dom (bus_inbox (w_db (f E w).1))
  | _ => True
  end.
Proof. by destruct 1. Qed.

Lemma gate_receive ctx remap v : gate (dv_event_id v) (perform ctx (Receive remap v)).
Proof.
  cbn. constructor. intros E w. left. cbn. split; [apply same_world_tick|].
  constructor. intros E1 w1. left. cbn. split; [apply same_world_tick|].
  destruct (env_db_ok E1 _); cbn; [|constructor].
  destruct (inbox_exists _ _); cbn; [constructor|].
  constructor. intros E2 w2. cbn. destruct (env_db_ok E2 _); cbn.
  2:{ left. split; [apply same_world_tick|constructor]. }
  unfold inbox_insert. cbn. destruct (bus_inbox (w_db w2) !! dv_event_id v) as [r|] eqn:Er; cbn.
  - left. split; [apply same_world_tick|constructor].
  - right. split; [done|]. cbn. rewrite dom_insert_L. set_solver.
Qed.

(** Once the row is there, the gate stays closed. *)
Lemma gate_closed id j s tr s' :
  pool_trace s tr s' → Forall moves s.2 → id ∈ dom (bus_inbox (w_db s.1)) →
  (∃ p, s.2 !! j = Some p ∧ gate id p) → idle j tr.
Proof.
  induction 1 as [s|ctx c w ts tr s _ IH|E i X f k w ts tr s Hi _ IH]; cbn; intros Hm Hin (p & Hj & Hp).
  - constructor.
  - apply IH; [|done|].
    + apply Forall_app_2; [done|]. constructor; [apply moves_perform|constructor].
    + exists p. split; [by apply lookup_app_l_Some|done].
  - assert (moves (Act f k)) as [Hf Hk]%moves_inv by (by eapply Forall_lookup_1).
    assert (id ∈ dom (bus_inbox (w_db (f E w).1))) as Hin1 by (by apply (kt_inbox _ _ (proj1 (Hf E w)))).
    assert (Forall moves (<[i:=k (f E w).2]> ts)) as Hm1 by (by apply Forall_insert).
    destruct (decide (i = j)) as [->|Hne].
    + assert (p = Act f k) as -> by congruence. destruct (gate_inv _ _ Hp E w) as [[Hw Hg]|[Hn _]].
      2:{ apply elem_of_dom in Hin as [r Hr]. congruence. }
      constructor; [done|]. apply IH; [done|done|]. eexists. split; [|exact Hg].
      apply list_lookup_insert_eq. by eapply lookup_lt_Some.
    + constructor; [done|]. apply IH; [done|done|]. exists p.
      split; [by rewrite list_lookup_insert_ne|done].
Qed.

(** Of two tasks at the gate, one passes. *)
Lemma gate_one id i j s tr s' :
  pool_trace s tr s' → Forall moves s.2 → i ≠ j →
  (∃ p, s.2 !! i = Some p ∧ gate id p) → (∃ p, s.2 !! j = Some p ∧ gate id p) →
  idle i tr ∨ idle j tr.
Proof.
  intros H. revert i j.
  induction H as [s|ctx c w ts tr s _ IH|E n X f k w ts tr s Hn Htr IH]; cbn; intros i j Hm Hij Hi Hj.
  - left. constructor.
  - destruct Hi as (p & Hi & Hp), Hj as (q & Hj & Hq). apply IH; [|done|..].
    + apply Forall_app_2; [done|]. constructor; [apply moves_perform|constructor].
    + exists p. split; [by apply lookup_app_l_Some|done].
    + exists q. split; [by apply lookup_app_l_Some|done].
  - assert (moves (Act f k)) as [Hf Hk]%moves_inv by (by eapply Forall_lookup_1).
    assert (Forall moves (<[n:=k (f E w).2]> ts)) as Hm1 by (by apply Forall_insert).
    assert (∀ a, a ≠ n → (∃ p, ts !! a = Some p ∧ gate id p) →
      ∃ p, <[n:=k (f E w).2]> ts !! a = Some p ∧ gate id p) as Hother.
    { intros a Ha (p & ? & ?). exists p. split; [by rewrite list_lookup_insert_ne|done]. }
    (* the chosen task, seen from the other one *)
    assert (∀ a b, a ≠ b → a = n → (∃ p, ts !! a = Some p ∧ gate id p) → (∃ p, ts !! b = Some p ∧ gate id p) →
      idle a (MkEvent n w (f E w).1 :: tr) ∨ idle b (MkEvent n w (f E w).1 :: tr)) as Hchosen.
    { intros a b Hab -> (p & Ha & Hp) Hb. assert (p = Act f k) as -> by congruence.
      destruct (gate_inv _ _ Hp E w) as [[Hw Hg]|[_ Hin]].
      - destruct (IH n b Hm1 Hab) as [?|?]; [|by apply Hother|left; by constructor|right; by constructor].
        eexists. split; [|exact Hg]. apply list_lookup_insert_eq. by eapply lookup_lt_Some.
      - right. constructor; [done|]. eapply gate_closed; [exact Htr|done|exact Hin|]. by apply Hother. }
    destruct (decide (i = n)) as [Ei|Ni]; [by apply Hchosen|].
    destruct (decide (j = n)) as [Ej|Nj].
    + destruct (Hchosen j i) as [?|?]; auto.
    + destruct (IH i j Hm1 Hij) as [?|?]; [by apply Hother..|left; by constructor|right; by constructor].
Qed.

(** ** At most once *)

Definition start (cs : list (CoreCtx * Command)) : list (prog ()) := (λ c, perform c.1 c.2) <$> cs.

Lemma start_moves cs : Forall moves (start cs).
Proof. apply Forall_fmap, Forall_true. intros c. apply moves_perform. Qed.
Lemma start_gate cs i ctx remap v :
  cs !! i = Some (ctx, Receive remap v) → ∃ p, start cs !! i = Some p ∧ gate (dv_event_id v) p.
Proof. intros Hi. eexists. unfold start. rw list_lookup_fmap Hi. split; [done|]. apply gate_receive. Qed.

(** C4: a bus event is processed at most once, even when it is delivered several
    times at once: however two deliveries with the same event id, whatever their
    topics, payloads and contexts are, interleave with each other and with any
    other commands, and wherever any of them is killed, one of the two changes
    nothing: no row, no message on the bus, no file. *)
Theorem events_processed_at_most_once cs i j ctx ctx' remap remap' v v' w tr s :
  cs !! i = Some (ctx, Receive remap v) → cs !! j = Some (ctx', Receive remap' v') → i ≠ j →
  dv_event_id v = dv_event_id v' → pool_trace (w, start cs) tr s →
  (idle i tr ∨ idle j tr) ∧
  (dv_event_id v ∈ dom (bus_inbox (w_db w)) → idle i tr ∧ idle j tr).
Proof.
  intros Hi Hj Hij Eid Htr.
  pose proof (start_gate _ _ _ _ _ Hi) as Gi. pose proof (start_gate _ _ _ _ _ Hj) as Gj.
  rewrite <- Eid in Gj. pose proof (start_moves cs) as Hm.
  split; [by eapply gate_one|]. intros Hin. split; by eapply gate_closed.
Qed.
End deliveries.

(** ** Witness *)

#[local] Existing Instance Concrete.platform.
#[local] Existing Instance Concrete.platform_laws.
#[local] Existing Instance concrete_tera.
#[local] Existing Instance ConcreteJson.serde.
#[local] Existing Instance ConcreteCrypto.crypto.

(** The same payment is delivered twice; the first delivery has looked the event
    up when the second runs to its end.  The books have one payment. *)
Lemma events_processed_at_most_once_witness :
  let d := (fx_ctx, Receive ∅ (fx_delivery "100.00")) in
  ∃ tr w' ts, pool_trace (fx_world Sent, start [d; d]) tr (w', ts) ∧
    (idle 0 tr ∨ idle 1 tr) ∧
    (length (invoice_state_history (w_db w')) =? 1 + length (invoice_state_history (fx_db Sent)))%nat = true.
Proof.
  intros d.
  assert (∃ w' ts, pool_steps (fx_world Sent, start [d; d]) (w', ts) ∧
    (length (invoice_state_history (w_db w')) =? 1 + length (invoice_state_history (fx_db Sent)))%nat = true)
    as (w' & ts & [tr Htr]%pool_steps_trace & Hlen).
  { eexists _, _. split.
    - eapply rtc_l; [by eapply (pool_act fx_env 0)|]. eapply rtc_l; [by eapply (pool_act fx_env 0)|].
      etrans; [by apply (pool_runs fx_env 1)|]. apply (pool_runs fx_env 0). reflexivity.
    - vm_compute. reflexivity. }
  exists tr, w', ts. split; [exact Htr|]. split; [|exact Hlen].
  apply (events_processed_at_most_once [d; d] 0 1 fx_ctx fx_ctx ∅ ∅ (fx_delivery "100.00") (fx_delivery "100.00")
    (fx_world Sent) tr (w', ts)); done.
Defined.
