(* ===== verification/BusLog.v ===== *)
(** * What the commands publish

    Every command only appends to the log of published messages, at each of its
    interactions, and what it appends conforms to the struct of its topic in
    [bus/src/events.rs], but for four topics whose struct has a field the
    commands do not fill. *)

From S2P Require Import Prelude External Concrete Money Ids Domain InvoiceFsm CreditNoteFsm Events Cadence.
From S2P Require Import Tax Store Codec ConcreteJson Wire Rows Render Command Effects Transition Invariant Evolution World.
From S2P Require Import Fixtures Draft Issue Pay Void Send Credit Overdue Reminders Schedules Payloads SignedLink.
From S2P Require Import Outbox Consumer View System Ops.

(** ** Programs that publish messages of one kind *)

Section publishes.
Context `{P : Platform}.
Implicit Types (Q : BusMessage → Prop).

(** The interaction extends the log by messages that satisfy [Q]. *)
Definition grows Q {X} (f : Env → World → World * X) : Prop :=
  ∀ E w, ∃ ms, w_bus (f E w).1 = w_bus w ++ ms ∧ Forall Q ms.
Inductive publishes Q {A} : prog A → Prop :=
  | publishes_ret a : publishes Q (Ret a)
  | publishes_throw e : publishes Q (Throw e)
  | publishes_crash : publishes Q Crash
  | publishes_act X (f : Env → World → World * X) k :
      grows Q f → (∀ x, publishes Q (k x)) → publishes Q (Act f k).

Lemma grows_still Q {X} (f : Env → World → World * X) :
  (∀ E w, w_bus (f E w).1 = w_bus w) → grows Q f.
Proof. intros H E w. exists []. rw H app_nil_r. split; [done|constructor]. Qed.
Lemma publishes_mono Q Q' {A} (p : prog A) : (∀ m, Q m → Q' m) → publishes Q p → publishes Q' p.
Proof.
  intros HQ. induction 1 as [| | |X f k Hf _ IH]; constructor; [|exact IH].
  intros E w. destruct (Hf E w) as (ms & Hb & Hms). exists ms. split; [done|].
  by eapply Forall_impl.
Qed.

(** Complete or killed, the log has only grown by messages of [Q]. *)
Lemma publishes_run Q {A} E (p : prog A) w :
  publishes Q p → ∃ ms, w_bus (run E p w).1 = w_bus w ++ ms ∧ Forall Q ms.
Proof.
  intros Hp. revert w. induction Hp as [| | |X f k Hf _ IH]; intros w; cbn.
  1-3: exists []; by rewrite -> app_nil_r.
  destruct (Hf E w) as (ms & Hb & Hms). destruct (f E w) as [w1 x]. cbn in Hb.
  destruct (IH x w1) as (ms' & Hb' & Hms'). exists (ms ++ ms'). rw Hb' Hb app_assoc. split; [done|].
  by apply Forall_app_2.
Qed.
Lemma publishes_crash_run Q {A} E n (p : prog A) w :
  publishes Q p → ∃ ms, w_bus (crash_run E n p w) = w_bus w ++ ms ∧ Forall Q ms.
Proof.
  intros Hp. revert n w. induction Hp as [| | |X f k Hf _ IH]; intros [|n] w; cbn.
  1-7: exists []; by rewrite -> app_nil_r.
  destruct (Hf E w) as (ms & Hb & Hms). destruct (f E w) as [w1 x]. cbn in Hb.
  destruct (IH x n w1) as (ms' & Hb' & Hms'). exists (ms ++ ms'). rw Hb' Hb app_assoc. split; [done|].
  by apply Forall_app_2.
Qed.

Context (Q : BusMessage → Prop).
Lemma publishes_bind {A B} (p : prog A) (f : A → prog B) :
  publishes Q p → (∀ a, publishes Q (f a)) → publishes Q (p ≫= f).
Proof. intros Hp Hf. induction Hp; cbn; try constructor; auto. Qed.
Lemma publishes_catch {A} (p : prog A) : publishes Q p → publishes Q (catch p).
Proof. by induction 1; cbn; constructor. Qed.
Lemma publishes_lift {Er A} (conv : Er → CoreError) (m : res Er A) : publishes Q (lift conv m).
Proof. destruct m; constructor. Qed.
Lemma publishes_or_not_found {A} msg (o : option A) : publishes Q (or_not_found msg o).
Proof. destruct o; constructor. Qed.
Lemma publishes_db_query {A} (f : Db → SR A) : publishes Q (db_query f).
Proof. constructor; [by apply grows_still|]. intros. apply publishes_lift. Qed.
Lemma publishes_db_exec f : publishes Q (db_exec f).
Proof.
  constructor; [|intros; apply publishes_lift]. apply grows_still. intros E w.
  by destruct (if env_db_ok E _ then _ else _).
Qed.
Lemma publishes_db_try {A} (f : Db → SR A) : publishes Q (db_try f).
Proof. constructor; [by apply grows_still|constructor]. Qed.
Lemma publishes_db_try_exec f : publishes Q (db_try_exec f).
Proof.
  constructor; [|constructor]. apply grows_still. intros E w.
  by destruct (if env_db_ok E _ then _ else _).
Qed.
Lemma publishes_try_bind {Er A B} (p : prog (res Er A)) (f : A → prog (res Er B)) :
  publishes Q p → (∀ a, publishes Q (f a)) → publishes Q (try_bind p f).
Proof. intros Hp Hf. apply publishes_bind; [done|]. intros []; [done|constructor..]. Qed.
Lemma publishes_try_conv {Er Er' A} (conv : Er → Er') (p : prog (res Er A)) :
  publishes Q p → publishes Q (try_conv conv p).
Proof. intros Hp. apply publishes_bind; [done|constructor]. Qed.
Lemma publishes_clock_now : publishes Q clock_now.
Proof. constructor; [by apply grows_still|constructor]. Qed.
Lemma publishes_fresh e : publishes Q (fresh e).
Proof. constructor; [by apply grows_still|constructor]. Qed.
Lemma publishes_try_publish ctx topic payload at_ :
  Q (MkBusMessage topic payload at_) → publishes Q (try_publish ctx topic payload at_).
Proof.
  intros HQ. unfold try_publish. destruct (publisher ctx); constructor; [|constructor].
  intros E w. cbn. destruct (env_publish_ok _ _); cbn.
  - exists [MkBusMessage topic payload at_]. split; [done|]. by repeat constructor.
  - exists []. rw app_nil_r. by repeat constructor.
Qed.
Lemma publishes_blob_put b bytes ct : publishes Q (blob_put b bytes ct).
Proof.
  constructor; [|intros; apply publishes_lift]. apply grows_still. intros E w.
  by destruct (env_io_ok _ _); [destruct (b _ _)|].
Qed.
Lemma publishes_render_page {T : Tera} path rc : publishes Q (render_page path rc).
Proof. constructor; [by apply grows_still|intros; apply publishes_lift]. Qed.
Lemma publishes_render {T : Tera} path rc : publishes Q (render path rc).
Proof.
  apply publishes_bind; [apply publishes_render_page|].
  intros; apply publishes_bind; [apply publishes_lift|constructor].
Qed.
Lemma publishes_io_call msg : publishes Q (io_call msg).
Proof. constructor; [by apply grows_still|intros; apply publishes_lift]. Qed.
Lemma publishes_io put bytes msg :
  (∀ b w, w_bus (put b w) = w_bus w) → publishes Q (io_write put bytes msg).
Proof.
  intros Hf. constructor; [|intros; apply publishes_lift]. apply grows_still. intros E w.
  unfold io_left. destruct (env_io_ok E (w_step w)), (env_io_left E (w_step w)); cbn; try done; by rewrite -> Hf.
Qed.
Lemma publishes_mapM {A B} (f : A → prog B) l : (∀ a, publishes Q (f a)) → publishes Q (prog_mapM f l).
Proof.
  intros H. induction l; cbn [prog_mapM]; [constructor|].
  apply publishes_bind; [done|]. intros. apply publishes_bind; [done|constructor].
Qed.
Lemma publishes_foldM {A B} (f : B → A → prog B) b l :
  (∀ b a, publishes Q (f b a)) → publishes Q (prog_foldM f b l).
Proof.
  intros H. revert b. induction l; intros b; cbn [prog_foldM]; [constructor|].
  apply publishes_bind; [done|auto].
Qed.
End publishes.

Create HintDb bus.
#[export] Hint Constructors publishes : bus.
#[export] Hint Resolve publishes_lift publishes_or_not_found publishes_db_query publishes_db_exec
  publishes_clock_now publishes_fresh publishes_blob_put publishes_render_page publishes_render publishes_db_try
  publishes_db_try_exec : bus.

(** Walks the binds and branches of a program, and leaves the messages. *)
Ltac walk_publishes :=
  repeat (intros; cbn beta zeta; first
  [ solve [auto with bus]
  | match goal with
    | |- publishes _ (_ ≫= _) => apply publishes_bind
    | |- publishes _ (try_bind _ _) => apply publishes_try_bind
    | |- publishes _ (try_conv _ _) => apply publishes_try_conv
    | |- publishes _ (prog_foldM _ _ _) => apply publishes_foldM
    | |- publishes _ (prog_mapM _ _) => apply publishes_mapM
    | |- publishes _ (catch _) => apply publishes_catch
    | |- publishes _ (try_publish _ _ _ _) => apply publishes_try_publish
    | |- publishes _ (io_call _) => apply publishes_io_call
    | |- publishes _ (io_write _ _ _) => apply publishes_io; done
    | |- publishes _ (match ?x with _ => _ end) => destruct x
    end ]).

(** ** Messages *)

Section messages.
Context `{P : Platform}.

(** The events of the state-machine mechanics have structs of their own. *)
Inductive mechanics : string → json → Prop :=
  | invoice_proposed p : mechanics TOPIC_PROPOSED (InvoiceProposed_json p)
  | invoice_transitioned p : mechanics TOPIC_TRANSITIONED (InvoiceTransitioned_json p)
  | invoice_entered p : mechanics TOPIC_ENTERED (InvoiceEntered_json p)
  | credit_note_proposed p : mechanics CnTopics.TOPIC_PROPOSED (CreditNoteProposed_json p)
  | credit_note_transitioned p : mechanics CnTopics.TOPIC_TRANSITIONED (CreditNoteTransitioned_json p)
  | credit_note_entered p : mechanics CnTopics.TOPIC_ENTERED (CreditNoteEntered_json p).

(** The messages of the commands, each with its topic and payload; [D] is what a
    command's dates must satisfy for the messages that print one. *)
Class Accepts (D : Prop) (Q : BusMessage → Prop) : Prop := {
  accepts_mechanics topic v at_ : mechanics topic v → Q (MkBusMessage topic v at_);
  accepts_drafted i a ch at_ :
    Q (MkBusMessage "inv.billing.invoice.drafted" (drafted_payload i a ch) at_);
  accepts_issued i a ch at_ :
    Q (MkBusMessage "inv.billing.invoice.issued" (issued_payload i a ch) at_);
  accepts_sent i dest a ch at_ :
    Q (MkBusMessage "inv.billing.invoice.sent" (sent_payload i dest a ch) at_);
  accepts_viewed id at_ :
    Q (MkBusMessage "inv.billing.invoice.viewed" (viewed_payload id) at_);
  accepts_paid (full : bool) i input ch at_ :
    Q (MkBusMessage (if full then "inv.billing.invoice.paid" else "inv.billing.invoice.partially_paid")
      (paid_payload i input ch) at_);
  accepts_voided i input ch at_ :
    Q (MkBusMessage "inv.billing.invoice.voided" (voided_payload i input ch) at_);
  accepts_overdue i at_ : Q (MkBusMessage "inv.billing.invoice.overdue" (overdue_payload i) at_);
  accepts_cn_drafted cn a ch at_ :
    Q (MkBusMessage "inv.billing.creditnote.drafted" (cn_drafted_payload cn a ch) at_);
  accepts_cn_issued cn a ch at_ :
    Q (MkBusMessage "inv.billing.creditnote.issued" (cn_issued_payload cn a ch) at_);
  accepts_reminder_sent r at_ :
    Q (MkBusMessage "inv.billing.reminder.sent"
      (JObj [("reminder_id", JStr (id_to_string (rem_id r))); ("invoice_id", JStr (id_to_string (rem_invoice_id r)));
             ("channel", JStr (reminder_channel_lower (rem_channel r)));
             ("sent_at", JStr (dt_to_rfc3339 at_))]) at_);
  accepts_schedule_created s a ch at_ :
    (D → date_ok (sch_start_date s)) →
    Q (MkBusMessage "inv.billing.schedule.created"
      (JObj [("schedule_id", JStr (id_to_string (sch_id s)));
             ("customer_id", JStr (id_to_string (sch_customer_id s)));
             ("cadence", JStr (Cadence.to_string (sch_cadence s)));
             ("currency", JStr (Currency.as_str (sch_currency s))); ("auto_issue", JBool (sch_auto_issue s));
             ("start_date", JStr (nd_to_string (sch_start_date s))); ("actor", JStr a); ("channel", JStr ch)]) at_);
  accepts_reminder_scheduled r a ch at_ :
    Q (MkBusMessage "inv.billing.reminder.scheduled"
      (JObj [("reminder_id", JStr (id_to_string (rem_id r))); ("invoice_id", JStr (id_to_string (rem_invoice_id r)));
             ("scheduled_at", JStr (dt_to_rfc3339 (rem_scheduled_at r)));
             ("channel", JStr (reminder_channel_lower (rem_channel r)));
             ("actor", JStr a); ("history_channel", JStr ch)]) at_);
  accepts_reminder_cancelled r a ch at_ :
    Q (MkBusMessage "inv.billing.reminder.cancelled"
      (JObj [("reminder_id", JStr (id_to_string (rem_id r))); ("invoice_id", JStr (id_to_string (rem_invoice_id r)));
             ("actor", JStr a); ("channel", JStr ch)]) at_);
  accepts_schedule_paused s a ch at_ :
    Q (MkBusMessage "inv.billing.schedule.paused"
      (JObj [("schedule_id", JStr (id_to_string (sch_id s))); ("state", JStr (schedule_state_lower (sch_state s)));
             ("actor", JStr a); ("channel", JStr ch)]) at_);
  accepts_schedule_cancelled s a ch at_ :
    Q (MkBusMessage "inv.billing.schedule.cancelled"
      (JObj [("schedule_id", JStr (id_to_string (sch_id s))); ("state", JStr (schedule_state_lower (sch_state s)));
             ("actor", JStr a); ("channel", JStr ch)]) at_);
  accepts_schedule_ended s at_ :
    Q (MkBusMessage "inv.billing.schedule.cancelled"
      (JObj [("schedule_id", JStr (id_to_string (sch_id s))); ("state", JStr "cancelled");
             ("reason", JStr "end_date_reached")]) at_);
}.

End messages.

(** Closes the goals that [walk_publishes] leaves. *)
Ltac accepted := match goal with H : Accepts _ _ |- _ => first
  [ apply (@accepts_mechanics _ _ _ H); constructor
  | apply (@accepts_drafted _ _ _ H)
  | apply (@accepts_issued _ _ _ H)
  | apply (@accepts_sent _ _ _ H)
  | apply (@accepts_viewed _ _ _ H)
  | apply (@accepts_paid _ _ _ H)
  | apply (@accepts_voided _ _ _ H)
  | apply (@accepts_overdue _ _ _ H)
  | apply (@accepts_cn_drafted _ _ _ H)
  | apply (@accepts_cn_issued _ _ _ H)
  | apply (@accepts_reminder_sent _ _ _ H)
  | apply (@accepts_reminder_scheduled _ _ _ H)
  | apply (@accepts_reminder_cancelled _ _ _ H)
  | apply (@accepts_schedule_paused _ _ _ H)
  | apply (@accepts_schedule_cancelled _ _ _ H)
  | apply (@accepts_schedule_ended _ _ _ H)
  | apply (@accepts_schedule_created _ _ _ H); assumption ] end.
Ltac solve_publishes := walk_publishes; accepted.

Section commands.
Context {P : Platform} {S : Serde} {T : Tera} {C : Crypto} (D : Prop) (Q : BusMessage → Prop) {HQ : Accepts D Q}.

(** ** Commands *)

Lemma publishes_publish_triplet ctx id from to event a ch now :
  publishes Q (publish_triplet ctx id from to event a ch now).
Proof. unfold publish_triplet. solve_publishes. Qed.
Hint Resolve publishes_publish_triplet : bus.

Lemma publishes_draft_invoice ctx input : publishes Q (draft_invoice ctx input).
Proof. unfold draft_invoice, draft_replay, draft_new, draft_line. solve_publishes. Qed.
Lemma publishes_issue_invoice ctx input : publishes Q (issue_invoice ctx input).
Proof. unfold issue_invoice, store_pdf, publish_issued_events. solve_publishes. Qed.
Hint Resolve publishes_draft_invoice publishes_issue_invoice : bus.
Lemma publishes_mark_paid ctx input : publishes Q (mark_paid ctx input).
Proof. unfold mark_paid, publish_paid_events. solve_publishes. Qed.
Lemma publishes_void_invoice ctx input : publishes Q (void_invoice ctx input).
Proof. unfold void_invoice, publish_voided_events. solve_publishes. Qed.
Lemma publishes_send_invoice ctx input : publishes Q (send_invoice ctx input).
Proof.
  unfold send_invoice, replay_if_keyed, try_replay, prepare_send, finalize_send, Send.dispatch,
    publish_sent_events, store_pdf.
  solve_publishes.
Qed.
Lemma publishes_send_invoice_render ctx input : publishes Q (send_invoice_render ctx input).
Proof.
  unfold send_invoice_render, replay_if_keyed, try_replay, prepare_send, finalize_send,
    publish_sent_events, store_pdf.
  solve_publishes.
Qed.
Lemma publishes_create_credit_note ctx input : publishes Q (create_credit_note ctx input).
Proof. unfold create_credit_note. solve_publishes. Qed.
Lemma publishes_issue_credit_note ctx input : publishes Q (issue_credit_note ctx input).
Proof. unfold issue_credit_note, publish_creditnote_issued_events. solve_publishes. Qed.
Lemma publishes_mark_overdue_ticker ctx : publishes Q (mark_overdue_ticker ctx).
Proof. unfold mark_overdue_ticker, collect_unpaid_unvoided, TOPIC_OVERDUE. solve_publishes. Qed.
Lemma publishes_reminder_schedule ctx input : publishes Q (reminder_schedule ctx input).
Proof. unfold reminder_schedule. solve_publishes. Qed.
Lemma publishes_reminder_cancel ctx input : publishes Q (reminder_cancel ctx input).
Proof. unfold reminder_cancel. solve_publishes. Qed.
Lemma publishes_reminders_tick ctx : publishes Q (reminders_tick ctx).
Proof. unfold reminders_tick, reminder_dispatch. solve_publishes. Qed.
Lemma publishes_schedule_create ctx input :
  (D → date_ok (sci_start_date input)) → publishes Q (schedule_create ctx input).
Proof. intros Hd. unfold schedule_create, schedule_line. solve_publishes. Qed.
Lemma publishes_schedule_pause ctx input : publishes Q (schedule_pause ctx input).
Proof. unfold schedule_pause, transition_schedule. solve_publishes. Qed.
Lemma publishes_schedule_cancel ctx input : publishes Q (schedule_cancel ctx input).
Proof. unfold schedule_cancel, transition_schedule. solve_publishes. Qed.
Lemma publishes_schedules_tick ctx : publishes Q (schedules_tick ctx).
Proof. unfold schedules_tick, run_schedule. solve_publishes. Qed.
Hint Resolve publishes_mark_paid publishes_create_credit_note : bus.
Lemma publishes_receive remap ctx v : publishes Q (receive remap ctx v).
Proof.
  unfold receive, dispatch_inbound_event, try_insert, Consumer.dispatch, handle_charge_created,
    handle_payment_received, handle_payment_refunded, mark_processed.
  walk_publishes.
Qed.
Lemma publishes_view_invoice ctx key now token :
  publishes Q (view_invoice ctx key now token).
Proof.
  unfold view_invoice, load_view, advance_viewed, store_try, or_error. solve_publishes.
Qed.
End commands.

(** ** The WebSocket operations *)

(** The program extends the log, by whatever messages. *)
Notation appends := (publishes (λ _, True)).

Section ops.
Context {P : Platform} {S : Serde} {T : Tera} (Q : BusMessage → Prop).
Hint Resolve publishes_draft_invoice publishes_issue_invoice publishes_mark_paid publishes_void_invoice
  publishes_send_invoice publishes_create_credit_note publishes_issue_credit_note
  publishes_mark_overdue_ticker publishes_reminder_schedule publishes_reminder_cancel publishes_reminders_tick
  publishes_schedule_pause publishes_schedule_cancel publishes_schedules_tick : bus.

Lemma publishes_tick_arm {B} (p : prog B) answer : publishes Q p → publishes Q (tick_arm p answer).
Proof. intros Hp. unfold tick_arm. walk_publishes. Qed.
Lemma publishes_arm {A W B} (from_value : json → SR W) (into : W → res OpError A) payload
    (command : A → prog B) answer :
  (∀ a, publishes Q (command a)) → publishes Q (arm from_value into payload command answer).
Proof.
  intros Hp. unfold arm, try_bind at 1. cbn. destruct (wire ← decode _ _; _) as [a|e|]; [|constructor..].
  by apply publishes_tick_arm.
Qed.
Lemma publishes_ops D {HQ : Accepts D Q} ctx op payload name :
  (D → False) → publishes Q (dispatch ctx op payload name).
Proof.
  intros HD. unfold dispatch. cbv zeta.
  repeat (destruct (String.eqb op _);
    [first [apply publishes_arm; intros;
            first [apply (publishes_schedule_create D); tauto | eauto with bus]
           | apply publishes_tick_arm; eauto with bus | constructor]|]).
  constructor.
Qed.
End ops.

Lemma accepts_all {P : Platform} : Accepts False (λ _, True).
Proof. by split. Qed.
Lemma appends_ops {P : Platform} {S : Serde} {T : Tera} ctx op payload name : appends (dispatch ctx op payload name).
Proof. apply (publishes_ops _ False (HQ := accepts_all)). done. Qed.
#[export] Hint Resolve appends_ops : bus.

(** ** The type of a topic *)

Section conforming.
Context `{P : Platform} `{S : Serde}.

(** The topics whose struct has a field that the commands leave out:
    [cumulative_paid], [actor] and [due_at]. *)
Definition unreadable : list string :=
  [TOPIC_INVOICE_PAID; TOPIC_INVOICE_PARTIALLY_PAID; TOPIC_INVOICE_OVERDUE; TOPIC_REMINDER_SCHEDULED].

(** A message as the consumers of its topic find it; [D] says that the dates the
    command was given can be written. *)
Definition conforms (D : Prop) (m : BusMessage) : Prop :=
  mechanics (bm_topic m) (bm_payload m) ∨
  (bm_topic m ∈ unreadable ∧ reads_as (bm_topic m) (bm_payload m) = false) ∨
  (bm_topic m ∉ unreadable ∧ (D → time_ok (bm_occurred_at m) → reads_as (bm_topic m) (bm_payload m) = true)).

Lemma conforms_mono (D D' : Prop) m : (D → D') → conforms D' m → conforms D m.
Proof. unfold conforms. intuition. Qed.
End conforming.

Ltac is_unreadable := right; left; split; [apply (bool_decide_unpack _); vm_compute; exact I|].
Ltac is_readable := right; right; split; [apply (bool_decide_unpack _); vm_compute; exact I|].

Section instances.
Context {P : Platform} {L : PlatformLaws P} {S : Serde} {SL : SerdeLaws S} {TL : TextLaws P} (D : Prop).

#[global] Instance accepts_conforms : Accepts D (conforms D).
Proof.
  split; intros *.
  - by left.
  - is_readable. reflexivity.
  - is_readable. unfold issued_payload. destruct (inv_number i); reflexivity.
  - is_readable. reflexivity.
  - is_readable. reflexivity.
  - destruct full; is_unreadable; unfold paid_payload; destruct (mp_bus_event_id input); reflexivity.
  - is_readable. unfold voided_payload. destruct (vi_reason input); reflexivity.
  - is_unreadable. unfold overdue_payload. destruct (inv_number i), (inv_due_at i) as [t|]; cbn; try destruct (DateTime_from_json _); reflexivity.
  - is_readable. unfold cn_drafted_payload. destruct (cn_refund_ref cn); reflexivity.
  - is_readable. unfold cn_issued_payload. destruct (cn_number cn); reflexivity.
  - is_readable. intros _ [Hy Hn]. cbn in Hy, Hn. unfold reads_as. cbn. unfold DateTime_from_json. rewrite -> (datetime_de_str _ at_); [reflexivity|]. by apply dt_string_roundtrip.
  - intros Hd. is_readable. intros HD _. unfold reads_as. cbn. rw nd_string_roundtrip; [by apply Hd|reflexivity].
  - is_unreadable. reflexivity.
  - is_readable. reflexivity.
  - is_readable. reflexivity.
  - is_readable. reflexivity.
  - is_readable. reflexivity.
Qed.
End instances.

Section claim.
Context {P : Platform} {L : PlatformLaws P} {S : Serde} {SL : SerdeLaws S} {TL : TextLaws P}.
Context {T : Tera} {C : Crypto}.

(** The command's dates have four-digit years. *)
Definition dated (c : Command) : Prop :=
  match c with ScheduleCreate input => date_ok (sci_start_date input) | _ => True end.
Definition is_relay (c : Command) : bool := match c with RelayOutbox _ => true | _ => false end.

Lemma publishes_perform ctx c : is_relay c = false → publishes (conforms (dated c)) (perform ctx c).
Proof.
  assert (∀ A (p : prog A), publishes (conforms (dated c)) p → publishes (conforms (dated c)) (forget p)) as Hf
    by (intros; apply publishes_bind; [done|constructor]).
  intros Hc. destruct c; cbn [perform]; try discriminate Hc; [apply publishes_db_exec|apply Hf..].
  - by eapply publishes_draft_invoice, _.
  - by eapply publishes_issue_invoice, _.
  - by eapply publishes_send_invoice, _.
  - by eapply publishes_send_invoice_render, _.
  - by eapply publishes_mark_paid, _.
  - by eapply publishes_void_invoice, _.
  - by eapply publishes_create_credit_note, _.
  - by eapply publishes_issue_credit_note, _.
  - by eapply publishes_mark_overdue_ticker, _.
  - by eapply publishes_reminder_schedule, _.
  - by eapply publishes_reminder_cancel, _.
  - by eapply publishes_reminders_tick, _.
  - by eapply publishes_schedule_create; [apply _|].
  - by eapply publishes_schedule_pause, _.
  - by eapply publishes_schedule_cancel, _.
  - by eapply publishes_schedules_tick, _.
  - by eapply publishes_receive, _.
  - by eapply publishes_view_invoice, _.
Qed.

(** C27: a command, a bus delivery or a link view, complete or killed after any number of
    interactions, only appends to the messages published, and each message it
    appends has the type of its topic: a mechanics event carries the record of its
    topic, a domain event a payload that the struct of its topic reads, given dates
    and a clock in the years 0 to 9999; only under the four topics [invoice.paid],
    [invoice.partially_paid], [invoice.overdue] and [reminder.scheduled] it never is. *)
Theorem published_payloads E ctx c w n :
  is_relay c = false → dated c →
  ∃ sent killed,
    w_bus (run E (perform ctx c) w).1 = w_bus w ++ sent ∧ Forall (conforms True) sent ∧
    w_bus (crash_run E n (perform ctx c) w) = w_bus w ++ killed ∧ Forall (conforms True) killed.
Proof.
  intros Hc Hd. pose proof (publishes_perform ctx c Hc) as Hp.
  eapply publishes_mono in Hp; [|intros m; apply (conforms_mono True); tauto].
  destruct (publishes_run _ E _ w Hp) as (sent & H1 & H2).
  destruct (publishes_crash_run _ E n _ w Hp) as (killed & H3 & H4).
  by exists sent, killed.
Qed.
End claim.

(** ** Witness *)

#[local] Existing Instance Concrete.platform.
#[local] Existing Instance Concrete.platform_laws.
#[local] Existing Instance concrete_tera.
#[local] Existing Instance ConcreteJson.serde.
#[local] Existing Instance ConcreteJson.serde_laws.
#[local] Existing Instance ConcreteJson.text_laws.
#[local] Existing Instance ConcreteCrypto.crypto.

(** A payment publishes four messages, three of them when it is killed. *)
Lemma published_payloads_witness :
  let pay := perform fx_ctx (Receive ∅ (fx_delivery "100.00")) in
  ∃ sent killed,
    w_bus (run fx_env pay (fx_world Sent)).1 = sent ∧ Forall (conforms True) sent ∧
    w_bus (crash_run fx_env 9 pay (fx_world Sent)) = killed ∧ Forall (conforms True) killed ∧
    length sent = 4%nat ∧ length killed = 3%nat.
Proof.
  intros pay.
  destruct (published_payloads fx_env fx_ctx (Receive ∅ (fx_delivery "100.00")) (fx_world Sent) 9 eq_refl I)
    as (sent & killed & H1 & H2 & H3 & H4).
  exists sent, killed. change (w_bus (fx_world Sent)) with (@nil BusMessage) in H1, H3. rewrite -> app_nil_l in H1, H3.
  split; [exact H1|]. split; [exact H2|]. split; [exact H3|]. split; [exact H4|].
  rewrite <- H1, <- H3. split; vm_compute; reflexivity.
Defined.
