(* ===== verification/Ws.v ===== *)
(** * WebSocket connections ([ws/src/topics.rs], [frames.rs], [handler.rs], [bus/src/broadcast.rs])

    A connection reads text frames, answers each with one response and, for
    every subscription, runs a forwarder that copies the bus messages whose
    topic matches a pattern to the client.  [step] interleaves the read loop, the
    forwarders and the rest of the program. *)

From S2P Require Import Prelude External Concrete Money Ids Domain InvoiceFsm CreditNoteFsm Events Store.
From S2P Require Import Codec ConcreteJson Wire Render Command Effects Transition Invariant Evolution World Fixtures.
From S2P Require Import SignedLink System Ops BusLog.

(** ** Topic patterns ([topics.rs]) *)

(** The loop at segment [i], [n] segments of the pattern from its end. *)
Fixpoint match_from (n i : nat) (pat_segs top_segs : list string) : bool :=
  match n with
  | O => (i =? length top_segs)%nat
  | S n =>
      let p := default EmptyString (pat_segs !! i) in
      if String.eqb p "#" then (i =? length pat_segs - 1)%nat
      else match top_segs !! i with
           | None => false
           | Some t =>
               if negb (String.eqb p "*") && negb (String.eqb p t) then false
               else match_from n (S i) pat_segs top_segs
           end
  end.
Definition topic_matches (pattern topic : string) : bool :=
  let pat_segs := split_on "." pattern in
  let top_segs := split_on "." topic in
  match_from (length pat_segs) 0 pat_segs top_segs.

(** The documented grammar: [*] is one segment, a final [#] is any number of
    segments, anything else is itself. *)
Inductive glob : list string → list string → Prop :=
  | glob_nil : glob [] []
  | glob_tail ts : glob ["#"] ts
  | glob_star ps t ts : glob ps ts → glob ("*" :: ps) (t :: ts)
  | glob_segment p ps ts : p ≠ "#" → glob ps ts → glob (p :: ps) (p :: ts).

(** C30: the matcher implements the documented grammar. *)
Theorem topic_matches_glob pattern topic :
  topic_matches pattern topic = true ↔ glob (split_on "." pattern) (split_on "." topic).
Proof.
  unfold topic_matches. generalize (split_on "." pattern) as ps, (split_on "." topic) as ts. intros ps ts.
  assert (∀ rest pre tpre trest, length pre = length tpre →
    match_from (length rest) (length pre) (pre ++ rest) (tpre ++ trest) = true ↔ glob rest trest) as H.
  { induction rest as [|p rest IH]; intros pre tpre trest Hl; cbn [length match_from].
    - rw Nat.eqb_eq length_app Hl. split.
      + intros H. destruct trest; [constructor|cbn in H; lia].
      + inversion 1; subst. cbn. lia.
    - rw list_lookup_middle; [done|]. cbn [default from_option id].
      destruct (String.eqb_spec p "#") as [->|Hp].
      + rw Nat.eqb_eq length_app. cbn. split.
        * intros H. destruct rest; [constructor|cbn in H; lia].
        * inversion 1; subst; [cbn; lia|done].
      + destruct trest as [|t trest].
        { rw app_nil_r lookup_ge_None_2; [lia|]. split; [done|]. inversion 1; subst. done. }
        rw list_lookup_middle; [done|].
        assert (match_from (length rest) (S (length pre)) (pre ++ p :: rest) (tpre ++ t :: trest) = true ↔
          glob rest trest) as Hrec.
        { specialize (IH (pre ++ [p]) (tpre ++ [t]) trest).
          rw !length_app -!app_assoc Nat.add_1_r in IH. apply IH. cbn. lia. }
        destruct (String.eqb_spec p "*") as [->|Hstar]; cbn [negb andb].
        * rw Hrec. split; [by constructor|]. by inversion 1.
        * destruct (String.eqb_spec p t) as [->|Ht]; cbn [negb].
          -- rw Hrec. split; [by constructor|]. by inversion 1.
          -- split; [done|]. by inversion 1. }
  apply (H ps [] [] ts). done.
Qed.

(** ** Frames ([frames.rs]) *)

Section frames.
Context `{P : Platform} `{S : Serde}.

Record RequestFrame := MkRequestFrame { rq_id : string; rq_op : string; rq_payload : json }.
Inductive SubMgmtOp := OpSubscribe | OpUnsubscribe.
Inductive SubMgmtPayload := PSubscribe (pattern : string) | PUnsubscribe (sub_id : string).
Record SubMgmtFrame := MkSubMgmtFrame { sm_id : string; sm_op : SubMgmtOp; sm_payload : SubMgmtPayload }.
Inductive ClientFrame := SubMgmt (f : SubMgmtFrame) | Request (f : RequestFrame).

Inductive ResponseBody := RResult (result : json) | RError (code : string) (message : Message).
Record ResponseFrame := MkResponseFrame { rf_id : string; rf_body : ResponseBody }.
(** [EventFrame] has the fields of the bus message. *)
Inductive ServerFrame := Response (f : ResponseFrame) | Event (m : BusMessage).

Definition SubMgmtOp_from_json (v : json) : SR SubMgmtOp :=
  s ← variant_name v;
  if String.eqb s "subscribe" then Ok OpSubscribe
  else if String.eqb s "unsubscribe" then Ok OpUnsubscribe else Err Json.
(** An untagged enum takes the first variant that decodes; its struct variants
    are objects. *)
Definition SubMgmtPayload_from_json (v : json) : SR SubMgmtPayload :=
  match v with
  | JObj ms =>
      match str_field "pattern" ms with
      | Ok pattern => Ok (PSubscribe pattern)
      | _ => PUnsubscribe <$> str_field "sub_id" ms
      end
  | _ => Err Json
  end.
Definition SubMgmtFrame_from_json (v : json) : SR SubMgmtFrame :=
  ms ← struct_fields ["id"; "op"; "payload"] v;
  id ← str_field "id" ms;
  op ← required SubMgmtOp_from_json "op" ms;
  payload ← required SubMgmtPayload_from_json "payload" ms;
  Ok (MkSubMgmtFrame id op payload).
Definition RequestFrame_from_json (v : json) : SR RequestFrame :=
  ms ← struct_fields ["id"; "op"; "payload"] v;
  id ← str_field "id" ms;
  op ← str_field "op" ms;
  payload ← field "payload" ms;
  Ok (MkRequestFrame id op (match payload with Some v => value_of v | None => JNull end)).
Definition ClientFrame_from_json (v : json) : SR ClientFrame :=
  match SubMgmtFrame_from_json v with
  | Ok f => Ok (SubMgmt f)
  | _ => Request <$> RequestFrame_from_json v
  end.
Definition decode_frame (text : string) : SR ClientFrame :=
  v ← ok_or Json (json_from_str text); ClientFrame_from_json v.
End frames.

(** ** A connection ([handler.rs]) *)

Section connection.
Context `{P : Platform} `{S : Serde} {T : Tera} {C : Crypto}.

(** A forwarder: its subscription, its pattern, where in the bus log it
    subscribed and the position its receiver reads next. *)
Record Forwarder := MkForwarder {
  fw_sub : string;
  fw_pattern : string;
  fw_start : nat;
  fw_next : nat;
}.

(** What handling a text frame comes to: an answer, or the management of a
    subscription. *)
Inductive Outcome := Answer (f : ResponseFrame) | Manage (sub : SubMgmtFrame).

(** Where the read loop is: at its head, in the handling of a frame, about to
    send the response, or past its end. *)
Inductive Reader := Idle | Busy (p : prog Outcome) | Replying (f : ResponseFrame) | Closed.

(** The read loop and its locals, the spawned forwarders and what was sent, each
    frame with the subscription whose forwarder sent it. *)
Record Conn := MkConn {
  cs_reader : Reader;
  cs_next_sub_id : Z;
  cs_subs : list string;
  cs_forwarders : list Forwarder;
  cs_out : list (option string * ServerFrame);
}.
Definition conn_init : Conn := MkConn Idle 1 [] [] [].
Definition set_reader (r : Reader) (c : Conn) : Conn :=
  MkConn r (cs_next_sub_id c) (cs_subs c) (cs_forwarders c) (cs_out c).
Definition send_frame (tag : option string) (f : ServerFrame) (c : Conn) : Conn :=
  MkConn (cs_reader c) (cs_next_sub_id c) (cs_subs c) (cs_forwarders c) (cs_out c ++ [(tag, f)]).

Definition result_frame (id : string) (v : json) : ResponseFrame := MkResponseFrame id (RResult v).
Definition error_frame (id code : string) (m : Message) : ResponseFrame := MkResponseFrame id (RError code m).

(** [log] is the number of messages broadcast so far, where a new receiver
    starts. *)
Definition handle_sub_mgmt (log : nat) (sub : SubMgmtFrame) (c : Conn) : Conn * ResponseFrame :=
  match sm_op sub, sm_payload sub with
  | OpSubscribe, PSubscribe pattern =>
      let sub_id := "sub_" +:+ show_Z (cs_next_sub_id c) in
      (MkConn (cs_reader c) (cs_next_sub_id c + 1) (cs_subs c ++ [sub_id])
         (cs_forwarders c ++ [MkForwarder sub_id pattern log log]) (cs_out c),
       result_frame (sm_id sub) (JObj [("sub_id", JStr sub_id); ("pattern", JStr pattern)]))
  | OpUnsubscribe, PUnsubscribe sub_id =>
      if existsb (String.eqb sub_id) (cs_subs c) then
        (MkConn (cs_reader c) (cs_next_sub_id c)
           (List.filter (λ s, negb (String.eqb sub_id s)) (cs_subs c)) (cs_forwarders c) (cs_out c),
         result_frame (sm_id sub) (JObj [("sub_id", JStr sub_id); ("cancelled", JBool true)]))
      else (c, error_frame (sm_id sub) "not_found" (Text ("unknown sub_id: " +:+ sub_id)))
  | _, _ => (c, error_frame (sm_id sub) "validation" (Text "sub-mgmt op and payload shape disagree"))
  end.

Definition handle_request (ctx : CoreCtx) (req : RequestFrame) : prog ResponseFrame :=
  r ← dispatch ctx (rq_op req) (rq_payload req) "anonymous";
  match r with
  | Ok v => Ret (result_frame (rq_id req) v)
  | Err e => Ret (error_frame (rq_id req) (oe_code e) (oe_message e))
  | Panic => Crash
  end.

Definition handle_text_frame (ctx : CoreCtx) (text : string) : prog Outcome :=
  match decode_frame text with
  | Ok (Request req) => f ← handle_request ctx req; Ret (Answer f)
  | Ok (SubMgmt sub) => Ret (Manage sub)
  | _ => Ret (Answer (error_frame "" "validation" (SerdeText "frame decode: ")))
  end.

(** The session ends: the cancellation handles are dropped. *)
Definition close (c : Conn) : Conn :=
  MkConn Closed (cs_next_sub_id c) [] (cs_forwarders c) (cs_out c).

(** ** Forwarders *)

(** The broadcast channel keeps the last [cap] messages; a receiver that fell
    behind skips to the oldest one kept. *)
Definition recv (cap : nat) (bus : list BusMessage) (f : Forwarder) : option (BusMessage * Forwarder) :=
  let at_ := Nat.max (fw_next f) (length bus - cap) in
  match bus !! at_ with
  | Some m => Some (m, MkForwarder (fw_sub f) (fw_pattern f) (fw_start f) (at_ + 1)%nat)
  | None => None
  end.
(** One turn of forwarder [i]'s loop: [m] is received and sent if it matches. *)
Definition forward (i : nat) (f' : Forwarder) (m : BusMessage) (c : Conn) : Conn :=
  let c := MkConn (cs_reader c) (cs_next_sub_id c) (cs_subs c) (<[i := f']> (cs_forwarders c)) (cs_out c) in
  if topic_matches (fw_pattern f') (bm_topic m) then send_frame (Some (fw_sub f')) (Event m) c else c.
Definition stop (i : nat) (c : Conn) : Conn :=
  MkConn (cs_reader c) (cs_next_sub_id c) (cs_subs c) (delete i (cs_forwarders c)) (cs_out c).

(** [w_bus] is the log of the broadcast channel the commands publish to, [cap]
    its capacity. *)
Inductive step (ctx : CoreCtx) (cap : nat) : World * Conn → World * Conn → Prop :=
  (* the read loop *)
  | step_text text w c :
      cs_reader c = Idle → step ctx cap (w, c) (w, set_reader (Busy (handle_text_frame ctx text)) c)
  | step_binary w c :
      cs_reader c = Idle →
      step ctx cap (w, c) (w, set_reader (Replying (error_frame "" "validation"
        (Text "binary frames are not supported; send JSON text frames"))) c)
  | step_act E w c X (f : Env → World → World * X) k w' x :
      cs_reader c = Busy (Act f k) → f E w = (w', x) →
      step ctx cap (w, c) (w', set_reader (Busy (k x)) c)
  | step_answer w c f :
      cs_reader c = Busy (Ret (Answer f)) → step ctx cap (w, c) (w, set_reader (Replying f) c)
  | step_manage w c sub c' f :
      cs_reader c = Busy (Ret (Manage sub)) → handle_sub_mgmt (length (w_bus w)) sub c = (c', f) →
      step ctx cap (w, c) (w, set_reader (Replying f) c')
  | step_reply w c f :
      cs_reader c = Replying f →
      step ctx cap (w, c) (w, set_reader Idle (send_frame None (Response f) c))
  | step_panic w c : cs_reader c = Busy Crash → step ctx cap (w, c) (w, close c)
  | step_close w c : cs_reader c = Idle → step ctx cap (w, c) (w, close c)
  (* the forwarders *)
  | step_forward w c i f m f' :
      cs_forwarders c !! i = Some f → recv cap (w_bus w) f = Some (m, f') →
      step ctx cap (w, c) (w, forward i f' m c)
  | step_stop w c i f :
      cs_forwarders c !! i = Some f → (fw_sub f) ∉ cs_subs c → step ctx cap (w, c) (w, stop i c)
  (* other clients, the tickers, the HTTP API *)
  | step_others w w' c ms :
      w_bus w' = w_bus w ++ ms → step ctx cap (w, c) (w', c).
Definition steps ctx cap : World * Conn → World * Conn → Prop := rtc (step ctx cap).

(** ** What the client sees of a subscription *)

Definition forwarded (sub : string) (c : Conn) : list BusMessage :=
  omap (λ x, match x with
             | (Some s, Event m) => if String.eqb s sub then Some m else None
             | _ => None
             end) (cs_out c).
Definition wanted (pattern : string) (ms : list BusMessage) : list BusMessage :=
  filter (λ m, topic_matches pattern (bm_topic m) = true) ms.
(** The messages broadcast since the subscription and read by its forwarder. *)
Definition read_by (f : Forwarder) (bus : list BusMessage) : list BusMessage :=
  take (fw_next f - fw_start f) (drop (fw_start f) bus).
End connection.

(** ** The invariant of a connection *)

Section invariant.
Context {P : Platform} {S : Serde} {T : Tera} {C : Crypto}.
Implicit Types (w : World) (c : Conn) (f : Forwarder) (bus : list BusMessage).
#[local] Arguments forwarded : simpl never.

Definition granted (next : Z) (sub : string) : Prop := ∃ k, 1 ≤ k < next ∧ sub = "sub_" +:+ show_Z k.

(** What is sure of a forwarder: where its receiver is, and what it sent. *)
Record forwarder_ok (cap : nat) (bus : list BusMessage) (sent : list BusMessage) (f : Forwarder) : Prop := {
  fo_position : (fw_start f ≤ fw_next f ≤ length bus)%nat;
  fo_sublist : sent `sublist_of` wanted (fw_pattern f) (read_by f bus);
  fo_exact : (length bus - fw_start f ≤ cap)%nat → sent = wanted (fw_pattern f) (read_by f bus);
}.
Record conn_ok (cap : nat) (w : World) (c : Conn) : Prop := {
  co_reader : match cs_reader c with Busy p => appends p | _ => True end;
  co_next : 1 ≤ cs_next_sub_id c;
  co_subs : NoDup (fw_sub <$> cs_forwarders c);
  co_live s : s ∈ cs_subs c → s ∈ fw_sub <$> cs_forwarders c;
  co_granted f : f ∈ cs_forwarders c → granted (cs_next_sub_id c) (fw_sub f);
  co_sent s m : (Some s, Event m) ∈ cs_out c → granted (cs_next_sub_id c) s ∧ m ∈ w_bus w;
  co_forwarders f : f ∈ cs_forwarders c → forwarder_ok cap (w_bus w) (forwarded (fw_sub f) c) f;
}.

Lemma read_by_app f bus ms :
  (fw_next f ≤ length bus)%nat → read_by f (bus ++ ms) = read_by f bus.
Proof.
  intros H. unfold read_by. destruct (decide (fw_start f ≤ length bus)%nat) as [Hs|Hs].
  - rw drop_app_le; [done|]. rw take_app_le; [rw length_drop; lia|done].
  - assert (fw_next f - fw_start f = 0)%nat as -> by lia. done.
Qed.
Lemma wanted_app pattern l1 l2 : wanted pattern (l1 ++ l2) = wanted pattern l1 ++ wanted pattern l2.
Proof. apply filter_app. Qed.
Lemma forwarded_app sub c out :
  forwarded sub (MkConn (cs_reader c) (cs_next_sub_id c) (cs_subs c) (cs_forwarders c) (cs_out c ++ out)) =
  forwarded sub c ++ forwarded sub (MkConn Idle 0 [] [] out).
Proof. unfold forwarded. cbn. apply omap_app. Qed.

Lemma forwarder_ok_app cap bus ms sent f :
  forwarder_ok cap bus sent f → forwarder_ok cap (bus ++ ms) sent f.
Proof.
  intros [Hp Hs He]. split.
  - rw length_app. lia.
  - rewrite -> read_by_app by lia. done.
  - rw length_app. intros Hc. rewrite -> read_by_app by lia. apply He. lia.
Qed.

(** The new forwarder has nothing to send yet. *)
Lemma forwarder_ok_new cap bus s pattern :
  forwarder_ok cap bus [] (MkForwarder s pattern (length bus) (length bus)).
Proof. unfold read_by. split; cbn; [lia|..]; rw Nat.sub_diag take_0; done. Qed.

(** One message more is read. *)
Lemma recv_ok cap bus sent f m f' :
  forwarder_ok cap bus sent f → recv cap bus f = Some (m, f') →
  fw_sub f' = fw_sub f ∧ fw_pattern f' = fw_pattern f ∧ m ∈ bus ∧
  forwarder_ok cap bus (if topic_matches (fw_pattern f) (bm_topic m) then sent ++ [m] else sent) f'.
Proof.
  intros [Hp Hs He]. unfold recv. set (at_ := Nat.max (fw_next f) (length bus - cap)).
  destruct (bus !! at_) as [m'|] eqn:Em; [|done]. intros [= <- <-]. cbn.
  split; [done|]. split; [done|]. split; [by eapply list_elem_of_lookup_2|].
  pose proof (lookup_lt_Some _ _ _ Em) as Hlt.
  set (skipped := take (at_ - fw_next f) (drop (fw_next f) bus)).
  assert (read_by (MkForwarder (fw_sub f) (fw_pattern f) (fw_start f) (at_ + 1)) bus =
    read_by f bus ++ skipped ++ [m']) as Hr.
  { unfold read_by, skipped. cbn. replace (at_ + 1 - fw_start f)%nat with
      ((fw_next f - fw_start f) + ((at_ - fw_next f) + 1))%nat by lia.
    rw -take_take_drop drop_drop. replace (fw_start f + (fw_next f - fw_start f))%nat with (fw_next f) by lia.
    f_equal. rw -take_take_drop drop_drop. f_equal.
    replace (fw_next f + (at_ - fw_next f))%nat with at_ by lia.
    rewrite -> (drop_S _ m' _ Em). cbn. by rw take_0. }
  assert (wanted (fw_pattern f) [m'] = if topic_matches (fw_pattern f) (bm_topic m') then [m'] else []) as Hw.
  { unfold wanted. rw filter_cons filter_nil. destruct (topic_matches _ _); by case_decide. }
  split; [cbn; lia|..]; cbn [fw_pattern fw_start].
  - rw Hr !wanted_app Hw. destruct (topic_matches _ _).
    + apply sublist_app; [done|]. by apply sublist_inserts_l.
    + rw app_nil_r. etrans; [exact Hs|]. by apply sublist_inserts_r.
  - intros Hc. assert (at_ = fw_next f) as Hat by lia.
    assert (skipped = []) as Hsk by (unfold skipped; rw Hat Nat.sub_diag; by rw take_0).
    rw Hr Hsk app_nil_l wanted_app Hw (He Hc). destruct (topic_matches _ _); [done|by rw app_nil_r].
Qed.

(** ** Every step keeps it *)

Lemma show_Z_inj a b : 0 ≤ a → 0 ≤ b → show_Z a = show_Z b → a = b.
Proof.
  intros Ha Hb. unfold show_Z. destruct (Z.ltb_spec a 0), (Z.ltb_spec b 0); try lia. intros E.
  apply (f_equal digits_val) in E. rw !digits_val_uint_str in E. injection E. lia.
Qed.
Lemma granted_fresh next : ¬ granted next ("sub_" +:+ show_Z next).
Proof. intros (k & Hk & [= E]). apply show_Z_inj in E; lia. Qed.
Lemma granted_mono next s : granted next s → granted (next + 1) s.
Proof. intros (k & Hk & ->). exists k. split; [lia|done]. Qed.

(** What no frame is tagged with was not forwarded. *)
Lemma forwarded_none sub c : (∀ m, (Some sub, Event m) ∉ cs_out c) → forwarded sub c = [].
Proof.
  unfold forwarded. induction (cs_out c) as [|[t fr] out IH]; intros H; [done|]. cbn.
  assert (omap (λ x, match x with
    | (Some s, Event m) => if String.eqb s sub then Some m else None | _ => None end) out = []) as ->
    by (apply IH; intros m Hm; apply (H m); by right).
  destruct t as [s|]; [|done]. destruct fr as [|m]; [done|].
  destruct (String.eqb_spec s sub) as [->|]; [|done]. exfalso. apply (H m). by left.
Qed.
Lemma forwarded_out sub c c' : cs_out c = cs_out c' → forwarded sub c = forwarded sub c'.
Proof. intros E. unfold forwarded. by rw E. Qed.
Lemma forwarded_send sub tag fr c :
  forwarded sub (send_frame tag fr c) = forwarded sub c ++
    match tag, fr with Some s, Event m => if String.eqb s sub then [m] else [] | _, _ => [] end.
Proof.
  unfold forwarded, send_frame. cbn [cs_out]. rw omap_app. f_equal.
  destruct tag as [s|]; [|done]. destruct fr as [|m]; [done|]. cbn. by destruct (String.eqb s sub).
Qed.

Lemma conn_ok_init cap w : conn_ok cap w conn_init.
Proof.
  split; cbn; [done|lia|by apply NoDup_nil_2|..]; intros *; intros H; by apply elem_of_nil in H.
Qed.
Lemma conn_ok_bus cap w w' c :
  w_bus w `prefix_of` w_bus w' → conn_ok cap w c → conn_ok cap w' c.
Proof.
  intros [ms Eb] [Hr Hn Hs Hl Hg Ht Hf]. split; try done.
  - intros s m Hin. destruct (Ht s m Hin) as [? ?]. split; [done|]. rw Eb elem_of_app. by left.
  - intros f Hin. rw Eb. by apply forwarder_ok_app, Hf.
Qed.
(** The read loop moves without touching the forwarders. *)
Lemma conn_ok_reader cap w r c :
  match r with Busy p => appends p | _ => True end → conn_ok cap w c → conn_ok cap w (set_reader r c).
Proof. intros Hr' [Hr Hn Hs Hl Hg Ht Hf]. by split. Qed.
Lemma conn_ok_close cap w c : conn_ok cap w c → conn_ok cap w (close c).
Proof. intros [Hr Hn Hs Hl Hg Ht Hf]. split; try done. cbn. intros s H. by apply elem_of_nil in H. Qed.
Lemma conn_ok_respond cap w fr c : conn_ok cap w c → conn_ok cap w (send_frame None (Response fr) c).
Proof.
  intros [Hr Hn Hs Hl Hg Ht Hf]. split; try done.
  - cbn. intros s m. rw elem_of_app. intros [Hin|Hin]; [by apply Ht|].
    apply list_elem_of_singleton in Hin. done.
  - intros f Hin. rw forwarded_send app_nil_r. by apply Hf.
Qed.
Lemma conn_ok_stop cap w i f c :
  cs_forwarders c !! i = Some f → fw_sub f ∉ cs_subs c → conn_ok cap w c → conn_ok cap w (stop i c).
Proof.
  intros Hi Hout [Hr Hn Hs Hl Hg Ht Hf].
  assert (∀ g, g ∈ delete i (cs_forwarders c) → g ∈ cs_forwarders c) as Hsub.
  { intros g Hin. eapply elem_of_sublist; [exact Hin|apply sublist_delete]. }
  split; try done; cbn.
  - eapply sublist_NoDup; [exact Hs|]. apply fmap_sublist, sublist_delete.
  - intros s Hin. apply Hl in Hin as Hin'. rewrite -> (delete_Permutation _ _ _ Hi) in Hin'. cbn in Hin'.
    apply elem_of_cons in Hin' as [->|Hin']; [done|exact Hin'].
  - intros g Hin. by apply Hg, Hsub.
  - intros g Hin. by apply Hf, Hsub.
Qed.
Lemma conn_ok_manage cap w sub c c' fr :
  conn_ok cap w c → handle_sub_mgmt (length (w_bus w)) sub c = (c', fr) → conn_ok cap w c'.
Proof.
  intros Hok. pose proof Hok as [Hr Hn Hs Hl Hg Ht Hf]. unfold handle_sub_mgmt.
  destruct (sm_op sub), (sm_payload sub) as [pattern|sub_id]; try by intros [= <- _].
  - intros [= <- _].
    assert (¬ granted (cs_next_sub_id c) ("sub_" +:+ show_Z (cs_next_sub_id c))) as Hnew
      by apply granted_fresh.
    split; cbn; try done; try lia.
    + rw fmap_app. apply NoDup_app. split; [done|]. split; [|by apply NoDup_singleton].
      intros x Hin Hx. apply list_elem_of_singleton in Hx as ->.
      apply list_elem_of_fmap in Hin as (f0 & E & Hin). apply Hnew. cbn in E. rw E. by apply Hg.
    + intros s. rw fmap_app !elem_of_app. intros [Hin|Hin]; [left; by apply Hl|by right].
    + intros f0. rw elem_of_app. intros [Hin|Hin]; [by apply granted_mono, Hg|].
      apply list_elem_of_singleton in Hin as ->. exists (cs_next_sub_id c). split; [lia|done].
    + intros s m Hin. destruct (Ht s m Hin). split; [by apply granted_mono|done].
    + intros f0. rw elem_of_app. intros [Hin|Hin]; [by apply Hf|].
      apply list_elem_of_singleton in Hin as ->. rw forwarded_none; [|apply forwarder_ok_new].
      intros m Hin. apply Hnew. by apply (Ht _ m).
  - destruct (existsb _ _); intros [= <- _]; [|done]. split; try done. cbn. intros s Hin. apply Hl.
    apply list_elem_of_In, filter_In in Hin as [Hin _]. by apply list_elem_of_In.
Qed.
Lemma conn_ok_forward cap w c i f m f' :
  conn_ok cap w c → cs_forwarders c !! i = Some f → recv cap (w_bus w) f = Some (m, f') →
  conn_ok cap w (forward i f' m c).
Proof.
  intros [Hr Hn Hs Hl Hg Ht Hf] Hi Hrecv.
  assert (f ∈ cs_forwarders c) as Hin by (by eapply list_elem_of_lookup_2).
  destruct (recv_ok _ _ _ _ _ _ (Hf f Hin) Hrecv) as (Es & Ep & Hm & Hok').
  assert (∀ g, g ∈ <[i := f']> (cs_forwarders c) →
    g = f' ∨ (g ∈ cs_forwarders c ∧ fw_sub g ≠ fw_sub f)) as Hother.
  { intros g Hg'. apply list_elem_of_lookup in Hg' as [j Hj].
    destruct (decide (i = j)) as [->|Hne].
    - rewrite -> list_lookup_insert_eq in Hj by (by eapply lookup_lt_Some). left. congruence.
    - rewrite -> list_lookup_insert_ne in Hj by done. right. split; [by eapply list_elem_of_lookup_2|].
      intros E. apply Hne. eapply (NoDup_lookup _ i j (fw_sub f) Hs).
      + by rw list_lookup_fmap Hi.
      + rw list_lookup_fmap Hj. cbn. congruence. }
  set (c1 := MkConn (cs_reader c) (cs_next_sub_id c) (cs_subs c) (<[i := f']> (cs_forwarders c)) (cs_out c)).
  assert (∀ sub, forwarded sub (forward i f' m c) = forwarded sub c ++
    if topic_matches (fw_pattern f) (bm_topic m) && String.eqb (fw_sub f) sub then [m] else []) as Hfwd.
  { intros sub. unfold forward. fold c1. rw Ep Es. destruct (topic_matches _ _); cbn [andb].
    - rw forwarded_send. f_equal.
    - by rw app_nil_r. }
  assert (cs_forwarders (forward i f' m c) = <[i := f']> (cs_forwarders c) ∧
    cs_reader (forward i f' m c) = cs_reader c ∧ cs_next_sub_id (forward i f' m c) = cs_next_sub_id c ∧
    cs_subs (forward i f' m c) = cs_subs c ∧
    ∀ x, x ∈ cs_out (forward i f' m c) → x ∈ cs_out c ∨ x = (Some (fw_sub f), Event m)) as (E1 & E2 & E3 & E5 & E4).
  { unfold forward. fold c1. rw Es Ep. destruct (topic_matches _ _).
    - do 4 (split; [done|]). intros x. cbn. rw elem_of_app.
      intros [|Hx]; [by left|]. apply list_elem_of_singleton in Hx. by right.
    - do 4 (split; [done|]). by left. }
  assert (fw_sub <$> <[i:=f']> (cs_forwarders c) = fw_sub <$> cs_forwarders c) as Esub
    by (rw list_fmap_insert Es list_insert_id; [by rw list_lookup_fmap Hi|done]).
  split; rw ?E1 ?E2 ?E3 ?E5 ?Esub; try done.
  - intros g [->|[Hg' _]]%Hother; [rw Es|]; by apply Hg.
  - intros s m' [Hin'|[= -> ->]]%E4; [by apply Ht|]. split; [by apply Hg|done].
  - intros g [->|[Hg' Hne]]%Hother; rw Hfwd.
    + rw Es String.eqb_refl andb_true_r. destruct (topic_matches _ _); [done|]. by rw app_nil_r.
    + destruct (String.eqb_spec (fw_sub f) (fw_sub g)); [congruence|].
      rw andb_false_r app_nil_r. by apply Hf.
Qed.

Lemma appends_text_frame ctx text : appends (handle_text_frame ctx text).
Proof.
  unfold handle_text_frame. destruct (decode_frame text) as [[sub|req]|e|]; try constructor.
  apply publishes_bind; [|constructor]. unfold handle_request. apply publishes_bind; [apply appends_ops|].
  intros []; constructor.
Qed.

Lemma appends_head {X} (f : Env → World → World * X) (k : X → prog Outcome) :
  appends (Act f k) → grows (λ _, True) f ∧ ∀ x, appends (k x).
Proof.
  assert (∀ p : prog Outcome, appends p → match p with
    | Act f k => grows (λ _, True) f ∧ ∀ x, appends (k x) | _ => True end) as Hinv by (by destruct 1).
  apply Hinv.
Qed.

Lemma step_conn_ok ctx cap w c w' c' :
  step ctx cap (w, c) (w', c') → conn_ok cap w c → conn_ok cap w' c'.
Proof.
  intros Hstep Hok. inversion Hstep; subst; clear Hstep.
  - apply conn_ok_reader; [apply appends_text_frame|done].
  - by apply conn_ok_reader.
  - pose proof (co_reader _ _ _ Hok) as Hr.
    match goal with H : cs_reader c = Busy _ |- _ => rewrite -> H in Hr end.
    apply appends_head in Hr as [He Hk]. apply conn_ok_reader; [apply Hk|].
    eapply conn_ok_bus; [|exact Hok]. destruct (He E w) as (ms & Hw & _).
    match goal with H : f E w = _ |- _ => rewrite -> H in Hw end. by exists ms.
  - by apply conn_ok_reader.
  - apply conn_ok_reader; [done|]. by eapply conn_ok_manage.
  - by apply conn_ok_reader, conn_ok_respond.
  - by apply conn_ok_close.
  - by apply conn_ok_close.
  - by eapply conn_ok_forward.
  - by eapply conn_ok_stop.
  - eapply conn_ok_bus; [|exact Hok]. by eexists.
Qed.
Lemma steps_conn_ok ctx cap s s' :
  steps ctx cap s s' → conn_ok cap s.1 s.2 → conn_ok cap s'.1 s'.2.
Proof.
  induction 1 as [|[w c] [w1 c1] s' Hs _ IH]; [done|]. intros Hok. apply IH. by eapply step_conn_ok.
Qed.
(** The life of one subscription, whether or not it was cancelled since: its id
    stays its own, its forwarder keeps the pattern and the start, and what was
    sent for it is what a receiver at some position has let through. *)
Record life (cap : nat) (sub pattern : string) (start : nat) (w : World) (c : Conn) : Prop := {
  li_granted : granted (cs_next_sub_id c) sub;
  li_forwarder f : f ∈ cs_forwarders c → fw_sub f = sub → fw_pattern f = pattern ∧ fw_start f = start;
  li_sent : ∃ next, forwarder_ok cap (w_bus w) (forwarded sub c) (MkForwarder sub pattern start next);
}.
(** A step that sends no event and opens no forwarder. *)
Lemma life_quiet cap sub pattern start w w' c c' :
  w_bus w `prefix_of` w_bus w' → cs_next_sub_id c' = cs_next_sub_id c →
  (∀ f, f ∈ cs_forwarders c' → f ∈ cs_forwarders c) → forwarded sub c' = forwarded sub c →
  life cap sub pattern start w c → life cap sub pattern start w' c'.
Proof.
  intros [ms Eb] En Hfw Eo [Hg Hf [next Hs]]. split; [by rw En|auto|].
  exists next. rw Eb Eo. by apply forwarder_ok_app.
Qed.
Lemma life_manage cap subid pattern start w sub c c' fr :
  handle_sub_mgmt (length (w_bus w)) sub c = (c', fr) →
  life cap subid pattern start w c → life cap subid pattern start w c'.
Proof.
  intros Hm Hl. pose proof Hl as [Hg Hf Hs]. unfold handle_sub_mgmt in Hm.
  destruct (sm_op sub), (sm_payload sub) as [p|s]; try by injection Hm as <- _.
  - injection Hm as <- _. split; [by apply granted_mono| |done]. cbn. intros f.
    rw elem_of_app. intros [Hin|Hin]; [by apply Hf|]. apply list_elem_of_singleton in Hin as ->.
    cbn. intros <-. destruct (granted_fresh _ Hg).
  - destruct (existsb _ _); by injection Hm as <- _.
Qed.
Lemma life_forward cap sub pattern start w c i f m f' :
  conn_ok cap w c → cs_forwarders c !! i = Some f → recv cap (w_bus w) f = Some (m, f') →
  life cap sub pattern start w c → life cap sub pattern start w (forward i f' m c).
Proof.
  intros Hok Hi Hrecv [Hg Hf Hs]. pose proof (conn_ok_forward _ _ _ _ _ _ _ Hok Hi Hrecv) as Hok'.
  assert (f ∈ cs_forwarders c) as Hin by (by eapply list_elem_of_lookup_2).
  destruct (recv_ok _ _ _ _ _ _ (co_forwarders _ _ _ Hok f Hin) Hrecv) as (Es & Ep & _ & _).
  assert (fw_start f' = fw_start f) as Est.
  { revert Hrecv. unfold recv. destruct (w_bus w !! _) as [m'|]; [|done]. by intros [= _ <-]. }
  assert (cs_forwarders (forward i f' m c) = <[i:=f']> (cs_forwarders c) ∧
    cs_next_sub_id (forward i f' m c) = cs_next_sub_id c) as [Ef En]
    by (unfold forward; by destruct (topic_matches _ _)).
  assert (∀ g, g ∈ cs_forwarders (forward i f' m c) → fw_sub g = sub →
    fw_pattern g = pattern ∧ fw_start g = start) as Hf'.
  { intros g. rw Ef. intros Hg'. apply list_elem_of_lookup in Hg' as [j Hj].
    apply list_lookup_insert_Some in Hj as [(<- & -> & _)|[_ Hj]].
    - rw Es Ep Est. by apply Hf.
    - apply Hf. by eapply list_elem_of_lookup_2. }
  split; [by rw En|done|]. destruct (decide (fw_sub f = sub)) as [<-|Hne].
  - assert (f' ∈ cs_forwarders (forward i f' m c)) as Hin'.
    { rw Ef. eapply list_elem_of_lookup_2, list_lookup_insert_eq. by eapply lookup_lt_Some. }
    pose proof (co_forwarders _ _ _ Hok' f' Hin') as H.
    destruct (Hf' f' Hin' Es) as [<- <-]. exists (fw_next f'). rw -Es. by destruct f'.
  - destruct Hs as [next Hs]. exists next. unfold forward.
    destruct (topic_matches _ _); [|done]. rw forwarded_send Es.
    destruct (String.eqb_spec (fw_sub f) sub); [done|]. by rw app_nil_r.
Qed.
(** The channel only grows. *)
Lemma step_prefix ctx cap w c w' c' :
  step ctx cap (w, c) (w', c') → conn_ok cap w c → w_bus w `prefix_of` w_bus w'.
Proof.
  intros Hstep Hok. inversion Hstep; subst; clear Hstep; try done; [|by eexists].
  pose proof (co_reader _ _ _ Hok) as Hr.
  match goal with H : cs_reader _ = Busy _ |- _ => rewrite -> H in Hr end.
  apply appends_head in Hr as [He _]. destruct (He E w) as (ms & Hw & _).
  match goal with H : f E w = _ |- _ => rewrite -> H in Hw end. by exists ms.
Qed.
Lemma step_life ctx cap sub pattern start w c w' c' :
  step ctx cap (w, c) (w', c') → conn_ok cap w c →
  life cap sub pattern start w c → life cap sub pattern start w' c'.
Proof.
  intros Hstep Hok. pose proof Hstep as Hstep'. inversion Hstep; subst; clear Hstep;
    try (apply life_quiet; [done|done|by intros ?|done]).
  - apply life_quiet; [by eapply step_prefix|done|by intros ?|done].
  - intros Hl. eapply life_manage in Hl; [|eassumption].
    revert Hl. apply life_quiet; done.
  - apply life_quiet; [done..|]. change (forwarded sub (set_reader Idle ?x)) with (forwarded sub x).
    by rw forwarded_send app_nil_r.
  - by eapply life_forward.
  - apply life_quiet; [done|done| |done]. intros g Hin. cbn in Hin.
    eapply elem_of_sublist; [exact Hin|apply sublist_delete].
  - apply life_quiet; [by eexists|done|by intros ?|done].
Qed.
Lemma steps_prefix ctx cap s s' :
  steps ctx cap s s' → conn_ok cap s.1 s.2 → w_bus s.1 `prefix_of` w_bus s'.1.
Proof.
  induction 1 as [|[w c] [w1 c1] s' Hs _ IH]; [done|]. intros Hok.
  etrans; [by eapply step_prefix|]. apply IH. by eapply step_conn_ok.
Qed.
Lemma steps_life ctx cap sub pattern start s s' :
  steps ctx cap s s' → conn_ok cap s.1 s.2 → life cap sub pattern start s.1 s.2 →
  conn_ok cap s'.1 s'.2 ∧ life cap sub pattern start s'.1 s'.2.
Proof.
  induction 1 as [|[w c] [w1 c1] s' Hs _ IH]; [done|]. intros Hok Hl.
  apply IH; [by eapply step_conn_ok|by eapply step_life].
Qed.
End invariant.

(** ** Theorems *)

Section theorems.
Context {P : Platform} {S : Serde} {T : Tera} {C : Crypto}.
Implicit Types (w : World) (c : Conn).

(** Forwarder [i] reads on until it has read everything. *)
Lemma forwarder_catches_up ctx cap w c i f :
  conn_ok cap w c → cs_forwarders c !! i = Some f → (length (w_bus w) - fw_start f ≤ cap)%nat →
  ∃ c', steps ctx cap (w, c) (w, c') ∧ cs_reader c' = cs_reader c ∧ cs_subs c' = cs_subs c ∧
    forwarded (fw_sub f) c' = wanted (fw_pattern f) (drop (fw_start f) (w_bus w)).
Proof.
  intros Hok Hi Hcap. remember (length (w_bus w) - fw_next f)%nat as n eqn:En. revert c f Hok Hi Hcap En.
  induction n as [|n IH]; intros c f Hok Hi Hcap En;
    pose proof (co_forwarders _ _ _ Hok f ltac:(by eapply list_elem_of_lookup_2)) as [Hp _ He].
  - exists c. split; [apply rtc_refl|]. split; [done|]. split; [done|]. rw (He Hcap). f_equal.
    unfold read_by. apply take_ge. rw length_drop. lia.
  - destruct (lookup_lt_is_Some_2 (w_bus w) (fw_next f) ltac:(lia)) as [m Hm].
    set (f' := MkForwarder (fw_sub f) (fw_pattern f) (fw_start f) (fw_next f + 1)).
    assert (recv cap (w_bus w) f = Some (m, f')) as Hrecv.
    { unfold recv. cbv zeta. rewrite -> Nat.max_l by lia. by rw Hm. }
    assert (cs_forwarders (forward i f' m c) !! i = Some f') as Hi'.
    { assert (cs_forwarders (forward i f' m c) = <[i := f']> (cs_forwarders c)) as ->
        by (unfold forward; by destruct (topic_matches _ _)).
      apply list_lookup_insert_eq. by eapply lookup_lt_Some. }
    destruct (IH (forward i f' m c) f') as (c' & Hs & Hr & Hsub & Hfw); try done; [|cbn; lia|].
    { by eapply conn_ok_forward. }
    exists c'. split; [eapply rtc_l; [by eapply step_forward|exact Hs]|]. rw Hr Hsub.
    split; [|split; [|done]]; unfold forward; by destruct (topic_matches _ _).
Qed.

(** The text of a subscribe frame. *)
Definition subscribe_frame (text id pattern : string) : Prop :=
  json_from_str text = Some (JObj
    [("id", JStr id); ("op", JStr "subscribe"); ("payload", JObj [("pattern", JStr pattern)])]).
Lemma subscribe_frame_handled ctx text id pattern :
  subscribe_frame text id pattern →
  handle_text_frame ctx text = Ret (Manage (MkSubMgmtFrame id OpSubscribe (PSubscribe pattern))).
Proof. unfold subscribe_frame, handle_text_frame, decode_frame. intros E. rw E. done. Qed.

(** The step the read loop makes on a subscribe frame. *)
Lemma subscribe_step ctx cap w c text id pattern w1 c1 :
  subscribe_frame text id pattern → cs_reader c = Busy (handle_text_frame ctx text) →
  step ctx cap (w, c) (w1, c1) → cs_reader c1 ≠ cs_reader c →
  w1 = w ∧ ∃ c', handle_sub_mgmt (length (w_bus w)) (MkSubMgmtFrame id OpSubscribe (PSubscribe pattern)) c =
    (c', result_frame id (JObj [("sub_id", JStr ("sub_" +:+ show_Z (cs_next_sub_id c)));
                                ("pattern", JStr pattern)])) ∧
    c1 = set_reader (Replying (result_frame id
      (JObj [("sub_id", JStr ("sub_" +:+ show_Z (cs_next_sub_id c))); ("pattern", JStr pattern)]))) c'.
Proof.
  intros Ht. rewrite -> (subscribe_frame_handled ctx _ _ _ Ht). intros Hr Hstep Hne.
  inversion Hstep; subst; clear Hstep; try congruence; try (by destruct Hne).
  - match goal with H : cs_reader c = Busy (Ret (Manage _)) |- _ => rewrite -> Hr in H; injection H as <- end.
    split; [done|]. eexists. match goal with H : handle_sub_mgmt _ _ _ = _ |- _ => cbn in H |- *; by injection H as <- <- end.
  - exfalso. apply Hne. unfold forward. by destruct (topic_matches _ _).
Qed.

(** C29: a subscriber sees what it asked for, all of it in order and once, and
    nothing else.  The read loop answers a subscribe frame
    [{"id": id, "op": "subscribe", "payload": {"pattern": pattern}}] with a new
    subscription id and the pattern; and however the read loop, the forwarders
    and the rest of the program go on from there, the events sent under that id
    are messages broadcast after the answer was made whose topic matches the
    requested pattern, in the order of the broadcast and without repetition.  As
    long as no more messages than the channel holds were broadcast since, none is
    left out: they are all the matching ones among the first so many messages,
    and while the subscription is not cancelled it can catch up by itself with
    all that was broadcast. *)
Theorem subscription_events_exact ctx cap w0 w c text id pattern w1 c1 :
  steps ctx cap (w0, conn_init) (w, c) →
  subscribe_frame text id pattern → cs_reader c = Busy (handle_text_frame ctx text) →
  step ctx cap (w, c) (w1, c1) → cs_reader c1 ≠ cs_reader c →
  ∃ sub,
    cs_reader c1 = Replying (result_frame id (JObj [("sub_id", JStr sub); ("pattern", JStr pattern)])) ∧
    sub ∉ cs_subs c ∧ cs_subs c1 = cs_subs c ++ [sub] ∧
    ∀ w2 c2, steps ctx cap (w1, c1) (w2, c2) →
      ∃ since, w_bus w2 = w_bus w ++ since ∧
        forwarded sub c2 `sublist_of` wanted pattern since ∧
        ((length since ≤ cap)%nat →
         (∃ n, forwarded sub c2 = wanted pattern (take n since)) ∧
         (sub ∈ cs_subs c2 →
          ∃ c3, steps ctx cap (w2, c2) (w2, c3) ∧ forwarded sub c3 = wanted pattern since)).
Proof.
  intros Hs Ht Hr Hstep Hne. apply steps_conn_ok in Hs; [|apply conn_ok_init]. cbn in Hs.
  pose proof (step_conn_ok _ _ _ _ _ _ Hstep Hs) as Hok1.
  destruct (subscribe_step _ _ _ _ _ _ _ _ _ Ht Hr Hstep Hne) as (-> & c' & Hm & ->).
  set (sub := "sub_" +:+ show_Z (cs_next_sub_id c)) in *. exists sub.
  assert (sub ∉ (fw_sub <$> cs_forwarders c)) as Hnew.
  { intros (f & E & Hin)%list_elem_of_fmap. apply (granted_fresh (cs_next_sub_id c)).
    change (granted (cs_next_sub_id c) sub). rw E. by apply (co_granted _ _ _ Hs). }
  split; [done|]. split; [intros Hin; by apply Hnew, (co_live _ _ _ Hs)|].
  cbn in Hm. injection Hm as <-. split; [done|]. intros w2 c2 Hlater.
  assert (life cap sub pattern (length (w_bus w)) w (set_reader (Replying (result_frame id (JObj
    [("sub_id", JStr sub); ("pattern", JStr pattern)]))) (MkConn (cs_reader c) (cs_next_sub_id c + 1)
    (cs_subs c ++ [sub]) (cs_forwarders c ++ [MkForwarder sub pattern (length (w_bus w)) (length (w_bus w))])
    (cs_out c)))) as Hlife.
  { split; cbn.
    - exists (cs_next_sub_id c). pose proof (co_next _ _ _ Hs). split; [lia|done].
    - intros f. rw elem_of_app. intros [Hin|Hin]; [|by apply list_elem_of_singleton in Hin as ->].
      intros E. destruct Hnew. rw -E. by apply list_elem_of_fmap_2.
    - exists (length (w_bus w)). pose proof (co_forwarders _ _ _ Hok1
        (MkForwarder sub pattern (length (w_bus w)) (length (w_bus w)))) as H.
      cbn in H. apply H. rw elem_of_app. right. by left. }
  apply (steps_life _ _ _ _ _ _ _ Hlater) in Hlife as [Hok2 Hlife]; [|done]. cbn in Hok2, Hlife.
  destruct (steps_prefix _ _ _ _ Hlater Hok1) as [since Eb]. cbn in Eb. exists since. split; [done|].
  destruct (li_sent _ _ _ _ _ _ Hlife) as [next [Hp Hsub Hex]].
  rewrite -> Eb in Hp, Hsub, Hex. unfold read_by in Hsub, Hex. cbn in Hp, Hsub, Hex.
  rewrite -> drop_app_length in Hsub, Hex. split; [|intros Hcap; split].
  - etrans; [exact Hsub|]. rewrite <- (take_drop (next - length (w_bus w)) since) at 2.
    rw wanted_app. by apply sublist_inserts_r.
  - eexists. apply Hex. rw length_app. lia.
  - intros Hin. apply (co_live _ _ _ Hok2) in Hin. apply list_elem_of_fmap in Hin as (f & Ef & Hin).
    apply list_elem_of_lookup in Hin as Hi. destruct Hi as [i Hi].
    destruct (li_forwarder _ _ _ _ _ _ Hlife f Hin (eq_sym Ef)) as [Epat Est].
    destruct (forwarder_catches_up ctx cap w2 c2 i f) as (c3 & Hs3 & _ & _ & E3); [done..| |].
    + rw Est Eb length_app. lia.
    + exists c3. split; [done|]. rw Ef E3 Epat Est Eb drop_app_length. done.
Qed.

(** The id a frame is answered with. *)
Definition frame_id (text : string) : string :=
  match decode_frame text with
  | Ok (Request req) => rq_id req
  | Ok (SubMgmt sub) => sm_id sub
  | _ => ""
  end.

Lemma run_steps ctx cap E (p : prog Outcome) w c w' o :
  run E p w = (w', Ok o) →
  steps ctx cap (w, set_reader (Busy p) c) (w', set_reader (Busy (Ret o)) c).
Proof.
  revert w. induction p as [a|e| |X g k IH]; intros w; cbn; try done.
  - intros [= -> ->]. apply rtc_refl.
  - destruct (g E w) as [w1 x] eqn:Eg. intros H. eapply rtc_l; [|by apply IH].
    change (set_reader (Busy (k x)) c) with (set_reader (Busy (k x)) (set_reader (Busy (Act g k)) c)).
    by eapply step_act.
Qed.

(** A request does not end in an error of the command layer: it is answered. *)
Definition never_throws {A} (p : prog A) : Prop := ∀ E w e, (run E p w).2 ≠ Err e.
Lemma tick_arm_never_throws {B} (command : prog B) answer : never_throws (tick_arm command answer).
Proof.
  intros E w e. unfold tick_arm. rw run_try_bind run_try_conv run_catch.
  by destruct (run E command w) as [w' [b|e'|]].
Qed.
Lemma arm_never_throws {A W B} (from_value : json → SR W) (into : W → res OpError A) payload
    (command : A → prog B) answer : never_throws (arm from_value into payload command answer).
Proof.
  intros E w e. unfold arm, try_bind at 1. cbn. destruct (wire ← decode _ _; _) as [a|e'|]; [|done..].
  apply tick_arm_never_throws.
Qed.
Lemma ops_never_throw ctx op payload name : never_throws (dispatch ctx op payload name).
Proof.
  unfold dispatch. cbv zeta.
  repeat (destruct (String.eqb op _); [first [apply arm_never_throws | apply tick_arm_never_throws | done]|]).
  done.
Qed.

(** Every text frame is answered, exactly once and under its own id: when
    its handling ends, which a command that panics is the only way not to, the
    read loop comes back to its head having sent one response more, tagged with
    the id of the request or, for a frame that does not decode, the empty id. *)
Lemma text_frames_answered ctx cap E text w c w' r :
  cs_reader c = Idle → run E (handle_text_frame ctx text) w = (w', r) → r ≠ Panic →
  ∃ c' answer, steps ctx cap (w, c) (w', c') ∧ cs_reader c' = Idle ∧
    cs_out c' = cs_out c ++ [(None, Response answer)] ∧ rf_id answer = frame_id text.
Proof.
  intros Hidle Hrun Hr.
  assert (∃ o, r = Ok o ∧ match o with Answer f => rf_id f = frame_id text
                         | Manage sub => decode_frame text = Ok (SubMgmt sub) end) as (o & -> & Ho).
  { unfold handle_text_frame, frame_id in *. destruct (decode_frame text) as [[sub|req]|e|].
    - injection Hrun as <- <-. by eexists.
    - rewrite -> run_bind in Hrun. unfold handle_request in Hrun. rewrite -> run_bind in Hrun.
      pose proof (ops_never_throw ctx (rq_op req) (rq_payload req) "anonymous" E w) as Hn.
      destruct (run E (dispatch _ _ _ _) w) as [w1 [[v|e|]|e|]]; cbn in Hrun, Hn;
        injection Hrun as <- <-; try done; [by eexists..|by destruct (Hn e)].
    - injection Hrun as <- <-. by eexists.
    - injection Hrun as <- <-. by eexists. }
  assert (steps ctx cap (w, c) (w', set_reader (Busy (Ret o)) c)) as Hbusy.
  { eapply rtc_l; [by apply (step_text _ _ text)|].
    change (set_reader (Busy (handle_text_frame ctx text)) c)
      with (set_reader (Busy (handle_text_frame ctx text)) (set_reader (Busy (Ret o)) c)).
    by apply (run_steps _ _ E _ _ (set_reader (Busy (Ret o)) c)). }
  assert (∀ c1 f, cs_out c1 = cs_out c → rf_id f = frame_id text →
    steps ctx cap (w', set_reader (Busy (Ret o)) c) (w', set_reader (Replying f) c1) →
    ∃ c' answer, steps ctx cap (w, c) (w', c') ∧ cs_reader c' = Idle ∧
      cs_out c' = cs_out c ++ [(None, Response answer)] ∧ rf_id answer = frame_id text) as Hend.
  { intros c1 f Eo Hid Hs. exists (set_reader Idle (send_frame None (Response f) (set_reader (Replying f) c1))), f.
    split; [|split; [done|split; [by rw -Eo|done]]].
    etrans; [exact Hbusy|]. etrans; [exact Hs|]. by apply rtc_once, step_reply. }
  destruct o as [f|sub].
  - apply (Hend c f); [done..|]. apply rtc_once.
    change (set_reader (Replying f) c) with (set_reader (Replying f) (set_reader (Busy (Ret (Answer f))) c)).
    by apply step_answer.
  - destruct (handle_sub_mgmt (length (w_bus w')) sub (set_reader (Busy (Ret (Manage sub))) c)) as [c1 f] eqn:Eh.
    assert (cs_out c1 = cs_out c ∧ rf_id f = sm_id sub) as [Eo Ei].
    { unfold handle_sub_mgmt in Eh. destruct (sm_op sub), (sm_payload sub); try (by injection Eh as <- <-).
      destruct (existsb _ _); by injection Eh as <- <-. }
    apply (Hend c1 f); [done|unfold frame_id; by rw Ho|]. by eapply rtc_once, step_manage.
Qed.
End theorems.

(** ** Witnesses *)

#[local] Existing Instance Concrete.platform.
#[local] Existing Instance Concrete.platform_laws.
#[local] Existing Instance ConcreteJson.serde.
#[local] Existing Instance ConcreteCrypto.crypto.
#[local] Existing Instance concrete_tera.

Example topic_matches_examples :
  topic_matches "inv.billing.*.drafted" "inv.billing.invoice.drafted" = true ∧
  topic_matches "inv.billing.*.drafted" "inv.billing.drafted" = false ∧
  topic_matches "inv.billing.invoice.#" "inv.billing.invoice" = true ∧
  topic_matches "inv.#.invoice" "inv.billing.invoice" = false.
Proof. by vm_compute. Qed.

(** A session: subscribe to the invoice topics, then two messages are broadcast
    and the forwarder runs. *)
Definition fx_subscribe : string := json_to_string (JObj
  [("id", JStr "2"); ("op", JStr "subscribe");
   ("payload", JObj [("pattern", JStr "inv.billing.invoice.#")])]).
Definition fx_message (topic : string) : BusMessage := MkBusMessage topic JNull fx_time.
Definition fx_paid : BusMessage := fx_message "inv.billing.invoice.paid".
Definition fx_messages : list BusMessage := [fx_message "inv.billing.reminder.sent"; fx_paid].
Definition fx_broadcast : World :=
  let w := fx_world Sent in
  MkWorld (w_db w) (w_step w) (w_bus w ++ fx_messages) (w_files w) (w_sink w) (w_blobs w).
Definition fx_subscribed : list (option string * ServerFrame) :=
  [(None, Response (result_frame "2"
     (JObj [("sub_id", JStr "sub_1"); ("pattern", JStr "inv.billing.invoice.#")])))].
Definition fx_forwarder (next : nat) : Forwarder := MkForwarder "sub_1" "inv.billing.invoice.#" 0 next.
Definition fx_session (next : nat) (out : list (option string * ServerFrame)) : Conn :=
  MkConn Idle 2 ["sub_1"] [fx_forwarder next] (fx_subscribed ++ out).

Definition fx_frame : SubMgmtFrame := MkSubMgmtFrame "2" OpSubscribe (PSubscribe "inv.billing.invoice.#").
Lemma fx_decode : decode_frame fx_subscribe = Ok (SubMgmt fx_frame).
Proof. vm_compute. reflexivity. Qed.
Lemma fx_handle : handle_text_frame fx_ctx fx_subscribe = Ret (Manage fx_frame).
Proof. unfold handle_text_frame. rw fx_decode. done. Qed.

Lemma fx_session_reached :
  steps fx_ctx 16 (fx_world Sent, conn_init) (fx_broadcast, fx_session 0 []).
Proof.
  eapply rtc_l; [by apply (step_text _ _ fx_subscribe)|].
  rw fx_handle.
  eapply rtc_l; [by eapply step_manage|]. eapply rtc_l; [by eapply step_reply|].
  apply rtc_once. by eapply (step_others _ _ _ _ _ fx_messages).
Qed.
Lemma fx_session_forwarded :
  steps fx_ctx 16 (fx_world Sent, conn_init) (fx_broadcast, fx_session 2 [(Some "sub_1", Event fx_paid)]).
Proof.
  etrans; [apply fx_session_reached|].
  eapply rtc_l; [by eapply (step_forward _ _ _ _ 0)|].
  eapply rtc_l; [by eapply (step_forward _ _ _ _ 0)|]. apply rtc_refl.
Qed.

Lemma subscription_events_exact_witness :
  ∃ c1, cs_subs c1 = ["sub_1"] ∧
    ∀ w2 c2, steps fx_ctx 16 (fx_world Sent, c1) (w2, c2) →
      ∃ since, w_bus w2 = w_bus (fx_world Sent) ++ since ∧
        forwarded "sub_1" c2 `sublist_of` wanted "inv.billing.invoice.#" since.
Proof.
  destruct (subscription_events_exact fx_ctx 16 (fx_world Sent) (fx_world Sent)
    (set_reader (Busy (handle_text_frame fx_ctx fx_subscribe)) conn_init) fx_subscribe "2"
    "inv.billing.invoice.#" (fx_world Sent)
    (set_reader (Replying (result_frame "2"
       (JObj [("sub_id", JStr "sub_1"); ("pattern", JStr "inv.billing.invoice.#")])))
     (MkConn Idle 2 ["sub_1"] [fx_forwarder 0] []))) as (sub & Hreply & Hnew & Hsubs & Hlater).
  - apply rtc_once. by apply step_text.
  - vm_compute. reflexivity.
  - reflexivity.
  - eapply (step_manage _ _ _ _ fx_frame (MkConn (Busy (handle_text_frame fx_ctx fx_subscribe)) 2 ["sub_1"]
      [fx_forwarder 0] [])); [|reflexivity].
    exact (f_equal Busy fx_handle).
  - discriminate.
  - cbn in Hsubs. injection Hsubs as <-. eexists. split; [|intros w2 c2 Hs;
      destruct (Hlater w2 c2 Hs) as (since & Eb & Hsub & _); by exists since]. reflexivity.
Defined.
(** In the session above its forwarder has sent the one message that matches. *)
Example fx_session_events :
  forwarded "sub_1" (fx_session 2 [(Some "sub_1", Event fx_paid)]) = wanted "inv.billing.invoice.#" fx_messages.
Proof. reflexivity. Qed.

Lemma text_frames_answered_witness :
  ∃ c' answer, steps fx_ctx 16 (fx_world Sent, conn_init) (fx_world Sent, c') ∧ cs_reader c' = Idle ∧
    cs_out c' = [(None, Response answer)] ∧ rf_id answer = frame_id fx_subscribe.
Proof.
  apply (text_frames_answered fx_ctx 16 fx_env fx_subscribe (fx_world Sent) conn_init (fx_world Sent)
    (Ok (Manage fx_frame))).
  - reflexivity.
  - rewrite -> fx_handle. reflexivity.
  - discriminate.
Defined.
