(* ===== verification/Publishers.v ===== *)
(** * Publishers ([commands/src/publisher.rs], [bus/src/publisher.rs], [broadcast.rs])

    The trait as an interface, its three implementations, and the loop of a
    broadcast subscriber over what the channel of [tokio] answers; [Ws.recv],
    which the WebSocket forwarders receive by, is that loop. *)

From S2P Require Import Prelude External Concrete Money Ids Domain Events Tax Store Render Command Effects.
From S2P Require Import InvoiceFsm SignedLink Ops Ws.

(** ** The trait *)

(** [publish] through a shared reference: the answer and the publisher after. *)
Class Publisher (Pb : Type) `{P : Platform} := {
  publish : Pb → string → json → DateTime → res PublishError () * Pb;
}.
(** What a publisher passed on, and the promise of all three here: a message is
    accepted and comes after the earlier ones. *)
Class Faithful (Pb : Type) `{P : Platform} `{Publisher Pb} := {
  said : Pb → list BusMessage;
  said_publish p topic payload at_ :
    (publish p topic payload at_).1 = Ok () ∧
    said (publish p topic payload at_).2 = said p ++ [MkBusMessage topic payload at_];
}.

Section publishers.
Context {P : Platform}.

(** ** The logging publisher: the lines it writes *)

Record LoggingPublisher := MkLoggingPublisher { lp_lines : list BusMessage }.
#[export] Instance LoggingPublisher_Publisher : Publisher LoggingPublisher := {|
  publish p topic payload at_ := (Ok (), MkLoggingPublisher (lp_lines p ++ [MkBusMessage topic payload at_]));
|}.
#[export] Instance LoggingPublisher_Faithful : Faithful LoggingPublisher := {|
  said := lp_lines; said_publish _ _ _ _ := conj eq_refl eq_refl;
|}.

(** ** The in-memory publisher *)

Record CapturedEvent := MkCapturedEvent { ce_topic : string; ce_payload : json; ce_occurred_at : DateTime }.
Record InMemoryPublisher := MkInMemoryPublisher { im_inner : list CapturedEvent }.
Definition InMemoryPublisher_new : InMemoryPublisher := MkInMemoryPublisher [].
Definition captured (p : InMemoryPublisher) : list CapturedEvent := im_inner p.
Definition im_len (p : InMemoryPublisher) : nat := length (im_inner p).
Definition im_is_empty (p : InMemoryPublisher) : bool := match im_inner p with [] => true | _ => false end.
Definition topics (p : InMemoryPublisher) : list string := ce_topic <$> im_inner p.
#[export] Instance InMemoryPublisher_Publisher : Publisher InMemoryPublisher := {|
  publish p topic payload occurred_at :=
    (Ok (), MkInMemoryPublisher (im_inner p ++ [MkCapturedEvent topic payload occurred_at]));
|}.
Definition as_message (e : CapturedEvent) : BusMessage := MkBusMessage (ce_topic e) (ce_payload e) (ce_occurred_at e).
Lemma in_memory_publish p topic payload at_ :
  (publish p topic payload at_).1 = Ok () ∧
  as_message <$> captured (publish p topic payload at_).2 =
    (as_message <$> captured p) ++ [MkBusMessage topic payload at_].
Proof. split; [done|]. unfold captured. cbn. by rw fmap_app. Qed.
#[export] Instance InMemoryPublisher_Faithful : Faithful InMemoryPublisher := {|
  said p := as_message <$> captured p; said_publish := in_memory_publish;
|}.

(** ** The broadcast publisher

    The channel of [tokio]: every message ever sent, of which it keeps the last
    [bp_capacity]; a receiver is the position it reads next, and starts after
    what was sent before. *)

Record BroadcastPublisher := MkBroadcastPublisher { bp_capacity : nat; bp_sent : list BusMessage; bp_closed : bool }.
Definition BroadcastPublisher_new (capacity : nat) : BroadcastPublisher := MkBroadcastPublisher capacity [] false.
Definition BroadcastPublisher_default : BroadcastPublisher := BroadcastPublisher_new 1024.
Definition subscribe (p : BroadcastPublisher) : nat := length (bp_sent p).
(** [let _ = self.tx.send(..)]: with no receiver the message goes nowhere, which
    no later receiver can tell. *)
#[export] Instance BroadcastPublisher_Publisher : Publisher BroadcastPublisher := {|
  publish p topic payload occurred_at :=
    (Ok (), MkBroadcastPublisher (bp_capacity p) (bp_sent p ++ [MkBusMessage topic payload occurred_at])
              (bp_closed p));
|}.
#[export] Instance BroadcastPublisher_Faithful : Faithful BroadcastPublisher := {|
  said := bp_sent; said_publish _ _ _ _ := conj eq_refl eq_refl;
|}.

(** What [broadcast::Receiver::recv] comes back with, and the position after:
    nothing while it waits for a message. *)
Inductive Received := Message (m : BusMessage) | RecvClosed | RecvLagged (n : nat).
Definition rx_recv (p : BroadcastPublisher) (next : nat) : option (Received * nat) :=
  let oldest := (length (bp_sent p) - bp_capacity p)%nat in
  if (next <? oldest)%nat then Some (RecvLagged (oldest - next), oldest)
  else match bp_sent p !! next with
       | Some m => Some (Message m, S next)
       | None => if bp_closed p then Some (RecvClosed, next) else None
       end.
(** [BroadcastSubscriber::recv]: the outer option is whether it comes back. *)
Fixpoint subscriber_recv (fuel : nat) (p : BroadcastPublisher) (next : nat) : option (option BusMessage * nat) :=
  match fuel with
  | O => None
  | S fuel =>
      match rx_recv p next with
      | None => None
      | Some (Message m, next) => Some (Some m, next)
      | Some (RecvClosed, next) => Some (None, next)
      | Some (RecvLagged _, next) => subscriber_recv fuel p next
      end
  end.

(** Two turns are enough: a receiver that lagged is at the oldest message kept. *)
Lemma subscriber_recv_two fuel p next : (2 ≤ fuel)%nat → subscriber_recv fuel p next = subscriber_recv 2 p next.
Proof.
  intros Hf. do 2 (destruct fuel as [|fuel]; [lia|]). cbn [subscriber_recv].
  destruct (rx_recv p next) as [[[m| |n] next']|] eqn:E; try done.
  unfold rx_recv in E. destruct (Nat.ltb_spec next (length (bp_sent p) - bp_capacity p)).
  2:{ destruct (bp_sent p !! next); [done|]. by destruct (bp_closed p). }
  injection E as _ <-. unfold rx_recv. by rw Nat.ltb_irrefl; destruct (bp_sent p !! _); [|destruct (bp_closed p)].
Qed.
(** The loop delivers what the forwarders' [recv] does. *)
Lemma subscriber_recv_ws p (f : Forwarder) :
  recv (bp_capacity p) (bp_sent p) f =
    match subscriber_recv 2 p (fw_next f) with
    | Some (Some m, next) => Some (m, MkForwarder (fw_sub f) (fw_pattern f) (fw_start f) next)
    | _ => None
    end.
Proof.
  unfold recv. cbn [subscriber_recv]. unfold rx_recv at 1.
  destruct (Nat.ltb_spec (fw_next f) (length (bp_sent p) - bp_capacity p)) as [Hl|Hl].
  - rw Nat.max_r; [lia|]. unfold rx_recv. rw Nat.ltb_irrefl.
    destruct (bp_sent p !! _); [by rw Nat.add_1_r|]. by destruct (bp_closed p).
  - rw Nat.max_l; [lia|]. destruct (bp_sent p !! _); [by rw Nat.add_1_r|]. by destruct (bp_closed p).
Qed.
(** A publish that the environment accepts adds to the world's bus what the
    broadcast publisher adds to its channel. *)
Lemma publish_try_broadcast E w p topic payload at_ :
  env_publish_ok E (w_step w) = true → bp_sent p = w_bus w →
  (run E (publish_try topic payload at_) w).2 = Ok (publish p topic payload at_).1 ∧
  w_bus (run E (publish_try topic payload at_) w).1 = bp_sent (publish p topic payload at_).2.
Proof. intros He Hs. cbn. rw He. cbn. by rw Hs. Qed.
(** A subscription that never falls behind the capacity gets every message, in
    order. *)
Lemma subscriber_next p next m :
  (length (bp_sent p) ≤ next + bp_capacity p)%nat → bp_sent p !! next = Some m →
  subscriber_recv 2 p next = Some (Some m, S next).
Proof.
  intros Hc Hm. cbn [subscriber_recv]. unfold rx_recv.
  destruct (Nat.ltb_spec next (length (bp_sent p) - bp_capacity p)); [lia|]. by rw Hm.
Qed.
End publishers.

(** Publishing a list of messages through any faithful publisher. *)
Section all.
Context {P : Platform} {Pb : Type} {I : Publisher Pb} {F : Faithful Pb}.

Definition publish_all (p : Pb) (ms : list BusMessage) : Pb :=
  foldl (λ p m, (publish p (bm_topic m) (bm_payload m) (bm_occurred_at m)).2) p ms.
Lemma said_publish_all p ms : said (publish_all p ms) = said p ++ ms.
Proof.
  revert p. induction ms as [|m ms IH]; intros p; cbn; [by rw app_nil_r|].
  rw IH. destruct (said_publish p (bm_topic m) (bm_payload m) (bm_occurred_at m)) as [_ ->].
  rw -app_assoc. by destruct m.
Qed.
End all.
