(* ===== verification/Server.v ===== *)
(** * The long-lived server ([cli/src/commands/server.rs])

    [inv server] serves HTTP and the WebSocket on one listener, MCP over stdio
    when asked, and runs four loops beside them: the outbox relay and the three
    tickers.  Everything is a task of one runtime, so the model steps one
    interaction of one task at a time.  The context publishes to the broadcast
    channel, whose log is the world's; the relay publishes to a
    [LoggingPublisher], whose log is the server's own.  The listener, the signal
    handler and the runtime's timers are outside: a tick, a request or the
    shutdown may come at any time. *)

From S2P Require Import Prelude External Concrete Money Ids Domain InvoiceFsm CreditNoteFsm Events Cadence.
From S2P Require Import Tax Store Codec ConcreteJson Wire Rows Render Command Effects Transition Invariant Evolution World.
From S2P Require Import Fixtures Draft Issue Pay Void Send Credit Overdue Reminders Schedules SignedLink Outbox.
From S2P Require Import Consumer View Transactions System Ops Adapter Api Mcp McpCall Cli Http Interleave Relaying Ws.

Inductive Loop_name := OutboxLoop | SchedulesLoop | RemindersLoop | OverdueLoop.
#[export] Instance Loop_name_eq_dec : EqDecision Loop_name.
Proof. solve_decision. Defined.

Definition server_cmd : list Arg :=
  [MkArg "listen" KText false (Some "127.0.0.1:7400"); MkArg "mcp" KSetTrue false None;
   MkArg "outbox-interval-secs" KText false (Some "5"); MkArg "schedules-interval-secs" KText false (Some "86400");
   MkArg "reminders-interval-secs" KText false (Some "300"); MkArg "overdue-interval-secs" KText false (Some "3600")].

Section server.
Context {P : Platform} {S : Serde} {T : Tera} {C : Crypto} {Ax : Axum}.
Notation CR := (res CliError).

Definition parse_secs (m : ArgMatches) (key : string) : CR Z :=
  raw ← ok_or (Anyhow ("missing --" +:+ key)) (get_one m key);
  ok_or (Unparsed ("parsing --" +:+ key +:+ " as u64 seconds: " +:+ raw)) (parse_unsigned (2 ^ 64 - 1) raw).

(** ** The loops *)

(** What a loop does each time its interval elapses: an error is only logged. *)
Definition logged_only {A} (p : prog A) : prog () := _ ← catch p; Ret ().
Definition loop_body (ctx : CoreCtx) (l : Loop_name) : prog () :=
  match l with
  | OutboxLoop => r ← run_outbox_relay 100; match r with Panic => Crash | _ => Ret () end
  | SchedulesLoop => logged_only (schedules_tick ctx)
  | RemindersLoop => logged_only (reminders_tick ctx)
  | OverdueLoop => logged_only (mark_overdue_ticker ctx)
  end.

(** A loop waits for its interval, is in the middle of its body, or its task is
    gone: it panicked, or was aborted. *)
Inductive Loop := Waiting | Running (p : prog ()) | Gone.
(** [interval(period)] panics on a zero period. *)
Definition spawn_loop (interval_secs : Z) : Loop := if interval_secs =? 0 then Gone else Waiting.

(** ** The process *)

Inductive Request :=
  | Http (now_unix : Z) (rq : HttpRequest)
  | WsFrame (text : string)
  | Mcp (rq : McpRequest).

Record Server := MkServer {
  sv_world : World;
  sv_log : list BusMessage;           (* what the relay's publisher logged *)
  sv_loops : Loop_name → Loop;
  sv_tasks : list (prog ());          (* requests being answered *)
  sv_others : list (prog ());         (* commands of other processes on the same store *)
  sv_mcp : bool;
  sv_up : bool;
}.

Context (http : nat → string → string → string → string → HttpReply).

(** [ctx_with_pub], [ApiConfig::default()] *)
Definition server_ctx (ctx : CoreCtx) : CoreCtx := with_publisher ctx.
Definition server_state (ctx : CoreCtx) : ApiState := MkApiState (server_ctx ctx) ApiConfig_default http.
Definition answered {A} (p : prog A) : prog () := _ ← p; Ret ().
Definition request_task (ctx : CoreCtx) (r : Request) : prog () :=
  match r with
  | Http now rq => answered (router (server_state ctx) now rq)
  | WsFrame text => answered (handle_text_frame (server_ctx ctx) text)
  | Mcp rq => answered (mcp_serve (server_ctx ctx) rq)
  end.

(** [dispatch] up to the loops: [bind] says whether the address can be bound. *)
Definition server_start (bind : string → bool) (m : ArgMatches) (w : World) : CR Server :=
  let listen := default "" (get_one m "listen") in
  let mcp := get_flag m "mcp" in
  outbox_secs ← parse_secs m "outbox-interval-secs";
  schedules_secs ← parse_secs m "schedules-interval-secs";
  reminders_secs ← parse_secs m "reminders-interval-secs";
  overdue_secs ← parse_secs m "overdue-interval-secs";
  if bind listen then
    Ok (MkServer w []
          (λ l, spawn_loop match l with
                           | OutboxLoop => outbox_secs | SchedulesLoop => schedules_secs
                           | RemindersLoop => reminders_secs | OverdueLoop => overdue_secs
                           end) [] [] mcp true)
  else Err (Anyhow ("binding " +:+ listen)).

Definition set_loop (l : Loop_name) (s : Loop) (sv : Server) : Server :=
  MkServer (sv_world sv) (sv_log sv) (λ l', if bool_decide (l' = l) then s else sv_loops sv l')
    (sv_tasks sv) (sv_others sv) (sv_mcp sv) (sv_up sv).
Definition set_world (w : World) (sv : Server) : Server :=
  MkServer w (sv_log sv) (sv_loops sv) (sv_tasks sv) (sv_others sv) (sv_mcp sv) (sv_up sv).
Definition set_tasks (ts : list (prog ())) (sv : Server) : Server :=
  MkServer (sv_world sv) (sv_log sv) (sv_loops sv) ts (sv_others sv) (sv_mcp sv) (sv_up sv).
Definition set_others (ts : list (prog ())) (sv : Server) : Server :=
  MkServer (sv_world sv) (sv_log sv) (sv_loops sv) (sv_tasks sv) ts (sv_mcp sv) (sv_up sv).

(** Neither publisher refuses. *)
Definition accepting (E : Env) : Env :=
  MkEnv (env_now E) (env_db_ok E) (λ _, true) (env_io_ok E) (env_io_msg E) (env_io_left E).
Definition set_bus (b : list BusMessage) (w : World) : World :=
  MkWorld (w_db w) (w_step w) b (w_files w) (w_sink w) (w_blobs w).
(** One interaction of a loop: the relay's publishes go to the log. *)
Definition loop_act {X} (l : Loop_name) (E : Env) (f : Env → World → World * X) (sv : Server) : Server * X :=
  match l with
  | OutboxLoop =>
      let '(w, x) := f (accepting E) (set_bus (sv_log sv) (sv_world sv)) in
      (MkServer (set_bus (w_bus (sv_world sv)) w) (w_bus w) (sv_loops sv) (sv_tasks sv)
         (sv_others sv) (sv_mcp sv) (sv_up sv), x)
  | _ => let '(w, x) := f (accepting E) (sv_world sv) in (set_world w sv, x)
  end.

(** What another process did: it shares the database, the files and the blobs. *)
Definition elsewhere (w w' : World) : World :=
  MkWorld (w_db w') (w_step w') (w_bus w) (w_files w') (w_sink w) (w_blobs w').

Inductive server_step (ctx : CoreCtx) : Server → Server → Prop :=
  | sv_request sv r :
      sv_up sv = true → (∀ rq, r = Mcp rq → sv_mcp sv = true) →
      server_step ctx sv (set_tasks (sv_tasks sv ++ [request_task ctx r]) sv)
  | sv_task E i X (f : Env → World → World * X) k sv :
      sv_tasks sv !! i = Some (Act f k) →
      server_step ctx sv (set_tasks (<[i := k (f (accepting E) (sv_world sv)).2]> (sv_tasks sv))
                            (set_world (f (accepting E) (sv_world sv)).1 sv))
  | sv_tick l sv :
      sv_loops sv l = Waiting → server_step ctx sv (set_loop l (Running (loop_body (server_ctx ctx) l)) sv)
  | sv_loop E l X (f : Env → World → World * X) k sv :
      sv_loops sv l = Running (Act f k) →
      server_step ctx sv (let '(sv', x) := loop_act l E f sv in set_loop l (Running (k x)) sv')
  | sv_rest l sv : sv_loops sv l = Running (Ret ()) → server_step ctx sv (set_loop l Waiting sv)
  | sv_panic l sv : sv_loops sv l = Running Crash → server_step ctx sv (set_loop l Gone sv)
  | sv_shutdown sv :
      server_step ctx sv (MkServer (sv_world sv) (sv_log sv) (λ _, Gone) [] (sv_others sv) (sv_mcp sv) false)
  (* the command line or a bus consumer, on the same store *)
  | sv_command ctx' c sv : server_step ctx sv (set_others (sv_others sv ++ [perform ctx' c]) sv)
  | sv_other E i X (f : Env → World → World * X) k sv :
      sv_others sv !! i = Some (Act f k) →
      server_step ctx sv (set_others (<[i := k (f E (sv_world sv)).2]> (sv_others sv))
                            (set_world (elsewhere (sv_world sv) (f E (sv_world sv)).1) sv)).
Definition server_steps ctx : Server → Server → Prop := rtc (server_step ctx).
End server.

(** ** What requests and loops write *)

Section writes.
Context {P : Platform} {L : PlatformLaws P} {S : Serde} {T : Tera} {C : Crypto} {Ax : Axum}.

Lemma moves_silent {A} (p : prog A) : silent p → moves p.
Proof. intros Hp. by apply moves_quiet, silent_quiet. Qed.
Lemma moves_command_as {Er A} (core : CoreError → Er) (p : prog A) : moves p → moves (command_as core p).
Proof. intros Hp. by apply moves_try_conv, moves_catch. Qed.
Lemma moves_command {Er A B} (core : CoreError → Er) (p : prog A) (f : A → prog (res Er B)) :
  moves p → (∀ a, silent (f a)) → moves (out ←? command_as core p; f out).
Proof. intros Hp Hf. apply moves_try_bind; [by apply moves_command_as|]. intros. by apply moves_silent. Qed.
Lemma moves_input {Er A B} (m : res Er A) (f : A → prog (res Er B)) :
  (∀ a, moves (f a)) → moves (try_bind (Ret m) f).
Proof. intros Hf. by apply moves_try_bind; [constructor|]. Qed.
Lemma moves_save_customer {Er B} (conv : StoreError → Er) c (f : () → prog (res Er B)) :
  (∀ a, moves (f a)) → moves (try_bind (try_conv conv (db_try_exec (customer_save c))) f).
Proof. intros Hf. apply moves_try_bind; [|done]. apply moves_try_conv, moves_db_try_exec, tx_customer. Qed.

Hint Resolve silent_store_try silent_or_error silent_mcp_store silent_found_or silent_sink_new silent_sink_len : inv.
Ltac move_command := apply moves_command; [auto with moves|intros; constructor].
Ltac move_input := apply moves_input; intros; move_command.

Lemma moves_handle st now r : moves (handle st now r).
Proof.
  destruct r; cbn [handle]; try (apply moves_silent; silent_read; done); try move_input; try move_command.
  - apply moves_try_bind; [auto with moves|constructor].
  - apply moves_input. intros iid. cbv zeta.
    destruct (orb _ _); [by apply moves_silent, silent_send_link|].
    destruct (orb _ _).
    { apply moves_try_bind; [by apply moves_command_as, moves_send_invoice_render|]. intros out. apply moves_silent.
      unfold webhook_dispatch. apply silent_try_bind; [|constructor]. apply silent_try_bind; [constructor|].
      intros target. constructor; [intros; apply same_world_tick|constructor]. }
    destruct (String.eqb _ _); [constructor|]. move_command.
  - unfold customers_create. destruct (is_blank _); [constructor|].
    do 2 (apply moves_bind; [apply moves_quiet; solve_quiet|intros]). apply moves_save_customer. intros. constructor.
Qed.
Lemma moves_serve st now header r : moves (serve st now header r).
Proof.
  unfold serve, require_bearer. destruct (is_public r); [apply moves_handle|].
  repeat case_match; try apply moves_handle; constructor.
Qed.

Lemma moves_router st now rq : moves (router st now rq).
Proof.
  destruct (router_routed st now rq); try constructor. apply moves_try_bind; [apply moves_serve|constructor].
Qed.

Lemma moves_tool ctx t : moves (call_tool ctx t).
Proof.
  destruct t; cbn [call_tool]; try (apply moves_silent; silent_read; done); try move_input; try move_command.
  - apply moves_input. intros iid. apply moves_bind; [apply moves_silent, silent_sink_new|]. intros n.
    apply moves_command; [auto with moves|]. intros out. apply silent_bind; [apply silent_sink_len|constructor].
  - unfold tool_customer_add. apply moves_try_bind.
    { destruct (cai_customer_id _); [constructor|]. apply moves_quiet. solve_quiet. }
    intros id. apply moves_bind; [apply moves_quiet; auto with inv|]. intros now. apply moves_save_customer.
    intros. constructor.
Qed.

Lemma moves_mcp ctx rq : moves (mcp_serve ctx rq).
Proof.
  destruct rq as [| |name args| | |uri]; try constructor; cbn [mcp_serve].
  - apply moves_input. intros t. apply moves_try_bind; [apply moves_try_conv, moves_tool|constructor].
  - apply moves_try_bind; [|constructor]. apply moves_try_conv, moves_silent, silent_read_resource.
Qed.

Lemma moves_dispatch ctx op payload name : moves (Ops.dispatch ctx op payload name).
Proof.
  assert (∀ I W B (from_value : json → SR W) (into : W → res OpError I) payload (command : I → prog B) answer,
    (∀ a, moves (command a)) → moves (arm from_value into payload command answer)) as Harm.
  { intros. unfold arm. apply moves_input. intros. apply (moves_command from_core); [done|constructor]. }
  assert (∀ B (command : prog B) answer, moves command → moves (tick_arm command answer)) as Htick
    by (intros; apply (moves_command from_core); [done|constructor]).
  unfold Ops.dispatch. cbv zeta.
  repeat (destruct (String.eqb op _);
    [first [apply Harm; intros; auto with moves
           | apply Htick; auto with moves | constructor]|]).
  constructor.
Qed.
Lemma moves_frame ctx text : moves (handle_text_frame ctx text).
Proof.
  unfold handle_text_frame, handle_request. destruct (decode_frame text) as [[]| |]; try constructor.
  apply moves_bind; [|constructor]. apply moves_bind; [apply moves_dispatch|]. intros []; constructor.
Qed.

Lemma moves_request http ctx r : moves (request_task http ctx r).
Proof.
  destruct r; apply moves_bind; try constructor.
  - apply moves_router.
  - apply moves_frame.
  - apply moves_mcp.
Qed.
Lemma moves_logged_only {B} (p : prog B) : moves p → moves (logged_only p).
Proof. intros Hp. apply moves_bind; [by apply moves_catch|constructor]. Qed.
Lemma moves_loop ctx l : moves (loop_body ctx l).
Proof.
  destruct l; unfold loop_body; try (apply moves_logged_only; auto with moves).
  apply moves_bind; [apply moves_run_outbox_relay|]. intros []; constructor.
Qed.
End writes.

(** ** The running server *)

Section running.
Context {P : Platform} {L : PlatformLaws P} {S : Serde} {T : Tera} {C : Crypto} {Ax : Axum}.
Context (http : nat → string → string → string → string → HttpReply) (ctx : CoreCtx).
Notation step := (server_step http ctx).
Notation steps := (server_steps http ctx).

(** What a task in progress is about to do. *)
Definition loop_moves (s : Loop) : Prop := match s with Running p => moves p | _ => True end.
Record tasks_move (sv : Server) : Prop := {
  tm_tasks : Forall moves (sv_tasks sv);
  tm_others : Forall moves (sv_others sv);
  tm_loops l : loop_moves (sv_loops sv l);
}.
Lemma set_loop_moves l s sv : loop_moves s → tasks_move sv → tasks_move (set_loop l s sv).
Proof. intros Hs [Ht Ho Hl]. split; [done..|]. intros l'. cbn. by destruct (bool_decide _). Qed.
Lemma set_loop_same l s sv : sv_loops (set_loop l s sv) l = s.
Proof. cbn. by rw bool_decide_true. Qed.

Lemma loop_act_world {X} l E (f : Env → World → World * X) sv sv' x :
  holds f → loop_act l E f sv = (sv', x) →
  (nothing_lost (w_db (sv_world sv)) (w_db (sv_world sv')) ∧
   (schema_ok (w_db (sv_world sv)) → schema_ok (w_db (sv_world sv')))) ∧
  sv_loops sv' = sv_loops sv ∧ sv_tasks sv' = sv_tasks sv ∧ sv_others sv' = sv_others sv ∧ sv_up sv' = sv_up sv ∧
  x = (f (accepting E) (match l with OutboxLoop => set_bus (sv_log sv) (sv_world sv) | _ => sv_world sv end)).2.
Proof.
  intros Hf. unfold loop_act. destruct l; match goal with |- context [f (accepting E) ?w] =>
    pose proof (Hf (accepting E) w) as H end; destruct (f _ _) as [w y]; by intros [= <- <-].
Qed.

Lemma step_moves sv sv' :
  step sv sv' → tasks_move sv →
  tasks_move sv' ∧ nothing_lost (w_db (sv_world sv)) (w_db (sv_world sv')) ∧
  (schema_ok (w_db (sv_world sv)) → schema_ok (w_db (sv_world sv'))).
Proof.
  intros Hs Hm. destruct Hs as [sv r _ _|E i X f k sv Hi|l sv Hl|E l X f k sv Hl|l sv Hl|l sv Hl|sv|ctx' c sv|E i X f k sv Hi].
  - split; [|done]. destruct Hm as [Ht Ho Hl]. split; [|done..]. apply Forall_app_2; [done|].
    constructor; [apply moves_request|constructor].
  - destruct Hm as [Ht Ho Hl]. assert (moves (Act f k)) as [Hf Hk]%moves_inv by exact (Forall_lookup_1 _ _ _ _ Ht Hi).
    split; [split; [by apply Forall_insert|done..]|]. exact (Hf (accepting E) (sv_world sv)).
  - split; [|done]. apply set_loop_moves; [apply moves_loop|done].
  - pose proof (tm_loops _ Hm l) as Hp. rewrite -> Hl in Hp. apply moves_inv in Hp as [Hf Hk].
    destruct (loop_act l E f sv) as [sv1 x] eqn:Ea. apply loop_act_world in Ea as (Hw & El & Et & Eo & _ & _); [|done].
    split; [|done]. apply set_loop_moves; [apply Hk|]. destruct Hm. split; [by rw Et|by rw Eo|]. intros l'. by rw El.
  - split; [|done]. by apply set_loop_moves.
  - split; [|done]. by apply set_loop_moves.
  - split; [|done]. destruct Hm. by split; [constructor|..].
  - split; [|done]. destruct Hm as [Ht Ho Hl]. split; [done| |done]. apply Forall_app_2; [done|].
    constructor; [apply moves_perform|constructor].
  - destruct Hm as [Ht Ho Hl]. assert (moves (Act f k)) as [Hf Hk]%moves_inv by exact (Forall_lookup_1 _ _ _ _ Ho Hi).
    split; [split; [done|by apply Forall_insert|done]|]. exact (Hf E (sv_world sv)).
Qed.
Lemma steps_move sv sv' :
  steps sv sv' → tasks_move sv →
  tasks_move sv' ∧ nothing_lost (w_db (sv_world sv)) (w_db (sv_world sv')) ∧
  (schema_ok (w_db (sv_world sv)) → schema_ok (w_db (sv_world sv'))).
Proof.
  induction 1 as [sv|sv sv1 sv' Hs _ IH]; intros Hm; [done|].
  destruct (step_moves _ _ Hs Hm) as (H1 & K1 & S1). destruct (IH H1) as (H2 & K2 & S2).
  split; [done|]. split; [by etrans|auto].
Qed.

(** What [server_start] starts. *)
Lemma started bind m w sv :
  server_start bind m w = Ok sv →
  sv_world sv = w ∧ sv_log sv = [] ∧ sv_tasks sv = [] ∧ sv_others sv = [] ∧ sv_up sv = true ∧
  ∀ l, ∃ n, 0 ≤ n < 2 ^ 64 ∧ sv_loops sv l = spawn_loop n.
Proof.
  unfold server_start, parse_secs. intros H. inv_res. destruct (bind _); [|done].
  match goal with E : Ok _ = Ok sv |- _ => injection E as <- end. do 5 (split; [done|]).
  repeat match goal with H : parse_unsigned _ _ = Some _ |- _ => apply parse_unsigned_range in H end.
  intros []; cbn; eexists; (split; [|done]); lia.
Qed.

Lemma started_moves bind m w sv : server_start bind m w = Ok sv → tasks_move sv.
Proof.
  intros (_ & _ & Et & Eo & _ & El)%started.
  split; [rw Et; constructor|rw Eo; constructor|]. intros l. destruct (El l) as (n & _ & ->).
  unfold spawn_loop. by destruct (_ =? _).
Qed.

(** C33: the store stays sound when everything runs at the same time: from the
    start of a server on a sound store, whatever requests arrive over HTTP,
    WebSocket and MCP, however the loops run, whatever commands other processes
    run on the same store, killed anywhere or not, and however all their
    interactions interleave, up to the shutdown and after it, what the store
    guarantees by itself is kept: numbers, idempotency keys and line positions
    stay unique, every reference points to a row; customers, invoices, credit
    notes, reminders, schedules and received events may be rewritten but none is
    lost, the history rows are only appended and marked published, and a recorded
    send stays as it is.  Of the lines of an invoice this says nothing more than
    the constraints do: issuing removes and writes them in one transaction. *)
Theorem server_keeps_schema bind m w sv sv' :
  server_start bind m w = Ok sv → schema_ok (w_db w) → steps sv sv' →
  schema_ok (w_db (sv_world sv')) ∧ nothing_lost (w_db w) (w_db (sv_world sv')).
Proof.
  intros Hstart Hw Hs. pose proof (started_moves _ _ _ _ Hstart) as Hm.
  apply started in Hstart as (Ew & _). destruct (steps_move _ _ Hs Hm) as (_ & K & Hk). rewrite -> Ew in K, Hk. auto.
Qed.

(** ** The loops run on *)

(** A program that does not panic, whatever its interactions answer, does not
    throw unless [throws], and ends in a value that satisfies [Q]. *)
Inductive steady {A} (throws : bool) (Q : A → Prop) : prog A → Prop :=
  | steady_ret a : Q a → steady throws Q (Ret a)
  | steady_throw e : throws = true → steady throws Q (Throw e)
  | steady_act X (f : Env → World → World * X) k :
      (∀ E w, steady throws Q (k (f E w).2)) → steady throws Q (Act f k).
Lemma steady_inv {A} t (Q : A → Prop) p :
  steady t Q p →
  match p with
  | Ret a => Q a | Throw _ => t = true | Crash => False | Act f k => ∀ E w, steady t Q (k (f E w).2)
  end.
Proof. by destruct 1. Qed.
Lemma steady_bind {A B} t (Q : A → Prop) (R : B → Prop) p f :
  steady t Q p → (∀ a, Q a → steady t R (f a)) → steady t R (p ≫= f).
Proof. intros Hp Hf. induction Hp; cbn; [auto|by constructor|by constructor]. Qed.
Lemma steady_catch {A} (p : prog A) : steady true (λ _, True) p → steady false (λ r, r ≠ Panic) (catch p).
Proof. induction 1; cbn; by constructor. Qed.
Lemma steady_total {X} (f : Env → World → World * X) t (Q : X → Prop) :
  (∀ E w, Q (f E w).2) → steady t Q (Act f Ret).
Proof. intros H. constructor. intros E w. constructor. apply H. Qed.
Ltac steady_end := intros; first [apply steady_ret | apply steady_throw]; first [exact Logic.I | done].
Lemma steady_query {A} (f : Db → SR A) : (∀ d, f d ≠ Panic) → steady true (λ _, True) (db_query f).
Proof.
  intros Hf. constructor. intros E w. cbn. destruct (env_db_ok E _); [|cbn; steady_end].
  specialize (Hf (w_db w)). destruct (f (w_db w)); cbn; [steady_end..|done].
Qed.
Lemma steady_publish ctx' topic v at_ t : steady t (λ _, True) (try_publish ctx' topic v at_).
Proof. unfold try_publish. destruct (publisher ctx'); [by apply steady_total|steady_end]. Qed.
Lemma steady_foldM {A B} (f : B → A → prog B) b l :
  (∀ b a, steady true (λ _, True) (f b a)) → steady true (λ _, True) (prog_foldM f b l).
Proof.
  intros Hf. revert b. induction l as [|a l IH]; intros b; cbn [prog_foldM]; [steady_end|].
  eapply steady_bind; [apply Hf|auto].
Qed.
Notation answers_res := (λ r, r ≠ Panic).
Lemma steady_try_bind {Er A B} (p : prog (res Er A)) (f : A → prog (res Er B)) :
  steady false answers_res p → (∀ a, steady false answers_res (f a)) → steady false answers_res (try_bind p f).
Proof. intros Hp Hf. eapply steady_bind; [exact Hp|]. intros [a|e|] Hr; [apply Hf|steady_end|done]. Qed.
Lemma steady_try_conv {Er Er' A} (conv : Er → Er') (p : prog (res Er A)) :
  steady false answers_res p → steady false answers_res (try_conv conv p).
Proof. intros Hp. eapply steady_bind; [exact Hp|]. intros [a|e|] Hr; steady_end. Qed.
Lemma steady_try_foldM {Er A B} (f : B → A → prog (res Er B)) b l :
  (∀ b a, steady false answers_res (f b a)) → steady false answers_res (try_foldM f b l).
Proof.
  intros Hf. revert b. induction l as [|a l IH]; intros b; cbn [try_foldM]; [steady_end|].
  apply steady_try_bind; [apply Hf|auto].
Qed.

Lemma limit_offset_answers {A} limit offset (l : list A) : limit_offset limit offset l ≠ Panic.
Proof. by destruct limit, offset. Qed.

Lemma steady_overdue ctx' : steady true (λ _, True) (mark_overdue_ticker ctx').
Proof.
  unfold mark_overdue_ticker, collect_unpaid_unvoided.
  apply steady_bind with (Q := λ _, True); [by apply steady_total|]. intros now _.
  apply steady_bind with (Q := λ _, True).
  - apply steady_foldM. intros b a. apply steady_bind with (Q := λ _, True); [|steady_end].
    apply steady_query. intros d. apply limit_offset_answers.
  - intros l _. apply steady_foldM. intros b a. destruct (is_overdue a now); [|steady_end].
    eapply steady_bind; [apply steady_publish|steady_end].
Qed.
Lemma steady_relay_table t limit stats :
  (∀ d, ot_pending t limit d ≠ Panic) → steady false answers_res (relay_table t limit stats).
Proof.
  intros Hp. unfold relay_table. apply steady_try_bind.
  - apply steady_try_conv, steady_total. intros E w. cbn. destruct (env_db_ok E _); [apply Hp|done].
  - intros pending. apply steady_try_foldM. intros st row. unfold relay_row. apply steady_try_bind.
    + apply steady_try_foldM. intros st' e. unfold publish_one. apply steady_try_bind; [|steady_end].
      apply steady_try_conv, steady_total. intros E w. cbn. by destruct (env_publish_ok E _).
    + intros st'. apply steady_bind with (Q := λ _, True); [by apply steady_total|]. intros now _.
      apply steady_try_bind; [|steady_end]. apply steady_try_conv, steady_total.
      intros E w. cbn. by destruct (env_db_ok E _).
Qed.
Lemma steady_relay limit : steady false answers_res (run_outbox_relay limit).
Proof.
  unfold run_outbox_relay. apply steady_try_bind; [|intros stats]; apply steady_relay_table;
    intros d; apply limit_offset_answers.
Qed.

(** The loops whose body cannot panic. *)
Definition unfailing (l : Loop_name) : bool := match l with OutboxLoop | OverdueLoop => true | _ => false end.
Lemma steady_loop l : unfailing l = true → steady false (λ _, True) (loop_body (server_ctx ctx) l).
Proof.
  destruct l; try done; intros _; unfold loop_body, logged_only.
  - eapply steady_bind; [apply steady_relay|]. intros [a|e|] Hr; [steady_end|steady_end|done].
  - eapply steady_bind; [apply steady_catch, steady_overdue|]. steady_end.
Qed.

Definition interval_key (l : Loop_name) : string :=
  match l with
  | OutboxLoop => "outbox-interval-secs" | SchedulesLoop => "schedules-interval-secs"
  | RemindersLoop => "reminders-interval-secs" | OverdueLoop => "overdue-interval-secs"
  end.
Lemma started_loop bind m w sv l n :
  server_start bind m w = Ok sv → parse_secs m (interval_key l) = Ok n → sv_loops sv l = spawn_loop n.
Proof.
  unfold server_start. intros H Hn. inv_res. destruct (bind _); [|done].
  match goal with E : Ok _ = Ok sv |- _ => injection E as <- end. destruct l; cbn in *; congruence.
Qed.

(** A loop that is gone stays gone; one that cannot fail does not go while the
    server is up. *)
Definition loop_steady (s : Loop) : Prop :=
  match s with Waiting => True | Running p => steady false (λ _, True) p | Gone => False end.
Lemma loop_act_frame {X} l E (f : Env → World → World * X) sv :
  let '(sv', x) := loop_act l E f sv in
  sv_loops sv' = sv_loops sv ∧ sv_up sv' = sv_up sv ∧ ∃ w, x = (f (accepting E) w).2.
Proof.
  assert (∀ w, ∃ w', (f (accepting E) w).2 = (f (accepting E) w').2) as Hf by (intros w; by exists w).
  unfold loop_act. destruct l; match goal with |- context [f (accepting E) ?w] => specialize (Hf w) end;
    destruct (f _ _) as [w x]; by repeat split.
Qed.
Lemma loop_act_other {X} E l (f : Env → World → World * X) sv :
  l ≠ OutboxLoop → sv_log (loop_act l E f sv).1 = sv_log sv.
Proof. unfold loop_act. destruct l; [done|..]; by destruct (f _ _). Qed.
Lemma set_loop_other l l' s sv : l' ≠ l → sv_loops (set_loop l s sv) l' = sv_loops sv l'.
Proof. intros H. cbn. by rw bool_decide_false. Qed.
Lemma step_loop l sv sv' :
  step sv sv' →
  (sv_loops sv l = Gone → sv_loops sv' l = Gone) ∧
  (unfailing l = true → (sv_up sv = true → loop_steady (sv_loops sv l)) →
   sv_up sv' = true → loop_steady (sv_loops sv' l)).
Proof.
  intros Hs. destruct Hs as [sv r _ _|E i X f k sv Hi|l' sv Hl|E l' X f k sv Hl|l' sv Hl|l' sv Hl|sv|ctx' c sv|E i X f k sv Hi]; try done;
    try (destruct (decide (l = l')) as [<-|Hne];
      [rw set_loop_same|by rw set_loop_other]).
  - rw Hl. split; [done|]. intros Hu _ _. by apply steady_loop.
  - pose proof (loop_act_frame l' E f sv) as Hf. destruct (loop_act l' E f sv) as [sv1 x].
    destruct Hf as (El & Eu & w & ->). destruct (decide (l = l')) as [<-|Hne].
    + rw set_loop_same Hl. split; [done|]. intros _ H Hup. cbn in Hup. rewrite -> Eu in Hup.
      specialize (H Hup). cbn [loop_steady] in *. apply steady_inv in H. apply H.
    + rw set_loop_other; [done|]. rw El. split; [done|]. intros _ H Hup.
      cbn in Hup. rewrite -> Eu in Hup. auto.
  - rw Hl. by split.
  - rw Hl. split; [done|]. intros _ H Hup. specialize (H Hup). by apply steady_inv in H.
Qed.
Lemma steps_loop l sv sv' :
  steps sv sv' →
  (sv_loops sv l = Gone → sv_loops sv' l = Gone) ∧
  (unfailing l = true → (sv_up sv = true → loop_steady (sv_loops sv l)) →
   sv_up sv' = true → loop_steady (sv_loops sv' l)).
Proof.
  induction 1 as [sv|sv sv1 sv' Hs _ [IH1 IH2]]; [done|]. destruct (step_loop l _ _ Hs) as [H1 H2]. auto.
Qed.

(** A body in progress comes to its end. *)
Lemma loop_rests (E : Env) l sv p :
  sv_loops sv l = Running p → steady false (λ _, True) p →
  ∃ sv', steps sv sv' ∧ sv_loops sv' l = Waiting ∧ sv_up sv' = sv_up sv.
Proof.
  revert sv. induction p as [a|e| |X f k IH]; intros sv Hl Hp; apply steady_inv in Hp; try done.
  - destruct a. exists (set_loop l Waiting sv). split; [by apply rtc_once, sv_rest|]. by rw set_loop_same.
  - pose proof (sv_loop http ctx E l X f k sv Hl) as Hstep.
    pose proof (loop_act_frame l E f sv) as Hf. destruct (loop_act l E f sv) as [sv1 x].
    destruct Hf as (El & Eu & w & ->).
    destruct (IH (f (accepting E) w).2 (set_loop l (Running (k (f (accepting E) w).2)) sv1)) as (sv' & Hs & Hw & Hu);
      [apply set_loop_same|apply Hp|].
    exists sv'. split; [by eapply rtc_l|]. split; [done|]. by rw Hu.
Qed.

(** C35: the loops run for as long as the server does: a loop started with an
    interval of zero seconds, which the arguments admit, is gone from the start
    and for good; and the outbox and overdue loops, with any other interval, never
    die before the shutdown, whatever fails in their ticks: from wherever the
    server is, such a loop comes back to wait for its next tick. *)
Theorem loops_run_on (E : Env) bind m w sv sv' l n :
  server_start bind m w = Ok sv → parse_secs m (interval_key l) = Ok n → steps sv sv' →
  (n = 0 → sv_loops sv' l = Gone) ∧
  (n ≠ 0 → unfailing l = true → sv_up sv' = true →
   ∃ sv'', steps sv' sv'' ∧ sv_loops sv'' l = Waiting ∧ sv_up sv'' = true).
Proof.
  intros Hstart Hn Hs. pose proof (started_loop _ _ _ _ _ _ Hstart Hn) as El.
  destruct (steps_loop l _ _ Hs) as [Hg Hl]. unfold spawn_loop in El. split.
  - intros ->. by apply Hg.
  - intros Hne Hu Hup. destruct (Z.eqb_spec n 0); [done|]. specialize (Hl Hu).
    rewrite -> El in Hl. specialize (Hl (λ _, Logic.I) Hup).
    destruct (sv_loops sv' l) as [|p|] eqn:Ep; [|by destruct (loop_rests E l sv' p Ep Hl) as (s & ? & ? & Hu'); exists s; rw Hu'|done].
    exists sv'. split; [apply rtc_refl|done].
Qed.

(** A whole pass of the relay, seen from the server: its publishes are in the log. *)
Lemma outbox_runs E sv p :
  sv_loops sv OutboxLoop = Running p →
  let '(w', r) := run (accepting E) p (set_bus (sv_log sv) (sv_world sv)) in
  ∃ sv', steps sv sv' ∧ sv_loops sv' OutboxLoop = Running (ended r) ∧
    sv_world sv' = set_bus (w_bus (sv_world sv)) w' ∧ sv_log sv' = w_bus w'.
Proof.
  revert sv. induction p as [a|e| |X f k IH]; intros sv Hl; cbn [run];
    [exists sv; (split; [apply rtc_refl|]); (split; [done|]); by destruct (sv_world sv)..|].
  pose proof (sv_loop http ctx E OutboxLoop X f k sv Hl) as Hstep. cbn [loop_act] in Hstep.
  destruct (f (accepting E) _) as [w1 x]. set (sv1 := set_loop _ _ _) in Hstep.
  specialize (IH x sv1 (set_loop_same _ _ _)). cbn [sv_log sv_world sv1 set_loop w_bus set_bus] in IH.
  assert (set_bus (w_bus w1) (set_bus (w_bus (sv_world sv)) w1) = w1) as Ew by (by destruct w1).
  rewrite -> Ew in IH. destruct (run _ _ w1) as [w2 r]. destruct IH as (sv' & Hs & Hr).
  exists sv'. split; [by eapply rtc_l|done].
Qed.

(** A step of a task leaves it at another point. *)
Definition next_point {A} (q p : prog A) : Prop :=
  match p with Act f k => ∃ x, q = k x | _ => False end.
Lemma next_point_wf {A} : well_founded (@next_point A).
Proof.
  intros p. induction p as [a|e| |X f k IH]; constructor; intros q Hq; [destruct Hq..|].
  destruct Hq as [x ->]. apply IH.
Qed.
Lemma step_moves_on {A X} (f : Env → World → World * X) (k : X → prog A) x : k x ≠ Act f k.
Proof.
  assert (∀ p : prog A, ¬ next_point p p) as H.
  { intros p. induction (next_point_wf p) as [p _ IH]. intros Hp. by apply (IH p). }
  intros E. apply (H (Act f k)). exists x. by rw E.
Qed.

(** What is sure of the pass in progress. *)
Definition relay_beside (sv : Server) : Prop :=
  match sv_loops sv OutboxLoop with
  | Running p => beside (w_db (sv_world sv)) (sv_log sv) p (λ _ _ _, True)
  | _ => True
  end.
(** What a step of the outbox loop does. *)
Record only_logged (sv sv' : Server) : Prop := {
  ol_channel : w_bus (sv_world sv') = w_bus (sv_world sv);
  ol_log : sv_log sv `prefix_of` sv_log sv';
  ol_marks : noted_db (sv_log sv') (w_db (sv_world sv)) (w_db (sv_world sv'));
}.
Lemma only_logged_same sv sv' :
  sv_world sv' = sv_world sv → sv_log sv' = sv_log sv → only_logged sv sv'.
Proof. intros Ew El. split; rw ?Ew ?El; [done..|apply noted_db_refl]. Qed.
Lemma relay_beside_kept sv sv' :
  sv_loops sv' OutboxLoop = sv_loops sv OutboxLoop → sv_log sv' = sv_log sv →
  follows (w_db (sv_world sv)) (w_db (sv_world sv')) → relay_beside sv → relay_beside sv'.
Proof.
  intros El Eg Hf. unfold relay_beside. rw El Eg. destruct (sv_loops sv OutboxLoop); [done| |done].
  by apply beside_follows.
Qed.
Lemma beside_loop d log : schema_ok d → beside d log (loop_body (server_ctx ctx) OutboxLoop) (λ _ _ _, True).
Proof.
  intros Hd. unfold loop_body. eapply beside_bind; [done|apply moves_run_outbox_relay|by apply beside_relay|].
  intros d' log' [a|e|] _ _; done.
Qed.

(** Every step of the server: one of the outbox loop only logs, any other leaves
    the log alone. *)
Lemma step_relay sv sv' :
  step sv sv' → tasks_move sv → schema_ok (w_db (sv_world sv)) → relay_beside sv →
  relay_beside sv' ∧
  (sv_loops sv' OutboxLoop ≠ sv_loops sv OutboxLoop → only_logged sv sv') ∧
  (sv_loops sv' OutboxLoop = sv_loops sv OutboxLoop → sv_log sv' = sv_log sv).
Proof.
  intros Hs Hm Hd Hr. pose proof (step_moves _ _ Hs Hm) as (_ & K & Sch).
  assert (follows (w_db (sv_world sv)) (w_db (sv_world sv'))) as Hf by (split; auto). clear K Sch.
  assert (∀ l s, l ≠ OutboxLoop → sv_loops (set_loop l s sv) OutboxLoop = sv_loops sv OutboxLoop) as Hother
    by (intros; by apply set_loop_other).
  destruct Hs as [sv r _ _|E i X f k sv Hi|l sv Hl|E l X f k sv Hl|l sv Hl|l sv Hl|sv|ctx' c sv|E i X f k sv Hi];
    try (split; [by apply (relay_beside_kept sv)|done]).
  - destruct (decide (l = OutboxLoop)) as [->|Hne].
    + split; [|split; [by intros; apply only_logged_same|done]].
      unfold relay_beside. rw set_loop_same. by apply beside_loop.
    + split; [apply (relay_beside_kept sv); auto|]. rewrite -> Hother by done. done.
  - destruct (decide (l = OutboxLoop)) as [->|Hne].
    + unfold relay_beside in Hr. rewrite -> Hl in Hr. cbn [beside] in Hr.
      specialize (Hr (accepting E) (set_bus (sv_log sv) (sv_world sv)) (follows_refl _ Hd) eq_refl).
      cbn [loop_act]. destruct (f (accepting E) _) as [w1 x]. cbn [fst snd] in Hr. destruct Hr as (Hp & Hn & Hb).
      unfold relay_beside. rw set_loop_same Hl. split; [exact Hb|]. split; [by split|].
      intros [= E1]. destruct (step_moves_on f k x E1).
    + pose proof (loop_act_other E l f sv Hne) as Ho. pose proof (loop_act_frame l E f sv) as Hfr.
      destruct (loop_act l E f sv) as [sv1 x]. destruct Hfr as (El & _).
      assert (sv_loops (set_loop l (Running (k x)) sv1) OutboxLoop = sv_loops sv OutboxLoop) as Es
        by (rw set_loop_other; [done|by rw El]).
      split; [by apply (relay_beside_kept sv)|]. by rw Es.
  - destruct (decide (l = OutboxLoop)) as [->|Hne].
    + split; [unfold relay_beside; by rw set_loop_same|]. split; [by intros; apply only_logged_same|done].
    + split; [apply (relay_beside_kept sv); auto|]. rewrite -> Hother by done. done.
  - destruct (decide (l = OutboxLoop)) as [->|Hne].
    + split; [unfold relay_beside; by rw set_loop_same|]. split; [by intros; apply only_logged_same|done].
    + split; [apply (relay_beside_kept sv); auto|]. rewrite -> Hother by done. done.
  - split; [done|]. split; [by intros; apply only_logged_same|done].
Qed.
Lemma steps_relay sv sv' :
  steps sv sv' → tasks_move sv → schema_ok (w_db (sv_world sv)) → relay_beside sv →
  tasks_move sv' ∧ schema_ok (w_db (sv_world sv')) ∧ relay_beside sv'.
Proof.
  induction 1 as [sv|sv sv1 sv' Hs _ IH]; [done|]. intros Hm Hd Hr.
  destruct (step_moves _ _ Hs Hm) as (Hm1 & _ & Sch). apply IH; [done|auto|]. by eapply step_relay.
Qed.

(** A pass whose database answers, with nothing else going on. *)
Lemma outbox_pass E sv :
  schema_ok (w_db (sv_world sv)) → sv_loops sv OutboxLoop = Waiting → (∀ n, env_db_ok E n = true) →
  ∃ sv' rows, steps sv sv' ∧ sv_loops sv' OutboxLoop = Waiting ∧
    history_pending_outbox 100 (w_db (sv_world sv)) = Ok rows ∧
    Forall2 (marked invoice_outbox rows) (invoice_state_history (w_db (sv_world sv)))
      (invoice_state_history (w_db (sv_world sv'))).
Proof.
  intros Hd Hl Hdb. set (w := set_bus (sv_log sv) (sv_world sv)).
  pose proof (outbox_runs E (set_loop OutboxLoop (Running (loop_body (server_ctx ctx) OutboxLoop)) sv) _
    (set_loop_same _ _ _)) as Hrun. cbn [sv_log sv_world set_loop] in Hrun. fold w in Hrun.
  unfold loop_body in Hrun. rewrite -> run_bind in Hrun.
  destruct (wpc_run _ _ _ _ _ (wpc_relay (accepting E) 100 w (proj1 (so_history _ Hd)) (proj1 (so_cn_history _ Hd))))
    as [_ HQ].
  destruct (run (accepting E) (run_outbox_relay 100) w) as [w1 r] eqn:Er. cbn [fst snd] in HQ.
  destruct r as [[st|e|]|e|]; try done; [|by destruct HQ; split].
  destruct HQ as (rows & _ & hs & cs & Hrows & _ & _ & _ & _ & Ed & Hmark & _).
  cbn [run] in Hrun. destruct Hrun as (sv' & Hs & Hr & Ew & _). cbn [ended] in Hr.
  exists (set_loop OutboxLoop Waiting sv'), rows.
  split. { eapply rtc_l; [by apply sv_tick|]. etrans; [exact Hs|]. by apply rtc_once, sv_rest. }
  split; [apply set_loop_same|]. split; [done|]. cbn [sv_world set_loop]. rw Ew. cbn [w_db set_bus]. by rw Ed.
Qed.

End running.

(** ** Witnesses *)

#[local] Existing Instance Concrete.platform.
#[local] Existing Instance Concrete.platform_laws.
#[local] Existing Instance concrete_tera.
#[local] Existing Instance ConcreteJson.serde.
#[local] Existing Instance ConcreteCrypto.crypto.

#[local] Existing Instance fx_axum.
Definition fx_http : nat → string → string → string → string → HttpReply := λ _ _ _ _ _, Replied 200 "OK".
Definition fx_server_args : ArgMatches :=
  Leaf (list_to_map
    [("listen", ATexts ["127.0.0.1:7400"]); ("mcp", AFlag false); ("outbox-interval-secs", ATexts ["5"]);
     ("schedules-interval-secs", ATexts ["86400"]); ("reminders-interval-secs", ATexts ["0"]);
     ("overdue-interval-secs", ATexts ["+3600"])]).
Definition fx_server (w : World) : Server :=
  MkServer w [] (λ l, spawn_loop match l with
    | OutboxLoop => 5 | SchedulesLoop => 86400 | RemindersLoop => 0 | OverdueLoop => 3600 end) [] [] false true.
Lemma fx_server_starts w : accepts server_cmd fx_server_args = true ∧
  server_start (λ _, true) fx_server_args w = Ok (fx_server w).
Proof. split; reflexivity. Qed.

(** A customer is saved over HTTP. *)
(** [POST /v1/customers] *)
Definition fx_create : Request := Http 0
  (MkHttpRequest "POST" "/v1/customers" EmptyString (Some "application/json") None
     (json_to_string (JObj [("display_name", JStr "Acme"); ("address", Address_json (country_only "US"))]))).
(** The request comes in, and the command line saves a customer meanwhile. *)
Lemma server_keeps_schema_witness :
  ∃ sv', server_steps fx_http fx_ctx (fx_server empty_world) sv' ∧ schema_ok (w_db (sv_world sv')) ∧
    length (sv_tasks sv') = 1%nat ∧ size (customers (w_db (sv_world sv'))) = 1%nat.
Proof.
  assert (∃ sv', server_steps fx_http fx_ctx (fx_server empty_world) sv' ∧
    length (sv_tasks sv') = 1%nat ∧ (size (customers (w_db (sv_world sv'))) =? 1)%nat = true) as (sv' & Hs & Ht & Hc).
  { eexists. split.
    - eapply rtc_l; [by apply (sv_request fx_http fx_ctx (fx_server empty_world) fx_create)|].
      eapply rtc_l; [apply (sv_command fx_http fx_ctx fx_ctx (SaveCustomer fx_customer))|].
      apply rtc_once. by eapply (sv_other fx_http fx_ctx fx_env 0).
    - split; [done|]. vm_compute. reflexivity. }
  exists sv'. split; [exact Hs|]. split; [|split; [exact Ht|by apply Nat.eqb_eq]].
  by apply (server_keeps_schema fx_http fx_ctx (λ _, true) fx_server_args empty_world (fx_server empty_world) _
    (proj2 (fx_server_starts _)) empty_schema_ok Hs).
Defined.

Lemma loops_run_on_witness :
  sv_loops (fx_server empty_world) RemindersLoop = Gone ∧
  ∃ sv, server_steps fx_http fx_ctx (fx_server empty_world) sv ∧ sv_loops sv OverdueLoop = Waiting ∧ sv_up sv = true.
Proof.
  split.
  - by apply (loops_run_on fx_http fx_ctx fx_env (λ _, true) fx_server_args empty_world (fx_server empty_world)
      (fx_server empty_world) RemindersLoop 0 (proj2 (fx_server_starts _)) eq_refl (rtc_refl _ _)).
  - by apply (loops_run_on fx_http fx_ctx fx_env (λ _, true) fx_server_args empty_world (fx_server empty_world)
      (fx_server empty_world) OverdueLoop 3600 (proj2 (fx_server_starts _)) eq_refl (rtc_refl _ _)).
Defined.

(** The store of a sent invoice. *)
Lemma fx_schema_ok s : schema_ok (fx_db s).
Proof.
  apply db_schema_ok; [apply fx_db_ok|]. cbn. intros k1 k2 l1 l2 [<- _]%lookup_singleton_Some [<- _]%lookup_singleton_Some.
  done.
Qed.
