(* ===== verification/Startup.v ===== *)
(** * Configuration and start-up ([cli/src/lib.rs], [config.rs], [ctx.rs], [core/src/tax/table.rs])

    From the arguments, the environment and the files to the context that the
    commands run in, and on to the command or the server.  The TOML reader is a parameter; what the derived decoders
    make of a document is here.  The database of the world is the one the DSN
    names: a new one when it is in memory. *)

From S2P Require Import Prelude External Concrete Money Ids Domain InvoiceFsm Cadence Events Tax Store.
From S2P Require Import Codec ConcreteJson Rows Render Command Effects Transition Invariant Evolution World.
From S2P Require Import Fixtures Blob SignedLink Outbox Send Ops System Adapter Cli CliRun Sql.
From S2P Require Import Http Interleave Server.

(** What the process reads: its variables (those that are Unicode) and files;
    a failed read has an error text. *)
Record Os := MkOs {
  os_var : string → option string;
  os_exists : string → bool;
  os_read : string → string + string;
}.

(** [toml::from_str]: the document as [serde] sees it, a date-time as the map
    [toml] makes of it; or that the text is no TOML. *)
Class Toml := toml_document : string → option json.

(** ** Derived decoders on TOML values

    A struct takes a table, or an array with its fields in order; a unit variant
    its name, or a table from its name to an empty one. *)

Definition toml_fields (names : list string) (v : json) : SR (list (string * json)) :=
  match v with JObj ms => Ok ms | JArr l => Ok (zip names l) | _ => Err Json end.
Definition toml_variant (v : json) : SR string :=
  match v with
  | JStr s | JObj [(s, JObj [])] | JObj [(s, JArr [])] => Ok s
  | _ => Err Json
  end.

(** ** The configuration ([config.rs]) *)

Record StorageConfig := MkStorageConfig { sc_backend : string; sc_dsn : string }.
Record TaxConfig := MkTaxConfig { tc_tax_tables : string }.
Record BusConfig := MkBusConfig { bc_topics_in : list string }.
Record Config := MkConfig { cf_storage : StorageConfig; cf_tax : TaxConfig; cf_bus : BusConfig }.

Definition default_backend : string := "sqlite".
Definition default_dsn : string := "sqlite::memory:".
Definition default_tax_tables : string := "tax-tables/default.toml".
Definition StorageConfig_default : StorageConfig := MkStorageConfig default_backend default_dsn.
Definition TaxConfig_default : TaxConfig := MkTaxConfig default_tax_tables.
Definition BusConfig_default : BusConfig := MkBusConfig [].
Definition Config_default : Config := MkConfig StorageConfig_default TaxConfig_default BusConfig_default.

Inductive ConfigError := ConfigIo (path source : string) | ConfigParse (path : string).

(** [default_path] *)
Definition default_path (os : Os) : option string :=
  let set (k : string) := match os_var os k with Some v => if String.eqb v "" then None else Some v | None => None end in
  match set "XDG_CONFIG_HOME" with
  | Some xdg => Some (path_join (path_join xdg "inv") "config.toml")
  | None =>
      match set "HOME" with
      | Some home => Some (path_join (path_join (path_join home ".config") "inv") "config.toml")
      | None => None
      end
  end.

Section config.
Context {P : Platform} {S : Serde} {W : Toml}.

Definition StorageConfig_de (v : json) : SR StorageConfig :=
  ms ← toml_fields ["backend"; "dsn"] v;
  backend ← defaulted json_str default_backend "backend" ms;
  dsn ← defaulted json_str default_dsn "dsn" ms;
  Ok (MkStorageConfig backend dsn).
Definition TaxConfig_de (v : json) : SR TaxConfig :=
  ms ← toml_fields ["tax_tables"] v;
  MkTaxConfig <$> defaulted json_str default_tax_tables "tax_tables" ms.
Definition BusConfig_de (v : json) : SR BusConfig :=
  ms ← toml_fields ["topics_in"] v;
  MkBusConfig <$> defaulted (list_de json_str) [] "topics_in" ms.
Definition Config_de (v : json) : SR Config :=
  ms ← toml_fields ["storage"; "tax"; "bus"] v;
  storage ← defaulted StorageConfig_de StorageConfig_default "storage" ms;
  tax ← defaulted TaxConfig_de TaxConfig_default "tax" ms;
  bus ← defaulted BusConfig_de BusConfig_default "bus" ms;
  Ok (MkConfig storage tax bus).
(** [toml::from_str::<T>]: [None] when the text or its shape is wrong. *)
Definition from_toml {A} (de : json → SR A) (text : string) : option A :=
  v ← toml_document text; match de v with Ok a => Some a | _ => None end.

Definition Config_load (os : Os) (explicit : option string) : res ConfigError (option Config) :=
  match (match explicit with Some p => Some p | None => default_path os end) with
  | None => Ok None
  | Some path =>
      if negb (os_exists os path) then Ok None
      else match os_read os path with
           | inl source => Err (ConfigIo path source)
           | inr text => Some <$> ok_or (ConfigParse path) (from_toml Config_de text)
           end
  end.

(** ** The tax tables ([table.rs], [rate.rs], [nexus.rs]) *)

Record TaxFile := MkTaxFile { tf_rates : list TaxRate; tf_nexus : gmap string NexusThreshold }.
Inductive TaxTableError := TableIo (path source : string) | TableParse.

Definition AppliesToBuyer_de (v : json) : SR AppliesToBuyer :=
  ms ← toml_fields ["country"; "region"] v;
  country ← opt_field "country" ms;
  region ← opt_field "region" ms;
  Ok (MkAppliesToBuyer country region).
Definition TaxRate_de (v : json) : SR TaxRate :=
  ms ← toml_fields ["id"; "jurisdiction"; "applies_to_buyer"; "name"; "category"; "rate";
                    "effective_from"; "effective_to"] v;
  id ← str_field "id" ms;
  jurisdiction ← Codec.required (λ v, s ← toml_variant v; map_err (λ _, Json) (Jurisdiction.from_str s)) "jurisdiction" ms;
  applies_to_buyer ← defaulted AppliesToBuyer_de (MkAppliesToBuyer None None) "applies_to_buyer" ms;
  name ← str_field "name" ms;
  category ← defaulted (λ v, s ← toml_variant v; map_err (λ _, Json) (tax_category_from_str s)) Standard "category" ms;
  rate ← Codec.required Decimal_from_json "rate" ms;
  effective_from ← Codec.required NaiveDate_from_json "effective_from" ms;
  effective_to ← optional NaiveDate_from_json "effective_to" ms;
  Ok (MkTaxRate id jurisdiction applies_to_buyer name category rate effective_from effective_to).
(** A TOML integer read as a [u32]. *)
Definition u32_de (v : json) : SR Z :=
  match v with JInt z => if (0 <=? z) && (z <? 2 ^ 32) then Ok z else Err Json | _ => Err Json end.
Definition NexusThreshold_de (v : json) : SR NexusThreshold :=
  ms ← toml_fields ["enabled"; "revenue"; "txn_count"] v;
  enabled ← defaulted bool_de false "enabled" ms;
  revenue ← optional Decimal_from_json "revenue" ms;
  txn_count ← optional u32_de "txn_count" ms;
  Ok (MkNexusThreshold enabled revenue txn_count).
Definition TaxFile_de (v : json) : SR TaxFile :=
  ms ← toml_fields ["rate"; "nexus"] v;
  rates ← defaulted (list_de TaxRate_de) [] "rate" ms;
  nexus ← defaulted (λ v,
    match v with
    | JObj states => list_to_map <$> res_mapM (λ kv, t ← NexusThreshold_de kv.2; Ok (kv.1, t)) states
    | _ => Err Json
    end) ∅ "nexus" ms;
  Ok (MkTaxFile rates nexus).
Definition from_file (file : TaxFile) : TaxTable * NexusConfig :=
  (MkTaxTable (tf_rates file), MkNexusConfig (tf_nexus file)).
Definition load_from_str (toml_text : string) : res TaxTableError (TaxTable * NexusConfig) :=
  file ← ok_or TableParse (from_toml TaxFile_de toml_text); Ok (from_file file).
Definition load_from_file (os : Os) (path : string) : res TaxTableError (TaxTable * NexusConfig) :=
  match os_read os path with
  | inl source => Err (TableIo path source)
  | inr text => load_from_str text
  end.
End config.

(** ** The context ([ctx.rs]) and the run ([lib.rs]) *)

Example parent_file : path_parent "/etc/inv/config.toml" = Some "/etc/inv" ∧ path_parent "inv.toml" = Some EmptyString.
Proof. done. Qed.

(** [tax_table_path] *)
Definition tax_table_path (os : Os) (cfg : Config) (config_dir : option string) : string :=
  let configured :=
    let raw := tc_tax_tables (cf_tax cfg) in
    if absolute raw then raw
    else match config_dir with Some dir => path_join dir raw | None => raw end in
  match os_var os "INV_TAX_TABLES" with
  | Some env_path => if String.eqb env_path "" then configured else env_path
  | None => configured
  end.

Section run.
Context {P : Platform} {S : Serde} {T : Tera} {K : Kit} {C : Crypto} {W : Toml} {X : SqlxAny}.

Inductive AppError :=
  | BadConfig (e : ConfigError)
  | Connecting (dsn : string) (e : StoreError)
  | Migrating (dsn : string) (e : StoreError)
  | LoadingTaxTable (path : string) (e : TaxTableError)
  | Cli_ (e : CliError).

Definition build (os : Os) (f : Features) (cfg : option Config) (config_dir : option string)
    : prog (res AppError (AnyPool * CoreCtx)) :=
  let cfg := default Config_default cfg in
  let dsn := sc_dsn (cf_storage cfg) in
  pool ←? Ret (map_err (Connecting dsn) (connect f dsn));
  _ ←? try_conv (Migrating dsn) (run_migrations f pool);
  let tax_path := tax_table_path os cfg config_dir in
  tables ←? Ret (map_err (LoadingTaxTable tax_path) (load_from_file os tax_path));
  Ret (Ok (pool, CoreCtx_new tables.1 tables.2)).

Definition start (os : Os) (f : Features) (m : ArgMatches) : prog (res AppError (AnyPool * CoreCtx)) :=
  let config_path := get_one m "config" in
  cfg ←? Ret (map_err BadConfig (Config_load os config_path));
  let config_dir := p ← config_path; path_parent p in
  build os f cfg config_dir.
Definition async_run (os : Os) (f : Features) (m : ArgMatches) : prog (res AppError (CoreCtx * Dispatched)) :=
  started ←? start os f m;
  reply ←? try_conv Cli_ (cli_dispatch (os_var os "USER") started.2 m);
  Ret (Ok (started.2, reply)).

(** The process: it has come to its end, or it is a server, which waits for the
    shutdown; [bind] says which addresses can be bound. *)
Inductive Process :=
  | Exited (out : res CoreError (res AppError string))
  | Serving (ctx : CoreCtx) (sv : Server).
Definition inv_main (bind : string → bool) (os : Os) (f : Features) (m : ArgMatches) (E : Env) (w : World)
    : World * Process :=
  let '(w, out) := run E (async_run os f m) w in
  (w, match out with
      | Ok (Ok (ctx, Serve sub)) =>
          match server_start bind sub w with
          | Ok sv => Serving ctx sv
          | Err e => Exited (Ok (Err (Cli_ e)))
          | Panic => Exited Panic
          end
      | Ok (Ok (_, Printed t)) => Exited (Ok (Ok t))
      | Ok (Err e) => Exited (Ok (Err e))
      | Ok Panic | Panic => Exited Panic
      | Err e => Exited (Err e)
      end).
End run.

(** ** What is read *)

Section settings.
Context {P : Platform} {S : Serde} {W : Toml} {X : SqlxAny}.
Implicit Types (os : Os).

(** The file that is looked for: the one of [--config], or the one in the user's
    configuration directory. *)
Definition named os (explicit : option string) : option string :=
  match explicit with Some p => Some p | None => default_path os end.
(** The settings in force. *)
Inductive settings os (explicit : option string) : Config → Prop :=
  | settings_file p text doc cfg :
      named os explicit = Some p → os_exists os p = true → os_read os p = inr text →
      toml_document text = Some doc → Config_de doc = Ok cfg → settings os explicit cfg
  | settings_absent :
      (∀ p, named os explicit = Some p → os_exists os p = false) → settings os explicit Config_default.

Lemma Config_load_settings os explicit (cfg : option Config) :
  Config_load os explicit = Ok cfg → settings os explicit (default Config_default cfg).
Proof.
  unfold Config_load. intros H. destruct (match explicit with Some p => Some p | None => default_path os end) as [p|] eqn:Ep.
  2:{ injection H as <-. apply settings_absent. unfold named. rw Ep. done. }
  destruct (os_exists os p) eqn:Ee; cbn in H.
  2:{ injection H as <-. apply settings_absent. unfold named. rw Ep. by intros ? [= <-]. }
  destruct (os_read os p) as [|text] eqn:Er; [done|]. unfold from_toml in H.
  destruct (toml_document text) as [doc|] eqn:Ed; cbn in H; [|done].
  destruct (Config_de doc) as [c| |] eqn:Ec; cbn in H; try done. injection H as <-.
  by eapply settings_file.
Qed.

(** A variable goes before the configured path, whatever it is. *)
Lemma tax_tables_variable os (cfg : Config) dir p :
  os_var os "INV_TAX_TABLES" = Some p → p ≠ "" → tax_table_path os cfg dir = p.
Proof. intros E Hp. unfold tax_table_path. rw E. by destruct (String.eqb_spec p ""). Qed.
(** A relative path is taken from the directory of the [--config] file; in a
    file that was found by itself, from the working directory. *)
Lemma tax_tables_relative os (cfg : Config) dir :
  os_var os "INV_TAX_TABLES" = None → absolute (tc_tax_tables (cf_tax cfg)) = false →
  tax_table_path os cfg (Some dir) = path_join dir (tc_tax_tables (cf_tax cfg)) ∧
  tax_table_path os cfg None = tc_tax_tables (cf_tax cfg).
Proof. intros E Hr. unfold tax_table_path. by rw E Hr. Qed.
(** The DSN of the documented configuration file has no backend. *)
Lemma documented_dsn_refused f : connect f "file:./inv.sqlite" = Err (UnsupportedDsn "file:./inv.sqlite").
Proof. destruct f as [[] [] []]; reflexivity. Qed.
(** A database in memory has one connection that is kept. *)
Lemma default_connects f :
  ft_sqlite f = true → connect f default_dsn = any_connect 1 1 default_dsn.
Proof. unfold connect, backend_from_scheme. by intros ->. Qed.
End settings.

Section run.
Context {P : Platform} {L : PlatformLaws P} {S : Serde} {T : Tera} {K : Kit} {C : Crypto} {W : Toml} {X : SqlxAny}.
Implicit Types (os : Os) (f : Features) (m : ArgMatches) (E : Env) (w : World).

Lemma silent_backend_of pool : silent (backend_of pool).
Proof.
  apply silent_try_bind; [|intros; constructor].
  constructor; [intros E w; apply same_world_tick|constructor].
Qed.
Lemma silent_run_migrations f pool : silent (run_migrations f pool).
Proof.
  apply silent_try_bind; [apply silent_backend_of|]. intros []; [destruct (ft_sqlite f)|destruct (ft_postgres f)|
    destruct (ft_tidb f)]; constructor.
Qed.
Lemma silent_start os f m : silent (start os f m).
Proof.
  apply silent_try_bind; [constructor|]. intros cfg. apply silent_try_bind; [constructor|]. intros pool.
  apply silent_try_bind; [apply silent_try_conv, silent_run_migrations|]. intros ().
  apply silent_try_bind; [constructor|]. intros; constructor.
Qed.
End run.

(** ** The whole run *)

Section theorems.
Context {P : Platform} {L : PlatformLaws P} {S : Serde} {T : Tera} {K : Kit} {C : Crypto} {W : Toml} {X : SqlxAny} {Ax : Axum}.
Implicit Types (os : Os) (f : Features) (m : ArgMatches) (E : Env) (w : World).

(** The context that the settings, the connection and the tables make. *)
Definition started os f m (pool : AnyPool) (ctx : CoreCtx) : Prop :=
  ∃ cfg tables,
    settings os (get_one m "config") cfg ∧
    connect f (sc_dsn (cf_storage cfg)) = Ok pool ∧
    load_from_file os (tax_table_path os cfg (p ← get_one m "config"; path_parent p)) = Ok tables ∧
    ctx = CoreCtx_new tables.1 tables.2.

Lemma start_started os f m E w w' pool ctx :
  run E (start os f m) w = (w', Ok (Ok (pool, ctx))) → started os f m pool ctx.
Proof.
  unfold start, build. rw run_try_bind. destruct (Config_load os (get_one m "config")) as [cfg| |] eqn:Ec; try done.
  cbn [map_err run]. rw run_try_bind. set (c := default Config_default cfg).
  destruct (connect f (sc_dsn (cf_storage c))) as [pool'| |] eqn:Ep; try done.
  cbn [map_err run]. rw run_try_bind.
  destruct (run E (try_conv _ _) w) as [w1 [[[]|e|]|e|]]; try done.
  rw run_try_bind. destruct (load_from_file os _) as [tables| |] eqn:Et; try done.
  cbn. intros [= _ <- <-]. exists c, tables. split; [by apply Config_load_settings|done].
Qed.

Lemma async_run_since os f m E w n :
  world_ok w → world_ok (crash_run E n (async_run os f m) w) ∧
    evolves (w_db w) (w_db (crash_run E n (async_run os f m) w)).
Proof.
  intros Hw. apply ok_since_refl in Hw.
  assert (safe (ok_since (w_db w)) E (async_run os f m) w) as Hsafe.
  { apply safe_try_bind; [by apply since_silent; [|apply silent_start]|]. intros w1 [pool ctx] Hw1.
    apply safe_try_bind; [by apply safe_try_conv, cli_dispatch_since|done]. }
  by destruct (safe_crash_run _ E n _ w Hsafe); split.
Qed.
Lemma cli_server_line m sub : cli_server m = Some sub → subcommand m = Some ("server", sub).
Proof.
  unfold cli_server. destruct (subcommand m) as [[noun s]|]; [|done].
  destruct (String.eqb_spec noun "server") as [->|]; [|done]. by intros [= ->].
Qed.
Lemma cli_server_none m sub : cli_server m = None → subcommand m ≠ Some ("server", sub).
Proof. unfold cli_server. intros H E. by rewrite -> E in H. Qed.

(** C37: a run of [inv] is one command in the configured context, the server in
    that context, or nothing, whatever the arguments, the environment and the
    files.  The settings are those of the named file or, when there is no such
    file, the defaults; the context is made of the database of their DSN and the
    table they point to.  Either the line is [inv server], its intervals are
    numbers and its address can be bound: then the process is the server of these
    arguments in that context, it starts on the store as it was, and whatever the
    server then does the constraints of the store's schema are kept and no row
    of any table but the invoice lines is lost.  Or the run ends: then it left the store and the bus as they were,
    and anything but [show], [list] and the tax table was refused, be it at
    start-up; or it did exactly what one command does in that context and reports
    its error, and an error after a command that succeeded is the renderer's.
    And even if it was killed on the way, the books stay consistent and what was
    issued stays frozen. *)
Theorem runs_are_commands http bind os f m E w :
  (let '(w', p) := inv_main bind os f m E w in
   match p with
   | Serving ctx sv =>
       (∃ pool sub, started os f m pool ctx ∧ subcommand m = Some ("server", sub) ∧
          server_start bind sub w' = Ok sv) ∧
       same_world w w' ∧ sv_world sv = w' ∧
       (schema_ok (w_db w) → ∀ sv', server_steps http ctx sv sv' →
          schema_ok (w_db (sv_world sv')) ∧ nothing_lost (w_db w) (w_db (sv_world sv')))
   | Exited out =>
       (same_world w w' ∧ (cli_reads m = false → ∀ t, out ≠ Ok (Ok t))) ∨
       ∃ pool ctx c w0, started os f m pool ctx ∧ (∀ sub, subcommand m ≠ Some ("server", sub)) ∧
         same_world w w0 ∧ same_world (run E (perform ctx c) w0).1 w' ∧
         match (run E (perform ctx c) w0).2, out with
         | Ok _, Ok (Ok _) | Panic, Panic => True
         | Ok _, Ok (Err e') => ∃ msg, e' = Cli_ (OutputDispatch msg)
         | Err e, Ok (Err e') =>
             (∃ context, e' = Cli_ (Failed context e)) ∨
             ∃ s, e = Repo s ∧ e' = Cli_ (StoreFailed (Some "save customer") s)
         | _, _ => False
         end
   end) ∧
  (world_ok w → ∀ n, world_ok (crash_run E n (async_run os f m) w) ∧
     evolves (w_db w) (w_db (crash_run E n (async_run os f m) w))).
Proof.
  split; [|intros Hw n; by apply async_run_since].
  unfold inv_main, async_run. rw run_try_bind. pose proof (silent_run E _ w (silent_start os f m)) as Hs.
  destruct (run E (start os f m) w) as [w1 [[[pool ctx]|e|]|e|]] eqn:Es; cbn [fst] in Hs; try by left.
  apply start_started in Es. rw run_try_bind run_try_conv. cbn [snd].
  pose proof (invocations_are_commands (os_var os "USER") ctx m E w1) as [H _]. revert H.
  destruct (run E (cli_dispatch _ ctx m) w1) as [w2 out]. destruct (cli_server m) as [sub|] eqn:Em.
  - intros [-> ->]. cbn. apply cli_server_line in Em as Hsub.
    destruct (server_start bind sub w1) as [sv|e|] eqn:Esv; [|by left..].
    pose proof (started_moves _ _ _ _ Esv) as Hm. apply Server.started in Esv as Hst. destruct Hst as (Ew & _).
    split; [by exists pool, sub|]. split; [done|]. split; [done|]. intros Hd sv' Hsteps.
    destruct (steps_move http ctx _ _ Hsteps Hm) as (_ & Hn & Hk). rewrite -> Ew in Hn, Hk.
    assert (w_db w1 = w_db w) as Ed by apply Hs. rewrite -> Ed in Hn, Hk. auto.
  - intros [Hno [[Hw Hr]|(c & w0 & H0 & H1 & Hr)]].
    + assert (same_world w w2) as Hw2 by (by etrans).
      destruct out as [[[t|sub]|e|]|e|]; cbn; try (left; split; [done|]; by intros _ t').
      * left. split; [done|]. intros Hm t' [= <-]. by apply (Hr Hm t).
      * by destruct (Hno sub).
    + destruct out as [[[t|sub]|e|]|e|]; cbn; try (by destruct (Hno sub));
        (right; exists pool, ctx, c, w0; split; [done|]; split; [by intros ?; apply cli_server_none|]; split; [by etrans|];
         split; [done|]; revert Hr; destruct (run E (perform ctx c) w0).2; cbn; try done).
      * by intros [msg ->]; exists msg.
      * intros [[context ->]|(s & -> & ->)]; [left; by exists context|right; by exists s].
Qed.
End theorems.

(** ** Witness *)

#[local] Existing Instance Concrete.platform.
#[local] Existing Instance Concrete.platform_laws.
#[local] Existing Instance ConcreteJson.serde.
#[local] Existing Instance ConcreteCrypto.crypto.
#[local] Existing Instance concrete_tera.
#[local] Existing Instance concrete_kit.

Definition fx_config_text : string :=
  "storage.dsn = 'sqlite:/var/lib/inv.sqlite'
tax.tax_tables = 'tax.toml'".
Definition fx_tables_text : string :=
  "nexus.CA.txn_count = 200
[[rate]]
id = 'ca-qc-gst'
jurisdiction = 'CA-QC'
applies_to_buyer.country = 'CA'
name = 'GST'
rate = '0.05'
effective_from = '2008-01-01'".
#[local] Instance fx_toml : Toml := λ text,
  if String.eqb text fx_config_text then
    Some (JObj [("storage", JObj [("dsn", JStr "sqlite:/var/lib/inv.sqlite")]);
                ("tax", JObj [("tax_tables", JStr "tax.toml")])])
  else if String.eqb text fx_tables_text then
    Some (JObj [("nexus", JObj [("CA", JObj [("txn_count", JInt 200)])]);
                ("rate", JArr [JObj [("id", JStr "ca-qc-gst"); ("jurisdiction", JStr "CA-QC");
                                     ("applies_to_buyer", JObj [("country", JStr "CA")]); ("name", JStr "GST");
                                     ("rate", JStr "0.05"); ("effective_from", JStr "2008-01-01")]])])
  else None.
#[local] Instance fx_sqlx : SqlxAny := {|
  AnyPool := string;
  any_connect _ _ _ := Ok "SQLite";
  backend_name pool := pool;
  migrator_run _ _ := Ok ();
|}.
Definition fx_os : Os := {|
  os_var k := if String.eqb k "USER" then Some "ana" else None;
  os_exists p := String.eqb p "/etc/inv/config.toml";
  os_read p := if String.eqb p "/etc/inv/config.toml" then inr fx_config_text
               else if String.eqb p "/etc/inv/tax.toml" then inr fx_tables_text
               else inl "No such file or directory (os error 2)";
|}.
Definition fx_features : Features := MkFeatures true false false.
(** [inv --config /etc/inv/config.toml invoice void <id> --reason duplicate] *)
Definition fx_run_line : ArgMatches :=
  match fx_void_line with
  | Sub _ noun m => Sub {[ "config" := ATexts ["/etc/inv/config.toml"] ]} noun m
  | m => m
  end.

Example fx_table_loaded :
  match load_from_file fx_os "/etc/inv/tax.toml" with
  | Ok (t, n) => (tr_id <$> tt_rates t, is_some (nexus_get n "ca"))
  | _ => ([], false)
  end = (["ca-qc-gst"], true).
Proof. vm_compute. reflexivity. Qed.
Lemma fx_run_voids :
  let '(w', out) := run fx_env (async_run fx_os fx_features fx_run_line) (fx_world Sent) in
  (match out with Ok (Ok (_, Printed _)) => true | _ => false end,
   inv_state <$> invoice_get fx_invoice_id (w_db w')) = (true, Some Voided).
Proof. vm_compute. reflexivity. Qed.
(** [inv --config /etc/inv/config.toml server] *)
Definition fx_server_line : ArgMatches :=
  Sub {[ "config" := ATexts ["/etc/inv/config.toml"] ]} "server" fx_server_args.

#[local] Existing Instance fx_axum.
(** The line starts a server that keeps the store's constraints; killed while it
    starts it has done nothing wrong either. *)
Lemma runs_are_commands_witness :
  let w := fx_world Sent in
  (match (inv_main (λ _, true) fx_os fx_features fx_server_line fx_env w).2 with
   | Serving ctx sv => ∀ sv', server_steps fx_http ctx sv sv' → schema_ok (w_db (sv_world sv'))
   | Exited _ => False
   end) ∧
  world_ok (crash_run fx_env 7 (async_run fx_os fx_features fx_run_line) w).
Proof.
  intros w. split.
  - destruct (runs_are_commands fx_http (λ _, true) fx_os fx_features fx_server_line fx_env w) as [H _].
    assert (match (inv_main (λ _, true) fx_os fx_features fx_server_line fx_env w).2 with
            | Serving _ _ => true | Exited _ => false end = true) as Hserves by (vm_compute; reflexivity).
    destruct (inv_main (λ _, true) fx_os fx_features fx_server_line fx_env w) as [w' [out|ctx sv]];
      [discriminate|]. destruct H as (_ & _ & _ & H). intros sv' Hs. apply (H (fx_schema_ok Sent) sv' Hs).
  - apply (runs_are_commands fx_http (λ _, true) fx_os fx_features fx_run_line fx_env w). apply fx_world_ok.
Defined.
